(** * ABAC e-document data generator: model and verified properties

    Shallow embedding of [src/data/abac_edocument.py] (the basic variant)
    and [src/data/abac_edocument_extended.py] (the extended variant).

    - Python's global generator [random] is an explicit state [Rng] threaded
      through every stage by the monad [M]; a raised exception ([IndexError]
      of [random.choice] on an empty sequence, [KeyError] of a dict lookup,
      [ValueError] of [random.randint]/[random.sample]) is [None].
    - Objects referenced from several places (the users in [users] and in the
      lists of [users_by_department]) live in one store, the list [users];
      a reference is an index into it.
    - Sets of strings are [gset string]; sets of user objects are sets of
      references, [gset nat].
    - [datetime.now()] is a parameter [today], a day number. *)

From Stdlib Require Import QArith_base.
From stdpp Require Import gmap strings list pretty sorting.

Local Open Scope string_scope.
Local Open Scope list_scope.
Local Open Scope nat_scope.
Local Open Scope stdpp_scope.

(** ** The random source *)

(** The stream of raw draws and the number of draws consumed so far. *)
Record Rng := { oracle : nat → N; cursor : nat }.

Definition M (A : Type) : Type := Rng → option (A * Rng).

Global Instance M_ret : MRet M := λ A x r, Some (x, r).
Global Instance M_bind : MBind M := λ A B f m r,
  match m r with
  | Some (x, r') => f x r'
  | None => None
  end.

Definition raise {A} : M A := λ _, None.

(** A dict or list access that raises when the key is absent. *)
Definition lift {A} (o : option A) : M A :=
  match o with Some x => mret x | None => raise end.

Definition next_draw : M N :=
  λ r, Some (oracle r (cursor r), {| oracle := oracle r; cursor := S (cursor r) |}).

(** [random._randbelow(n)], for [n > 0]. *)
Definition randbelow (n : nat) : M nat :=
  if n is 0 then raise
  else d ← next_draw; mret (N.to_nat (d mod N.of_nat n)%N).

(** [random.choice(seq)]. *)
Definition choice {A} (l : list A) : M A :=
  i ← randbelow (length l); lift (l !! i).

(** [random.choice(seq)], also giving the position chosen: used where the
    sequence holds objects and the chosen one is referred to afterwards. *)
Definition choice_index {A} (l : list A) : M nat := randbelow (length l).

(** [random.randint(a, b)]: an integer in [a, b], both ends included. *)
Definition randint (a b : Z) : M Z :=
  if (b <? a)%Z then raise
  else d ← next_draw; mret (a + Z.of_N d mod (b - a + 1))%Z.

(** [random.random()]: a 53-bit fraction in [0, 1). *)
Definition random : M Q :=
  d ← next_draw; mret (Qmake (Z.of_N (d mod 2 ^ 53)%N) (2 ^ 53)%positive).

Definition Qltb (x y : Q) : bool :=
  (Qnum x * Z.pos (Qden y) <? Qnum y * Z.pos (Qden x))%Z.

(** [probability(p)]: [random.random() < p], the decimal literal [p] taken
    as the rational it denotes. *)
Definition probability (p : Q) : M bool := x ← random; mret (Qltb x p).

(** [random.sample(population, k)]: [k] draws without replacement, by the
    pool algorithm: the element drawn is replaced by the last live one. *)
Fixpoint sample_pool {A} (pool : list A) (k : nat) : M (list A) :=
  match k with
  | 0 => mret []
  | S k' =>
      j ← randbelow (length pool);
      x ← lift (pool !! j);
      y ← lift (last pool);
      rest ← sample_pool (take (length pool - 1) (<[j:=y]> pool)) k';
      mret (x :: rest)
  end.

Definition sample {A} (population : list A) (k : nat) : M (list A) :=
  if length population <? k then raise else sample_pool population k.

(** A [for] loop over [l] that threads the state [s]. *)
Fixpoint for_each {A S} (body : A → S → M S) (l : list A) (s : S) : M S :=
  match l with
  | [] => mret s
  | x :: l' => s' ← body x s; for_each body l' s'
  end.

(** A [for] loop that collects one result per iteration. *)
Fixpoint collect {A B} (body : A → M B) (l : list A) : M (list B) :=
  match l with
  | [] => mret []
  | x :: l' => y ← body x; ys ← collect body l'; mret (y :: ys)
  end.

(** [range(n)]. *)
Definition range (n : nat) : list nat := seq 0 n.

(** ** Entities *)

(** Each record has a last field for the attributes that only the extended
    variant has; the basic variant instantiates it with [unit]. *)

Module Organization.
Record t (X : Type) := mk {
  orgId : string;
  departments : list string;
  offices : Z;
  ext : X
}.
Arguments mk {X}.
Arguments orgId {X}.
Arguments departments {X}.
Arguments offices {X}.
Arguments ext {X}.
End Organization.

Module User.
Record t (OX X : Type) := mk {
  userId : string;
  role : string;
  organization : Organization.t OX;
  department : string;
  office : string;
  position : string;
  projects : gset string;
  supervisor : option string;
  supervisee : gset string;
  payrollingPermissions : bool;
  registered : bool;
  ext : X
}.
Arguments mk {OX X}.
Arguments userId {OX X}.
Arguments role {OX X}.
Arguments organization {OX X}.
Arguments department {OX X}.
Arguments office {OX X}.
Arguments position {OX X}.
Arguments projects {OX X}.
Arguments supervisor {OX X}.
Arguments supervisee {OX X}.
Arguments payrollingPermissions {OX X}.
Arguments registered {OX X}.
Arguments ext {OX X}.

Section Update.
Context {OX X : Type}.
Implicit Type u : t OX X.

Definition set_projects (v : gset string) u : t OX X :=
  mk (userId u) (role u) (organization u) (department u) (office u) (position u)
     v (supervisor u) (supervisee u) (payrollingPermissions u) (registered u) (ext u).
Definition set_supervisor (v : option string) u : t OX X :=
  mk (userId u) (role u) (organization u) (department u) (office u) (position u)
     (projects u) v (supervisee u) (payrollingPermissions u) (registered u) (ext u).
Definition set_supervisee (v : gset string) u : t OX X :=
  mk (userId u) (role u) (organization u) (department u) (office u) (position u)
     (projects u) (supervisor u) v (payrollingPermissions u) (registered u) (ext u).
Definition set_payrollingPermissions (v : bool) u : t OX X :=
  mk (userId u) (role u) (organization u) (department u) (office u) (position u)
     (projects u) (supervisor u) (supervisee u) v (registered u) (ext u).
Definition set_registered (v : bool) u : t OX X :=
  mk (userId u) (role u) (organization u) (department u) (office u) (position u)
     (projects u) (supervisor u) (supervisee u) (payrollingPermissions u) v (ext u).
Definition set_ext (v : X) u : t OX X :=
  mk (userId u) (role u) (organization u) (department u) (office u) (position u)
     (projects u) (supervisor u) (supervisee u) (payrollingPermissions u) (registered u) v.

(** [u.projects.add(x)] and [u.supervisee.add(x)]. *)
Definition add_project (x : string) u := set_projects ({[x]} ∪ projects u) u.
Definition add_supervisee (x : string) u := set_supervisee ({[x]} ∪ supervisee u) u.

(** The organization's id: [u.organization.orgId]. *)
Definition tenant u : string := Organization.orgId (organization u).
End Update.
End User.

Module Document.
Record t (X : Type) := mk {
  docId : string;
  docType : string;
  owner : nat;
  confidential : bool;
  containsPersonalInfo : bool;
  tenant : string;
  department : string;
  office : string;
  recipients : gset nat;
  ext : X
}.
Arguments mk {X}.
Arguments docId {X}.
Arguments docType {X}.
Arguments owner {X}.
Arguments confidential {X}.
Arguments containsPersonalInfo {X}.
Arguments tenant {X}.
Arguments department {X}.
Arguments office {X}.
Arguments recipients {X}.
Arguments ext {X}.

Section Update.
Context {X : Type}.
Implicit Type d : t X.

Definition set_recipients (v : gset nat) d : t X :=
  mk (docId d) (docType d) (owner d) (confidential d) (containsPersonalInfo d)
     (tenant d) (department d) (office d) v (ext d).
Definition set_ext (v : X) d : t X :=
  mk (docId d) (docType d) (owner d) (confidential d) (containsPersonalInfo d)
     (tenant d) (department d) (office d) (recipients d) v.
(** [d.recipients.update(refs)]. *)
Definition update_recipients (refs : list nat) d :=
  set_recipients (list_to_set refs ∪ recipients d) d.
End Update.
End Document.

(** [users_by_department]: a [defaultdict(list)] keyed by (tenant,
    department), iterated in insertion order; each list holds references. *)
Abbreviation Groups := (list ((string * string) * list nat)).

(** [users_by_role]: a [defaultdict(list)] keyed by role. *)
Abbreviation RoleIndex := (list (string * list nat)).

(** What a run holds in memory when the output is written; the basic
    variant has no [users_by_role]. *)
Record Population (OX UX DX : Type) := {
  users : list (User.t OX UX);
  users_by_department : Groups;
  users_by_role : option RoleIndex;
  documents : list (Document.t DX)
}.
Arguments users {OX UX DX}.
Arguments users_by_department {OX UX DX}.
Arguments users_by_role {OX UX DX}.
Arguments documents {OX UX DX}.

(** The state of a run after each stage of the pipeline. *)
Record Trace (OX UX DX : Type) := {
  offices_used : gmap string Z;        (* the [offices] dict of the run *)
  hierarchy : gmap string nat;         (* the [position_hierarchy] dict of the run *)
  indexed : Groups;                    (* [users_by_department] when the user loops end *)
  resolved : list (User.t OX UX);      (* [users] after the supervisor logic *)
  permitted : list (User.t OX UX);     (* [users] after the payrolling loop *)
  staffed : list (User.t OX UX);       (* [users] when the document loop runs *)
  created : list (Document.t DX);      (* [documents] when the document loop ends *)
  final : Population OX UX DX
}.
Arguments offices_used {OX UX DX}.
Arguments hierarchy {OX UX DX}.
Arguments indexed {OX UX DX}.
Arguments resolved {OX UX DX}.
Arguments permitted {OX UX DX}.
Arguments staffed {OX UX DX}.
Arguments created {OX UX DX}.
Arguments final {OX UX DX}.

(** [index[key].append(ref)] on a [defaultdict(list)]. *)
Fixpoint index_append {K} `{EqDecision K} (key : K) (ref : nat)
    (index : list (K * list nat)) : list (K * list nat) :=
  match index with
  | [] => [(key, [ref])]
  | (k, l) :: index' =>
      if decide (k = key) then (k, l ++ [ref]) :: index'
      else (k, l) :: index_append key ref index'
  end.

(** The references of the users that satisfy [p], in list order: the
    comprehension [[user for user in users if p(user)]]. *)
Definition refs_where {U} (p : U → bool) (users : list U) : list nat :=
  (filter (λ iu : nat * U, p iu.2 = true) (imap pair users)).*1.

(** [x if x else "none"] for an optional string argument. *)
Definition or_none (x : option string) : string :=
  match x with
  | Some s => if decide (s = "") then "none" else s
  | None => "none"
  end.

(** The positions that need a physical office. *)
Definition office_positions : list string := ["secretary"; "director"].

(** ** Stages shared by the two variants

    The code of these stages is the same text in both source files; the
    variants differ in the tables and in the attributes a constructor adds. *)

Section Shared.
Context {OX UX : Type}.
(** The taxonomy: module-level lists and dicts. *)
Variable tenants : list string.
Variable positions : list string.
Variable departments : gmap string (list string).
Variable offices : gmap string Z.
Variable organizations : gmap string (Organization.t OX).
Variable position_hierarchy : gmap string nat.
(** The attributes [User.__init__] adds after the common ones, from the
    role and the organization. *)
Variable user_ext : string → Organization.t OX → M UX.

Abbreviation User := (User.t OX UX).

(** [User.__init__]. *)
Definition new_user (userId role : string) (organization : Organization.t OX)
    (department office position : option string) : M User :=
  x ← user_ext role organization;
  mret (User.mk userId role organization (or_none department) (or_none office)
          (or_none position) ∅ None ∅ false false x).

(** [f"{tenant}Office{random.randint(1, offices[tenant])}" if
    offices[tenant] > 0 else "none"]. *)
Definition draw_office (tenant : string) : M string :=
  n ← lift (offices !! tenant);
  if (0 <? n)%Z then k ← randint 1 n; mret (tenant +:+ "Office" +:+ pretty k)
  else mret "none".

(** The draws of one iteration of the employee loop, up to the call of
    the constructor: tenant, position, office, department. *)
Definition draw_employee : M (string * string * string * string) :=
  tenant ← choice tenants;
  n ← lift (offices !! tenant);
  let valid_positions :=
    if (0 <? n)%Z then positions
    else filter (λ p, p ∉ office_positions) positions in
  position ← choice valid_positions;
  office ← (if (0 <? n)%Z || bool_decide (position ∈ office_positions)
            then draw_office tenant else mret "none");
  deps ← lift (departments !! tenant);
  department ← choice deps;
  mret (tenant, position, office, department).

(** One iteration of the employee loop: the user is appended to [users]
    and its reference to the list of its (tenant, department). *)
Definition gen_employee (i : nat) (st : list User * Groups) : M (list User * Groups) :=
  '(tenant, position, office, department) ← draw_employee;
  org ← lift (organizations !! tenant);
  user ← new_user ("user" +:+ pretty i) "employee" org
            (Some department) (Some office) (Some position);
  mret (st.1 ++ [user], index_append (tenant, department) (length st.1) st.2).

(** *** Supervisor logic *)

Definition rank (u : User) : nat :=
  default 0 (position_hierarchy !! User.position u).

Definition rank_at (users : list User) (ref : nat) : nat :=
  from_option rank 0 (users !! ref).

(** [list.sort(key=..., reverse=True)] is stable: elements with equal keys
    keep their order. [x] goes before the first element whose key is not
    greater. *)
Fixpoint insert_desc (key : nat → nat) (x : nat) (l : list nat) : list nat :=
  match l with
  | [] => [x]
  | y :: l' => if key x <? key y then y :: insert_desc key x l' else x :: l
  end.

Definition sort_desc (key : nat → nat) (l : list nat) : list nat :=
  foldr (insert_desc key) [] l.

(** The loop over [enumerate(dept_users)]: for [i > 0] the user at [i]
    gets the id of the user at [i - 1] as supervisor, and that one gets
    the id of the user at [i] as supervisee. [prev] is [dept_users[i-1]]. *)
Fixpoint link (prev : nat) (rest : list nat) (users : list User) : list User :=
  match rest with
  | [] => users
  | cur :: rest' =>
      let users1 :=
        alter (User.set_supervisor (User.userId <$> users !! prev)) cur users in
      let users2 :=
        match users1 !! cur with
        | Some u => alter (User.add_supervisee (User.userId u)) prev users1
        | None => users1
        end in
      link cur rest' users2
  end.

Definition link_all (dept_users : list nat) (users : list User) : list User :=
  match dept_users with
  | [] => users
  | first :: rest => link first rest users
  end.

(** The loop over [users_by_department.items()]; the lists are sorted in
    place, so the index is updated too. *)
Fixpoint resolve_hierarchy (index : Groups) (users : list User) : Groups * list User :=
  match index with
  | [] => ([], users)
  | (key, dept_users) :: index' =>
      let sorted := sort_desc (rank_at users) dept_users in
      let '(index'', users') := resolve_hierarchy index' (link_all sorted users) in
      ((key, sorted) :: index'', users')
  end.

(** *** Documents: the attributes both constructors set first *)

(** [tenant], [department] and [office] of [Document.__init__]. *)
Definition doc_core (owner : User) : M (string * string * string) :=
  let tenant := User.tenant owner in
  office ← draw_office tenant;
  mret (tenant, User.department owner, office).
End Shared.

(** A dict extended with [d[k] = f(k)] for each key of [keys], in order;
    [f] may raise. *)
Fixpoint add_entries {V} (f : string → option V) (keys : list string)
    (d : gmap string V) : option (gmap string V) :=
  match keys with
  | [] => Some d
  | k :: keys' => v ← f k; add_entries f keys' (<[k:=v]> d)
  end.

(** ** The basic variant: [abac_edocument.py] *)

Module Basic.

Record Config := { nUsers : nat; nDocuments : nat }.

(** The constants of the source. *)
Definition source_config : Config :=
  {| nUsers := 100 * 100; nDocuments := 100 * 100 |}.

Definition nHelpdeskOperators (c : Config) : nat := min 30 (nUsers c / 10).
Definition nApplicationAdmins (c : Config) : nat := min 30 (nUsers c / 10).
Definition nCustomers (c : Config) : nat := min 40 (nUsers c / 2).

Definition roles : list string := ["employee"; "manager"; "admin"; "helpdesk"; "customer"].
Definition positions : list string :=
  ["secretary"; "director"; "seniorOfficeManager"; "officeManager"; "insuranceAgent"].
Definition documentTypes : list string :=
  ["invoice"; "contract"; "paycheck"; "bankingNote"; "salesOffer"; "trafficFine"].

Definition tenants : list string :=
  ["largeBank"; "largeBankLeasing"; "newsAgency"; "europeRegion"; "londonOffice"; "reseller"].
Definition customerTenants : list string := ["carLeaser"; "ictProvider"; "privateReceiver"].

Definition get_customer_departments (tenant : string) : list string :=
  let base_departments := ["Audit"; "Secretary"; "Accounting"] in
  let base_departments :=
    if decide (tenant = "ictProvider") then base_departments ++ ["ICT"]
    else base_departments in
  (λ dept, tenant +:+ dept) <$> base_departments.

(** [departments], after the loop that adds the customer tenants. *)
Definition departments : gmap string (list string) :=
  foldl (λ d customerTenant, <[customerTenant := get_customer_departments customerTenant]> d)
    (list_to_map [
       ("largeBank", ["largeBankSales"; "largeBankICT"; "largeBankHR"; "largeBankIT"; "largeBankAudit"]);
       ("largeBankLeasing", ["largeBankLeasingCustomerCare"; "largeBankLeasingSales"]);
       ("newsAgency", ["newsAgencyAudit"; "newsAgencyIT"]);
       ("europeRegion", ["europeRegionIT"; "europeRegionHR"]);
       ("londonOffice", ["londonOfficeAudit"; "londonOfficeHR"; "londonOfficeSales"]);
       ("reseller", ["resellerSales"; "resellerCustomer"; "resellerAccounting"])])
    customerTenants.

(** [offices], after the loop that sets the customer tenants to 0. *)
Definition offices : gmap string Z :=
  foldl (λ o customerTenant, <[customerTenant := 0%Z]> o)
    (list_to_map [
       ("largeBank", 10); ("largeBankLeasing", 2); ("ictProvider", 5);
       ("newsAgency", 0); ("europeRegion", 0); ("londonOffice", 0); ("reseller", 0)]%Z)
    customerTenants.

Abbreviation Organization := (Organization.t unit).
Abbreviation User := (User.t unit unit).
Abbreviation Document := (Document.t unit).

(** [organizations]: the dict comprehension over [tenants], then the
    loop over [customerTenants] (which reads [offices.get(t, 0)]). *)
Definition organizations : option (gmap string Organization) :=
  orgs ← add_entries
    (λ tenant, d ← departments !! tenant; o ← offices !! tenant;
               Some (Organization.mk tenant d o ()))
    tenants ∅;
  add_entries
    (λ customerTenant, d ← departments !! customerTenant;
               Some (Organization.mk customerTenant d (default 0%Z (offices !! customerTenant)) ()))
    customerTenants orgs.

Definition position_hierarchy : gmap string nat :=
  list_to_map [("secretary", 1); ("officeManager", 2); ("seniorOfficeManager", 3); ("director", 4)].

(** The basic constructor adds no attribute. *)
Definition user_ext (role : string) (organization : Organization) : M unit := mret ().

Section Stages.
Variable orgs : gmap string Organization.

(** One iteration of the helpdesk and of the admin loop. *)
Definition gen_staff (prefix role : string) (i : nat) : M User :=
  tenant ← choice tenants;
  org ← lift (orgs !! tenant);
  new_user user_ext (prefix +:+ pretty i) role org None None None.

Definition gen_customer (i : nat) : M User :=
  tenant ← choice customerTenants;
  org ← lift (orgs !! tenant);
  department ← choice (get_customer_departments tenant);
  new_user user_ext ("cstmr" +:+ pretty i) "customer" org (Some department) None None.

(** [registered] is whether the user has a supervisee. *)
Definition update_registered (users : list User) : list User :=
  (λ u, User.set_registered (bool_decide (User.supervisee u ≠ ∅)) u) <$> users.

(** The body of the payrolling loop for one department list. *)
Definition assign_payrolling (dept_users : list nat) (users : list User) : M (list User) :=
  chosen ← choice dept_users;
  for_each
    (λ (ref : nat) (users : list User), b ← probability 0.5%Q;
       mret (if b : bool then alter (User.set_payrollingPermissions true) ref users
             else users))
    dept_users
    (alter (User.set_payrollingPermissions true) chosen users).

Definition get_random_users_from_tenant (users : list User) (tenant : string)
    (count : nat) : M (list nat) :=
  let tenant_users := refs_where (λ u, bool_decide (User.tenant u = tenant)) users in
  sample tenant_users (min count (length tenant_users)).

(** [Document.__init__]; [users] is the module-level list it reads. *)
Definition new_document (users : list User) (docId docType : string) (owner : nat)
    (confidential containsPersonalInfo : bool) : M Document :=
  o ← lift (users !! owner);
  '(tenant, department, office) ← doc_core offices o;
  let doc := Document.mk docId docType owner confidential containsPersonalInfo
               tenant department office ∅ () in
  doc ← (if decide (office ≠ "none")
         then mret (Document.update_recipients
                      (refs_where (λ u, bool_decide (User.office u = office)) users) doc)
         else r ← get_random_users_from_tenant users tenant 5;
              mret (Document.update_recipients r doc));
  r ← get_random_users_from_tenant users tenant 3;
  mret (Document.update_recipients r doc).

Definition gen_document (users : list User) (i : nat) (documents : list Document)
    : M (list Document) :=
  owner ← choice_index users;
  docType ← choice documentTypes;
  confidential ← probability 0.6%Q;
  containsPersonalInfo ← probability 0.2%Q;
  doc ← new_document users ("doc" +:+ pretty i) docType owner confidential containsPersonalInfo;
  mret (documents ++ [doc]).

(** [for doc in documents: doc.owner.projects.add(doc.docId)]. *)
Definition assign_projects (documents : list Document) (users : list User) : list User :=
  foldl (λ users doc, alter (User.add_project (Document.docId doc)) (Document.owner doc) users)
    users documents.
End Stages.

Definition run (c : Config) : M (Trace unit unit unit) :=
  orgs ← lift organizations;
  st ← for_each (gen_employee tenants positions departments offices orgs user_ext)
         (range (nUsers c)) ([], []);
  helpdeskOperators ← collect (gen_staff orgs "hdop" "helpdesk") (range (nHelpdeskOperators c));
  applicationAdmins ← collect (gen_staff orgs "admin" "admin") (range (nApplicationAdmins c));
  customers ← collect (gen_customer orgs) (range (nCustomers c));
  let users0 := st.1 ++ helpdeskOperators ++ applicationAdmins ++ customers in
  let res := resolve_hierarchy position_hierarchy st.2 users0 in
  let users2 := update_registered res.2 in
  users3 ← for_each (λ g, assign_payrolling g.2) res.1 users2;
  documents ← for_each (gen_document users3) (range (nDocuments c)) [];
  let users4 := assign_projects documents users3 in
  mret {| offices_used := offices; hierarchy := position_hierarchy;
          indexed := st.2; resolved := res.2;
          permitted := users3; staffed := users3; created := documents;
          final := {| users := users4; users_by_department := res.1;
                      users_by_role := None; documents := documents |} |}.

Definition generate (c : Config) : M (Population unit unit unit) :=
  t ← run c; mret (final t).

End Basic.

(** ** The extended variant: [abac_edocument_extended.py] *)

Module Extended.

Record Config := {
  nUsers : nat;
  nDocuments : nat;
  nHelpdeskOperators : nat;
  nApplicationAdmins : nat;
  nCustomers : nat;
  nProjectManagers : nat;
  nLegalOfficers : nat;
  nFinancialOfficers : nat;
  nAuditors : nat;
  nConsultants : nat;
  num_projects : nat
}.

(** The constants of the source. *)
Definition source_config : Config :=
  {| nUsers := 100 * 100; nDocuments := 100 * 100; nHelpdeskOperators := 200;
     nApplicationAdmins := 150; nCustomers := 500; nProjectManagers := 300;
     nLegalOfficers := 100; nFinancialOfficers := 150; nAuditors := 200;
     nConsultants := 250; num_projects := 1000 |}.

Definition roles : list string :=
  ["employee"; "manager"; "admin"; "helpdesk"; "customer"; "projectManager";
   "legalOfficer"; "financialOfficer"; "auditor"; "consultant"].
Definition positions : list string :=
  ["secretary"; "director"; "seniorOfficeManager"; "officeManager";
   "insuranceAgent"; "analyst"; "specialist"; "coordinator"; "lead";
   "associate"; "senior"; "principal"; "vicePresident"].
Definition documentTypes : list string :=
  ["invoice"; "contract"; "paycheck"; "bankingNote"; "salesOffer";
   "trafficFine"; "legalDocument"; "technicalSpecification";
   "financialReport"; "auditReport"; "hrDocument"; "policyDocument";
   "projectPlan"; "meetingMinutes"; "complianceReport"; "riskAssessment";
   "budgetReport"; "performanceReview"; "strategicPlan"; "marketAnalysis"].
Definition regions : list string :=
  ["NorthAmerica"; "Europe"; "Asia"; "LatinAmerica"; "Africa"].
Definition countries : gmap string (list string) :=
  list_to_map [
    ("NorthAmerica", ["USA"; "Canada"; "Mexico"]);
    ("Europe", ["UK"; "Germany"; "France"; "Netherlands"; "Spain"]);
    ("Asia", ["Japan"; "China"; "India"; "Singapore"; "SouthKorea"]);
    ("LatinAmerica", ["Brazil"; "Argentina"; "Chile"; "Colombia"]);
    ("Africa", ["SouthAfrica"; "Nigeria"; "Egypt"; "Kenya"])].
Definition securityLevels : list string :=
  ["public"; "internal"; "confidential"; "secret"; "topSecret"].
Definition customerTiers : list string := ["bronze"; "silver"; "gold"; "platinum"; "vip"].
Definition projectPhases : list string :=
  ["initiation"; "planning"; "execution"; "monitoring"; "closure"].
Definition timeZones : list string := ["UTC"; "EST"; "PST"; "GMT"; "CET"; "JST"; "IST"].

Definition tenants : list string :=
  ["largeBank"; "largeBankLeasing"; "newsAgency"; "europeRegion";
   "londonOffice"; "reseller"; "techCorp"; "pharmaceuticals";
   "energyCompany"; "retailChain"; "consultingFirm"; "lawFirm";
   "financialServices"; "healthcareSystem"; "educationInstitute"].
Definition customerTenants : list string :=
  ["carLeaser"; "ictProvider"; "privateReceiver"; "smallBusiness";
   "startupCompany"; "governmentAgency"; "nonprofit"; "mediaCompany"].

Definition get_customer_departments (tenant : string) : list string :=
  let base_departments := ["Audit"; "Secretary"; "Accounting"; "Operations"; "Marketing"] in
  let base_departments :=
    if decide (tenant = "ictProvider")
    then base_departments ++ ["ICT"; "Development"; "Support"]
    else if decide (tenant = "startupCompany")
    then base_departments ++ ["Product"; "Engineering"; "BusinessDevelopment"]
    else if decide (tenant = "governmentAgency")
    then base_departments ++ ["Policy"; "PublicRelations"; "Compliance"]
    else base_departments in
  (λ dept, tenant +:+ dept) <$> base_departments.

(** [departments], after the loop that adds the customer tenants. *)
Definition departments : gmap string (list string) :=
  foldl (λ d customerTenant, <[customerTenant := get_customer_departments customerTenant]> d)
    (list_to_map [
       ("largeBank", ["largeBankSales"; "largeBankICT"; "largeBankHR"; "largeBankIT";
                      "largeBankAudit"; "largeBankLegal"; "largeBankRisk"; "largeBankCompliance"]);
       ("largeBankLeasing", ["largeBankLeasingCustomerCare"; "largeBankLeasingSales";
                             "largeBankLeasingRisk"; "largeBankLeasingOperations"]);
       ("newsAgency", ["newsAgencyAudit"; "newsAgencyIT"; "newsAgencyEditorial";
                       "newsAgencyMarketing"; "newsAgencyLegal"]);
       ("europeRegion", ["europeRegionIT"; "europeRegionHR"; "europeRegionFinance";
                         "europeRegionStrategy"; "europeRegionCompliance"]);
       ("londonOffice", ["londonOfficeAudit"; "londonOfficeHR"; "londonOfficeSales";
                         "londonOfficeOperations"; "londonOfficeResearch"]);
       ("reseller", ["resellerSales"; "resellerCustomer"; "resellerAccounting";
                     "resellerSupport"; "resellerMarketing"]);
       ("techCorp", ["techCorpEngineering"; "techCorpProduct"; "techCorpSales";
                     "techCorpSupport"; "techCorpResearch"; "techCorpSecurity"]);
       ("pharmaceuticals", ["pharmaceuticalsResearch"; "pharmaceuticalsRegulatory";
                            "pharmaceuticalsSales"; "pharmaceuticalsManufacturing"]);
       ("energyCompany", ["energyCompanyExploration"; "energyCompanyProduction";
                          "energyCompanyRefining"; "energyCompanyTradingAudit"]);
       ("retailChain", ["retailChainOperations"; "retailChainMarketing";
                        "retailChainSupplyChain"; "retailChainFinance"]);
       ("consultingFirm", ["consultingFirmStrategy"; "consultingFirmTechnology";
                           "consultingFirmOperations"; "consultingFirmHR"]);
       ("lawFirm", ["lawFirmCorporate"; "lawFirmLitigation"; "lawFirmIntellectualProperty";
                    "lawFirmTax"; "lawFirmEmployment"]);
       ("financialServices", ["financialServicesWealth"; "financialServicesRetail";
                              "financialServicesInvestment"; "financialServicesRisk"]);
       ("healthcareSystem", ["healthcareSystemClinical"; "healthcareSystemAdministrative";
                             "healthcareSystemResearch"; "healthcareSystemIT"]);
       ("educationInstitute", ["educationInstituteAcademic"; "educationInstituteAdministrative";
                               "educationInstituteResearch"; "educationInstituteIT"])])
    customerTenants.

(** The [offices] literal. *)
Definition static_offices : gmap string Z :=
  list_to_map [
    ("largeBank", 15); ("largeBankLeasing", 5); ("ictProvider", 8);
    ("newsAgency", 6); ("europeRegion", 12); ("londonOffice", 4);
    ("reseller", 7); ("techCorp", 20); ("pharmaceuticals", 18);
    ("energyCompany", 25); ("retailChain", 50); ("consultingFirm", 10);
    ("lawFirm", 8); ("financialServices", 15); ("healthcareSystem", 12);
    ("educationInstitute", 8)]%Z.

(** [for customerTenant in customerTenants:
       offices[customerTenant] = random.randint(1, 5)]. *)
Definition draw_offices : M (gmap string Z) :=
  for_each (λ customerTenant (o : gmap string Z),
              k ← randint 1 5; mret (<[customerTenant := k]> o))
    customerTenants static_offices.

Record OrgExt := {
  org_region : string;
  org_country : string;
  foundedYear : Z;
  org_size : string;
  industry : string
}.

Abbreviation Organization := (Organization.t OrgExt).

Definition get_industry (orgId : string) : string :=
  let industry_mapping : gmap string string :=
    list_to_map [
      ("largeBank", "financial"); ("largeBankLeasing", "financial");
      ("newsAgency", "media"); ("techCorp", "technology");
      ("pharmaceuticals", "healthcare"); ("energyCompany", "energy");
      ("retailChain", "retail"); ("consultingFirm", "consulting");
      ("lawFirm", "legal"); ("financialServices", "financial");
      ("healthcareSystem", "healthcare"); ("educationInstitute", "education")] in
  default "other" (industry_mapping !! orgId).

(** [Organization.__init__]. *)
Definition new_organization (orgId : string) (departments : list string) (offices : Z)
    : M Organization :=
  region ← choice regions;
  cs ← lift (countries !! region);
  country ← choice cs;
  year ← randint 1950 2020;
  size ← choice ["small"; "medium"; "large"; "enterprise"];
  mret (Organization.mk orgId departments offices
          {| org_region := region; org_country := country; foundedYear := year;
             org_size := size; industry := get_industry orgId |}).

(** The two loops that fill [organizations]; they have the same body. *)
Definition gen_organizations (offices : gmap string Z) : M (gmap string Organization) :=
  for_each
    (λ tenant (orgs : gmap string Organization),
       d ← lift (departments !! tenant);
       o ← lift (offices !! tenant);
       org ← new_organization tenant d o;
       mret (<[tenant := org]> orgs))
    (tenants ++ customerTenants) ∅.

Record UserExt := {
  securityClearance : string;
  experience : Z;
  customerTier : string;
  region : string;
  country : string;
  city : string;
  timeZone : string;
  workingHours : string;
  temporaryAccess : gset string;
  delegatedAuthority : gset string;
  currentProjects : gset string;
  pastProjects : gset string;
  certifications : gset string;
  isActive : bool;
  lastLogin : Z;
  contractType : string;
  budgetAuthority : Z
}.

Definition set_temporaryAccess (v : gset string) (x : UserExt) : UserExt :=
  {| securityClearance := securityClearance x; experience := experience x;
     customerTier := customerTier x; region := region x; country := country x;
     city := city x; timeZone := timeZone x; workingHours := workingHours x;
     temporaryAccess := v; delegatedAuthority := delegatedAuthority x;
     currentProjects := currentProjects x; pastProjects := pastProjects x;
     certifications := certifications x; isActive := isActive x;
     lastLogin := lastLogin x; contractType := contractType x;
     budgetAuthority := budgetAuthority x |}.
Definition set_delegatedAuthority (v : gset string) (x : UserExt) : UserExt :=
  {| securityClearance := securityClearance x; experience := experience x;
     customerTier := customerTier x; region := region x; country := country x;
     city := city x; timeZone := timeZone x; workingHours := workingHours x;
     temporaryAccess := temporaryAccess x; delegatedAuthority := v;
     currentProjects := currentProjects x; pastProjects := pastProjects x;
     certifications := certifications x; isActive := isActive x;
     lastLogin := lastLogin x; contractType := contractType x;
     budgetAuthority := budgetAuthority x |}.
Definition set_currentProjects (v : gset string) (x : UserExt) : UserExt :=
  {| securityClearance := securityClearance x; experience := experience x;
     customerTier := customerTier x; region := region x; country := country x;
     city := city x; timeZone := timeZone x; workingHours := workingHours x;
     temporaryAccess := temporaryAccess x; delegatedAuthority := delegatedAuthority x;
     currentProjects := v; pastProjects := pastProjects x;
     certifications := certifications x; isActive := isActive x;
     lastLogin := lastLogin x; contractType := contractType x;
     budgetAuthority := budgetAuthority x |}.
Definition set_pastProjects (v : gset string) (x : UserExt) : UserExt :=
  {| securityClearance := securityClearance x; experience := experience x;
     customerTier := customerTier x; region := region x; country := country x;
     city := city x; timeZone := timeZone x; workingHours := workingHours x;
     temporaryAccess := temporaryAccess x; delegatedAuthority := delegatedAuthority x;
     currentProjects := currentProjects x; pastProjects := v;
     certifications := certifications x; isActive := isActive x;
     lastLogin := lastLogin x; contractType := contractType x;
     budgetAuthority := budgetAuthority x |}.
Definition set_lastLogin (v : Z) (x : UserExt) : UserExt :=
  {| securityClearance := securityClearance x; experience := experience x;
     customerTier := customerTier x; region := region x; country := country x;
     city := city x; timeZone := timeZone x; workingHours := workingHours x;
     temporaryAccess := temporaryAccess x; delegatedAuthority := delegatedAuthority x;
     currentProjects := currentProjects x; pastProjects := pastProjects x;
     certifications := certifications x; isActive := isActive x;
     lastLogin := v; contractType := contractType x;
     budgetAuthority := budgetAuthority x |}.

Abbreviation User := (User.t OrgExt UserExt).

(** [f"{n:02d}"] for [n >= 0]. *)
Definition fmt02 (n : Z) : string :=
  if (n <? 10)%Z then "0" +:+ pretty n else pretty n.

Definition get_city (country : string) : M string :=
  let city_mapping : gmap string (list string) :=
    list_to_map [
      ("USA", ["NewYork"; "LosAngeles"; "Chicago"; "Houston"; "Phoenix"]);
      ("Canada", ["Toronto"; "Vancouver"; "Montreal"; "Calgary"; "Ottawa"]);
      ("UK", ["London"; "Manchester"; "Birmingham"; "Edinburgh"; "Glasgow"]);
      ("Germany", ["Berlin"; "Munich"; "Frankfurt"; "Hamburg"; "Cologne"]);
      ("France", ["Paris"; "Lyon"; "Marseille"; "Toulouse"; "Nice"]);
      ("Japan", ["Tokyo"; "Osaka"; "Yokohama"; "Nagoya"; "Sapporo"]);
      ("China", ["Beijing"; "Shanghai"; "Guangzhou"; "Shenzhen"; "Chengdu"])] in
  choice (default ["DefaultCity"] (city_mapping !! country)).

Definition get_working_hours : M string :=
  start_hour ← randint 7 10;
  d ← randint 8 10;
  let end_hour := (start_hour + d)%Z in
  mret (fmt02 start_hour +:+ ":00-" +:+ fmt02 end_hour +:+ ":00").

Definition get_certifications : M (gset string) :=
  let all_certs := ["PMP"; "CISSP"; "CPA"; "MBA"; "PhD"; "JD"; "CFA"; "FRM"; "CISA"; "CRISC"] in
  k ← randint 0 3;
  l ← sample all_certs (Z.to_nat k);
  mret (list_to_set l).

(** A date is the number of its day; [today] is the day of
    [datetime.now()], and [strftime("%Y-%m-%d")] is left to the output. *)
Definition get_last_login (today : Z) : M Z :=
  days_ago ← randint 0 30; mret (today - days_ago)%Z.

Section Stages.
(** The day of [datetime.now()]. *)
Variable today : Z.
(** [offices] and [organizations], once drawn. *)
Variable offices : gmap string Z.
Variable orgs : gmap string Organization.

(** The attributes the extended [User.__init__] adds. *)
Definition user_ext (role : string) (organization : Organization) : M UserExt :=
  securityClearance ← choice securityLevels;
  experience ← randint 0 30;
  customerTier ← (if decide (role = "customer") then choice customerTiers else mret "none");
  let region := org_region (Organization.ext organization) in
  let country := org_country (Organization.ext organization) in
  city ← get_city country;
  timeZone ← choice timeZones;
  workingHours ← get_working_hours;
  certifications ← get_certifications;
  isActive ← probability 0.95%Q;
  lastLogin ← get_last_login today;
  contractType ← choice ["permanent"; "temporary"; "contractor"; "consultant"];
  budgetAuthority ← (if bool_decide (role ∈ ["manager"; "director"])
                     then randint 0 10000000 else mret 0%Z);
  mret {| securityClearance := securityClearance; experience := experience;
          customerTier := customerTier; region := region; country := country;
          city := city; timeZone := timeZone; workingHours := workingHours;
          temporaryAccess := ∅; delegatedAuthority := ∅; currentProjects := ∅;
          pastProjects := ∅; certifications := certifications; isActive := isActive;
          lastLogin := lastLogin; contractType := contractType;
          budgetAuthority := budgetAuthority |}.

(** The state of the user loops: [users], [users_by_department],
    [users_by_role]. *)
Abbreviation UserState := (list User * Groups * RoleIndex)%type.

(** One iteration of the employee loop. *)
Definition gen_regular_employee (i : nat) (st : UserState) : M UserState :=
  st' ← gen_employee tenants positions departments offices orgs user_ext i st.1;
  mret (st', index_append "employee" (length st.1.1) st.2).

(** One iteration of the inner loop over a specialized role, and of the
    customer loop: [pool] is [tenants] or [customerTenants]. *)
Definition gen_member (pool : list string) (prefix role : string) (i : nat)
    (st : UserState) : M UserState :=
  tenant ← choice pool;
  deps ← lift (departments !! tenant);
  department ← choice deps;
  org ← lift (orgs !! tenant);
  user ← new_user user_ext (prefix +:+ pretty i) role org (Some department) None None;
  mret (st.1.1 ++ [user], st.1.2, index_append role (length st.1.1) st.2).

Definition specialized_roles (c : Config) : list (string * string * nat) :=
  [("hdop", "helpdesk", nHelpdeskOperators c);
   ("admin", "admin", nApplicationAdmins c);
   ("pm", "projectManager", nProjectManagers c);
   ("legal", "legalOfficer", nLegalOfficers c);
   ("finance", "financialOfficer", nFinancialOfficers c);
   ("audit", "auditor", nAuditors c);
   ("cons", "consultant", nConsultants c)].

Definition gen_users (c : Config) : M UserState :=
  st ← for_each gen_regular_employee (range (nUsers c)) ([], [], []);
  st ← for_each
         (λ '(prefix, role, count) st,
            for_each (gen_member tenants prefix role) (range count) st)
         (specialized_roles c) st;
  for_each (gen_member customerTenants "cstmr" "customer") (range (nCustomers c)) st.

(** The loop that sets [registered]. *)
Definition update_registered (users : list User) : M (list User) :=
  collect
    (λ u : User,
       if bool_decide (User.supervisee u ≠ ∅)
          || bool_decide (User.role u ∈ ["manager"; "director"; "projectManager"])
       then mret (User.set_registered true u)
       else b ← probability 0.7%Q; mret (User.set_registered b u))
    users.

(** The body of the payrolling loop for one department list. *)
Definition assign_payrolling (dept_users : list nat) (users : list User) : M (list User) :=
  if decide (dept_users = []) then mret users
  else
    chosen ← choice dept_users;
    for_each
      (λ (ref : nat) (users : list User),
         u ← lift (users !! ref);
         b ← (if bool_decide (User.role u ∈ ["manager"; "admin"; "financialOfficer"])
              then mret true else probability 0.3%Q);
         mret (if b : bool then alter (User.set_payrollingPermissions true) ref users
               else users))
      dept_users
      (alter (User.set_payrollingPermissions true) chosen users).

Definition on_ext (f : UserExt → UserExt) (u : User) : User :=
  User.set_ext (f (User.ext u)) u.

(** [user.currentProjects.add(project_id); user.projects.add(project_id)]. *)
Definition join_project (project_id : string) (u : User) : User :=
  User.add_project project_id
    (on_ext (λ x, set_currentProjects ({[project_id]} ∪ currentProjects x) x) u).

(** One iteration of the project loop; the owner, the phase and the
    budget are drawn and not kept. *)
Definition gen_project (i : nat) (users : list User) : M (list User) :=
  let project_id := "proj" +:+ pretty i in
  project_owner ← choice_index users;
  project_phase ← choice projectPhases;
  project_budget ← randint 10000 10000000;
  project_team_size ← randint 3 20;
  project_team ← sample (seq 0 (length users))
                    (min (Z.to_nat project_team_size) (length users));
  mret (foldl (λ users ref, alter (join_project project_id) ref users) users project_team).

(** [count] ids [f"{prefix}{random.randint(1, bound)}"], as a set. *)
Definition draw_ids (prefix : string) (bound : Z) (count : Z) : M (gset string) :=
  for_each (λ _ (s : gset string), k ← randint 1 bound; mret ({[prefix +:+ pretty k]} ∪ s))
    (range (Z.to_nat count)) ∅.

Definition gen_past_projects (users : list User) : M (list User) :=
  collect
    (λ u : User,
       b ← probability 0.6%Q;
       if b : bool then
         past_project_count ← randint 1 5;
         ids ← draw_ids "pastProj" 500 past_project_count;
         mret (on_ext (λ x, set_pastProjects (ids ∪ pastProjects x) x) u)
       else mret u)
    users.

Definition gen_temporary_access (users : list User) : M (list User) :=
  collect
    (λ u : User,
       b ← probability 0.2%Q;
       if b : bool then
         temp_access_count ← randint 1 3;
         ids ← draw_ids "tempRes" 100 temp_access_count;
         mret (on_ext (λ x, set_temporaryAccess (ids ∪ temporaryAccess x) x) u)
       else mret u)
    users.

(** One iteration of the delegation loop, for the user at [ref]. *)
Definition position_hierarchy : gmap string nat :=
  list_to_map [("secretary", 1); ("associate", 2); ("analyst", 3); ("specialist", 4);
               ("coordinator", 5); ("officeManager", 6); ("lead", 7); ("senior", 8);
               ("seniorOfficeManager", 9); ("principal", 10); ("director", 11);
               ("vicePresident", 12)].

Definition gen_delegation (ref : nat) (users : list User) : M (list User) :=
  user ← lift (users !! ref);
  b ← (if bool_decide (User.role user ∈ ["manager"; "director"; "projectManager"])
       then probability 0.3%Q else mret false);
  if b : bool then
    let potential_delegates :=
      filter (λ r, r ≠ ref)
        (refs_where (λ u, bool_decide (User.department u = User.department user)) users) in
    if decide (potential_delegates = []) then mret users
    else
      delegate ← choice potential_delegates;
      mret (alter (on_ext (λ x, set_delegatedAuthority
                                  ({[User.userId user]} ∪ delegatedAuthority x) x))
              delegate users)
  else mret users.

Record DocExt := {
  securityLevel : string;
  createdDate : Z;
  expiryDate : option Z;
  projectId : string;
  version : string;
  size : Z;
  format : string;
  language : string;
  doc_region : string;
  doc_country : string;
  approvalStatus : string;
  reviewers : gset string;
  approvers : gset string;
  relatedDocuments : gset string;
  tags : gset string;
  complianceRequirements : gset string;
  retentionPeriod : Z;
  isArchived : bool;
  lastModified : Z;
  accessCount : Z;
  priority : string
}.

Definition set_reviewers (v : gset string) (x : DocExt) : DocExt :=
  {| securityLevel := securityLevel x; createdDate := createdDate x;
     expiryDate := expiryDate x; projectId := projectId x; version := version x;
     size := size x; format := format x; language := language x;
     doc_region := doc_region x; doc_country := doc_country x;
     approvalStatus := approvalStatus x; reviewers := v; approvers := approvers x;
     relatedDocuments := relatedDocuments x; tags := tags x;
     complianceRequirements := complianceRequirements x;
     retentionPeriod := retentionPeriod x; isArchived := isArchived x;
     lastModified := lastModified x; accessCount := accessCount x;
     priority := priority x |}.
Definition set_approvers (v : gset string) (x : DocExt) : DocExt :=
  {| securityLevel := securityLevel x; createdDate := createdDate x;
     expiryDate := expiryDate x; projectId := projectId x; version := version x;
     size := size x; format := format x; language := language x;
     doc_region := doc_region x; doc_country := doc_country x;
     approvalStatus := approvalStatus x; reviewers := reviewers x; approvers := v;
     relatedDocuments := relatedDocuments x; tags := tags x;
     complianceRequirements := complianceRequirements x;
     retentionPeriod := retentionPeriod x; isArchived := isArchived x;
     lastModified := lastModified x; accessCount := accessCount x;
     priority := priority x |}.
Definition set_relatedDocuments (v : gset string) (x : DocExt) : DocExt :=
  {| securityLevel := securityLevel x; createdDate := createdDate x;
     expiryDate := expiryDate x; projectId := projectId x; version := version x;
     size := size x; format := format x; language := language x;
     doc_region := doc_region x; doc_country := doc_country x;
     approvalStatus := approvalStatus x; reviewers := reviewers x;
     approvers := approvers x; relatedDocuments := v; tags := tags x;
     complianceRequirements := complianceRequirements x;
     retentionPeriod := retentionPeriod x; isArchived := isArchived x;
     lastModified := lastModified x; accessCount := accessCount x;
     priority := priority x |}.

Abbreviation Document := (Document.t DocExt).

Definition get_created_date : M Z :=
  days_ago ← randint 0 365; mret (today - days_ago)%Z.

Definition get_expiry_date : M (option Z) :=
  b ← probability 0.7%Q;
  if b : bool then days_ahead ← randint 30 3650; mret (Some (today + days_ahead)%Z)
  else mret None.

Definition get_project_id : M string :=
  b ← probability 0.6%Q;
  if b : bool then k ← randint 1 200; mret ("proj" +:+ pretty k) else mret "none".

Definition get_last_modified : M Z :=
  days_ago ← randint 0 60; mret (today - days_ago)%Z.

Definition get_tags : M (gset string) :=
  let all_tags := ["financial"; "legal"; "technical"; "strategic"; "operational";
                   "compliance"; "audit"; "hr"; "marketing"; "research"; "development"] in
  k ← randint 1 4;
  l ← sample all_tags (Z.to_nat k);
  mret (list_to_set l).

Definition get_compliance_requirements : M (gset string) :=
  let requirements := ["GDPR"; "HIPAA"; "SOX"; "PCI-DSS"; "ISO27001"; "NIST"; "COBIT"] in
  k ← randint 0 3;
  l ← sample requirements (Z.to_nat k);
  mret (list_to_set l).

(** The attributes the extended [Document.__init__] adds. *)
Definition doc_ext (o : User) : M DocExt :=
  securityLevel ← choice securityLevels;
  createdDate ← get_created_date;
  expiryDate ← get_expiry_date;
  projectId ← get_project_id;
  major ← randint 1 10;
  minor ← randint 0 9;
  size ← randint 1 10000;
  format ← choice ["pdf"; "docx"; "xlsx"; "txt"; "pptx"; "xml"; "json"];
  language ← choice ["en"; "es"; "fr"; "de"; "ja"; "zh"; "pt"];
  approvalStatus ← choice ["draft"; "pending"; "approved"; "rejected"; "archived"];
  tags ← get_tags;
  complianceRequirements ← get_compliance_requirements;
  retentionPeriod ← randint 1 10;
  isArchived ← probability 0.1%Q;
  lastModified ← get_last_modified;
  accessCount ← randint 0 1000;
  priority ← choice ["low"; "medium"; "high"; "critical"];
  mret {| securityLevel := securityLevel; createdDate := createdDate;
          expiryDate := expiryDate; projectId := projectId;
          version := pretty major +:+ "." +:+ pretty minor; size := size;
          format := format; language := language;
          doc_region := region (User.ext o); doc_country := country (User.ext o);
          approvalStatus := approvalStatus; reviewers := ∅; approvers := ∅;
          relatedDocuments := ∅; tags := tags;
          complianceRequirements := complianceRequirements;
          retentionPeriod := retentionPeriod; isArchived := isArchived;
          lastModified := lastModified; accessCount := accessCount;
          priority := priority |}.

(** [Document.__init__]; the recipients are set later. *)
Definition new_document (users : list User) (docId docType : string) (owner : nat)
    (confidential containsPersonalInfo : bool) : M Document :=
  o ← lift (users !! owner);
  '(tenant, department, office) ← doc_core offices o;
  x ← doc_ext o;
  mret (Document.mk docId docType owner confidential containsPersonalInfo
          tenant department office ∅ x).

Definition gen_document (users : list User) (i : nat) (documents : list Document)
    : M (list Document) :=
  owner ← choice_index users;
  docType ← choice documentTypes;
  confidential ← probability 0.4%Q;
  containsPersonalInfo ← probability 0.3%Q;
  doc ← new_document users ("doc" +:+ pretty i) docType owner confidential containsPersonalInfo;
  mret (documents ++ [doc]).

(** [Document.set_recipients(all_users)]. *)
Definition set_recipients (all_users : list User) (doc : Document) : M Document :=
  doc ← (if decide (Document.office doc ≠ "none") then
           let office_users :=
             refs_where (λ u, bool_decide (User.office u = Document.office doc)) all_users in
           if decide (office_users = []) then mret doc
           else k ← randint 1 (Z.of_nat (min 5 (length office_users)));
                mret (Document.update_recipients (take (Z.to_nat k) office_users) doc)
         else mret doc);
  let tenant_users :=
    refs_where (λ u, bool_decide (User.tenant u = Document.tenant doc)) all_users in
  doc ← (if decide (tenant_users = []) then mret doc
         else k ← randint 1 8;
              r ← sample tenant_users (min (Z.to_nat k) (length tenant_users));
              mret (Document.update_recipients r doc));
  let dept_users :=
    refs_where (λ u, bool_decide (User.department u = Document.department doc)) all_users in
  if decide (dept_users = []) then mret doc
  else k ← randint 1 5;
       r ← sample dept_users (min (Z.to_nat k) (length dept_users));
       mret (Document.update_recipients r doc).

Definition on_doc_ext (f : DocExt → DocExt) (d : Document) : Document :=
  Document.set_ext (f (Document.ext d)) d.

(** The ids of the users at [refs]: [[u.userId for u in ...]]. *)
Definition ids_of (users : list User) (refs : list nat) : list string :=
  omap (λ r, User.userId <$> users !! r) refs.

(** One iteration of the relationship loop, for the document at [i]. *)
Definition relate (i : nat) (st : list User * list Document)
    : M (list User * list Document) :=
  let '(users, documents) := st in
  doc ← lift (documents !! i);
  owner ← lift (users !! Document.owner doc);
  let users :=
    if decide (User.projects owner ≠ ∅)
    then alter (User.add_project (Document.docId doc)) (Document.owner doc) users
    else users in
  doc ← (if bool_decide (approvalStatus (Document.ext doc) ∈ ["pending"; "approved"]) then
           let potential_reviewers :=
             filter (λ r, r ≠ Document.owner doc)
               (refs_where (λ u, bool_decide (User.department u = Document.department doc))
                  users) in
           doc ← (if decide (potential_reviewers = []) then mret doc
                  else k ← randint 1 3;
                       r ← sample (ids_of users potential_reviewers)
                             (min (Z.to_nat k) (length potential_reviewers));
                       mret (on_doc_ext (set_reviewers (list_to_set r)) doc));
           let potential_approvers :=
             refs_where
               (λ u, bool_decide (User.role u ∈ ["manager"; "director"; "admin"])
                     && bool_decide (User.department u = Document.department doc))
               users in
           if decide (potential_approvers = []) then mret doc
           else k ← randint 1 2;
                r ← sample (ids_of users potential_approvers)
                      (min (Z.to_nat k) (length potential_approvers));
                mret (on_doc_ext (set_approvers (list_to_set r)) doc)
         else mret doc);
  b ← probability 0.1%Q;
  doc ← (if b : bool then
           let others :=
             (λ jd : nat * Document, Document.docId jd.2)
               <$> filter (λ jd : nat * Document, jd.1 ≠ i) (imap pair documents) in
           k ← randint 1 2;
           related_docs ← sample others (min (Z.to_nat k) (length documents - 1));
           mret (on_doc_ext (set_relatedDocuments (list_to_set related_docs)) doc)
         else mret doc);
  mret (users, <[i := doc]> documents).

Definition run_stages (c : Config) : M (Trace OrgExt UserExt DocExt) :=
  st ← gen_users c;
  let res := resolve_hierarchy position_hierarchy st.1.2 st.1.1 in
  users ← update_registered res.2;
  users3 ← for_each (λ g, assign_payrolling g.2) res.1 users;
  users ← for_each gen_project (range (num_projects c)) users3;
  users ← gen_past_projects users;
  users ← gen_temporary_access users;
  users ← for_each gen_delegation (range (length users)) users;
  docs0 ← for_each (gen_document users) (range (nDocuments c)) [];
  docs ← collect (set_recipients users) docs0;
  fin ← for_each relate (range (length docs)) (users, docs);
  mret {| offices_used := offices; hierarchy := position_hierarchy;
          indexed := st.1.2; resolved := res.2;
          permitted := users3; staffed := users; created := docs0;
          final := {| users := fin.1; users_by_department := res.1;
                      users_by_role := Some st.2; documents := fin.2 |} |}.
End Stages.

(** [offices] and [organizations], as the stages find them. *)
Definition gen_tables : M (gmap string Z * gmap string Organization) :=
  offices ← draw_offices;
  orgs ← gen_organizations offices;
  mret (offices, orgs).

Definition run (today : Z) (c : Config) : M (Trace OrgExt UserExt DocExt) :=
  tables ← gen_tables;
  run_stages today tables.1 tables.2 c.

Definition generate (today : Z) (c : Config) : M (Population OrgExt UserExt DocExt) :=
  t ← run today c; mret (final t).

End Extended.

(** * Verification *)

(** ** Reasoning about the monad *)

(** [returns m P]: whenever [m] returns a value, the value satisfies [P]. *)
Definition returns {A} (m : M A) (P : A → Prop) : Prop :=
  ∀ r x r', m r = Some (x, r') → P x.

Lemma M_bind_Some {A B} (m : M A) (f : A → M B) r y r' :
  (m ≫= f) r = Some (y, r') ↔ ∃ x r1, m r = Some (x, r1) ∧ f x r1 = Some (y, r').
Proof.
  unfold mbind, M_bind. split.
  - destruct (m r) as [[x r1]|] eqn:E; [eauto | discriminate].
  - intros (x & r1 & -> & H). exact H.
Qed.

Lemma ret_Some {A} (x y : A) r r' : (mret x : M A) r = Some (y, r') ↔ x = y ∧ r = r'.
Proof. unfold mret, M_ret. split; [by intros [= -> ->] | by intros [-> ->]]. Qed.

Lemma returns_ret {A} (x : A) (P : A → Prop) : P x → returns (mret x) P.
Proof. intros HP r y r' [<- _]%ret_Some. exact HP. Qed.

Lemma returns_bind {A B} (m : M A) (f : A → M B) (P : A → Prop) (Q : B → Prop) :
  returns m P → (∀ x, P x → returns (f x) Q) → returns (m ≫= f) Q.
Proof.
  intros Hm Hf r y r' (x & r1 & H1 & H2)%M_bind_Some.
  eapply Hf; [eapply Hm|]; eassumption.
Qed.

Lemma returns_weaken {A} (m : M A) (P Q : A → Prop) :
  returns m P → (∀ x, P x → Q x) → returns m Q.
Proof. intros Hm HPQ r x r' H. eauto. Qed.

Lemma returns_and {A} (m : M A) (P Q : A → Prop) :
  returns m P → returns m Q → returns m (λ x, P x ∧ Q x).
Proof. intros HP HQ r x r' H. split; eauto. Qed.

Lemma returns_True {A} (m : M A) : returns m (λ _, True).
Proof. by intros r x r' _. Qed.

Lemma returns_raise {A} (P : A → Prop) : returns raise P.
Proof. by intros r x r'. Qed.

Lemma returns_lift {A} (o : option A) (P : A → Prop) :
  (∀ x, o = Some x → P x) → returns (lift o) P.
Proof.
  intros H. destruct o as [x|]; [apply returns_ret; auto | apply returns_raise].
Qed.

Lemma returns_randbelow n : returns (randbelow n) (λ k, k < n).
Proof.
  destruct n as [|n]; [apply returns_raise|].
  intros r k r'. unfold randbelow. intros (d & r1 & _ & [<- _]%ret_Some)%M_bind_Some.
  assert (d `mod` N.of_nat (S n) < N.of_nat (S n))%N by (apply N.mod_lt; lia).
  lia.
Qed.

Lemma returns_choice_index {A} (l : list A) : returns (choice_index l) (λ i, i < length l).
Proof. apply returns_randbelow. Qed.

Lemma returns_choice {A} (l : list A) : returns (choice l) (λ x, x ∈ l).
Proof.
  eapply returns_bind; [apply returns_True|]. intros i _.
  apply returns_lift. intros x Hx. eapply list_elem_of_lookup_2, Hx.
Qed.

Lemma returns_randint a b : returns (randint a b) (λ k, a ≤ k ≤ b)%Z.
Proof.
  unfold randint. destruct (Z.ltb_spec b a); [apply returns_raise|].
  eapply returns_bind; [apply returns_True|]. intros d _. apply returns_ret.
  pose proof (Z.mod_pos_bound (Z.of_N d) (b - a + 1)). lia.
Qed.

Lemma returns_probability p : returns (probability p) (λ _, True).
Proof. apply returns_True. Qed.

Lemma returns_sample_pool {A} (k : nat) (pool : list A) :
  returns (sample_pool pool k) (λ s, s ⊆ pool).
Proof.
  revert pool. induction k as [|k IH]; intros pool; simpl.
  - apply returns_ret. set_solver.
  - eapply returns_bind; [apply returns_True|]. intros j _.
    eapply returns_bind; [apply returns_lift; intros x Hx; exact Hx|].
    intros x Hx; simpl in Hx.
    eapply returns_bind; [apply returns_lift; intros y Hy; exact Hy|].
    intros y Hy; simpl in Hy.
    eapply returns_bind; [apply IH|]. intros rest Hrest; simpl in Hrest.
    apply returns_ret. intros z [->|Hz]%elem_of_cons.
    + eapply list_elem_of_lookup_2, Hx.
    + apply Hrest in Hz. apply elem_of_take in Hz as (i & Hz & _).
      destruct (decide (i = j)) as [->|Hne].
      * assert (j < length pool) by (eapply lookup_lt_Some, Hx).
        rewrite list_lookup_insert_eq in Hz by done. injection Hz as <-.
        apply last_Some_elem_of in Hy. exact Hy.
      * rewrite list_lookup_insert_ne in Hz by done.
        eapply list_elem_of_lookup_2, Hz.
Qed.

Lemma returns_sample {A} (l : list A) (k : nat) :
  returns (sample l k) (λ s, s ⊆ l).
Proof.
  unfold sample. destruct (length l <? k); [apply returns_raise|].
  apply returns_sample_pool.
Qed.

(** A loop keeps what its body keeps. *)
Lemma returns_for_each {A S} (body : A → S → M S) (I : S → Prop) (l : list A) (s : S) :
  I s →
  (∀ x s, x ∈ l → I s → returns (body x s) I) →
  returns (for_each body l s) I.
Proof.
  revert s. induction l as [|x l IH]; intros s Hs Hbody; simpl.
  - by apply returns_ret.
  - eapply returns_bind; [apply Hbody; [left | done]|].
    intros s' Hs'. apply IH; [done|]. intros y s'' Hy. apply Hbody. by right.
Qed.

(** A loop over [seq a n] with an invariant that counts the iterations. *)
Lemma returns_for_each_seq {S} (body : nat → S → M S) (I : nat → S → Prop) a n (s : S) :
  I a s →
  (∀ i s, a ≤ i < a + n → I i s → returns (body i s) (I (Datatypes.S i))) →
  returns (for_each body (seq a n) s) (I (a + n)).
Proof.
  revert a s. induction n as [|n IH]; intros a s Hs Hbody; simpl.
  - apply returns_ret. by rewrite Nat.add_0_r.
  - eapply returns_bind; [apply Hbody; [lia | done]|].
    intros s' Hs'. replace (a + Datatypes.S n) with (Datatypes.S a + n) by lia.
    apply IH; [done|]. intros i s'' Hi. apply Hbody. lia.
Qed.

Lemma returns_collect {A B} (body : A → M B) (R : A → B → Prop) (l : list A) :
  (∀ x, x ∈ l → returns (body x) (R x)) →
  returns (collect body l) (Forall2 R l).
Proof.
  induction l as [|x l IH]; intros Hbody; simpl.
  - by apply returns_ret.
  - eapply returns_bind; [apply Hbody; left|]. intros y Hy.
    eapply returns_bind; [apply IH; intros z Hz; apply Hbody; by right|].
    intros ys Hys. apply returns_ret. by constructor.
Qed.

(** ** Lists, stores and indexes *)

Lemma elem_of_refs_where {U} (p : U → bool) (users : list U) i :
  i ∈ refs_where p users ↔ ∃ u, users !! i = Some u ∧ p u = true.
Proof.
  unfold refs_where. rewrite list_elem_of_fmap. split.
  - intros ([j u] & -> & [Hp Hin]%list_elem_of_filter).
    apply elem_of_lookup_imap in Hin as (k & v & [= -> ->] & Hk). eauto.
  - intros (u & Hu & Hp). exists (i, u). split; [done|].
    apply list_elem_of_filter. split; [done|].
    apply elem_of_lookup_imap. eauto.
Qed.

(** An update in place that keeps a field keeps the list of that field. *)
Lemma fmap_alter_keep {A B} (π : A → B) (f : A → A) i (l : list A) :
  (∀ x, π (f x) = π x) → π <$> alter f i l = π <$> l.
Proof.
  intros Hf. revert i. induction l as [|x l IH]; intros [|i]; simpl; [done..| |].
  - by rewrite Hf.
  - f_equal. apply IH.
Qed.

Lemma fmap_foldl_alter_keep {A B C} (π : A → B) (f : C → A → A) (g : C → nat)
    (cs : list C) (l : list A) :
  (∀ c x, π (f c x) = π x) →
  π <$> foldl (λ l c, alter (f c) (g c) l) l cs = π <$> l.
Proof.
  intros Hf. revert l. induction cs as [|c cs IH]; intros l; simpl; [done|].
  rewrite IH. by apply fmap_alter_keep.
Qed.

(** Two stores with the same list of a field agree on it at every reference. *)
Lemma fmap_eq_lookup {A B} (π : A → B) (l l' : list A) i x' :
  π <$> l' = π <$> l → l' !! i = Some x' → ∃ x, l !! i = Some x ∧ π x = π x'.
Proof.
  intros Heq Hx'.
  assert ((π <$> l) !! i = Some (π x')) as Hl
    by (rewrite <- Heq, list_lookup_fmap, Hx'; done).
  rewrite list_lookup_fmap in Hl.
  destruct (l !! i) as [x|]; [|done]. injection Hl as Hl. eauto.
Qed.

(** A field computed from a kept field is kept. *)
Lemma fmap_factor {A B C} (π : A → B) (ρ : B → C) (σ : A → C) (l l' : list A) :
  (∀ x, σ x = ρ (π x)) → π <$> l' = π <$> l → σ <$> l' = σ <$> l.
Proof.
  intros Hσ Heq.
  assert (∀ k : list A, σ <$> k = ρ <$> (π <$> k)) as Hk.
  { intros k. rewrite <- list_fmap_compose. apply list_fmap_ext. intros _ x _. apply Hσ. }
  by rewrite !Hk, Heq.
Qed.

Lemma Forall2_fmap_keep {A B} (π : A → B) (l l' : list A) :
  Forall2 (λ x y, π y = π x) l l' → π <$> l' = π <$> l.
Proof. induction 1; simpl; [done | by f_equal]. Qed.

Section Index.
Context {K : Type} `{EqDecision K}.
Implicit Types (index : list (K * list nat)) (key : K) (ref : nat).

Lemma index_append_Forall (P : K * list nat → Prop) key ref index :
  Forall P index →
  P (key, [ref]) →
  (∀ g, (key, g) ∈ index → P (key, g) → P (key, g ++ [ref])) →
  Forall P (index_append key ref index).
Proof.
  intros Hall Hnew Happ. induction index as [|[k g] index IH]; simpl.
  - by repeat constructor.
  - apply Forall_cons in Hall as [Hkg Hall].
    destruct (decide (k = key)) as [->|Hne].
    + constructor; [apply Happ; [left | done] | done].
    + constructor; [done|]. apply IH; [done|].
      intros g' Hg'. apply Happ. by right.
Qed.

Lemma index_append_join key ref index :
  mjoin (index_append key ref index).*2 ≡ₚ ref :: mjoin index.*2.
Proof.
  induction index as [|[k g] index IH]; simpl; [done|].
  destruct (decide (k = key)) as [->|Hne]; simpl.
  - rewrite <- app_assoc. simpl. by rewrite <- Permutation_middle.
  - rewrite IH. by rewrite <- Permutation_middle.
Qed.

Lemma index_append_elem key ref index :
  ∃ g, (key, g) ∈ index_append key ref index ∧ ref ∈ g.
Proof.
  induction index as [|[k g] index (g' & Hg' & Hin)]; simpl.
  - exists [ref]. split; [left | left].
  - destruct (decide (k = key)) as [->|Hne].
    + exists (g ++ [ref]). split; [left | apply elem_of_app; right; left].
    + exists g'. split; [by right | done].
Qed.

Lemma index_append_keep key ref index k g :
  (k, g) ∈ index → ∃ g', (k, g') ∈ index_append key ref index ∧ g ⊆ g'.
Proof.
  induction index as [|[k0 g0] index IH]; simpl; [by intros ?%elem_of_nil|].
  intros [[= -> ->]|Hin]%elem_of_cons.
  - destruct (decide (k0 = key)) as [->|Hne].
    + exists (g0 ++ [ref]). split; [left | set_solver].
    + exists g0. split; [left | done].
  - destruct (IH Hin) as (g' & Hg' & Hsub).
    destruct (decide (k0 = key)) as [->|Hne].
    + exists g. split; [by right | done].
    + exists g'. split; [by right | done].
Qed.
End Index.

(** ** The stable descending sort *)

(** [x] comes before [y] in [l]. *)
Definition before (l : list nat) (x y : nat) : Prop :=
  ∃ i j, l !! i = Some x ∧ l !! j = Some y ∧ i < j.

(** [x] is placed directly above [y] by the sort of [l]: both are in [l],
    and [x] has the greater key, or the same key and comes first in [l]. *)
Definition senior (key : nat → nat) (l : list nat) (x y : nat) : Prop :=
  x ∈ l ∧ y ∈ l ∧ (key y < key x ∨ (key x = key y ∧ before l x y)).

Lemma insert_desc_perm key x l : insert_desc key x l ≡ₚ x :: l.
Proof.
  induction l as [|y l IH]; simpl; [done|].
  destruct (key x <? key y); [|done]. rewrite IH. apply perm_swap.
Qed.

Lemma sort_desc_perm key l : sort_desc key l ≡ₚ l.
Proof.
  induction l as [|x l IH]; simpl; [done|].
  rewrite insert_desc_perm. by rewrite IH.
Qed.

Lemma HdRel_insert_desc (R : relation nat) key a y s :
  HdRel R y s → R y a → HdRel R y (insert_desc key a s).
Proof.
  intros Hhd Hya. destruct s as [|z s]; simpl; [by constructor|].
  destruct (key a <? key z); constructor; [|done].
  by inversion Hhd.
Qed.

Lemma insert_desc_sorted (R : relation nat) key a s :
  Sorted R s →
  (∀ y, y ∈ s → key y ≤ key a → R a y) →
  (∀ y, y ∈ s → key a < key y → R y a) →
  Sorted R (insert_desc key a s).
Proof.
  intros Hs Hle Hgt. induction Hs as [|y s Hs IH Hhd]; simpl.
  - by repeat constructor.
  - destruct (Nat.ltb_spec (key a) (key y)) as [Hlt|Hge].
    + constructor.
      * apply IH; intros z Hz; [apply Hle | apply Hgt]; by right.
      * apply HdRel_insert_desc; [done|]. apply Hgt; [left | done].
    + constructor; [by constructor|]. constructor. apply Hle; [left | done].
Qed.

Lemma before_cons a l x y : before l x y → before (a :: l) x y.
Proof. intros (i & j & Hi & Hj & Hij). exists (S i), (S j). simpl. repeat split; [done..|lia]. Qed.

Lemma before_head a l y : y ∈ l → before (a :: l) a y.
Proof.
  intros (j & Hj)%list_elem_of_lookup_1. exists 0, (S j). simpl. repeat split; [done|lia].
Qed.

Lemma senior_cons key a l x y : senior key l x y → senior key (a :: l) x y.
Proof.
  intros (Hx & Hy & Hk). repeat split; [by right..|].
  destruct Hk as [?|[? ?]]; [by left | right; split; [done | by apply before_cons]].
Qed.

Lemma Sorted_weaken {A} (R1 R2 : relation A) l :
  (∀ x y, R1 x y → R2 x y) → Sorted R1 l → Sorted R2 l.
Proof.
  intros HR. induction 1 as [|x l Hs IH Hhd]; constructor; [done|].
  destruct Hhd; constructor. by apply HR.
Qed.

(** The sort is descending and stable. *)
Lemma sort_desc_sorted key l : Sorted (senior key l) (sort_desc key l).
Proof.
  induction l as [|a l IH]; simpl; [constructor|].
  apply insert_desc_sorted.
  - eapply Sorted_weaken; [|exact IH]. intros x y. apply senior_cons.
  - intros y Hy Hle. rewrite sort_desc_perm in Hy.
    repeat split; [left | by right |].
    destruct (decide (key y = key a)) as [Heq|Hne].
    + right. split; [done | by apply before_head].
    + left. lia.
  - intros y Hy Hlt. rewrite sort_desc_perm in Hy.
    repeat split; [by right | left | by left].
Qed.

(** ** The supervisor logic *)

Section Hierarchy.
Context {OX UX : Type}.
Abbreviation UserT := (User.t OX UX).
Implicit Types (users : list UserT) (u : UserT).

(** The fields no stage changes once the user exists. *)
Definition base (u : UserT) :=
  (User.userId u, User.role u, User.organization u, User.department u,
   User.office u, User.position u).

(** The two fields the supervisor logic sets. *)
Definition links (u : UserT) := (User.supervisor u, User.supervisee u).

(** Everything but the two fields the supervisor logic sets. *)
Definition unlinked (u : UserT) :=
  (base u, User.projects u, User.payrollingPermissions u, User.registered u, User.ext u).

Definition unique_ids users : Prop := NoDup (User.userId <$> users).

(** [supervisee] is the inverse of [supervisor]. *)
Definition consistent users : Prop :=
  ∀ a b ua ub, users !! a = Some ua → users !! b = Some ub →
    (User.userId ua ∈ User.supervisee ub ↔ User.supervisor ua = Some (User.userId ub)).

Definition unsupervised (pending : list nat) users : Prop :=
  ∀ r u, r ∈ pending → users !! r = Some u → User.supervisor u = None.

(** Every supervisor is the id of a user that is [R]-related to the
    supervised one. *)
Definition justified (R : relation nat) users : Prop :=
  ∀ a ua s, users !! a = Some ua → User.supervisor ua = Some s →
    ∃ b ub, users !! b = Some ub ∧ User.userId ub = s ∧ R b a.

Definition valid users (ref : nat) : Prop := is_Some (users !! ref).

(** One iteration of the loop of [link] with [i > 0]. *)
Definition attach (prev cur : nat) users : list UserT :=
  let users1 := alter (User.set_supervisor (User.userId <$> users !! prev)) cur users in
  match users1 !! cur with
  | Some u => alter (User.add_supervisee (User.userId u)) prev users1
  | None => users1
  end.

Lemma link_cons prev cur rest users :
  link prev (cur :: rest) users = link cur rest (attach prev cur users).
Proof. reflexivity. Qed.

Lemma unique_ids_inj users a b ua ub :
  unique_ids users → users !! a = Some ua → users !! b = Some ub →
  User.userId ua = User.userId ub → a = b.
Proof.
  intros Hnd Ha Hb Heq. eapply NoDup_lookup; [exact Hnd | |].
  - rewrite list_lookup_fmap, Ha. reflexivity.
  - rewrite list_lookup_fmap, Hb. simpl. by rewrite Heq.
Qed.

Lemma attach_lookup prev cur users up uc r :
  users !! prev = Some up → users !! cur = Some uc →
  attach prev cur users !! r =
    (λ u, (if decide (r = prev) then User.add_supervisee (User.userId uc) else id)
            ((if decide (r = cur) then User.set_supervisor (Some (User.userId up)) else id) u))
      <$> users !! r.
Proof.
  intros Hp Hc. unfold attach. rewrite Hp. simpl.
  rewrite list_lookup_alter_eq, Hc. simpl.
  destruct (decide (r = prev)) as [Hpr|Hpr], (decide (r = cur)) as [Hcr|Hcr]; subst.
  - rewrite !list_lookup_alter_eq.
    destruct (users !! cur); done.
  - rewrite list_lookup_alter_eq. rewrite list_lookup_alter_ne by done.
    destruct (users !! prev); done.
  - rewrite list_lookup_alter_ne by done. rewrite list_lookup_alter_eq.
    destruct (users !! cur); done.
  - rewrite !list_lookup_alter_ne by done. destruct (users !! r); done.
Qed.

Lemma attach_keep {B} (π : UserT → B) prev cur users :
  (∀ v u, π (User.set_supervisor v u) = π u) →
  (∀ x u, π (User.add_supervisee x u) = π u) →
  π <$> attach prev cur users = π <$> users.
Proof.
  intros H1 H2. unfold attach.
  destruct (alter _ cur users !! cur).
  - rewrite (fmap_alter_keep π) by auto. by apply fmap_alter_keep.
  - by apply fmap_alter_keep.
Qed.

Lemma link_keep {B} (π : UserT → B) prev rest users :
  (∀ v u, π (User.set_supervisor v u) = π u) →
  (∀ x u, π (User.add_supervisee x u) = π u) →
  π <$> link prev rest users = π <$> users.
Proof.
  intros H1 H2. revert prev users. induction rest as [|cur rest IH]; intros prev users.
  - done.
  - rewrite link_cons, IH. by apply attach_keep.
Qed.

Lemma link_all_keep {B} (π : UserT → B) g users :
  (∀ v u, π (User.set_supervisor v u) = π u) →
  (∀ x u, π (User.add_supervisee x u) = π u) →
  π <$> link_all g users = π <$> users.
Proof. intros H1 H2. destruct g; [done | by apply link_keep]. Qed.

Lemma valid_keep {B} (π : UserT → B) users users' r :
  π <$> users' = π <$> users → valid users r → valid users' r.
Proof.
  intros Heq Hv. unfold valid in *.
  apply lookup_lt_is_Some in Hv. apply lookup_lt_is_Some.
  by rewrite <- (length_fmap π users'), Heq, length_fmap.
Qed.

Lemma attach_consistent prev cur users :
  valid users prev → valid users cur →
  unique_ids users → consistent users → unsupervised [cur] users →
  consistent (attach prev cur users).
Proof.
  intros [up Hp] [uc Hc] Hids Hcons Hfree a b ua' ub'.
  rewrite !(attach_lookup _ _ _ up uc) by done.
  destruct (users !! a) as [ua|] eqn:Ha; [|done].
  destruct (users !! b) as [ub|] eqn:Hb; [|done].
  simpl. intros [= <-] [= <-].
  assert (User.supervisor uc = None) as Hnone by (eapply Hfree; [left | done]).
  assert (∀ u' : UserT, users !! b = Some u' → User.userId uc ∉ User.supervisee u') as Hnot.
  { intros u' Hu' Hin. eapply Hcons in Hin; [|exact Hc|exact Hu']. congruence. }
  destruct (decide (a = cur)) as [->|Hac].
  - assert (ua = uc) as -> by congruence.
    assert (∀ w : UserT, User.userId
      ((if decide (cur = prev) then User.add_supervisee (User.userId uc) else id)
         (User.set_supervisor (Some (User.userId up)) w)) = User.userId w) as Hid
      by (intros w; by destruct (decide (cur = prev))).
    assert (∀ w : UserT, User.supervisor
      ((if decide (cur = prev) then User.add_supervisee (User.userId uc) else id)
         (User.set_supervisor (Some (User.userId up)) w)) = Some (User.userId up)) as Hsup
      by (intros w; by destruct (decide (cur = prev))).
    rewrite Hid, Hsup.
    destruct (decide (b = prev)) as [->|Hbp].
    + assert (ub = up) as -> by congruence.
      split; [intros _|intros _].
      * destruct (decide (prev = cur)); done.
      * destruct (decide (prev = cur)); simpl; set_solver.
    + split.
      * intros Hin. exfalso. eapply (Hnot ub); [done|].
        destruct (decide (b = cur)); simpl in Hin; exact Hin.
      * intros [= Heq]. exfalso. apply Hbp.
        eapply unique_ids_inj; [done | exact Hb | exact Hp |].
        destruct (decide (b = cur)); simpl in Heq; by rewrite Heq.
  - assert (User.userId ua ≠ User.userId uc) as Hne.
    { intros Heq. apply Hac. eapply unique_ids_inj; eauto. }
    assert (∀ w : UserT, User.userId
      ((if decide (a = prev) then User.add_supervisee (User.userId uc) else id) w)
        = User.userId w) as Hid by (intros w; by destruct (decide (a = prev))).
    assert (∀ w : UserT, User.supervisor
      ((if decide (a = prev) then User.add_supervisee (User.userId uc) else id) w)
        = User.supervisor w) as Hsup by (intros w; by destruct (decide (a = prev))).
    simpl. rewrite Hid, Hsup.
    specialize (Hcons a b ua ub Ha Hb).
    destruct (decide (b = prev)) as [->|Hbp], (decide (prev = cur)) as [Hpc|Hpc];
      try destruct (decide (b = cur)) as [Hbc|Hbc]; simpl; set_solver.
Qed.

Lemma attach_supervisor_other prev cur users r :
  r ≠ cur →
  User.supervisor <$> attach prev cur users !! r = User.supervisor <$> users !! r.
Proof.
  intros Hne. unfold attach.
  destruct (alter _ cur users !! cur) as [u|].
  - rewrite list_lookup_alter. destruct (decide (prev = r)) as [->|].
    + rewrite list_lookup_alter_ne by done. by destruct (users !! r).
    + by rewrite list_lookup_alter_ne by done.
  - by rewrite list_lookup_alter_ne by done.
Qed.

Lemma attach_unsupervised prev cur users pending :
  cur ∉ pending → unsupervised pending users →
  unsupervised pending (attach prev cur users).
Proof.
  intros Hnotin Hfree r u' Hr Hu'.
  assert (r ≠ cur) as Hne by (intros ->; done).
  pose proof (attach_supervisor_other prev cur users r Hne) as Heq.
  rewrite Hu' in Heq. simpl in Heq.
  destruct (users !! r) as [u|] eqn:Hu; [|done].
  injection Heq as ->. by eapply Hfree.
Qed.

Lemma unique_ids_keep users users' :
  User.userId <$> users' = User.userId <$> users → unique_ids users → unique_ids users'.
Proof. unfold unique_ids. by intros ->. Qed.

Lemma base_keep_ids users users' :
  base <$> users' = base <$> users → User.userId <$> users' = User.userId <$> users.
Proof.
  apply (fmap_factor base (λ b, b.1.1.1.1.1)). done.
Qed.

(** The supervisor logic makes [supervisee] the inverse of [supervisor],
    if no user of the lists has a supervisor yet. *)
Lemma link_consistent prev rest pending users :
  NoDup (rest ++ pending) → valid users prev → Forall (valid users) rest →
  unique_ids users → consistent users → unsupervised (rest ++ pending) users →
  consistent (link prev rest users) ∧ unsupervised pending (link prev rest users).
Proof.
  revert prev users. induction rest as [|cur rest IH]; intros prev users Hnd Hp Hv Hids Hc Hfree.
  - done.
  - rewrite link_cons. simpl in Hnd. apply NoDup_cons in Hnd as [Hnotin Hnd].
    apply Forall_cons in Hv as [Hcur Hv].
    assert (User.userId <$> attach prev cur users = User.userId <$> users) as Hidkeep
      by (by apply attach_keep).
    apply IH.
    + done.
    + by apply (valid_keep User.userId users).
    + eapply Forall_impl; [exact Hv|]. intros r. by apply (valid_keep User.userId).
    + by eapply unique_ids_keep.
    + apply attach_consistent; [done..|].
      intros r u [->|[]%elem_of_nil]%elem_of_cons Hu. eapply Hfree; [left | done].
    + apply attach_unsupervised; [done|].
      intros r u Hr. eapply Hfree. by right.
Qed.

Lemma link_all_consistent g pending users :
  NoDup (g ++ pending) → Forall (valid users) g →
  unique_ids users → consistent users → unsupervised (g ++ pending) users →
  consistent (link_all g users) ∧ unsupervised pending (link_all g users).
Proof.
  destruct g as [|first rest]; simpl.
  - auto.
  - intros [_ Hnd]%NoDup_cons [Hf Hv]%Forall_cons Hids Hc Hfree.
    apply link_consistent; [done..|]. intros r u Hr. apply Hfree. by right.
Qed.

Lemma attach_justified (R : relation nat) prev cur users :
  valid users prev → valid users cur → R prev cur →
  justified R users → justified R (attach prev cur users).
Proof.
  intros [up Hp] [uc Hc] HR Hj a ua' s.
  rewrite (attach_lookup _ _ _ up uc) by done.
  destruct (users !! a) as [ua|] eqn:Ha; [|done]. simpl. intros [= <-] Hs.
  assert (∀ b ub, users !! b = Some ub →
    ∃ ub', attach prev cur users !! b = Some ub' ∧ User.userId ub' = User.userId ub) as Hpersist.
  { intros b ub Hb. rewrite (attach_lookup _ _ _ up uc), Hb by done. simpl.
    eexists. split; [done|]. by destruct (decide (b = prev)), (decide (b = cur)). }
  destruct (decide (a = cur)) as [->|Hac].
  - assert (s = User.userId up) as ->.
    { destruct (decide (cur = prev)); simpl in Hs; congruence. }
    destruct (Hpersist prev up Hp) as (ub' & Hub' & Hid). eauto.
  - assert (User.supervisor ua = Some s) as Hs'.
    { destruct (decide (a = prev)); simpl in Hs; exact Hs. }
    destruct (Hj a ua s Ha Hs') as (b & ub & Hb & Hid & HRb).
    destruct (Hpersist b ub Hb) as (ub' & Hub' & Hid'). exists b, ub'.
    split; [done|]. split; [congruence | done].
Qed.

Lemma link_justified (R : relation nat) prev rest users :
  Sorted R (prev :: rest) → Forall (valid users) (prev :: rest) →
  justified R users → justified R (link prev rest users).
Proof.
  revert prev users. induction rest as [|cur rest IH]; intros prev users Hs Hv Hj.
  - done.
  - rewrite link_cons.
    apply Sorted_inv in Hs as [Hs Hhd]. apply HdRel_inv in Hhd.
    apply Forall_cons in Hv as [Hp Hv]. pose proof Hv as [Hcur _]%Forall_cons.
    apply IH; [done| |by apply attach_justified].
    eapply Forall_impl; [exact Hv|]. intros r.
    apply (valid_keep User.userId). by apply attach_keep.
Qed.

Lemma link_all_justified (R : relation nat) g users :
  Sorted R g → Forall (valid users) g →
  justified R users → justified R (link_all g users).
Proof. destruct g; simpl; [done | apply link_justified]. Qed.

Section Resolve.
Variable position_hierarchy : gmap string nat.

Lemma rank_at_keep users users' r :
  base <$> users' = base <$> users →
  rank_at position_hierarchy users' r = rank_at position_hierarchy users r.
Proof.
  intros Heq. unfold rank_at.
  destruct (users' !! r) as [u'|] eqn:Hu'.
  - destruct (fmap_eq_lookup base users users' r u' Heq Hu') as (u & -> & Hb).
    simpl. unfold rank. by injection Hb as _ _ _ _ _ ->.
  - apply lookup_ge_None in Hu'.
    rewrite <- (length_fmap base), Heq, length_fmap in Hu'.
    apply lookup_ge_None in Hu'. by rewrite Hu'.
Qed.

Lemma resolve_hierarchy_keep {B} (π : UserT → B) index users :
  (∀ v u, π (User.set_supervisor v u) = π u) →
  (∀ x u, π (User.add_supervisee x u) = π u) →
  π <$> (resolve_hierarchy position_hierarchy index users).2 = π <$> users.
Proof.
  intros H1 H2. revert users. induction index as [|[key g] index IH]; intros users; simpl.
  - done.
  - destruct (resolve_hierarchy _ index _) as [index' users'] eqn:E. simpl.
    change users' with (index', users').2. rewrite <- E, IH.
    by apply link_all_keep.
Qed.

(** The index after the supervisor logic: the same keys, each list
    permuted. *)
Lemma resolve_hierarchy_index index users :
  Forall2 (λ kg kg', kg'.1 = kg.1 ∧ kg'.2 ≡ₚ kg.2 ∧
                     Sorted (senior (rank_at position_hierarchy users) kg.2) kg'.2)
    index (resolve_hierarchy position_hierarchy index users).1.
Proof.
  revert users. induction index as [|[key g] index IH]; intros users; simpl.
  - constructor.
  - destruct (resolve_hierarchy _ index _) as [index' users'] eqn:E. simpl.
    constructor.
    + simpl. split; [done|]. split; [apply sort_desc_perm | apply sort_desc_sorted].
    + change index' with (index', users').1. rewrite <- E.
      eapply Forall2_impl; [apply IH|]. intros kg kg' (Hk & Hp & Hs).
      split; [done|]. split; [done|].
      eapply Sorted_weaken; [|exact Hs]. intros x y (Hx & Hy & Hr).
      repeat split; [done..|].
      assert (base <$> link_all (sort_desc (rank_at position_hierarchy users) g) users
              = base <$> users) as Hb by (by apply link_all_keep).
      by rewrite !(rank_at_keep users _ _ Hb) in Hr.
Qed.

Lemma resolve_hierarchy_consistent index users :
  NoDup (mjoin index.*2) → Forall (valid users) (mjoin index.*2) →
  unique_ids users → consistent users → unsupervised (mjoin index.*2) users →
  consistent (resolve_hierarchy position_hierarchy index users).2.
Proof.
  revert users. induction index as [|[key g] index IH]; intros users Hnd Hv Hids Hc Hfree; simpl.
  - done.
  - destruct (resolve_hierarchy _ index _) as [index' users'] eqn:E. simpl.
    change users' with (index', users').2. rewrite <- E. clear E index' users'.
    simpl in *. set (sorted := sort_desc (rank_at position_hierarchy users) g).
    assert (sorted ≡ₚ g) as Hperm by apply sort_desc_perm.
    apply Forall_app in Hv as [Hvg Hv].
    destruct (link_all_consistent sorted (mjoin index.*2) users) as [Hc' Hfree'].
    { by rewrite Hperm. }
    { by rewrite Hperm. }
    { done. }
    { done. }
    { intros r u Hr. apply Hfree. by rewrite <- Hperm. }
    assert (User.userId <$> link_all sorted users = User.userId <$> users) as Hidkeep
      by (by apply link_all_keep).
    apply IH; [by apply NoDup_app in Hnd as (_ & _ & ?) | | by eapply unique_ids_keep | done..].
    eapply Forall_impl; [exact Hv|]. intros r. by apply (valid_keep User.userId).
Qed.

Lemma resolve_hierarchy_justified (R : relation nat) (key : nat → nat) index users :
  (∀ r, rank_at position_hierarchy users r = key r) →
  (∀ k g x y, (k, g) ∈ index → senior key g x y → R x y) →
  Forall (valid users) (mjoin index.*2) →
  justified R users →
  justified R (resolve_hierarchy position_hierarchy index users).2.
Proof.
  revert users. induction index as [|[k g] index IH]; intros users Hkey HR Hv Hj; simpl.
  - done.
  - destruct (resolve_hierarchy _ index _) as [index' users'] eqn:E. simpl.
    change users' with (index', users').2. rewrite <- E. clear E index' users'.
    simpl in *. set (sorted := sort_desc (rank_at position_hierarchy users) g).
    assert (sorted ≡ₚ g) as Hperm by apply sort_desc_perm.
    apply Forall_app in Hv as [Hvg Hv].
    assert (base <$> link_all sorted users = base <$> users) as Hbase
      by (by apply link_all_keep).
    apply IH.
    + intros r. rewrite (rank_at_keep users) by done. apply Hkey.
    + intros k' g' x y Hin. apply (HR k' g'). by right.
    + eapply Forall_impl; [exact Hv|]. intros r. by apply (valid_keep base).
    + apply link_all_justified; [|by rewrite Hperm|done].
      eapply Sorted_weaken; [|apply sort_desc_sorted].
      intros x y (Hx & Hy & Hr). apply (HR k g); [left|].
      repeat split; [done..|]. by rewrite <- !Hkey.
Qed.
End Resolve.
End Hierarchy.

(** ** The chains of the supervisor logic *)

Section Chain.
Context {OX UX : Type}.
Variable position_hierarchy : gmap string nat.
Local Abbreviation UserT := (User.t OX UX).
Implicit Types (users : list UserT) (u : UserT) (l g : list nat).

(** The id of the user a reference points to, if there is one. *)
Definition id_at users (r : option nat) : option string :=
  r ≫= λ r, User.userId <$> users !! r.

(** The member of [l] before the one at [i]. *)
Definition above l (i : nat) : option nat :=
  match i with 0 => None | S j => l !! j end.

(** The members of [l] form a chain in [users]: the supervisor of each is
    the member before it, and its only supervisee is the member after it. *)
Definition chain users l : Prop :=
  ∀ i r u, l !! i = Some r → users !! r = Some u →
    User.supervisor u = id_at users (above l i) ∧
    User.supervisee u = from_option singleton ∅ (id_at users (l !! S i)).

(** The users at [l] are as the constructor left their links. *)
Definition loose users l : Prop :=
  ∀ r u, r ∈ l → users !! r = Some u →
    User.supervisor u = None ∧ User.supervisee u = ∅.

Lemma id_at_keep users users' o :
  User.userId <$> users' = User.userId <$> users → id_at users' o = id_at users o.
Proof.
  intros Heq. destruct o as [r|]; [|done]. simpl.
  by rewrite <- !list_lookup_fmap, Heq.
Qed.

Lemma attach_ids prev cur users :
  User.userId <$> attach prev cur users = User.userId <$> users.
Proof. by apply attach_keep. Qed.

Lemma attach_chain pre prev cur users :
  NoDup (pre ++ [prev; cur]) →
  valid users prev → valid users cur →
  chain users (pre ++ [prev]) → loose users [cur] →
  chain (attach prev cur users) (pre ++ [prev; cur]).
Proof.
  intros Hnd [up Hp] [uc Hc] Hch Hloose i r u' Hi Hu'.
  rewrite (attach_lookup prev cur users up uc r Hp Hc) in Hu'.
  destruct (users !! r) as [u|] eqn:Hu; [|done]. simpl in Hu'. injection Hu' as <-.
  rewrite !(id_at_keep users (attach prev cur users)) by apply attach_ids.
  assert (prev ≠ cur) as Hpc.
  { intros ->. apply NoDup_app in Hnd as (_ & _ & Hnd).
    apply NoDup_cons in Hnd as [Hnd _]. apply Hnd. by left. }
  assert (pre ++ [prev; cur] = (pre ++ [prev]) ++ [cur]) as El by (by rewrite <- app_assoc).
  assert (length (pre ++ [prev]) = S (length pre)) as Elen by (rewrite length_app; simpl; lia).
  destruct (decide (i < length pre)) as [Hlt|Hge].
  - (* a member before [prev] *)
    assert ((pre ++ [prev]) !! i = Some r) as Hi'.
    { rewrite El, lookup_app_l in Hi by lia. done. }
    assert (r ≠ prev ∧ r ≠ cur) as [Hrp Hrc].
    { rewrite El in Hnd. split; intros ->.
      - apply NoDup_app in Hnd as (Hnd & _ & _).
        pose proof (NoDup_lookup _ i (length pre) prev Hnd Hi') as Heq.
        rewrite lookup_app_r, Nat.sub_diag in Heq by lia. specialize (Heq eq_refl). lia.
      - apply NoDup_app in Hnd as (_ & Hnd & _). apply (Hnd cur); [|by left].
        by eapply list_elem_of_lookup_2. }
    rewrite !decide_False by done. simpl.
    destruct (Hch i r u Hi' Hu) as [Hs He]. split.
    + rewrite Hs. f_equal. destruct i as [|j]; [done|]. simpl.
      rewrite El, !lookup_app_l by lia. done.
    + rewrite He. do 2 f_equal. rewrite El. rewrite (lookup_app_l (pre ++ [prev])) by lia. done.
  - destruct (decide (i = length pre)) as [->|Hne].
    + (* [prev] *)
      assert (r = prev) as ->.
      { rewrite lookup_app_r in Hi by lia. rewrite Nat.sub_diag in Hi. by injection Hi. }
      rewrite decide_True by done. rewrite decide_False by done.
      assert ((pre ++ [prev]) !! length pre = Some prev) as Hi'.
      { rewrite lookup_app_r, Nat.sub_diag by lia. done. }
      assert (u = up) as -> by congruence.
      destruct (Hch (length pre) prev up Hi' Hu) as [Hs He]. simpl. split.
      * rewrite Hs. f_equal. destruct (length pre) as [|j] eqn:Ej; [done|]. simpl.
        rewrite El, !lookup_app_l by lia. done.
      * rewrite He. rewrite (lookup_app_r pre [prev; cur]) by lia.
        replace (S (length pre) - length pre) with 1 by lia. simpl.
        rewrite Hc. simpl.
        rewrite (lookup_ge_None_2 (pre ++ [prev])) by lia. simpl. set_solver.
    + (* [cur] *)
      assert (i = S (length pre)) as ->.
      { apply lookup_lt_Some in Hi. rewrite length_app in Hi. simpl in Hi. lia. }
      assert (r = cur) as ->.
      { rewrite lookup_app_r in Hi by lia.
        replace (S (length pre) - length pre) with 1 in Hi by lia. by injection Hi. }
      rewrite decide_False by done. rewrite decide_True by done.
      assert (u = uc) as -> by congruence.
      destruct (Hloose cur uc) as [Hs He]; [by left | done |]. simpl. split.
      * rewrite lookup_app_r, Nat.sub_diag by lia. simpl. by rewrite Hp.
      * rewrite He. rewrite lookup_ge_None_2; [done|]. rewrite length_app. simpl. lia.
Qed.

Lemma attach_outside prev cur users r :
  valid users prev → valid users cur → r ≠ prev → r ≠ cur →
  attach prev cur users !! r = users !! r.
Proof.
  intros [up Hp] [uc Hc] H1 H2. rewrite (attach_lookup prev cur users up uc r Hp Hc).
  rewrite !decide_False by done. by destruct (users !! r).
Qed.

Lemma link_outside prev rest users r :
  valid users prev → Forall (valid users) rest → r ∉ prev :: rest →
  link prev rest users !! r = users !! r.
Proof.
  revert prev users. induction rest as [|cur rest IH]; intros prev users Hp Hv Hr; [done|].
  apply Forall_cons in Hv as [Hc Hv].
  apply not_elem_of_cons in Hr as [Hrp Hr]. apply not_elem_of_cons in Hr as [Hrc Hr].
  rewrite link_cons, IH.
  - by apply attach_outside.
  - by apply (valid_keep User.userId users), Hc; [apply attach_ids].
  - eapply Forall_impl; [exact Hv|]. intros r'. apply (valid_keep User.userId). apply attach_ids.
  - by apply not_elem_of_cons.
Qed.

Lemma link_all_outside g users r :
  Forall (valid users) g → r ∉ g → link_all g users !! r = users !! r.
Proof.
  destruct g as [|first rest]; [done|]. intros [Hf Hv]%Forall_cons Hr.
  by apply link_outside.
Qed.

Lemma chain_ext users users' l :
  (∀ r, r ∈ l → users' !! r = users !! r) → chain users l → chain users' l.
Proof.
  intros Heq Hch i r u' Hi Hu'.
  assert (∀ o, (∀ r, o = Some r → r ∈ l) → id_at users' o = id_at users o) as Hid.
  { intros [r'|] Ho; [|done]. simpl. rewrite Heq; [done|]. by apply Ho. }
  rewrite Heq in Hu' by (by eapply list_elem_of_lookup_2).
  destruct (Hch i r u' Hi Hu') as [Hs He]. split.
  - rewrite Hs. symmetry. apply Hid. intros r' Hr'. destruct i as [|j]; [done|].
    by eapply list_elem_of_lookup_2.
  - rewrite He. f_equal. symmetry. apply Hid. intros r' Hr'. by eapply list_elem_of_lookup_2.
Qed.

Lemma loose_ext users users' l :
  (∀ r, r ∈ l → users' !! r = users !! r) → loose users l → loose users' l.
Proof. intros Heq Hl r u Hr Hu. rewrite Heq in Hu by done. by apply (Hl r). Qed.

Lemma link_chain pre prev rest users :
  NoDup (pre ++ prev :: rest) → valid users prev → Forall (valid users) rest →
  chain users (pre ++ [prev]) → loose users rest →
  chain (link prev rest users) (pre ++ prev :: rest).
Proof.
  revert pre prev users. induction rest as [|cur rest IH]; intros pre prev users Hnd Hp Hv Hch Hl.
  - done.
  - apply Forall_cons in Hv as [Hc Hv]. rewrite link_cons.
    replace (pre ++ prev :: cur :: rest) with ((pre ++ [prev]) ++ cur :: rest)
      by (by rewrite <- app_assoc).
    assert (NoDup ((pre ++ [prev]) ++ cur :: rest)) as Hnd'
      by (by rewrite <- app_assoc).
    assert ((prev ∉ rest) ∧ (cur ∉ rest)) as [Hpr Hcr].
    { apply NoDup_app in Hnd as (_ & _ & Hnd). apply NoDup_cons in Hnd as [Hn1 Hnd].
      apply NoDup_cons in Hnd as [Hn2 _]. split; [|done]. intros ?. apply Hn1. by right. }
    apply IH.
    + done.
    + by apply (valid_keep User.userId users), Hc; [apply attach_ids].
    + eapply Forall_impl; [exact Hv|]. intros r. apply (valid_keep User.userId). apply attach_ids.
    + rewrite <- app_assoc. apply attach_chain; [|done..|].
      * replace (pre ++ [prev; cur]) with (take (S (S (length pre))) (pre ++ prev :: cur :: rest)).
        { eapply sublist_NoDup; [exact Hnd | apply sublist_take]. }
        rewrite take_app_ge by lia. f_equal.
        replace (S (S (length pre)) - length pre) with 2 by lia. done.
      * intros r u [->|[]%elem_of_nil]%elem_of_cons. apply Hl. by left.
    + apply (loose_ext users).
      * intros r Hr. apply attach_outside; [done..| |]; intros ->; done.
      * intros r u Hr. apply Hl. by right.
Qed.

Lemma link_all_chain g users :
  NoDup g → Forall (valid users) g → loose users g → chain (link_all g users) g.
Proof.
  destruct g as [|first rest]; [by intros _ _ _ i r u Hi|].
  intros Hnd [Hf Hv]%Forall_cons Hl. apply (link_chain [] first rest); [done..| |].
  - intros i r u Hi Hu. destruct i as [|i]; [|done]. injection Hi as <-.
    destruct (Hl first u) as [-> ->]; [by left | done |]. done.
  - intros r u Hr. apply Hl. by right.
Qed.

(** The supervisor logic turns every list of the index into a chain and
    leaves the other users alone. *)
Lemma resolve_hierarchy_chain index users :
  NoDup (mjoin index.*2) → Forall (valid users) (mjoin index.*2) →
  loose users (mjoin index.*2) →
  let res := resolve_hierarchy position_hierarchy index users in
  Forall (λ kg, chain res.2 kg.2) res.1 ∧
  (∀ r, r ∉ mjoin index.*2 → res.2 !! r = users !! r).
Proof.
  revert users. induction index as [|[key g] index IH]; intros users Hnd Hv Hl; simpl.
  - split; [constructor | done].
  - simpl in Hnd, Hv, Hl.
    apply NoDup_app in Hnd as (Hg & Hdisj & Hnd). apply Forall_app in Hv as [Hvg Hv].
    set (sorted := sort_desc (rank_at position_hierarchy users) g).
    assert (sorted ≡ₚ g) as Hp by apply sort_desc_perm.
    set (users1 := link_all sorted users).
    assert (User.userId <$> users1 = User.userId <$> users) as Hids by (by apply link_all_keep).
    assert (Forall (valid users) sorted) as Hvs by (by rewrite Hp).
    assert (∀ r, r ∉ g → users1 !! r = users !! r) as Hout1.
    { intros r Hr. apply link_all_outside; [done|]. by rewrite Hp. }
    assert (chain users1 sorted) as Hch1.
    { apply link_all_chain; [by rewrite Hp | done |].
      intros r u Hr. apply Hl. apply elem_of_app. left. by rewrite <- Hp. }
    destruct (IH users1) as [Hchs Hout]; [done | | |].
    { eapply Forall_impl; [exact Hv|]. intros r. by apply (valid_keep User.userId). }
    { apply (loose_ext users).
      - intros r Hr. apply Hout1. intros Hrg. by apply (Hdisj r).
      - intros r u Hr. apply Hl. apply elem_of_app. by right. }
    destruct (resolve_hierarchy position_hierarchy index users1) as [index' users'] eqn:E.
    simpl in *. split.
    + constructor; [|done]. simpl. apply (chain_ext users1); [|done].
      intros r Hr. apply Hout. intros Hin. rewrite Hp in Hr. by apply (Hdisj r).
    + intros r Hr. apply not_elem_of_app in Hr as [Hrg Hr]. rewrite Hout by done.
      by apply Hout1.
Qed.
End Chain.

(** ** The user loops *)

Section Users.
Context {OX UX : Type}.
Variable tenants : list string.
Variable positions : list string.
Variable departments : gmap string (list string).
Variable offices : gmap string Z.
Variable organizations : gmap string (Organization.t OX).
Variable user_ext : string → Organization.t OX → M UX.
(** Every organization is stored under its own id. *)
Hypothesis organizations_keyed :
  ∀ t o, organizations !! t = Some o → Organization.orgId o = t.

Implicit Types (users : list (User.t OX UX)) (u : User.t OX UX).

(** A user as the constructor leaves it. *)
Definition fresh u : Prop :=
  User.projects u = ∅ ∧ User.supervisor u = None ∧ User.supervisee u = ∅ ∧
  User.payrollingPermissions u = false ∧ User.registered u = false.

(** An office string of [tenant], or the sentinel. *)
Definition office_of (tenant office : string) : Prop :=
  office = "none" ∨ ∃ k : Z, office = tenant +:+ "Office" +:+ pretty k.

(** The office of a user is one of its tenant; without offices there is
    no office and no position that needs one. *)
Definition housed u : Prop :=
  office_of (User.tenant u) (User.office u) ∧
  (∀ n, offices !! User.tenant u = Some n → (n ≤ 0)%Z →
        User.office u = "none" ∧ User.position u ∉ office_positions).

(** The department of a user is one of its tenant. *)
Definition departmental u : Prop :=
  ∃ ds d, departments !! User.tenant u = Some ds ∧ d ∈ ds ∧
          User.department u = or_none (Some d).

Lemma housed_base u u' : base u' = base u → housed u → housed u'.
Proof.
  unfold housed, User.tenant. intros [= _ _ Horg _ Hoff Hpos].
  by rewrite Horg, Hoff, Hpos.
Qed.

Lemma departmental_base u u' : base u' = base u → departmental u → departmental u'.
Proof.
  unfold departmental, User.tenant. intros [= _ _ Horg Hdep _ _].
  by rewrite Horg, Hdep.
Qed.

Lemma Forall_base_keep (P : User.t OX UX → Prop) users users' :
  (∀ u u', base u' = base u → P u → P u') →
  base <$> users' = base <$> users → Forall P users → Forall P users'.
Proof.
  intros HP Heq Hall. apply Forall_lookup. intros i u' Hu'.
  destruct (fmap_eq_lookup base users users' i u' Heq Hu') as (u & Hu & Hb).
  eapply HP; [symmetry; exact Hb|]. eapply Forall_lookup_1; eauto.
Qed.

Lemma or_none_office tenant (k : Z) :
  or_none (Some (tenant +:+ "Office" +:+ pretty k)) = tenant +:+ "Office" +:+ pretty k.
Proof. unfold or_none. case_decide as H; [|done]. by destruct tenant. Qed.

Lemma or_none_positions p : p ∉ office_positions → or_none (Some p) ∉ office_positions.
Proof.
  unfold or_none. case_decide; [|done]. intros _. unfold office_positions. set_solver.
Qed.

Lemma returns_new_user userId role org dep off pos :
  returns (new_user user_ext userId role org dep off pos)
    (λ u, base u = (userId, role, org, or_none dep, or_none off, or_none pos) ∧ fresh u).
Proof.
  unfold new_user. eapply returns_bind; [apply returns_True|]. intros x _.
  apply returns_ret. by repeat split.
Qed.

Lemma returns_draw_office tenant :
  returns (draw_office offices tenant)
    (λ o, office_of tenant o ∧ (∀ n, offices !! tenant = Some n → (n ≤ 0)%Z → o = "none")).
Proof.
  unfold draw_office. eapply returns_bind; [apply returns_lift; intros n Hn; exact Hn|].
  intros n Hn; simpl in Hn. destruct (Z.ltb_spec 0 n) as [Hpos|Hzero].
  - eapply returns_bind; [apply returns_True|]. intros k _. apply returns_ret.
    split; [right; eauto|]. intros n' Hn' Hle. rewrite Hn in Hn'. injection Hn' as <-. lia.
  - apply returns_ret. split; [by left | done].
Qed.

(** What [draw_employee] returns: a tenant of the list, an office of that
    tenant that obeys the no-office rule, a department of the tenant. *)
Definition employee_draw (x : string * string * string * string) : Prop :=
  let '(tenant, position, office, department) := x in
  tenant ∈ tenants ∧ office_of tenant office ∧
  (∀ n, offices !! tenant = Some n → (n ≤ 0)%Z →
        office = "none" ∧ position ∉ office_positions) ∧
  (∃ ds, departments !! tenant = Some ds ∧ department ∈ ds).

Lemma returns_draw_employee :
  returns (draw_employee tenants positions departments offices) employee_draw.
Proof.
  unfold draw_employee.
  eapply returns_bind; [apply returns_choice|]. intros tenant Ht; simpl in Ht.
  eapply returns_bind; [apply returns_lift; intros n Hn; exact Hn|].
  intros n Hn; simpl in Hn.
  eapply returns_bind; [apply returns_choice|]. intros position Hp; simpl in Hp.
  eapply returns_bind.
  { instantiate (1 := λ o, office_of tenant o ∧ ((n ≤ 0)%Z → o = "none")).
    destruct ((0 <? n)%Z || bool_decide (position ∈ office_positions)).
    - eapply returns_weaken; [apply returns_draw_office|].
      intros o [Ho Hz]. split; [done|]. intros Hle. by eapply Hz.
    - apply returns_ret. split; [by left | done]. }
  intros office [Ho Hz]; simpl in Ho, Hz.
  eapply returns_bind; [apply returns_lift; intros ds Hds; exact Hds|].
  intros ds Hds; simpl in Hds.
  eapply returns_bind; [apply returns_choice|]. intros department Hd; simpl in Hd.
  apply returns_ret. split; [done|]. split; [done|]. split; [|eauto].
  intros n' Hn' Hle. rewrite Hn in Hn'. injection Hn' as <-.
  split; [auto|].
  destruct (Z.ltb_spec 0 n) as [|_]; [lia|].
  by apply list_elem_of_filter in Hp as [Hp _].
Qed.

(** The state of the employee loop after [n] iterations. *)
Definition employees_inv (n : nat) (st : list (User.t OX UX) * Groups) : Prop :=
  length st.1 = n ∧
  User.userId <$> st.1 = (λ i, "user" +:+ pretty i) <$> seq 0 n ∧
  Forall (λ u, User.role u = "employee" ∧ User.tenant u ∈ tenants ∧
               housed u ∧ departmental u ∧ fresh u) st.1 ∧
  mjoin st.2.*2 ≡ₚ seq 0 n ∧
  Forall (λ kg, kg.2 ≠ [] ∧
                ∀ r, r ∈ kg.2 → ∃ u, st.1 !! r = Some u ∧ User.tenant u = kg.1.1 ∧
                                     User.department u = or_none (Some kg.1.2)) st.2.

Lemma gen_employee_inv i st :
  employees_inv i st →
  returns (gen_employee tenants positions departments offices organizations user_ext i st)
    (employees_inv (S i)).
Proof.
  destruct st as [users index]. intros (Hlen & Hids & Hall & Hjoin & Hidx). simpl in *.
  unfold gen_employee.
  eapply returns_bind; [apply returns_draw_employee|].
  intros [[[tenant position] office] department] (Ht & Ho & Hz & ds & Hds & Hd).
  eapply returns_bind; [apply returns_lift; intros org Horg; exact Horg|].
  intros org Horg; simpl in Horg.
  eapply returns_bind; [apply returns_new_user|].
  intros user [Hbase Hfresh]. apply returns_ret.
  injection Hbase as Hid Hrole Huorg Hdep Hoff Hpos.
  assert (User.tenant user = tenant) as Hten.
  { unfold User.tenant. rewrite Huorg. by apply organizations_keyed. }
  assert (User.office user = office) as Hoff'.
  { rewrite Hoff. destruct Ho as [->|[k ->]]; [done | apply or_none_office]. }
  split; [|split; [|split; [|split]]]; cbn [fst snd].
  - rewrite length_app. simpl. lia.
  - rewrite fmap_app, Hids, seq_S, fmap_app. simpl. by rewrite Hid.
  - apply Forall_app. split; [done|]. constructor; [|constructor].
    split; [done|]. split; [by rewrite Hten|]. split; [|split; [|done]].
    + split; [by rewrite Hten, Hoff'|]. rewrite Hten, Hoff'. intros n Hn Hle.
      destruct (Hz n Hn Hle) as [-> Hnp]. split; [done|].
      rewrite Hpos. by apply or_none_positions.
    + exists ds, department. by rewrite Hten.
  - rewrite index_append_join, Hjoin, seq_S. simpl. rewrite Hlen.
    by rewrite <- Permutation_cons_append.
  - apply index_append_Forall.
    + eapply Forall_impl; [exact Hidx|]. intros [k g] [Hne Hg]. split; [done|].
      intros r Hr. destruct (Hg r Hr) as (u & Hu & Hk). exists u.
      split; [by apply lookup_app_l_Some | done].
    + simpl. split; [done|]. intros r ->%list_elem_of_singleton. exists user.
      split; [by rewrite lookup_app_r, Nat.sub_diag|]. split; [done | exact Hdep].
    + simpl. intros g Hin [Hne Hg]. split; [by destruct g|].
      intros r [Hr| ->%list_elem_of_singleton]%elem_of_app.
      * destruct (Hg r Hr) as (u & Hu & Hk). eauto.
      * exists user. split; [by rewrite lookup_app_r, Nat.sub_diag|].
        split; [done | exact Hdep].
Qed.

Lemma employees_loop n :
  returns (for_each (gen_employee tenants positions departments offices organizations user_ext)
             (range n) ([], []))
    (employees_inv n).
Proof.
  apply (returns_for_each_seq _ employees_inv 0 n).
  - repeat split; simpl; done.
  - intros i st _ Hst. by apply gen_employee_inv.
Qed.
End Users.

(** ** What the supervisor logic establishes on a fresh population *)

Section Resolved.
Context {OX UX : Type}.
Variable position_hierarchy : gmap string nat.
Implicit Types (users : list (User.t OX UX)) (index : Groups).

(** [b] is placed directly above [a] in a list of the index. *)
Definition outranks (key : nat → nat) index (b a : nat) : Prop :=
  ∃ k g, (k, g) ∈ index ∧ senior key g b a.

Lemma fresh_consistent users : Forall fresh users → consistent users.
Proof.
  intros Hall a b ua ub Ha Hb.
  pose proof (Forall_lookup_1 _ _ _ _ Hall Ha) as (_ & Hsup & _).
  pose proof (Forall_lookup_1 _ _ _ _ Hall Hb) as (_ & _ & Hsee & _).
  rewrite Hsup, Hsee. set_solver.
Qed.

Lemma fresh_unsupervised users pending : Forall fresh users → unsupervised pending users.
Proof.
  intros Hall r u _ Hu. by pose proof (Forall_lookup_1 _ _ _ _ Hall Hu) as (_ & Hsup & _).
Qed.

Lemma fresh_justified R users : Forall fresh users → justified R users.
Proof.
  intros Hall a ua s Ha Hs.
  pose proof (Forall_lookup_1 _ _ _ _ Hall Ha) as (_ & Hsup & _). congruence.
Qed.

Lemma resolve_fresh index users n :
  unique_ids users → Forall fresh users →
  mjoin index.*2 ≡ₚ seq 0 n → n ≤ length users →
  let res := resolve_hierarchy position_hierarchy index users in
  unlinked <$> res.2 = unlinked <$> users ∧
  consistent res.2 ∧
  justified (outranks (rank_at position_hierarchy res.2) index) res.2 ∧
  Forall2 (λ kg kg', kg'.1 = kg.1 ∧ kg'.2 ≡ₚ kg.2) index res.1.
Proof.
  intros Hids Hfresh Hjoin Hn res.
  assert (Forall (valid users) (mjoin index.*2)) as Hvalid.
  { rewrite Hjoin. apply Forall_forall. intros r Hr%elem_of_seq.
    apply lookup_lt_is_Some. lia. }
  assert (unlinked <$> res.2 = unlinked <$> users) as Hkeep
    by (by apply resolve_hierarchy_keep).
  assert (base <$> res.2 = base <$> users) as Hbase.
  { by apply (fmap_factor unlinked (λ b, b.1.1.1.1)). }
  split; [done|]. split; [|split].
  - apply resolve_hierarchy_consistent; [|done..| |].
    + rewrite Hjoin. apply NoDup_seq.
    + by apply fresh_consistent.
    + by apply fresh_unsupervised.
  - apply (resolve_hierarchy_justified _ _ (rank_at position_hierarchy users)).
    + done.
    + intros k g x y Hin (Hx & Hy & Hr). exists k, g. split; [done|].
      repeat split; [done..|]. by rewrite !(rank_at_keep _ users res.2 _ Hbase).
    + done.
    + by apply fresh_justified.
  - eapply Forall2_impl; [apply resolve_hierarchy_index|].
    intros kg kg' (? & ? & _). done.
Qed.
End Resolved.

(** ** User ids *)

(** The prefixes of the user ids of the two variants. *)
Definition id_prefixes : list string :=
  ["user"; "hdop"; "admin"; "pm"; "legal"; "finance"; "audit"; "cons"; "cstmr"].

(** The ids [f"{prefix}{i}"] for [i] in [range(n)]. *)
Definition block (prefix : string) (n : nat) : list string :=
  (λ i, prefix +:+ pretty i) <$> seq 0 n.

Definition blocks (bs : list (string * nat)) : list string :=
  mjoin ((λ b, block b.1 b.2) <$> bs).

Lemma blocks_app bs1 bs2 : blocks (bs1 ++ bs2) = blocks bs1 ++ blocks bs2.
Proof. unfold blocks. by rewrite fmap_app, join_app. Qed.

Lemma blocks_singleton p n : blocks [(p, n)] = block p n.
Proof. unfold blocks. simpl. by rewrite app_nil_r. Qed.

Lemma id_inj p q (i j : nat) :
  p ∈ id_prefixes → q ∈ id_prefixes → p +:+ pretty i = q +:+ pretty j → p = q ∧ i = j.
Proof.
  unfold id_prefixes. intros Hp Hq.
  repeat (apply elem_of_cons in Hp as [->|Hp]); [..|by apply elem_of_nil in Hp];
  repeat (apply elem_of_cons in Hq as [->|Hq]); try (by apply elem_of_nil in Hq);
  intros H; simpl in H; try discriminate H;
  (split; [done|]; simplify_eq; by apply (inj pretty)).
Qed.

Lemma NoDup_block p n : p ∈ id_prefixes → NoDup (block p n).
Proof.
  intros Hp. apply NoDup_fmap_2_strong; [|apply NoDup_seq].
  intros i j _ _ Heq. by destruct (id_inj p p i j Hp Hp Heq).
Qed.

Lemma NoDup_blocks bs :
  NoDup bs.*1 → Forall (.∈ id_prefixes) bs.*1 → NoDup (blocks bs).
Proof.
  induction bs as [|[p n] bs IH]; simpl; [constructor|].
  intros [Hnotin Hnd]%NoDup_cons [Hp Hall]%Forall_cons.
  unfold blocks. simpl. apply NoDup_app. split; [by apply NoDup_block|]. split; [|by apply IH].
  intros x (i & -> & _)%list_elem_of_fmap Hin.
  apply list_elem_of_join in Hin as (l & Hx & Hl).
  apply list_elem_of_fmap in Hl as ([q m] & -> & Hqm). simpl in Hx.
  apply list_elem_of_fmap in Hx as (j & Heq & _).
  assert (q ∈ bs.*1) as Hq by (apply list_elem_of_fmap; by exists (q, m)).
  destruct (id_inj p q i j) as [-> _]; [done | | done | done].
  eapply Forall_forall in Hall; eauto.
Qed.

Lemma Forall2_fmap_seq {A B} (f : A → B) (g : nat → B) (P : A → Prop) n (l : list A) :
  Forall2 (λ i x, f x = g i ∧ P x) (seq 0 n) l → f <$> l = g <$> seq 0 n ∧ Forall P l.
Proof.
  generalize (seq 0 n). intros k. induction 1 as [|i x k l [Hf HP] _ [IH1 IH2]]; simpl.
  - done.
  - split; [by f_equal | by constructor].
Qed.

(** ** The payrolling loop *)

Section Payrolling.
Context {OX UX : Type}.
Implicit Types (users : list (User.t OX UX)) (index : Groups).

(** Everything but the payrolling flag. *)
Definition unpaid (u : User.t OX UX) :=
  (base u, links u, User.projects u, User.registered u, User.ext u).

(** A member of the list holds the payrolling permission. *)
Definition has_payroller users (g : list nat) : Prop :=
  ∃ r u, r ∈ g ∧ users !! r = Some u ∧ User.payrollingPermissions u = true.

(** The permission, once given, stays. *)
Definition permission_kept users users' : Prop :=
  ∀ r u, users !! r = Some u → User.payrollingPermissions u = true →
    ∃ u', users' !! r = Some u' ∧ User.payrollingPermissions u' = true.

Lemma permission_kept_refl users : permission_kept users users.
Proof. intros r u Hu Hp. eauto. Qed.

Lemma permission_kept_trans users1 users2 users3 :
  permission_kept users1 users2 → permission_kept users2 users3 →
  permission_kept users1 users3.
Proof. intros H12 H23 r u Hu Hp. destruct (H12 r u Hu Hp) as (u' & Hu' & Hp'). eauto. Qed.

Lemma permission_kept_grant users r :
  permission_kept users (alter (User.set_payrollingPermissions true) r users).
Proof.
  intros r' u Hu Hp. rewrite list_lookup_alter.
  destruct (decide (r = r')) as [->|]; [|eauto].
  rewrite Hu. simpl. eauto.
Qed.

Lemma has_payroller_kept users users' g :
  permission_kept users users' → has_payroller users g → has_payroller users' g.
Proof.
  intros Hk (r & u & Hr & Hu & Hp). destruct (Hk r u Hu Hp) as (u' & Hu' & Hp').
  by exists r, u'.
Qed.

Lemma grant_unpaid users r :
  unpaid <$> alter (User.set_payrollingPermissions true) r users = unpaid <$> users.
Proof. by apply fmap_alter_keep. Qed.

(** What one iteration of the loop over the index must do. *)
Definition assigns (assign : list nat → list (User.t OX UX) → M (list (User.t OX UX))) : Prop :=
  ∀ g users, g ≠ [] → Forall (valid users) g →
    returns (assign g users)
      (λ users', unpaid <$> users' = unpaid <$> users ∧
                 permission_kept users users' ∧ has_payroller users' g).

Lemma payrolling_loop assign index users :
  assigns assign →
  Forall (λ kg, kg.2 ≠ [] ∧ Forall (valid users) kg.2) index →
  returns (for_each (λ g : string * string * list nat, assign g.2) index users)
    (λ users', unpaid <$> users' = unpaid <$> users ∧
               permission_kept users users' ∧
               Forall (λ kg, has_payroller users' kg.2) index).
Proof.
  intros Hassign. revert users. induction index as [|[k g] index IH]; intros users Hall; simpl.
  - apply returns_ret. split; [done|]. split; [apply permission_kept_refl | constructor].
  - apply Forall_cons in Hall as [[Hne Hg] Hall]. simpl in *.
    eapply returns_bind; [by apply Hassign|].
    intros users1 (Hkeep1 & Hmono1 & Hpay1).
    eapply returns_weaken.
    + apply IH. eapply Forall_impl; [exact Hall|]. intros kg [? Hv]. split; [done|].
      eapply Forall_impl; [exact Hv|]. intros r. by apply (valid_keep unpaid).
    + intros users' (Hkeep & Hmono & Hpay). simpl in *.
      split; [congruence|]. split; [by eapply permission_kept_trans|].
      constructor; [by eapply has_payroller_kept | done].
Qed.
End Payrolling.

(** ** What every run establishes *)

Section Sound.
Context {OX UX DX : Type}.
Implicit Types (t : Trace OX UX DX) (users : list (User.t OX UX)) (d : Document.t DX).

(** The fields of a document no stage changes once it exists. *)
Definition doc_base d :=
  (Document.docId d, Document.docType d, Document.owner d, Document.confidential d,
   Document.containsPersonalInfo d, Document.tenant d, Document.department d,
   Document.office d).

(** The document has the tenant and the department of its owner. *)
Definition inherits users d : Prop :=
  ∃ u, users !! Document.owner d = Some u ∧
       Document.tenant d = User.tenant u ∧ Document.department d = User.department u.

(** Every recipient of the document is a user of the document's tenant. *)
Definition within_tenant users d : Prop :=
  ∀ r, r ∈ Document.recipients d →
    ∃ u, users !! r = Some u ∧ User.tenant u = Document.tenant d.

Record sound t : Prop := {
  sound_ids : unique_ids (resolved t);
  sound_base_permitted : base <$> permitted t = base <$> resolved t;
  sound_base_staffed : base <$> staffed t = base <$> resolved t;
  sound_base_final : base <$> users (final t) = base <$> resolved t;
  sound_links_final : links <$> users (final t) = links <$> resolved t;
  sound_consistent : consistent (resolved t);
  sound_justified :
    justified (outranks (rank_at (hierarchy t) (resolved t)) (indexed t)) (resolved t);
  sound_index :
    Forall2 (λ kg kg', kg'.1 = kg.1 ∧ kg'.2 ≡ₚ kg.2)
      (indexed t) (users_by_department (final t));
  sound_partition : NoDup (mjoin (indexed t).*2);
  sound_members :
    Forall (λ kg, kg.2 ≠ [] ∧
                  ∀ r, r ∈ kg.2 → ∃ u, resolved t !! r = Some u ∧
                         User.role u = "employee" ∧ User.tenant u = kg.1.1 ∧
                         User.department u = or_none (Some kg.1.2))
      (indexed t);
  sound_employees :
    ∀ r u, resolved t !! r = Some u → User.role u = "employee" →
           r ∈ mjoin (indexed t).*2;
  sound_payroll :
    Forall (λ kg, has_payroller (permitted t) kg.2) (users_by_department (final t));
  sound_payroll_final :
    User.payrollingPermissions <$> users (final t)
    = User.payrollingPermissions <$> permitted t;
  sound_housed : Forall (housed (offices_used t)) (resolved t);
  sound_created :
    Forall (λ d, inherits (staffed t) d ∧
                 (∀ n, offices_used t !! Document.tenant d = Some n → (n ≤ 0)%Z →
                       Document.office d = "none"))
      (created t);
  sound_docs : doc_base <$> documents (final t) = doc_base <$> created t;
  sound_recipients : Forall (within_tenant (users (final t))) (documents (final t));
  sound_seeded :
    ∃ users0, Forall fresh users0 ∧ Forall (valid users0) (mjoin (indexed t).*2) ∧
              resolve_hierarchy (hierarchy t) (indexed t) users0
              = (users_by_department (final t), resolved t)
}.

Lemma base_lookup users users' r u :
  base <$> users' = base <$> users → users !! r = Some u →
  ∃ u', users' !! r = Some u' ∧ base u' = base u.
Proof.
  intros Heq Hu. symmetry in Heq.
  destruct (fmap_eq_lookup base users' users r u Heq Hu) as (u' & Hu' & Hb). eauto.
Qed.

Lemma base_tenant (u u' : User.t OX UX) : base u' = base u → User.tenant u' = User.tenant u.
Proof. unfold User.tenant. by intros [= _ _ -> _ _ _]. Qed.

Lemma base_department (u u' : User.t OX UX) :
  base u' = base u → User.department u' = User.department u.
Proof. by intros [= _ _ _ -> _ _]. Qed.

Lemma base_userId (u u' : User.t OX UX) : base u' = base u → User.userId u' = User.userId u.
Proof. by intros [= -> _ _ _ _ _]. Qed.

Lemma base_role (u u' : User.t OX UX) : base u' = base u → User.role u' = User.role u.
Proof. by intros [= _ -> _ _ _ _]. Qed.

Lemma base_rank ph (u u' : User.t OX UX) : base u' = base u → rank ph u' = rank ph u.
Proof. unfold rank. by intros [= _ _ _ _ _ ->]. Qed.

Lemma inherits_keep users users' d d' :
  base <$> users' = base <$> users → doc_base d' = doc_base d →
  inherits users d → inherits users' d'.
Proof.
  intros Hu [= _ _ Ho _ _ Ht Hd _] (u & Hlook & Hten & Hdep).
  destruct (base_lookup users users' _ u Hu Hlook) as (u' & Hu' & Hb).
  exists u'. rewrite Ho, Ht, Hd. split; [done|].
  by rewrite (base_tenant _ _ Hb), (base_department _ _ Hb).
Qed.

Lemma consistent_keep users users' :
  User.userId <$> users' = User.userId <$> users →
  links <$> users' = links <$> users →
  consistent users → consistent users'.
Proof.
  intros Hid Hl Hc a b ua' ub' Ha Hb.
  destruct (fmap_eq_lookup _ users users' a ua' Hid Ha) as (ua & Hua & Hida).
  destruct (fmap_eq_lookup _ users users' b ub' Hid Hb) as (ub & Hub & Hidb).
  destruct (fmap_eq_lookup _ users users' a ua' Hl Ha) as (ua2 & Hua2 & [= Hsa _]).
  destruct (fmap_eq_lookup _ users users' b ub' Hl Hb) as (ub2 & Hub2 & [= _ Hsb]).
  assert (ua2 = ua) as -> by congruence. assert (ub2 = ub) as -> by congruence.
  rewrite <- Hida, <- Hidb, <- Hsa, <- Hsb. by apply (Hc a b).
Qed.

(** Documents keep the tenant and the department of their owner. *)
Lemma sound_inherits t :
  sound t →
  Forall (inherits (staffed t)) (created t) ∧
  Forall (inherits (users (final t))) (documents (final t)).
Proof.
  intros S. split.
  - eapply Forall_impl; [apply (sound_created t S)|]. by intros d [? _].
  - apply Forall_lookup. intros i d' Hd'.
    destruct (fmap_eq_lookup doc_base _ _ i d' (sound_docs t S) Hd') as (d & Hd & Hb).
    eapply (inherits_keep (staffed t)); [|symmetry; exact Hb|].
    + rewrite (sound_base_final t S). symmetry. apply (sound_base_staffed t S).
    + by pose proof (Forall_lookup_1 _ _ _ _ (sound_created t S) Hd) as [? _].
Qed.

(** [supervisee] is the inverse of [supervisor] in the final population. *)
Lemma sound_consistent_final t : sound t → consistent (users (final t)).
Proof.
  intros S. apply (consistent_keep (resolved t)).
  - apply base_keep_ids, (sound_base_final t S).
  - apply (sound_links_final t S).
  - apply (sound_consistent t S).
Qed.

Lemma NoDup_join_member (ls : list (list nat)) l :
  NoDup (mjoin ls) → l ∈ ls → NoDup l.
Proof.
  induction ls as [|l0 ls IH]; simpl; [by intros _ ?%elem_of_nil|].
  intros (H0 & _ & Hls)%NoDup_app [->|Hin]%elem_of_cons; [done | by apply IH].
Qed.

Lemma before_irrefl g x : NoDup g → ¬ before g x x.
Proof.
  intros Hnd (i & j & Hi & Hj & Hij).
  pose proof (NoDup_lookup g i j x Hnd Hi Hj). lia.
Qed.

(** The lists of the final index are those of the index the user loops
    built, each permuted. *)
Lemma sound_index_final t k g' :
  sound t → (k, g') ∈ users_by_department (final t) →
  ∃ g, (k, g) ∈ indexed t ∧ g' ≡ₚ g.
Proof.
  intros S (i & Hi)%list_elem_of_lookup_1.
  destruct (Forall2_lookup_r _ _ _ _ _ (sound_index t S) Hi) as ([k0 g] & Hg & Hk & Hp).
  simpl in *. subst k0. exists g. split; [by eapply list_elem_of_lookup_2 | done].
Qed.

Lemma sound_index_indexed t k g :
  sound t → (k, g) ∈ indexed t →
  ∃ g', (k, g') ∈ users_by_department (final t) ∧ g' ≡ₚ g.
Proof.
  intros S (i & Hi)%list_elem_of_lookup_1.
  destruct (Forall2_lookup_l _ _ _ _ _ (sound_index t S) Hi) as ([k0 g'] & Hg & Hk & Hp).
  simpl in *. subst k0. exists g'. split; [by eapply list_elem_of_lookup_2 | done].
Qed.

(** A supervisor is another member of the same list of the index, of
    higher rank, or of equal rank and inserted earlier. *)
Lemma sound_supervisor t a ua s :
  sound t → users (final t) !! a = Some ua → User.supervisor ua = Some s →
  ∃ b ub, users (final t) !! b = Some ub ∧ User.userId ub = s ∧ b ≠ a ∧
          User.tenant ub = User.tenant ua ∧ User.department ub = User.department ua ∧
          ∃ k g, (k, g) ∈ indexed t ∧ b ∈ g ∧ a ∈ g ∧
                 (rank (hierarchy t) ua < rank (hierarchy t) ub ∨
                  (rank (hierarchy t) ub = rank (hierarchy t) ua ∧ before g b a)).
Proof.
  intros S Ha Hs.
  destruct (fmap_eq_lookup links _ _ a ua (sound_links_final t S) Ha)
    as (ua0 & Ha0 & [= Hsup0 _]).
  destruct (fmap_eq_lookup base _ _ a ua (sound_base_final t S) Ha) as (ua1 & Ha1 & Hba).
  assert (ua1 = ua0) as -> by congruence.
  rewrite <- Hsup0 in Hs.
  destruct (sound_justified t S a ua0 s Ha0 Hs) as (b & ub0 & Hb0 & Hid & k & g & Hin & Hb & Hag & Hr).
  destruct (base_lookup _ _ b ub0 (sound_base_final t S) Hb0) as (ub & Hub & Hbb).
  pose proof (proj1 (Forall_forall _ _) (sound_members t S) (k, g) Hin) as [_ Hmem].
  simpl in Hmem.
  destruct (Hmem a Hag) as (ua2 & Hua2 & _ & Hta & Hda).
  destruct (Hmem b Hb) as (ub2 & Hub2 & _ & Htb & Hdb).
  assert (ua2 = ua0) as -> by congruence. assert (ub2 = ub0) as -> by congruence.
  assert (rank_at (hierarchy t) (resolved t) a = rank (hierarchy t) ua) as Hra.
  { unfold rank_at. rewrite Ha0. simpl. symmetry. apply base_rank. by symmetry. }
  assert (rank_at (hierarchy t) (resolved t) b = rank (hierarchy t) ub) as Hrb.
  { unfold rank_at. rewrite Hb0. simpl. symmetry. by apply base_rank. }
  rewrite Hra, Hrb in Hr.
  assert (NoDup g) as Hnd.
  { eapply NoDup_join_member; [apply (sound_partition t S)|].
    apply list_elem_of_fmap. by exists (k, g). }
  exists b, ub. split; [done|]. split; [by rewrite (base_userId _ _ Hbb)|].
  split; [|split; [|split]].
  - intros ->. destruct Hr as [Hlt|[_ Hbef]].
    + assert (ub = ua) as -> by congruence. lia.
    + by eapply before_irrefl.
  - rewrite (base_tenant _ _ Hbb), <- (base_tenant _ _ Hba). congruence.
  - rewrite (base_department _ _ Hbb), <- (base_department _ _ Hba). congruence.
  - exists k, g. done.
Qed.

Lemma has_payroller_flags users users' g :
  User.payrollingPermissions <$> users' = User.payrollingPermissions <$> users →
  has_payroller users g → has_payroller users' g.
Proof.
  intros Heq (r & u & Hr & Hu & Hp). symmetry in Heq.
  destruct (fmap_eq_lookup _ users' users r u Heq Hu) as (u' & Hu' & Hp').
  exists r, u'. split; [done|]. split; [done | congruence].
Qed.

(** Every list of the index has a member that holds the payrolling
    permission, after the payrolling loop and in the final population. *)
Lemma sound_payroller t k g :
  sound t → (k, g) ∈ users_by_department (final t) →
  has_payroller (permitted t) g ∧ has_payroller (users (final t)) g.
Proof.
  intros S Hin.
  pose proof (proj1 (Forall_forall _ _) (sound_payroll t S) (k, g) Hin) as Hp. simpl in Hp.
  split; [done|]. eapply has_payroller_flags; [apply (sound_payroll_final t S) | done].
Qed.

(** Without offices: no office, for users and documents, and no position
    that needs one. *)
Lemma sound_no_office t :
  sound t →
  (∀ u, u ∈ users (final t) → offices_used t !! User.tenant u = Some 0%Z →
        User.office u = "none" ∧ User.position u ∉ office_positions) ∧
  (∀ d u, d ∈ documents (final t) → users (final t) !! Document.owner d = Some u →
          offices_used t !! User.tenant u = Some 0%Z → Document.office d = "none").
Proof.
  intros S. split.
  - intros u Hin Hz.
    assert (Forall (housed (offices_used t)) (users (final t))) as Hall.
    { eapply Forall_base_keep; [apply housed_base | apply (sound_base_final t S) |
                               apply (sound_housed t S)]. }
    pose proof (proj1 (Forall_forall _ _) Hall u Hin) as [_ Hrule].
    by apply (Hrule 0%Z).
  - intros d' u (i & Hd')%list_elem_of_lookup_1 Hu Hz.
    destruct (fmap_eq_lookup doc_base _ _ i d' (sound_docs t S) Hd') as (d & Hd & Hb).
    pose proof (Forall_lookup_1 _ _ _ _ (sound_created t S) Hd) as [_ Hrule].
    pose proof (Forall_lookup_1 _ _ _ _ (proj2 (sound_inherits t S)) Hd') as (u' & Hu' & Ht & _).
    assert (u' = u) as -> by congruence.
    injection Hb as _ _ _ _ _ Hten _ Hoff. rewrite <- Hoff.
    apply (Hrule 0%Z); [|done]. by rewrite Hten, Ht.
Qed.

(** The users in the index of departments are the employees. *)
Lemma sound_indexed_employees t r u :
  sound t → users (final t) !! r = Some u →
  (User.role u = "employee" ↔
   ∃ k g, (k, g) ∈ users_by_department (final t) ∧ r ∈ g) ∧
  (∀ k g, (k, g) ∈ users_by_department (final t) → r ∈ g →
          User.tenant u = k.1 ∧ User.department u = or_none (Some k.2)).
Proof.
  intros S Hu.
  destruct (fmap_eq_lookup base _ _ r u (sound_base_final t S) Hu) as (u0 & Hu0 & Hb).
  assert (∀ k g, (k, g) ∈ users_by_department (final t) → r ∈ g →
            User.role u = "employee" ∧
            User.tenant u = k.1 ∧ User.department u = or_none (Some k.2)) as Hmem.
  { intros k g' Hin Hr. destruct (sound_index_final t k g' S Hin) as (g & Hg & Hp).
    pose proof (proj1 (Forall_forall _ _) (sound_members t S) (k, g) Hg) as [_ Hm].
    rewrite Hp in Hr. destruct (Hm r Hr) as (u1 & Hu1 & Hrole & Ht & Hd). simpl in *.
    assert (u1 = u0) as -> by congruence.
    rewrite <- (base_role _ _ Hb), <- (base_tenant _ _ Hb), <- (base_department _ _ Hb).
    done. }
  split; [split|].
  - intros Hrole. rewrite <- (base_role _ _ Hb) in Hrole.
    pose proof (sound_employees t S r u0 Hu0 Hrole) as Hin.
    apply list_elem_of_join in Hin as (g & Hr & Hg).
    apply list_elem_of_fmap in Hg as ([k g0] & -> & Hkg). simpl in Hr.
    destruct (sound_index_indexed t k g0 S Hkg) as (g' & Hg' & Hp).
    exists k, g'. split; [done|]. by rewrite Hp.
  - intros (k & g & Hin & Hr). by destruct (Hmem k g Hin Hr).
  - intros k g Hin Hr. by destruct (Hmem k g Hin Hr) as (_ & ? & ?).
Qed.
End Sound.

(** ** The shape of the hierarchy *)

Section Chains.
Context {OX UX DX : Type}.
Implicit Types (t : Trace OX UX DX) (users : list (User.t OX UX)).

Lemma chain_keep users users' l :
  User.userId <$> users' = User.userId <$> users →
  links <$> users' = links <$> users →
  chain users l → chain users' l.
Proof.
  intros Hid Hl Hch i r u' Hi Hu'.
  destruct (fmap_eq_lookup links users users' r u' Hl Hu') as (u & Hu & Hlu).
  rewrite !(id_at_keep users users') by done.
  destruct (Hch i r u Hi Hu) as [Hs He]. unfold links in Hlu. split; congruence.
Qed.

Lemma fresh_loose users l : Forall fresh users → loose users l.
Proof.
  intros Hall r u _ Hu. by pose proof (Forall_lookup_1 _ _ _ _ Hall Hu) as (_ & ? & ? & _).
Qed.

Lemma index_join_perm (index index' : Groups) :
  Forall2 (λ kg kg', kg'.1 = kg.1 ∧ kg'.2 ≡ₚ kg.2) index index' →
  mjoin index'.*2 ≡ₚ mjoin index.*2.
Proof.
  induction 1 as [|kg kg' index index' [_ Hp] _ IH]; simpl; [done|]. by rewrite Hp, IH.
Qed.

(** In the population written out every list of the index is a chain, and
    a user in no list has no supervisor and no supervisee. *)
Definition hierarchy_chains t : Prop :=
  (∀ k g, (k, g) ∈ users_by_department (final t) → chain (users (final t)) g) ∧
  (∀ r u, users (final t) !! r = Some u →
          r ∉ mjoin (users_by_department (final t)).*2 →
          User.supervisor u = None ∧ User.supervisee u = ∅).

Lemma sound_chains t : sound t → hierarchy_chains t.
Proof.
  intros S. destruct (sound_seeded t S) as (users0 & Hfresh & Hvalid & E).
  destruct (resolve_hierarchy_chain (hierarchy t) (indexed t) users0)
    as [Hch Hout]; [apply (sound_partition t S) | done | by apply fresh_loose |].
  rewrite E in Hch, Hout. simpl in Hch, Hout.
  pose proof (base_keep_ids _ _ (sound_base_final t S)) as Hids.
  split.
  - intros k g Hin. apply (chain_keep (resolved t)); [done | apply (sound_links_final t S) |].
    by apply (proj1 (Forall_forall _ _) Hch (k, g)).
  - intros r u Hu Hr.
    destruct (fmap_eq_lookup links _ _ r u (sound_links_final t S) Hu) as (u1 & Hu1 & Hl).
    rewrite Hout in Hu1.
    + pose proof (Forall_lookup_1 _ _ _ _ Hfresh Hu1) as (_ & Hs & He & _).
      unfold links in Hl. split; congruence.
    + by rewrite <- (index_join_perm _ _ (sound_index t S)).
Qed.

(** The members of [l] are in descending order of [key]. *)
Definition descending (key : nat → nat) (l : list nat) : Prop :=
  ∀ i j a b, i < j → l !! i = Some a → l !! j = Some b → key b ≤ key a.

Lemma Sorted_descending key (l0 l : list nat) :
  Sorted (senior key l0) l → descending key l.
Proof.
  intros Hs.
  assert (StronglySorted (λ a b, key b ≤ key a) l) as Hss.
  { apply Sorted_StronglySorted.
    - intros x y z. simpl. lia.
    - eapply Sorted_weaken; [|exact Hs]. intros x y (_ & _ & [?|[? _]]); simpl; lia. }
  clear Hs. induction Hss as [|a l Hss IH Hall]; intros i j x y Hij Hi Hj.
  - done.
  - destruct i as [|i], j as [|j]; try lia; simpl in *.
    + injection Hi as <-. eapply Forall_forall in Hall; [exact Hall|].
      by eapply list_elem_of_lookup_2.
    + apply (IH i j); [lia | done..].
Qed.

(** Every list of the index is sorted by rank, highest first. *)
Definition index_sorted t : Prop :=
  ∀ k g, (k, g) ∈ users_by_department (final t) →
    descending (rank_at (hierarchy t) (users (final t))) g.

Lemma sound_sorted t : sound t → index_sorted t.
Proof.
  intros S k g' (i & Hi)%list_elem_of_lookup_1.
  destruct (sound_seeded t S) as (users0 & Hfresh & Hvalid & E).
  pose proof (resolve_hierarchy_index (hierarchy t) (indexed t) users0) as Hidx.
  rewrite E in Hidx. simpl in Hidx.
  destruct (Forall2_lookup_r _ _ _ _ _ Hidx Hi) as ([k0 g] & Hg & _ & _ & Hs). simpl in Hs.
  apply Sorted_descending in Hs.
  assert (base <$> users (final t) = base <$> users0) as Hb.
  { rewrite (sound_base_final t S).
    pose proof (resolve_hierarchy_keep (hierarchy t) base (indexed t) users0) as Hk.
    rewrite E in Hk. by apply Hk. }
  intros a b x y Hab Ha Hb'. rewrite !(rank_at_keep (hierarchy t) users0 _ _ Hb).
  by apply (Hs a b).
Qed.
End Chains.

(** ** The stages after the supervisor logic *)

Section Staged.
Context {OX UX DX : Type}.
Implicit Types (t : Trace OX UX DX) (users : list (User.t OX UX)) (g : list nat).

(** The fields no stage changes after the payrolling loop. *)
Definition settled (u : User.t OX UX) :=
  (base u, links u, User.payrollingPermissions u, User.registered u).

(** The fields the loop over [users] that sets [registered] and the
    payrolling loop leave alone. *)
Definition unregistered (u : User.t OX UX) :=
  (base u, links u, User.projects u, User.ext u).

(** From [users] to [users'] the payrolling permission is given to members
    of [g] only. *)
Definition confined g users users' : Prop :=
  ∀ r u', users' !! r = Some u' → User.payrollingPermissions u' = true →
    r ∈ g ∨ ∃ u, users !! r = Some u ∧ User.payrollingPermissions u = true.

Lemma confined_refl g users : confined g users users.
Proof. intros r u Hu Hp. right. eauto. Qed.

Lemma confined_trans g1 g2 users1 users2 users3 :
  confined g1 users1 users2 → confined g2 users2 users3 →
  confined (g1 ++ g2) users1 users3.
Proof.
  intros H12 H23 r u3 Hu3 Hp3.
  destruct (H23 r u3 Hu3 Hp3) as [Hr|(u2 & Hu2 & Hp2)].
  - left. apply elem_of_app. by right.
  - destruct (H12 r u2 Hu2 Hp2) as [Hr|?]; [|by right]. left. apply elem_of_app. by left.
Qed.

Lemma confined_grant g users users' r :
  r ∈ g → confined g users users' →
  confined g users (alter (User.set_payrollingPermissions true) r users').
Proof.
  intros Hr Hc r' u'. rewrite list_lookup_alter.
  destruct (decide (r = r')) as [<-|_]; [by left|]. apply Hc.
Qed.

Lemma confined_keep g users1 users2 users' :
  User.payrollingPermissions <$> users2 = User.payrollingPermissions <$> users1 →
  confined g users1 users' → confined g users2 users'.
Proof.
  intros Heq Hc r u' Hu' Hp. destruct (Hc r u' Hu' Hp) as [?|(u1 & Hu1 & Hp1)]; [by left|].
  right. symmetry in Heq.
  destruct (fmap_eq_lookup User.payrollingPermissions _ _ r u1 Heq Hu1) as (u2 & Hu2 & Hp2).
  exists u2. split; [done | congruence].
Qed.

(** What one iteration of the payrolling loop does to the users, whatever
    the list it is given. *)
Definition grants (assign : list nat → list (User.t OX UX) → M (list (User.t OX UX))) : Prop :=
  ∀ g users,
    returns (assign g users)
      (λ users', unpaid <$> users' = unpaid <$> users ∧ confined g users users').

Lemma grants_loop assign (index : Groups) users :
  grants assign →
  returns (for_each (λ kg : string * string * list nat, assign kg.2) index users)
    (λ users', unpaid <$> users' = unpaid <$> users ∧
               confined (mjoin index.*2) users users').
Proof.
  intros Hassign. revert users. induction index as [|[k g] index IH]; intros users; simpl.
  - apply returns_ret. split; [done | apply confined_refl].
  - eapply returns_bind; [apply Hassign|]. intros users1 [Hk1 Hc1].
    eapply returns_weaken; [apply IH|]. intros users' [Hk Hc]. simpl in *.
    split; [congruence | by eapply confined_trans].
Qed.

(** How the stages after the supervisor logic leave the users. *)
Record staged t : Prop := {
  staged_final : settled <$> users (final t) = settled <$> permitted t;
  staged_permitted : unregistered <$> permitted t = unregistered <$> resolved t;
  staged_confined :
    confined (mjoin (users_by_department (final t)).*2) (resolved t) (permitted t);
  staged_registered :
    Forall (λ u, User.supervisee u ≠ ∅ → User.registered u = true) (permitted t)
}.
End Staged.

(** ** The population before and after the supervisor logic *)

Section Populated.
Context {OX UX : Type}.
Variable tenants : list string.
Variable departments : gmap string (list string).
Variable offices : gmap string Z.
Variable position_hierarchy : gmap string nat.
Implicit Types (users emps others : list (User.t OX UX)) (index : Groups).

(** What the supervisor logic needs and gives: [emps] are the users of the
    employee loop, [others] those of the later loops. *)
Record resolved_facts emps others index (res : Groups * list (User.t OX UX)) : Prop := {
  rf_ids : unique_ids res.2;
  rf_keep : unlinked <$> res.2 = unlinked <$> (emps ++ others);
  rf_consistent : consistent res.2;
  rf_justified : justified (outranks (rank_at position_hierarchy res.2) index) res.2;
  rf_index : Forall2 (λ kg kg', kg'.1 = kg.1 ∧ kg'.2 ≡ₚ kg.2) index res.1;
  rf_partition : NoDup (mjoin index.*2);
  rf_members :
    Forall (λ kg, kg.2 ≠ [] ∧
                  ∀ r, r ∈ kg.2 → ∃ u, res.2 !! r = Some u ∧
                         User.role u = "employee" ∧ User.tenant u = kg.1.1 ∧
                         User.department u = or_none (Some kg.1.2))
      index;
  rf_employees :
    ∀ r u, res.2 !! r = Some u → User.role u = "employee" → r ∈ mjoin index.*2;
  rf_housed : Forall (housed offices) res.2;
  rf_valid : Forall (λ kg, kg.2 ≠ [] ∧ Forall (valid res.2) kg.2) res.1
}.

Lemma unlinked_base users users' :
  unlinked <$> users' = unlinked <$> users → base <$> users' = base <$> users.
Proof. by apply (fmap_factor unlinked (λ b, b.1.1.1.1)). Qed.

Lemma resolve_populated emps others index :
  employees_inv tenants departments offices (length emps) (emps, index) →
  unique_ids (emps ++ others) →
  Forall fresh others → Forall (λ u, User.role u ≠ "employee") others →
  Forall (housed offices) others →
  resolved_facts emps others index
    (resolve_hierarchy position_hierarchy index (emps ++ others)).
Proof.
  intros (_ & _ & Hemps & Hjoin & Hmem) Hids Hfresh Hroles Hhoused. simpl in *.
  set (users0 := emps ++ others). set (res := resolve_hierarchy _ index users0).
  assert (Forall fresh users0) as Hfresh0.
  { apply Forall_app. split; [|done]. eapply Forall_impl; [exact Hemps|]. naive_solver. }
  destruct (resolve_fresh position_hierarchy index users0 (length emps))
    as (Hkeep & Hcons & Hjust & Hidx); [done..| |].
  { unfold users0. rewrite length_app. lia. }
  fold res in Hkeep, Hcons, Hjust, Hidx.
  pose proof (unlinked_base _ _ Hkeep) as Hbase.
  assert (∀ r u, emps !! r = Some u → ∃ u', res.2 !! r = Some u' ∧ base u' = base u) as Hlook.
  { intros r u Hu. apply (base_lookup users0); [done|]. by apply lookup_app_l_Some. }
  assert (Forall (λ kg : string * string * list nat,
            kg.2 ≠ [] ∧ ∀ r, r ∈ kg.2 → ∃ u, res.2 !! r = Some u ∧
              User.role u = "employee" ∧ User.tenant u = kg.1.1 ∧
              User.department u = or_none (Some kg.1.2)) index) as Hmem'.
  { eapply Forall_impl; [exact Hmem|]. intros [k g] [Hne Hg]. split; [done|].
    intros r Hr. destruct (Hg r Hr) as (u & Hu & Ht & Hd). simpl in *.
    destruct (Hlook r u Hu) as (u' & Hu' & Hb). exists u'. split; [done|].
    pose proof (Forall_lookup_1 _ _ _ _ Hemps Hu) as (Hrole & _).
    rewrite (base_role _ _ Hb), (base_tenant _ _ Hb), (base_department _ _ Hb). done. }
  split.
  - eapply unique_ids_keep; [|exact Hids]. by apply base_keep_ids.
  - done.
  - done.
  - done.
  - done.
  - rewrite Hjoin. apply NoDup_seq.
  - done.
  - intros r u' Hu' Hrole. rewrite Hjoin. apply elem_of_seq.
    destruct (fmap_eq_lookup base _ _ r u' Hbase Hu') as (u & Hu & Hb).
    rewrite <- (base_role _ _ Hb) in Hrole.
    unfold users0 in Hu. apply lookup_app_Some in Hu as [Hu|[_ Hu]].
    + apply lookup_lt_Some in Hu. lia.
    + by pose proof (Forall_lookup_1 _ _ _ _ Hroles Hu).
  - eapply Forall_base_keep; [apply housed_base | exact Hbase |].
    apply Forall_app. split; [|done]. eapply Forall_impl; [exact Hemps|]. naive_solver.
  - apply Forall_forall. intros [k g'] (i & Hi)%list_elem_of_lookup_1.
    destruct (Forall2_lookup_r _ _ _ _ _ Hidx Hi) as ([k0 g] & Hg & _ & Hp). simpl in *.
    pose proof (Forall_lookup_1 _ _ _ _ Hmem' Hg) as [Hne Hall]. simpl in *.
    split.
    + intros ->. apply Permutation_nil_l in Hp. done.
    + apply Forall_forall. intros r Hr. rewrite Hp in Hr.
      destruct (Hall r Hr) as (u & Hu & _). by exists u.
Qed.
End Populated.

(** ** Tables *)

Definition keyed {OX} (orgs : gmap string (Organization.t OX)) : Prop :=
  ∀ t o, orgs !! t = Some o → Organization.orgId o = t.

Lemma add_entries_Forall {V} (P : string → V → Prop) (f : string → option V) keys d d' :
  (∀ k v, f k = Some v → P k v) → map_Forall P d →
  add_entries f keys d = Some d' → map_Forall P d'.
Proof.
  intros Hf. revert d. induction keys as [|k keys IH]; intros d Hd; simpl.
  - by intros [= <-].
  - destruct (f k) as [v|] eqn:Hk; [|done]. simpl. apply IH.
    apply map_Forall_insert_2; [by apply Hf | done].
Qed.

(** Every tenant of [pool] has its organization in [orgs], and the
    organization holds the tenant's entries of the two tables. *)
Definition structure_of {OX} (departments : gmap string (list string))
    (offices : gmap string Z) (pool : list string)
    (orgs : gmap string (Organization.t OX)) : Prop :=
  Forall (λ t, Organization.orgId <$> orgs !! t = Some t ∧
               Organization.departments <$> orgs !! t = departments !! t ∧
               Organization.offices <$> orgs !! t = offices !! t)
    pool.

(** Two office strings of tenants of [pool] are equal only for the same
    tenant. *)
Definition offices_apart (pool : list string) : Prop :=
  ∀ t1 t2 (k1 k2 : Z), t1 ∈ pool → t2 ∈ pool →
    t1 +:+ "Office" +:+ pretty k1 = t2 +:+ "Office" +:+ pretty k2 → t1 = t2.

(** ** Documents *)

Section Documents.
Context {OX UX DX : Type}.
Variable offices : gmap string Z.
Variable pool : list string.
Hypothesis pool_apart : offices_apart pool.
Implicit Types (users : list (User.t OX UX)) (d : Document.t DX).

Lemma returns_doc_core (o : User.t OX UX) :
  returns (doc_core offices o)
    (λ x, x.1.1 = User.tenant o ∧ x.1.2 = User.department o ∧
          office_of (User.tenant o) x.2 ∧
          (∀ n, offices !! User.tenant o = Some n → (n ≤ 0)%Z → x.2 = "none")).
Proof.
  unfold doc_core. eapply returns_bind; [apply returns_draw_office|].
  intros office [Ho Hz]. apply returns_ret. done.
Qed.

Lemma within_tenant_update users d refs :
  within_tenant users d →
  (∀ r, r ∈ refs → ∃ u, users !! r = Some u ∧ User.tenant u = Document.tenant d) →
  within_tenant users (Document.update_recipients refs d).
Proof.
  intros Hd Hrefs r. unfold Document.update_recipients. simpl.
  rewrite elem_of_union, elem_of_list_to_set. intros [Hr|Hr]; [by apply Hrefs | by apply Hd].
Qed.

Lemma within_tenant_keep users users' d d' :
  base <$> users' = base <$> users →
  Document.tenant d' = Document.tenant d → Document.recipients d' = Document.recipients d →
  within_tenant users d → within_tenant users' d'.
Proof.
  intros Hb Ht Hr Hd r. rewrite Hr, Ht. intros Hin.
  destruct (Hd r Hin) as (u & Hu & Hten).
  destruct (base_lookup users users' r u Hb Hu) as (u' & Hu' & Hbu).
  exists u'. split; [done|]. by rewrite (base_tenant _ _ Hbu).
Qed.

(** The users of a given office are users of the tenant it belongs to. *)
Lemma same_office_same_tenant users tenant office r :
  Forall (housed offices) users → Forall (λ u, User.tenant u ∈ pool) users →
  tenant ∈ pool → office_of tenant office → office ≠ "none" →
  r ∈ refs_where (λ u, bool_decide (User.office u = office)) users →
  ∃ u, users !! r = Some u ∧ User.tenant u = tenant.
Proof.
  intros Hhoused Hpool Ht Ho Hne (u & Hu & Hoff)%elem_of_refs_where.
  apply bool_decide_eq_true in Hoff. exists u. split; [done|].
  pose proof (Forall_lookup_1 _ _ _ _ Hhoused Hu) as [Hou _].
  pose proof (Forall_lookup_1 _ _ _ _ Hpool Hu) as Htu. simpl in Htu.
  destruct Ho as [->|[k Hk]]; [done|].
  destruct Hou as [Hnone|[k' Hk']]; [congruence|].
  eapply pool_apart; [done..|]. by rewrite <- Hk', <- Hk.
Qed.

Lemma same_tenant_refs users tenant refs :
  refs ⊆ refs_where (λ u, bool_decide (User.tenant u = tenant)) users →
  ∀ r, r ∈ refs → ∃ u, users !! r = Some u ∧ User.tenant u = tenant.
Proof.
  intros Hsub r Hr. apply Hsub, elem_of_refs_where in Hr as (u & Hu & Ht).
  apply bool_decide_eq_true in Ht. eauto.
Qed.
End Documents.

(** ** The basic variant *)

Module BasicFacts.
Import Basic.

Lemma organizations_keyed orgs : organizations = Some orgs → keyed orgs.
Proof.
  unfold organizations. intros (orgs0 & E0 & H)%bind_Some.
  assert (map_Forall (λ t (o : Organization), Organization.orgId o = t) orgs0) as H0.
  { eapply add_entries_Forall; [|apply map_Forall_empty|exact E0].
    intros k v (d & _ & (o & _ & [= <-])%bind_Some)%bind_Some. done. }
  eapply add_entries_Forall; [|exact H0|exact H].
  intros k v (d & _ & [= <-])%bind_Some. done.
Qed.

Definition all_tenants : list string := tenants ++ customerTenants.

Lemma basic_offices_apart_all : offices_apart all_tenants.
Proof.
  intros t1 t2 k1 k2 H1 H2. unfold all_tenants, tenants, customerTenants in *. simpl in *.
  repeat (apply elem_of_cons in H1 as [->|H1]); [..|by apply elem_of_nil in H1];
  repeat (apply elem_of_cons in H2 as [->|H2]); try (by apply elem_of_nil in H2);
  intros H; simpl in H; try discriminate H; done.
Qed.

Section Stages.
Variable orgs : gmap string Organization.
Hypothesis orgs_keyed : keyed orgs.

(** What the loops after the employee loop give a user. *)
Definition member (pool : list string) (role : string) (u : User) : Prop :=
  User.role u = role ∧ User.tenant u ∈ pool ∧ housed offices u ∧ fresh u.

Lemma basic_housed_nowhere (u : User) :
  User.office u = "none" → User.position u = "none" → housed offices u.
Proof.
  intros Ho Hp. split; [by left|]. intros n _ _. split; [done|].
  rewrite Hp. unfold office_positions. set_solver.
Qed.

Lemma returns_gen_staff prefix role i :
  returns (gen_staff orgs prefix role i)
    (λ u, User.userId u = prefix +:+ pretty i ∧ member tenants role u).
Proof.
  unfold gen_staff.
  eapply returns_bind; [apply returns_choice|]. intros tenant Ht; simpl in Ht.
  eapply returns_bind; [apply returns_lift; intros org Horg; exact Horg|].
  intros org Horg; simpl in Horg.
  eapply returns_weaken; [apply returns_new_user|].
  intros u [[= Hid Hrole Horg' Hdep Hoff Hpos] Hfresh].
  split; [done|]. split; [done|]. split; [|split; [|done]].
  - unfold User.tenant. rewrite Horg'. by rewrite (orgs_keyed _ _ Horg).
  - by apply basic_housed_nowhere.
Qed.

Lemma returns_gen_customer i :
  returns (gen_customer orgs i)
    (λ u, User.userId u = "cstmr" +:+ pretty i ∧ member customerTenants "customer" u).
Proof.
  unfold gen_customer.
  eapply returns_bind; [apply returns_choice|]. intros tenant Ht; simpl in Ht.
  eapply returns_bind; [apply returns_lift; intros org Horg; exact Horg|].
  intros org Horg; simpl in Horg.
  eapply returns_bind; [apply returns_True|]. intros department _.
  eapply returns_weaken; [apply returns_new_user|].
  intros u [[= Hid Hrole Horg' Hdep Hoff Hpos] Hfresh].
  split; [done|]. split; [done|]. split; [|split; [|done]].
  - unfold User.tenant. rewrite Horg'. by rewrite (orgs_keyed _ _ Horg).
  - by apply basic_housed_nowhere.
Qed.

Lemma basic_update_registered_keep {B} (π : User → B) users :
  (∀ v u, π (User.set_registered v u) = π u) →
  π <$> update_registered users = π <$> users.
Proof.
  intros Hπ. unfold update_registered. rewrite <- list_fmap_compose.
  apply list_fmap_ext. intros _ u _. simpl. apply Hπ.
Qed.

Lemma basic_assign_payrolling_assigns : assigns assign_payrolling.
Proof.
  intros g users Hne Hvalid. unfold assign_payrolling.
  eapply returns_bind; [apply returns_choice|]. intros chosen Hchosen; simpl in Hchosen.
  set (users1 := alter (User.set_payrollingPermissions true) chosen users).
  assert (has_payroller users1 g) as Hpay.
  { destruct (proj1 (Forall_forall _ _) Hvalid chosen Hchosen) as [u Hu].
    exists chosen, (User.set_payrollingPermissions true u). split; [done|].
    split; [|done]. unfold users1. by rewrite list_lookup_alter_eq, Hu. }
  eapply returns_weaken.
  - apply (returns_for_each _
      (λ users', unpaid <$> users' = unpaid <$> users1 ∧ permission_kept users1 users')).
    + split; [done | apply permission_kept_refl].
    + intros ref users' _ [Hkeep Hmono].
      eapply returns_bind; [apply returns_True|]. intros b _. apply returns_ret.
      destruct b; [|done]. split.
      * by rewrite grant_unpaid.
      * eapply permission_kept_trans; [exact Hmono | apply permission_kept_grant].
  - intros users' [Hkeep Hmono]. split; [|split].
    + rewrite Hkeep. apply grant_unpaid.
    + eapply permission_kept_trans; [apply permission_kept_grant | exact Hmono].
    + by eapply has_payroller_kept.
Qed.
End Stages.

Section Docs.
Variable users : list User.
Hypothesis users_housed : Forall (housed offices) users.
Hypothesis users_pool : Forall (λ u, User.tenant u ∈ all_tenants) users.

(** What the constructor establishes. *)
Definition doc_ok (d : Document) : Prop :=
  inherits users d ∧
  (∀ n, offices !! Document.tenant d = Some n → (n ≤ 0)%Z → Document.office d = "none") ∧
  within_tenant users d.

Lemma returns_get_random_users tenant count :
  returns (get_random_users_from_tenant users tenant count)
    (λ refs, ∀ r, r ∈ refs → ∃ u, users !! r = Some u ∧ User.tenant u = tenant).
Proof.
  unfold get_random_users_from_tenant.
  eapply returns_weaken; [apply returns_sample|].
  intros refs Hsub. by apply same_tenant_refs.
Qed.

Lemma basic_returns_new_document docId docType owner confidential containsPersonalInfo :
  returns (new_document users docId docType owner confidential containsPersonalInfo)
    (λ d, Document.docId d = docId ∧ Document.owner d = owner ∧ doc_ok d).
Proof.
  unfold new_document.
  eapply returns_bind; [apply returns_lift; intros o Ho; exact Ho|].
  intros o Ho; simpl in Ho.
  eapply returns_bind; [apply returns_doc_core|].
  intros [[tenant department] office] (Ht & Hd & Hoff & Hz). simpl in *. subst tenant department.
  assert (User.tenant o ∈ all_tenants) as Hpool
    by (by pose proof (Forall_lookup_1 _ _ _ _ users_pool Ho)).
  set (doc0 := Document.mk docId docType owner confidential containsPersonalInfo
                 (User.tenant o) (User.department o) office ∅ ()).
  assert (within_tenant users doc0) as H0 by (intros r Hr; set_solver).
  eapply returns_bind.
  { instantiate (1 := λ d, doc_base d = doc_base doc0 ∧ within_tenant users d).
    destruct (decide (office ≠ "none")) as [Hne|_].
    - apply returns_ret. split; [done|]. apply within_tenant_update; [done|].
      intros r Hr. eapply (same_office_same_tenant offices all_tenants basic_offices_apart_all);
        [exact users_housed | exact users_pool | exact Hpool | exact Hoff | exact Hne | exact Hr].
    - eapply returns_bind; [apply returns_get_random_users|]. intros refs Hrefs.
      apply returns_ret. split; [done|]. by apply within_tenant_update. }
  intros doc1 [Hb1 H1].
  eapply returns_bind; [apply returns_get_random_users|]. intros refs Hrefs.
  apply returns_ret.
  assert (Document.tenant doc1 = User.tenant o) as Ht1 by (by injection Hb1).
  injection Hb1 as Hid _ Hown _ _ Hten Hdep Hoff1.
  split; [done|]. split; [done|]. split; [|split].
  - exists o. simpl. rewrite Hown, Hten, Hdep. done.
  - simpl. rewrite Hten, Hoff1. exact Hz.
  - apply within_tenant_update; [done|]. by rewrite Ht1.
Qed.

Lemma returns_gen_document i documents :
  Forall doc_ok documents →
  returns (gen_document users i documents) (Forall doc_ok).
Proof.
  intros Hall. unfold gen_document.
  eapply returns_bind; [apply returns_True|]. intros owner _.
  eapply returns_bind; [apply returns_True|]. intros docType _.
  eapply returns_bind; [apply returns_True|]. intros confidential _.
  eapply returns_bind; [apply returns_True|]. intros containsPersonalInfo _.
  eapply returns_bind; [apply basic_returns_new_document|]. intros doc (_ & _ & Hdoc).
  apply returns_ret. apply Forall_app. split; [done | by constructor].
Qed.

Lemma basic_returns_documents n :
  returns (for_each (gen_document users) (range n) []) (Forall doc_ok).
Proof.
  apply returns_for_each; [constructor|]. intros i docs _. apply returns_gen_document.
Qed.

End Docs.

Lemma assign_projects_keep {B} (π : User → B) documents (us : list User) :
  (∀ x u, π (User.add_project x u) = π u) →
  π <$> assign_projects documents us = π <$> us.
Proof. intros Hπ. unfold assign_projects. by apply fmap_foldl_alter_keep. Qed.

Lemma assign_projects_grow documents (us : list User) r u x :
  us !! r = Some u → x ∈ User.projects u →
  ∃ u', assign_projects documents us !! r = Some u' ∧ x ∈ User.projects u'.
Proof.
  revert us u. induction documents as [|d documents IH]; intros us u Hu Hx; simpl; [eauto|].
  destruct (decide (Document.owner d = r)) as [Heq|Hne].
  - apply (IH _ (User.add_project (Document.docId d) u)).
    + by rewrite Heq, list_lookup_alter_eq, Hu.
    + simpl. set_solver.
  - apply (IH _ u); [by rewrite list_lookup_alter_ne | done].
Qed.

(** Every document's id is in the projects of its owner. *)
Lemma assign_projects_owner documents (us : list User) d :
  d ∈ documents → is_Some (us !! Document.owner d) →
  ∃ u, assign_projects documents us !! Document.owner d = Some u ∧
       Document.docId d ∈ User.projects u.
Proof.
  revert us. induction documents as [|d0 documents IH]; intros us Hin [u Hu]; simpl.
  - by apply elem_of_nil in Hin.
  - apply elem_of_cons in Hin as [->|Hin].
    + eapply assign_projects_grow.
      * by rewrite list_lookup_alter_eq, Hu.
      * simpl. set_solver.
    + apply IH; [done|]. apply lookup_lt_is_Some. rewrite length_alter.
      by eapply lookup_lt_Some.
Qed.

(** Every document's id is in the projects of its owner. *)
Definition projects_closed (t : Trace unit unit unit) : Prop :=
  ∀ d, d ∈ documents (final t) →
    ∃ u, users (final t) !! Document.owner d = Some u ∧
         Document.docId d ∈ User.projects u.

Lemma basic_pool_base (pool : list string) (u u' : User) :
  base u' = base u → User.tenant u ∈ pool → User.tenant u' ∈ pool.
Proof. intros Hb. by rewrite (base_tenant _ _ Hb). Qed.

Lemma run_sound c :
  returns (run c)
    (λ t, sound t ∧ projects_closed t ∧ users_by_role (final t) = None ∧
          offices_used t = offices ∧ hierarchy t = position_hierarchy).
Proof.
  unfold run.
  eapply returns_bind; [apply returns_lift; intros orgs Horgs; exact Horgs|].
  intros orgs Horgs; simpl in Horgs.
  pose proof (organizations_keyed orgs Horgs) as Hkeyed.
  eapply returns_bind; [apply (employees_loop _ _ _ _ _ _ Hkeyed)|].
  intros [emps index] Hinv.
  eapply returns_bind;
    [apply returns_collect; intros i _; apply (returns_gen_staff orgs Hkeyed "hdop" "helpdesk" i)|].
  intros hd Hhd.
  apply (Forall2_fmap_seq User.userId (λ i, "hdop" +:+ pretty i) (member tenants "helpdesk"))
    in Hhd as [Hhd_ids Hhd].
  eapply returns_bind;
    [apply returns_collect; intros i _; apply (returns_gen_staff orgs Hkeyed "admin" "admin" i)|].
  intros ad Had.
  apply (Forall2_fmap_seq User.userId (λ i, "admin" +:+ pretty i) (member tenants "admin"))
    in Had as [Had_ids Had].
  eapply returns_bind;
    [apply returns_collect; intros i _; apply (returns_gen_customer orgs Hkeyed i)|].
  intros cu Hcu.
  apply (Forall2_fmap_seq User.userId (λ i, "cstmr" +:+ pretty i)
           (member customerTenants "customer")) in Hcu as [Hcu_ids Hcu].
  cbn [fst snd].
  pose proof Hinv as (Hlen & Hemp_ids & Hemps & _). cbn [fst snd] in Hlen, Hemp_ids, Hemps.
  set (others := hd ++ ad ++ cu).
  assert (∀ role pool (l : list User), role ≠ "employee" →
            Forall (member pool role) l →
            Forall fresh l ∧ Forall (λ u, User.role u ≠ "employee") l ∧
            Forall (housed offices) l ∧ Forall (λ u, User.tenant u ∈ pool) l) as Hsplit.
  { intros role pool l Hrole Hl. repeat split;
      (eapply Forall_impl; [exact Hl|]; intros u (Hr & Ht & Hh & Hf); try done; congruence). }
  destruct (Hsplit "helpdesk" tenants hd) as (Hf1 & Hr1 & Hh1 & Hp1); [done..|].
  destruct (Hsplit "admin" tenants ad) as (Hf2 & Hr2 & Hh2 & Hp2); [done..|].
  destruct (Hsplit "customer" customerTenants cu) as (Hf3 & Hr3 & Hh3 & Hp3); [done..|].
  assert (unique_ids (emps ++ others)) as Hids.
  { unfold unique_ids, others. rewrite !fmap_app, Hemp_ids, Hhd_ids, Had_ids, Hcu_ids.
    pose proof (NoDup_blocks [("user", nUsers c); ("hdop", nHelpdeskOperators c);
                              ("admin", nApplicationAdmins c); ("cstmr", nCustomers c)]) as Hnd.
    unfold blocks, block in Hnd. simpl in Hnd. rewrite app_nil_r in Hnd. apply Hnd.
    - compute_done.
    - unfold id_prefixes. repeat constructor; set_solver. }
  rewrite <- Hlen in Hinv.
  pose proof (resolve_populated tenants departments offices position_hierarchy emps others index
                Hinv Hids) as RF.
  replace (emps ++ hd ++ ad ++ cu) with (emps ++ others) by done.
  set (res := resolve_hierarchy position_hierarchy index (emps ++ others)) in *.
  destruct RF as [Rids Rkeep Rcons Rjust Ridx Rpart Rmem Remp Rhoused Rvalid].
  { unfold others. by rewrite !Forall_app. }
  { unfold others. by rewrite !Forall_app. }
  { unfold others. by rewrite !Forall_app. }
  pose proof (unlinked_base _ _ Rkeep) as Rbase.
  assert (Forall (λ u : User, User.tenant u ∈ all_tenants) res.2) as Rpool.
  { eapply (Forall_base_keep _ (emps ++ others)); [intros u u'; apply basic_pool_base | done |].
    unfold others, all_tenants. rewrite !Forall_app. repeat split.
    - eapply Forall_impl; [exact Hemps|]. intros u (_ & Ht & _). apply elem_of_app. by left.
    - eapply Forall_impl; [exact Hp1|]. intros u Hu. apply elem_of_app. by left.
    - eapply Forall_impl; [exact Hp2|]. intros u Hu. apply elem_of_app. by left.
    - eapply Forall_impl; [exact Hp3|]. intros u Hu. apply elem_of_app. by right. }
  set (users2 := update_registered res.2).
  assert (base <$> users2 = base <$> res.2) as Hbase2
    by (by apply basic_update_registered_keep).
  assert (links <$> users2 = links <$> res.2) as Hlinks2
    by (by apply basic_update_registered_keep).
  eapply returns_bind.
  { apply (payrolling_loop assign_payrolling res.1 users2 basic_assign_payrolling_assigns).
    eapply Forall_impl; [exact Rvalid|]. intros kg [Hne Hv]. split; [done|].
    eapply Forall_impl; [exact Hv|]. intros r. by apply (valid_keep base). }
  intros users3 (Hkeep3 & _ & Hpay3).
  pose proof (fmap_factor unpaid (λ b, b.1.1.1.1) base _ _ (λ _, eq_refl) Hkeep3) as Hbase3.
  pose proof (fmap_factor unpaid (λ b, b.1.1.1.2) links _ _ (λ _, eq_refl) Hkeep3) as Hlinks3.
  assert (base <$> users3 = base <$> res.2) as Hb3 by congruence.
  assert (Forall (housed offices) users3) as Hhoused3.
  { eapply Forall_base_keep; [apply housed_base | exact Hb3 | done]. }
  assert (Forall (λ u : User, User.tenant u ∈ all_tenants) users3) as Hpool3.
  { eapply Forall_base_keep; [intros u u'; apply basic_pool_base | exact Hb3 | done]. }
  eapply returns_bind; [apply (basic_returns_documents users3 Hhoused3 Hpool3)|].
  intros docs Hdocs. apply returns_ret.
  set (users4 := assign_projects docs users3).
  assert (base <$> users4 = base <$> users3) as Hb4 by (by apply assign_projects_keep).
  assert (links <$> users4 = links <$> users3) as Hl4 by (by apply assign_projects_keep).
  split; [split|split; [|done]]; cbn [offices_used hierarchy indexed resolved permitted staffed
                                       created final users users_by_department documents].
  - done.
  - done.
  - done.
  - congruence.
  - congruence.
  - done.
  - done.
  - done.
  - done.
  - done.
  - done.
  - done.
  - by apply assign_projects_keep.
  - done.
  - eapply Forall_impl; [exact Hdocs|]. intros d (Hin & Hz & _). done.
  - done.
  - eapply Forall_impl; [exact Hdocs|]. intros d (_ & _ & Hw).
    by apply (within_tenant_keep users3 users4 d d).
  - exists (emps ++ others). split; [|split].
    + unfold others. rewrite !Forall_app. split; [|done].
      eapply Forall_impl; [exact Hemps|]. by intros u (_ & _ & _ & _ & ?).
    + destruct Hinv as (_ & _ & _ & Hjoin & _). cbn [fst snd] in Hjoin. rewrite Hjoin.
      apply Forall_forall. intros r Hr%elem_of_seq. apply lookup_lt_is_Some.
      rewrite length_app. lia.
    + unfold res. by destruct (resolve_hierarchy _ _ _).
  - intros d Hd. apply assign_projects_owner; [done|].
    by pose proof (proj1 (Forall_forall _ _) Hdocs d Hd) as ((u & Hu & _) & _).
Qed.

Lemma basic_assign_payrolling_grants : grants assign_payrolling.
Proof.
  intros g users. unfold assign_payrolling.
  eapply returns_bind; [apply returns_choice|]. intros chosen Hchosen; simpl in Hchosen.
  set (users1 := alter (User.set_payrollingPermissions true) chosen users).
  eapply returns_weaken.
  - apply (returns_for_each _
      (λ users', unpaid <$> users' = unpaid <$> users ∧ confined g users users')).
    + split; [apply grant_unpaid|]. by apply confined_grant, confined_refl.
    + intros ref users' Href [Hkeep Hc].
      eapply returns_bind; [apply returns_True|]. intros b _. apply returns_ret.
      destruct b; [|done]. split; [by rewrite grant_unpaid | by apply confined_grant].
  - done.
Qed.

(** [registered] is whether the user has a supervisee. *)
Definition registered_exact (t : Trace unit unit unit) : Prop :=
  Forall (λ u, User.registered u = bool_decide (User.supervisee u ≠ ∅)) (permitted t).

Lemma run_staged c : returns (run c) (λ t, staged t ∧ registered_exact t).
Proof.
  unfold run.
  eapply returns_bind; [apply returns_True|]. intros orgs _.
  eapply returns_bind; [apply returns_True|]. intros st _.
  eapply returns_bind; [apply returns_True|]. intros hd _.
  eapply returns_bind; [apply returns_True|]. intros ad _.
  eapply returns_bind; [apply returns_True|]. intros cu _.
  cbn zeta.
  set (res := resolve_hierarchy position_hierarchy st.2 (st.1 ++ hd ++ ad ++ cu)).
  set (users2 := update_registered res.2).
  eapply returns_bind; [apply (grants_loop _ _ _ basic_assign_payrolling_grants)|].
  intros users3 [Hk3 Hc3].
  eapply returns_bind; [apply returns_True|]. intros docs _.
  apply returns_ret.
  assert (Forall (λ u : User, User.registered u = bool_decide (User.supervisee u ≠ ∅)) users3)
    as Hreg.
  { apply Forall_lookup. intros r u3 Hu3.
    pose proof (fmap_factor unpaid (λ b, (b.1.2, b.1.1.1.2.2))
                  (λ u : User, (User.registered u, User.supervisee u))
                  _ _ (λ _, eq_refl) Hk3) as Hk.
    destruct (fmap_eq_lookup _ _ _ r u3 Hk Hu3) as (u2 & Hu2 & Hb).
    unfold users2, update_registered in Hu2. rewrite list_lookup_fmap in Hu2.
    destruct (res.2 !! r) as [u|]; [|done]. simpl in Hu2. injection Hu2 as <-.
    simpl in Hb. injection Hb as H1 H2. by rewrite <- H1, H2. }
  split; [split|]; cbn [final users permitted resolved users_by_department].
  - by apply assign_projects_keep.
  - rewrite (fmap_factor unpaid (λ b, (b.1.1.1.1, b.1.1.1.2, b.1.1.2, b.2)) unregistered
               _ _ (λ _, eq_refl) Hk3).
    by apply basic_update_registered_keep.
  - eapply confined_keep; [|exact Hc3]. symmetry. by apply basic_update_registered_keep.
  - eapply Forall_impl; [exact Hreg|]. intros u -> Hne. by apply bool_decide_eq_true.
  - done.
Qed.
End BasicFacts.

(** ** The extended variant *)

Module ExtendedFacts.
Import Extended.

Abbreviation Document := (Document.t DocExt).

Definition all_tenants : list string := tenants ++ customerTenants.

Lemma extended_offices_apart_all : offices_apart all_tenants.
Proof.
  intros t1 t2 k1 k2 H1 H2. unfold all_tenants, tenants, customerTenants in *. simpl in *.
  repeat (apply elem_of_cons in H1 as [->|H1]); [..|by apply elem_of_nil in H1];
  repeat (apply elem_of_cons in H2 as [->|H2]); try (by apply elem_of_nil in H2);
  intros H; simpl in H; try discriminate H; done.
Qed.

(** A department name belongs to one tenant only. *)
Lemma departments_apart :
  map_Forall (λ t1 ds1,
    map_Forall (λ t2 ds2,
      Forall (λ d1, Forall (λ d2, or_none (Some d1) = or_none (Some d2) → t1 = t2) ds2) ds1)
      departments)
    departments.
Proof. compute_done. Qed.

(** Every user is in the list of its role. *)
Definition role_indexed (users : list User) (by_role : RoleIndex) : Prop :=
  ∀ r u, users !! r = Some u → ∃ l, (User.role u, l) ∈ by_role ∧ r ∈ l.

Lemma role_indexed_append users by_role (u : User) :
  role_indexed users by_role →
  role_indexed (users ++ [u]) (index_append (User.role u) (length users) by_role).
Proof.
  intros Hri r u' Hu'. apply lookup_app_Some in Hu' as [Hu'|[Hge Hu']].
  - destruct (Hri r u' Hu') as (l & Hl & Hr).
    destruct (index_append_keep (User.role u) (length users) by_role _ _ Hl) as (l' & Hl' & Hsub).
    exists l'. split; [done | by apply Hsub].
  - apply list_lookup_singleton_Some in Hu' as [Hr ->].
    assert (r = length users) as -> by lia. apply index_append_elem.
Qed.

Section Stages.
Variable today : Z.
Variable offices : gmap string Z.
Variable orgs : gmap string Organization.
Hypothesis orgs_keyed : keyed orgs.

(** What the loops after the employee loop give a user. *)
Definition member (pool : list string) (role : string) (u : User) : Prop :=
  User.role u = role ∧ User.tenant u ∈ pool ∧ housed offices u ∧
  departmental departments u ∧ fresh u.

Lemma extended_housed_nowhere (u : User) :
  User.office u = "none" → User.position u = "none" → housed offices u.
Proof.
  intros Ho Hp. split; [by left|]. intros n _ _. split; [done|].
  rewrite Hp. unfold office_positions. set_solver.
Qed.

(** The state of the user loops: [users], [users_by_department],
    [users_by_role]. *)
Abbreviation UserState := (list User * Groups * RoleIndex)%type.

Lemma returns_gen_member pool prefix role i (st : UserState) :
  returns (gen_member today orgs pool prefix role i st)
    (λ st', ∃ u, st'.1.1 = st.1.1 ++ [u] ∧ st'.1.2 = st.1.2 ∧
                 st'.2 = index_append role (length st.1.1) st.2 ∧
                 User.userId u = prefix +:+ pretty i ∧ member pool role u).
Proof.
  unfold gen_member.
  eapply returns_bind; [apply returns_choice|]. intros tenant Ht; simpl in Ht.
  eapply returns_bind; [apply returns_lift; intros ds Hds; exact Hds|].
  intros ds Hds; simpl in Hds.
  eapply returns_bind; [apply returns_choice|]. intros department Hd; simpl in Hd.
  eapply returns_bind; [apply returns_lift; intros org Horg; exact Horg|].
  intros org Horg; simpl in Horg.
  eapply returns_bind; [apply returns_new_user|].
  intros u [[= Hid Hrole Horg' Hdep Hoff Hpos] Hfresh]. apply returns_ret.
  assert (User.tenant u = tenant) as Hten.
  { unfold User.tenant. rewrite Horg'. by apply orgs_keyed. }
  exists u. simpl. do 4 (split; [done|]).
  split; [done|]. split; [by rewrite Hten|]. split; [by apply extended_housed_nowhere|].
  split; [|done]. exists ds, department. by rewrite Hten.
Qed.

Lemma members_loop pool prefix role n (st : UserState) :
  returns (for_each (gen_member today orgs pool prefix role) (range n) st)
    (λ st', ∃ new, st'.1.1 = st.1.1 ++ new ∧ st'.1.2 = st.1.2 ∧
                   User.userId <$> new = block prefix n ∧
                   Forall (member pool role) new ∧
                   (role_indexed st.1.1 st.2 → role_indexed st'.1.1 st'.2)).
Proof.
  apply (returns_for_each_seq _
    (λ i (st' : UserState), ∃ new, st'.1.1 = st.1.1 ++ new ∧ st'.1.2 = st.1.2 ∧
        User.userId <$> new = block prefix i ∧ Forall (member pool role) new ∧
        (role_indexed st.1.1 st.2 → role_indexed st'.1.1 st'.2)) 0 n).
  - exists []. by rewrite app_nil_r.
  - intros i st' _ (new & Hu & Hi & Hids & Hall & Hri).
    eapply returns_weaken; [apply returns_gen_member|].
    intros st'' (u & Hu' & Hi' & Hr' & Hid & Hm).
    exists (new ++ [u]). split; [|split; [|split; [|split]]].
    + by rewrite Hu', Hu, app_assoc.
    + congruence.
    + unfold block in *. rewrite fmap_app, Hids, seq_S, fmap_app. simpl. by rewrite Hid.
    + apply Forall_app. split; [done | by constructor].
    + intros H0. rewrite Hu', Hr'. destruct Hm as [<- _]. by apply role_indexed_append, Hri.
Qed.

(** The loop over the specialized roles. *)
Lemma specialized_loop (roles : list (string * string * nat)) (st : UserState) :
  returns
    (for_each
       (λ '(prefix, role, count) st,
          for_each (gen_member today orgs tenants prefix role) (range count) st)
       roles st)
    (λ st', ∃ new, st'.1.1 = st.1.1 ++ new ∧ st'.1.2 = st.1.2 ∧
                   User.userId <$> new = blocks ((λ x, (x.1.1, x.2)) <$> roles) ∧
                   Forall (λ u, ∃ role, role ∈ roles.*1.*2 ∧ member tenants role u) new ∧
                   (role_indexed st.1.1 st.2 → role_indexed st'.1.1 st'.2)).
Proof.
  revert st. induction roles as [|[[prefix role] count] roles IH]; intros st; simpl.
  - apply returns_ret. exists []. by rewrite app_nil_r.
  - eapply returns_bind; [apply members_loop|].
    intros st1 (new1 & Hu1 & Hi1 & Hids1 & Hall1 & Hri1).
    eapply returns_weaken; [apply IH|].
    intros st2 (new2 & Hu2 & Hi2 & Hids2 & Hall2 & Hri2).
    exists (new1 ++ new2). split; [|split; [|split; [|split]]].
    + by rewrite Hu2, Hu1, app_assoc.
    + congruence.
    + unfold blocks in *. simpl. by rewrite fmap_app, Hids1, Hids2.
    + apply Forall_app. split.
      * eapply Forall_impl; [exact Hall1|]. intros u Hu. exists role. split; [left | done].
      * eapply Forall_impl; [exact Hall2|]. intros u (r & Hr & Hu). exists r.
        split; [by right | done].
    + auto.
Qed.

Lemma gen_regular_employee_inv i (st : UserState) :
  employees_inv tenants departments offices i st.1 → role_indexed st.1.1 st.2 →
  returns (gen_regular_employee today offices orgs i st)
    (λ st', employees_inv tenants departments offices (S i) st'.1 ∧
            role_indexed st'.1.1 st'.2).
Proof.
  intros Hinv Hri. unfold gen_regular_employee.
  eapply returns_bind.
  { apply (returns_and _ (employees_inv tenants departments offices (S i))
                         (λ st', ∃ u, st'.1 = st.1.1 ++ [u] ∧ User.role u = "employee")).
    - by apply gen_employee_inv.
    - unfold gen_employee.
      eapply returns_bind; [apply returns_True|]. intros [[[tenant position] office] department] _.
      eapply returns_bind; [apply returns_True|]. intros org _.
      eapply returns_bind; [apply returns_new_user|].
      intros u [[= _ Hrole _ _ _ _] _]. apply returns_ret. by exists u. }
  intros st' [Hinv' (u & Hu & Hrole)]. apply returns_ret. simpl. split; [done|].
  rewrite Hu, <- Hrole. by apply role_indexed_append.
Qed.

(** What the later loops give a user, whatever its role. *)
Definition outsider (u : User) : Prop :=
  User.role u ≠ "employee" ∧ User.tenant u ∈ all_tenants ∧ housed offices u ∧
  departmental departments u ∧ fresh u.

Lemma returns_gen_users c :
  returns (gen_users today offices orgs c)
    (λ st, ∃ emps others,
       st.1.1 = emps ++ others ∧
       employees_inv tenants departments offices (length emps) (emps, st.1.2) ∧
       unique_ids (emps ++ others) ∧ Forall outsider others ∧
       role_indexed st.1.1 st.2).
Proof.
  unfold gen_users.
  eapply returns_bind.
  { apply (returns_for_each_seq _
      (λ i (st : UserState), employees_inv tenants departments offices i st.1 ∧
                             role_indexed st.1.1 st.2) 0 (nUsers c)).
    - split; [by repeat split|]. intros r u Hu. simpl in Hu. by rewrite lookup_nil in Hu.
    - intros i st _ [Hinv Hri]. by apply gen_regular_employee_inv. }
  intros [[emps index] by_role] [Hinv Hri]. simpl in Hinv, Hri.
  eapply returns_bind; [apply specialized_loop|].
  intros st1 (new1 & Hu1 & Hi1 & Hids1 & Hall1 & Hri1). simpl in Hu1, Hi1, Hri1.
  eapply returns_weaken; [apply members_loop|].
  intros st2 (new2 & Hu2 & Hi2 & Hids2 & Hall2 & Hri2).
  pose proof Hinv as (Hlen & Hemp_ids & _). simpl in Hlen, Hemp_ids.
  exists emps, (new1 ++ new2). split; [|split; [|split; [|split]]].
  - by rewrite Hu2, Hu1, app_assoc.
  - rewrite Hi2, Hi1, Hlen. done.
  - unfold unique_ids. rewrite !fmap_app, Hemp_ids, Hids1, Hids2.
    assert (NoDup (blocks ([("user", nUsers c)]
              ++ ((λ x, (x.1.1, x.2)) <$> specialized_roles c)
              ++ [("cstmr", nCustomers c)]))) as Hnd.
    { apply NoDup_blocks.
      - compute_done.
      - unfold id_prefixes. simpl. repeat constructor; set_solver. }
    rewrite !blocks_app, !blocks_singleton in Hnd. exact Hnd.
  - apply Forall_app. split.
    + eapply Forall_impl; [exact Hall1|]. intros u (role & Hrole & Hr & Ht & Hh & Hd & Hf).
      split; [|split; [|done]].
      * rewrite Hr. intros ->. simpl in Hrole. set_solver.
      * apply elem_of_app. by left.
    + eapply Forall_impl; [exact Hall2|]. intros u (Hr & Ht & Hh & Hd & Hf).
      split; [by rewrite Hr|]. split; [|done]. apply elem_of_app. by right.
  - auto.
Qed.

(** The fields no stage changes after the payrolling loop. *)
Definition core (u : User) := (base u, links u, User.payrollingPermissions u).

Lemma core_base (users users' : list User) :
  core <$> users' = core <$> users → base <$> users' = base <$> users.
Proof. by apply (fmap_factor core (λ b, b.1.1)). Qed.

Lemma core_links (users users' : list User) :
  core <$> users' = core <$> users → links <$> users' = links <$> users.
Proof. by apply (fmap_factor core (λ b, b.1.2)). Qed.

Lemma core_payroll (users users' : list User) :
  core <$> users' = core <$> users →
  User.payrollingPermissions <$> users' = User.payrollingPermissions <$> users.
Proof. by apply (fmap_factor core (λ b, b.2)). Qed.

Lemma extended_update_registered_keep {B} (π : User → B) users :
  (∀ v u, π (User.set_registered v u) = π u) →
  returns (update_registered users) (λ users', π <$> users' = π <$> users).
Proof.
  intros Hπ. unfold update_registered.
  eapply returns_weaken.
  - apply (returns_collect _ (λ u u', π u' = π u)). intros u _.
    destruct (_ || _).
    + apply returns_ret. apply Hπ.
    + eapply returns_bind; [apply returns_True|]. intros b _. apply returns_ret. apply Hπ.
  - intros users'. apply Forall2_fmap_keep.
Qed.

Lemma extended_assign_payrolling_assigns : assigns assign_payrolling.
Proof.
  intros g users Hne Hvalid. unfold assign_payrolling.
  destruct (decide (g = [])) as [|_]; [done|].
  eapply returns_bind; [apply returns_choice|]. intros chosen Hchosen; simpl in Hchosen.
  set (users1 := alter (User.set_payrollingPermissions true) chosen users).
  assert (has_payroller users1 g) as Hpay.
  { destruct (proj1 (Forall_forall _ _) Hvalid chosen Hchosen) as [u Hu].
    exists chosen, (User.set_payrollingPermissions true u). split; [done|].
    split; [|done]. unfold users1. by rewrite list_lookup_alter_eq, Hu. }
  eapply returns_weaken.
  - apply (returns_for_each _
      (λ users', unpaid <$> users' = unpaid <$> users1 ∧ permission_kept users1 users')).
    + split; [done | apply permission_kept_refl].
    + intros ref users' _ [Hkeep Hmono].
      eapply returns_bind; [apply returns_True|]. intros u _.
      eapply returns_bind; [apply returns_True|]. intros b _. apply returns_ret.
      destruct b; [|done]. split.
      * by rewrite grant_unpaid.
      * eapply permission_kept_trans; [exact Hmono | apply permission_kept_grant].
  - intros users' [Hkeep Hmono]. split; [|split].
    + rewrite Hkeep. apply grant_unpaid.
    + eapply permission_kept_trans; [apply permission_kept_grant | exact Hmono].
    + by eapply has_payroller_kept.
Qed.

Lemma gen_project_keep {B} (π : User → B) i users :
  (∀ x u, π (join_project x u) = π u) →
  returns (gen_project i users) (λ users', π <$> users' = π <$> users).
Proof.
  intros Hπ. unfold gen_project.
  eapply returns_bind; [apply returns_True|]. intros project_owner _.
  eapply returns_bind; [apply returns_True|]. intros project_phase _.
  eapply returns_bind; [apply returns_True|]. intros project_budget _.
  eapply returns_bind; [apply returns_True|]. intros project_team_size _.
  eapply returns_bind; [apply returns_True|]. intros project_team _.
  apply returns_ret.
  apply (fmap_foldl_alter_keep π (λ _ : nat, join_project ("proj" +:+ pretty i)) id).
  intros _ u. apply Hπ.
Qed.

Lemma on_ext_collect_keep {B} (π : User → B) (body : User → M User) users :
  (∀ u, returns (body u) (λ u', π u' = π u)) →
  returns (collect body users) (λ users', π <$> users' = π <$> users).
Proof.
  intros Hbody. eapply returns_weaken.
  - apply (returns_collect _ (λ u u', π u' = π u)). intros u _. apply Hbody.
  - intros users'. apply Forall2_fmap_keep.
Qed.

Lemma gen_past_projects_keep {B} (π : User → B) users :
  (∀ f u, π (on_ext f u) = π u) →
  returns (gen_past_projects users) (λ users', π <$> users' = π <$> users).
Proof.
  intros Hπ. apply on_ext_collect_keep. intros u.
  eapply returns_bind; [apply returns_True|]. intros [] _; [|by apply returns_ret].
  eapply returns_bind; [apply returns_True|]. intros k _.
  eapply returns_bind; [apply returns_True|]. intros ids _.
  apply returns_ret. apply Hπ.
Qed.

Lemma gen_temporary_access_keep {B} (π : User → B) users :
  (∀ f u, π (on_ext f u) = π u) →
  returns (gen_temporary_access users) (λ users', π <$> users' = π <$> users).
Proof.
  intros Hπ. apply on_ext_collect_keep. intros u.
  eapply returns_bind; [apply returns_True|]. intros [] _; [|by apply returns_ret].
  eapply returns_bind; [apply returns_True|]. intros k _.
  eapply returns_bind; [apply returns_True|]. intros ids _.
  apply returns_ret. apply Hπ.
Qed.

Lemma gen_delegation_keep {B} (π : User → B) ref users :
  (∀ f u, π (on_ext f u) = π u) →
  returns (gen_delegation ref users) (λ users', π <$> users' = π <$> users).
Proof.
  intros Hπ. unfold gen_delegation.
  eapply returns_bind; [apply returns_True|]. intros user _.
  eapply returns_bind; [apply returns_True|]. intros [] _; [|by apply returns_ret].
  destruct (decide (_ = [])); [by apply returns_ret|].
  eapply returns_bind; [apply returns_True|]. intros delegate _.
  apply returns_ret. by apply fmap_alter_keep.
Qed.

Lemma delegation_loop_keep {B} (π : User → B) (refs : list nat) users :
  (∀ f u, π (on_ext f u) = π u) →
  returns (for_each gen_delegation refs users) (λ users', π <$> users' = π <$> users).
Proof.
  intros Hπ. apply (returns_for_each _ (λ users', π <$> users' = π <$> users)); [done|].
  intros ref users' _ Hkeep. eapply returns_weaken; [by apply (gen_delegation_keep π)|].
  intros users''. simpl. congruence.
Qed.

Lemma project_loop_keep {B} (π : User → B) (l : list nat) users :
  (∀ x u, π (join_project x u) = π u) →
  returns (for_each gen_project l users) (λ users', π <$> users' = π <$> users).
Proof.
  intros Hπ. apply (returns_for_each _ (λ users', π <$> users' = π <$> users)); [done|].
  intros i users' _ Hkeep. eapply returns_weaken; [by apply (gen_project_keep π)|].
  intros users''. simpl. congruence.
Qed.

Section Docs.
Variable users : list User.
Hypothesis users_housed : Forall (housed offices) users.
Hypothesis users_pool : Forall (λ u, User.tenant u ∈ all_tenants) users.
Hypothesis users_departmental : Forall (departmental departments) users.

(** What the constructor establishes. *)
Definition doc_ok (d : Document) : Prop :=
  inherits users d ∧
  office_of (Document.tenant d) (Document.office d) ∧
  (∀ n, offices !! Document.tenant d = Some n → (n ≤ 0)%Z → Document.office d = "none") ∧
  Document.tenant d ∈ all_tenants ∧
  (∃ ds dpt, departments !! Document.tenant d = Some ds ∧ dpt ∈ ds ∧
             Document.department d = or_none (Some dpt)) ∧
  Document.recipients d = ∅.

Lemma extended_returns_new_document docId docType owner confidential containsPersonalInfo :
  returns (new_document today offices users docId docType owner confidential
             containsPersonalInfo)
    doc_ok.
Proof.
  unfold new_document.
  eapply returns_bind; [apply returns_lift; intros o Ho; exact Ho|].
  intros o Ho; simpl in Ho.
  eapply returns_bind; [apply returns_doc_core|].
  intros [[tenant department] office] (Ht & Hd & Hoff & Hz). simpl in *. subst tenant department.
  eapply returns_bind; [apply returns_True|]. intros x _. apply returns_ret.
  split; [by exists o|]. split; [done|]. split; [done|]. simpl.
  split; [by pose proof (Forall_lookup_1 _ _ _ _ users_pool Ho)|].
  split; [|done]. by pose proof (Forall_lookup_1 _ _ _ _ users_departmental Ho).
Qed.

Lemma extended_returns_documents n :
  returns (for_each (gen_document today offices users) (range n) []) (Forall doc_ok).
Proof.
  apply returns_for_each; [constructor|]. intros i docs _ Hall. unfold gen_document.
  eapply returns_bind; [apply returns_True|]. intros owner _.
  eapply returns_bind; [apply returns_True|]. intros docType _.
  eapply returns_bind; [apply returns_True|]. intros confidential _.
  eapply returns_bind; [apply returns_True|]. intros containsPersonalInfo _.
  eapply returns_bind; [apply extended_returns_new_document|]. intros doc Hdoc.
  apply returns_ret. apply Forall_app. split; [done | by constructor].
Qed.

(** The users of a given department are users of the tenant it belongs to. *)
Lemma same_department_same_tenant (d : Document) r :
  doc_ok d →
  r ∈ refs_where (λ u, bool_decide (User.department u = Document.department d)) users →
  ∃ u, users !! r = Some u ∧ User.tenant u = Document.tenant d.
Proof.
  intros (_ & _ & _ & _ & (ds & dpt & Hds & Hdpt & Hdep) & _)
    (u & Hu & Heq)%elem_of_refs_where.
  apply bool_decide_eq_true in Heq. exists u. split; [done|].
  pose proof (Forall_lookup_1 _ _ _ _ users_departmental Hu) as (ds' & dpt' & Hds' & Hdpt' & Hdep').
  pose proof (map_Forall_lookup_1 _ _ _ _ departments_apart Hds') as H1.
  pose proof (map_Forall_lookup_1 _ _ _ _ H1 Hds) as H2. simpl in H2.
  pose proof (proj1 (Forall_forall _ _) H2 dpt' Hdpt') as H3. simpl in H3.
  apply (proj1 (Forall_forall _ _) H3 dpt Hdpt).
  change (or_none (Some dpt') = or_none (Some dpt)). congruence.
Qed.

Lemma returns_set_recipients (d : Document) :
  doc_ok d →
  returns (set_recipients users d)
    (λ d', doc_base d' = doc_base d ∧ Document.ext d' = Document.ext d ∧
           within_tenant users d').
Proof.
  intros Hok. pose proof Hok as (_ & Hoff & _ & Hpool & _ & Hempty).
  assert (within_tenant users d) as H0 by (intros r Hr; rewrite Hempty in Hr; set_solver).
  unfold set_recipients.
  eapply returns_bind.
  { instantiate (1 := λ d', doc_base d' = doc_base d ∧ Document.ext d' = Document.ext d ∧
                            within_tenant users d').
    destruct (decide (Document.office d ≠ "none")) as [Hne|_]; [|by apply returns_ret].
    destruct (decide (_ = [])); [by apply returns_ret|].
    eapply returns_bind; [apply returns_True|]. intros k _. apply returns_ret.
    split; [done|]. split; [done|]. apply within_tenant_update; [done|].
    intros r Hr%elem_of_take. destruct Hr as (i & Hi & _).
    apply list_elem_of_lookup_2 in Hi.
    by eapply (same_office_same_tenant offices all_tenants extended_offices_apart_all). }
  intros d1 (Hb1 & He1 & H1).
  assert (Document.tenant d1 = Document.tenant d) as Ht1 by (by injection Hb1).
  assert (Document.department d1 = Document.department d) as Hd1 by (by injection Hb1).
  eapply returns_bind.
  { instantiate (1 := λ d', doc_base d' = doc_base d ∧ Document.ext d' = Document.ext d ∧
                            within_tenant users d').
    destruct (decide (_ = [])); [by apply returns_ret|].
    eapply returns_bind; [apply returns_True|]. intros k _.
    eapply returns_bind; [apply returns_sample|]. intros refs Hrefs. apply returns_ret.
    split; [done|]. split; [done|]. apply within_tenant_update; [done|].
    by apply same_tenant_refs. }
  intros d2 (Hb2 & He2 & H2).
  assert (Document.tenant d2 = Document.tenant d) as Ht2 by (by injection Hb2).
  assert (Document.department d2 = Document.department d) as Hd2 by (by injection Hb2).
  destruct (decide (_ = [])); [by apply returns_ret|].
  eapply returns_bind; [apply returns_True|]. intros k _.
  eapply returns_bind; [apply returns_sample|]. intros refs Hrefs. apply returns_ret.
  split; [done|]. split; [done|]. apply within_tenant_update; [done|].
  intros r Hr. rewrite Ht2. apply same_department_same_tenant; [done|].
  rewrite <- Hd2. by apply Hrefs.
Qed.
End Docs.

(** The projects of every user only grow, and an empty set stays empty. *)
Definition grown (users users' : list User) : Prop :=
  ∀ r u', users' !! r = Some u' →
    ∃ u, users !! r = Some u ∧ User.projects u ⊆ User.projects u' ∧
         (User.projects u' ≠ ∅ → User.projects u ≠ ∅).

(** The document's id is in the projects of its owner, unless the owner
    has no project at all. *)
Definition filed (users : list User) (d : Document) : Prop :=
  ∀ u, users !! Document.owner d = Some u → User.projects u ≠ ∅ →
       Document.docId d ∈ User.projects u.

Lemma grown_refl users : grown users users.
Proof. intros r u Hu. exists u. done. Qed.

Lemma filed_grown users users' (d d' : Document) :
  doc_base d' = doc_base d → grown users users' → filed users d → filed users' d'.
Proof.
  intros [= Hid _ Hown _ _ _ _ _] Hg Hf u' Hu' Hne. rewrite Hown in Hu'. rewrite Hid.
  destruct (Hg _ u' Hu') as (u & Hu & Hsub & Hne'). apply Hsub, Hf; auto.
Qed.

Lemma fmap_insert_keep {A B} (π : A → B) (l : list A) i x x' :
  l !! i = Some x → π x' = π x → π <$> <[i:=x']> l = π <$> l.
Proof.
  intros Hx Hπ. rewrite list_fmap_insert, Hπ. apply list_insert_id.
  by rewrite list_lookup_fmap, Hx.
Qed.

Lemma returns_relate i (users : list User) (docs : list Document) :
  returns (relate i (users, docs))
    (λ st', core <$> st'.1 = core <$> users ∧ grown users st'.1 ∧
            doc_base <$> st'.2 = doc_base <$> docs ∧
            Document.recipients <$> st'.2 = Document.recipients <$> docs ∧
            (∀ d', st'.2 !! i = Some d' → filed st'.1 d')).
Proof.
  unfold relate.
  eapply returns_bind; [apply returns_lift; intros doc Hdoc; exact Hdoc|].
  intros doc Hdoc; simpl in Hdoc.
  eapply returns_bind; [apply returns_lift; intros owner Ho; exact Ho|].
  intros owner Ho; simpl in Ho.
  set (users' := if decide (User.projects owner ≠ ∅)
                 then alter (User.add_project (Document.docId doc)) (Document.owner doc) users
                 else users).
  assert (core <$> users' = core <$> users) as Hcore.
  { unfold users'. destruct (decide _); [by apply fmap_alter_keep | done]. }
  assert (grown users users') as Hgrown.
  { unfold users'. destruct (decide _) as [Hne|]; [|apply grown_refl].
    intros r u'. rewrite list_lookup_alter.
    destruct (decide (Document.owner doc = r)) as [<-|_].
    - rewrite Ho. simpl. intros [= <-]. exists owner. split; [done|]. simpl. set_solver.
    - intros Hu'. exists u'. done. }
  assert (filed users' doc) as Hfiled.
  { unfold users'. intros u'. destruct (decide _) as [Hne|He].
    - rewrite list_lookup_alter_eq, Ho. simpl. intros [= <-] _. simpl. set_solver.
    - rewrite Ho. intros [= <-] Hne. by apply dec_stable in He. }
  eapply returns_bind.
  { instantiate (1 := λ d', doc_base d' = doc_base doc ∧
                            Document.recipients d' = Document.recipients doc).
    destruct (bool_decide _); [|by apply returns_ret].
    eapply returns_bind.
    { instantiate (1 := λ d', doc_base d' = doc_base doc ∧
                              Document.recipients d' = Document.recipients doc).
      destruct (decide (_ = [])); [by apply returns_ret|].
      eapply returns_bind; [apply returns_True|]. intros k _.
      eapply returns_bind; [apply returns_True|]. intros r _. by apply returns_ret. }
    intros d1 [Hb1 Hr1].
    destruct (decide (_ = [])); [by apply returns_ret|].
    eapply returns_bind; [apply returns_True|]. intros k _.
    eapply returns_bind; [apply returns_True|]. intros r _. by apply returns_ret. }
  intros d1 [Hb1 Hr1].
  eapply returns_bind; [apply returns_True|]. intros b _.
  eapply returns_bind.
  { instantiate (1 := λ d', doc_base d' = doc_base doc ∧
                            Document.recipients d' = Document.recipients doc).
    destruct b; [|by apply returns_ret].
    eapply returns_bind; [apply returns_True|]. intros k _.
    eapply returns_bind; [apply returns_True|]. intros r _. by apply returns_ret. }
  intros d2 [Hb2 Hr2]. apply returns_ret. cbn [fst snd].
  split; [done|]. split; [done|].
  split; [by apply (fmap_insert_keep _ _ _ doc)|].
  split; [by apply (fmap_insert_keep _ _ _ doc)|].
  intros d'. rewrite list_lookup_insert_eq by (by eapply lookup_lt_Some).
  intros [= <-]. by apply (filed_grown users' users' doc d2), Hfiled; [|apply grown_refl].
Qed.

Lemma grown_trans users1 users2 users3 :
  grown users1 users2 → grown users2 users3 → grown users1 users3.
Proof.
  intros H12 H23 r u3 Hu3.
  destruct (H23 r u3 Hu3) as (u2 & Hu2 & Hs2 & Hn2).
  destruct (H12 r u2 Hu2) as (u1 & Hu1 & Hs1 & Hn1).
  exists u1. split; [done|]. split; [set_solver | auto].
Qed.

Lemma relate_loop (users : list User) (docs : list Document) :
  returns (for_each relate (range (length docs)) (users, docs))
    (λ st', core <$> st'.1 = core <$> users ∧
            doc_base <$> st'.2 = doc_base <$> docs ∧
            Document.recipients <$> st'.2 = Document.recipients <$> docs ∧
            grown users st'.1 ∧
            Forall (filed st'.1) st'.2).
Proof.
  eapply returns_weaken.
  - apply (returns_for_each_seq _
      (λ i (st' : list User * list Document),
         core <$> st'.1 = core <$> users ∧
         doc_base <$> st'.2 = doc_base <$> docs ∧
         Document.recipients <$> st'.2 = Document.recipients <$> docs ∧
         grown users st'.1 ∧
         (∀ j d, j < i → st'.2 !! j = Some d → filed st'.1 d)) 0 (length docs)).
    + split; [done|]. split; [done|]. split; [done|]. split; [apply grown_refl|].
      intros j d Hj. lia.
    + intros i [users1 docs1] _ (Hc & Hb & Hr & Hg & Hf). cbn [fst snd] in *.
      eapply returns_weaken; [apply returns_relate|].
      intros [users2 docs2] (Hc2 & Hg2 & Hb2 & Hr2 & Hnew). cbn [fst snd] in *.
      split; [congruence|]. split; [congruence|]. split; [congruence|].
      split; [by apply (grown_trans users users1 users2)|].
      intros j d2 Hj Hd2. destruct (decide (j = i)) as [->|Hne]; [by apply Hnew|].
      destruct (fmap_eq_lookup doc_base docs1 docs2 j d2 Hb2 Hd2) as (d1 & Hd1 & Hbd).
      eapply (filed_grown users1 users2 d1 d2); [by symmetry | done |].
      apply (Hf j); [lia | done].
  - intros [users' docs'] (Hc & Hb & Hr & Hg & Hf). cbn [fst snd] in *.
    split; [done|]. split; [done|]. split; [done|]. split; [done|].
    apply Forall_lookup. intros j d Hd. apply (Hf j); [|done].
    apply lookup_lt_Some in Hd.
    rewrite <- (length_fmap doc_base docs'), Hb, length_fmap in Hd. lia.
Qed.

(** In the population written out a document's id is in the projects of
    its owner exactly when the owner had a project before the relationships
    were set ([users] is not changed between the document loop and that
    one). *)
Definition projects_guarded (t : Trace OrgExt UserExt DocExt) : Prop :=
  ∀ d u, d ∈ documents (final t) → users (final t) !! Document.owner d = Some u →
    ∃ u0, staffed t !! Document.owner d = Some u0 ∧
          (Document.docId d ∈ User.projects u ↔ User.projects u0 ≠ ∅).

(** Every user is in the list of its role. *)
Definition roles_indexed (t : Trace OrgExt UserExt DocExt) : Prop :=
  ∃ by_role, users_by_role (final t) = Some by_role ∧
             role_indexed (users (final t)) by_role.

Lemma role_indexed_keep users users' by_role :
  base <$> users' = base <$> users → role_indexed users by_role →
  role_indexed users' by_role.
Proof.
  intros Hb Hri r u' Hu'.
  destruct (fmap_eq_lookup base users users' r u' Hb Hu') as (u & Hu & Hbu).
  rewrite <- (base_role _ _ Hbu). by apply Hri.
Qed.

Lemma extended_pool_base (pool : list string) (u u' : User) :
  base u' = base u → User.tenant u ∈ pool → User.tenant u' ∈ pool.
Proof. intros Hb. by rewrite (base_tenant _ _ Hb). Qed.

Lemma run_stages_sound c :
  returns (run_stages today offices orgs c)
    (λ t, sound t ∧ projects_guarded t ∧ roles_indexed t ∧
          offices_used t = offices ∧ hierarchy t = position_hierarchy).
Proof.
  unfold run_stages.
  eapply returns_bind; [apply returns_gen_users|].
  intros [[users0 index] by_role] (emps & others & Hu0 & Hinv & Hids & Hothers & Hri).
  cbn [fst snd] in *. subst users0.
  pose proof Hinv as (_ & _ & Hemps & _). cbn [fst snd] in Hemps.
  pose proof (resolve_populated tenants departments offices position_hierarchy emps others index
                Hinv Hids) as RF.
  set (res := resolve_hierarchy position_hierarchy index (emps ++ others)) in *.
  destruct RF as [Rids Rkeep Rcons Rjust Ridx Rpart Rmem Remp Rhoused Rvalid].
  { eapply Forall_impl; [exact Hothers|]. by intros u (_ & _ & _ & _ & ?). }
  { eapply Forall_impl; [exact Hothers|]. by intros u (? & _). }
  { eapply Forall_impl; [exact Hothers|]. by intros u (_ & _ & ? & _). }
  pose proof (unlinked_base _ _ Rkeep) as Rbase.
  assert (Forall (λ u : User, User.tenant u ∈ all_tenants) res.2) as Rpool.
  { eapply (Forall_base_keep _ (emps ++ others)); [intros u u'; apply extended_pool_base | done |].
    apply Forall_app. split.
    - eapply Forall_impl; [exact Hemps|]. intros u (_ & Ht & _). apply elem_of_app. by left.
    - eapply Forall_impl; [exact Hothers|]. by intros u (_ & ? & _). }
  assert (Forall (departmental departments) res.2) as Rdep.
  { eapply (Forall_base_keep _ (emps ++ others)); [apply departmental_base | done |].
    apply Forall_app. split.
    - eapply Forall_impl; [exact Hemps|]. by intros u (_ & _ & _ & ? & _).
    - eapply Forall_impl; [exact Hothers|]. by intros u (_ & _ & _ & ? & _). }
  eapply returns_bind.
  { apply (extended_update_registered_keep (λ u, (base u, links u))). done. }
  intros users1 Hk1.
  simpl in Hk1.
  pose proof (fmap_factor (λ u : User, (base u, links u)) fst base _ _ (λ _, eq_refl) Hk1)
    as Hb1.
  pose proof (fmap_factor (λ u : User, (base u, links u)) snd links _ _ (λ _, eq_refl) Hk1)
    as Hl1.
  eapply returns_bind.
  { apply (payrolling_loop assign_payrolling res.1 users1 extended_assign_payrolling_assigns).
    eapply Forall_impl; [exact Rvalid|]. intros kg [Hne Hv]. split; [done|].
    eapply Forall_impl; [exact Hv|]. intros r. by apply (valid_keep base). }
  intros users3 (Hkeep3 & _ & Hpay3).
  pose proof (fmap_factor unpaid (λ b, b.1.1.1.1) base _ _ (λ _, eq_refl) Hkeep3) as Hb3.
  pose proof (fmap_factor unpaid (λ b, b.1.1.1.2) links _ _ (λ _, eq_refl) Hkeep3) as Hl3.
  eapply returns_bind; [by apply (project_loop_keep core)|]. intros users4 Hc4.
  eapply returns_bind; [by apply (gen_past_projects_keep core)|]. intros users5 Hc5.
  eapply returns_bind; [by apply (gen_temporary_access_keep core)|]. intros users6 Hc6.
  eapply returns_bind; [by apply (delegation_loop_keep core)|]. intros users7 Hc7.
  assert (core <$> users7 = core <$> users3) as Hc73 by congruence.
  assert (base <$> users7 = base <$> res.2) as Hb7.
  { rewrite (core_base _ _ Hc73). congruence. }
  assert (Forall (housed offices) users7) as Hhoused7.
  { eapply Forall_base_keep; [apply housed_base | exact Hb7 | done]. }
  assert (Forall (λ u : User, User.tenant u ∈ all_tenants) users7) as Hpool7.
  { eapply Forall_base_keep; [intros u u'; apply extended_pool_base | exact Hb7 | done]. }
  assert (Forall (departmental departments) users7) as Hdep7.
  { eapply Forall_base_keep; [apply departmental_base | exact Hb7 | done]. }
  eapply returns_bind; [apply (extended_returns_documents users7 Hpool7 Hdep7)|].
  intros docs0 Hdocs0.
  eapply returns_bind.
  { apply (returns_collect _
      (λ d d' : Document, doc_base d' = doc_base d ∧ Document.ext d' = Document.ext d ∧
                          within_tenant users7 d')).
    intros d Hd. apply (returns_set_recipients users7 Hhoused7 Hpool7 Hdep7).
    by apply (proj1 (Forall_forall _ _) Hdocs0). }
  intros docs Hdocs.
  eapply returns_bind; [apply relate_loop|].
  intros [usersf docsf] (Hcf & Hbf & Hrf & Hgrown & Hfiled). cbn [fst snd] in *.
  apply returns_ret.
  assert (doc_base <$> docs = doc_base <$> docs0) as Hbd.
  { apply Forall2_fmap_keep. eapply Forall2_impl; [exact Hdocs|]. by intros d d' (? & _). }
  assert (base <$> usersf = base <$> users7) as Hbf7 by (by apply core_base).
  split; [split|split; [|split; [|done]]];
    cbn [offices_used hierarchy indexed resolved permitted staffed
         created final users users_by_department users_by_role documents].
  - done.
  - congruence.
  - done.
  - congruence.
  - rewrite (core_links _ _ Hcf), (core_links _ _ Hc73). congruence.
  - done.
  - done.
  - done.
  - done.
  - done.
  - done.
  - done.
  - rewrite (core_payroll _ _ Hcf). by apply core_payroll.
  - done.
  - eapply Forall_impl; [exact Hdocs0|]. intros d (Hin & _ & Hz & _). done.
  - congruence.
  - apply Forall_lookup. intros j df Hdf.
    destruct (fmap_eq_lookup doc_base docs docsf j df Hbf Hdf) as (d & Hd & Hb).
    destruct (fmap_eq_lookup Document.recipients docs docsf j df Hrf Hdf) as (d2 & Hd2 & Hr).
    assert (d2 = d) as -> by congruence.
    destruct (Forall2_lookup_r _ _ _ _ _ Hdocs Hd) as (d0 & _ & _ & _ & Hw).
    apply (within_tenant_keep users7 usersf d df); [done | | by symmetry | done].
    by injection Hb.
  - exists (emps ++ others). split; [|split].
    + apply Forall_app. split.
      * eapply Forall_impl; [exact Hemps|]. by intros u (_ & _ & _ & _ & ?).
      * eapply Forall_impl; [exact Hothers|]. by intros u (_ & _ & _ & _ & ?).
    + destruct Hinv as (_ & _ & _ & Hjoin & _). cbn [fst snd] in Hjoin. rewrite Hjoin.
      apply Forall_forall. intros r Hr%elem_of_seq. apply lookup_lt_is_Some.
      rewrite length_app. lia.
    + unfold res. by destruct (resolve_hierarchy _ _ _).
  - intros d u Hd Hu. destruct (Hgrown _ u Hu) as (u0 & Hu0 & Hsub & Hne0).
    exists u0. split; [done|]. split.
    + intros Hin. apply Hne0. set_solver.
    + intros Hne. apply (proj1 (Forall_forall _ _) Hfiled d Hd u); [done|]. set_solver.
  - exists by_role. split; [done|].
    apply (role_indexed_keep (emps ++ others)); [|done].
    cbn [final users]. rewrite Hbf7, Hb7. exact Rbase.
Qed.

Lemma extended_assign_payrolling_grants : grants assign_payrolling.
Proof.
  intros g users. unfold assign_payrolling.
  destruct (decide (g = [])) as [|_]; [apply returns_ret; split; [done | apply confined_refl]|].
  eapply returns_bind; [apply returns_choice|]. intros chosen Hchosen; simpl in Hchosen.
  eapply returns_weaken.
  - apply (returns_for_each _
      (λ users', unpaid <$> users' = unpaid <$> users ∧ confined g users users')).
    + split; [apply grant_unpaid|]. by apply confined_grant, confined_refl.
    + intros ref users' Href [Hkeep Hc].
      eapply returns_bind; [apply returns_True|]. intros u _.
      eapply returns_bind; [apply returns_True|]. intros b _. apply returns_ret.
      destruct b; [|done]. split; [by rewrite grant_unpaid | by apply confined_grant].
  - done.
Qed.

(** The roles the loop that sets [registered] registers at once. *)
Definition registered_roles : list string := ["manager"; "director"; "projectManager"].

Lemma update_registered_law (users : list User) :
  returns (update_registered users)
    (Forall2 (λ u u', ∃ b, u' = User.set_registered b u ∧
                (User.supervisee u ≠ ∅ ∨ User.role u ∈ registered_roles → b = true))
       users).
Proof.
  unfold update_registered. apply returns_collect. intros u _.
  destruct (bool_decide (User.supervisee u ≠ ∅)
            || bool_decide (User.role u ∈ ["manager"; "director"; "projectManager"])) eqn:E.
  - apply returns_ret. by exists true.
  - eapply returns_bind; [apply returns_True|]. intros b _. apply returns_ret.
    exists b. split; [done|]. intros H.
    apply orb_false_iff in E as [E1%bool_decide_eq_false E2%bool_decide_eq_false].
    by destruct H.
Qed.

Lemma relate_keep {B} (π : User → B) i (users : list User) (docs : list Document) :
  (∀ x u, π (User.add_project x u) = π u) →
  returns (relate i (users, docs)) (λ st', π <$> st'.1 = π <$> users).
Proof.
  intros Hπ. unfold relate.
  eapply returns_bind; [apply returns_True|]. intros doc _.
  eapply returns_bind; [apply returns_True|]. intros owner _.
  eapply returns_bind; [apply returns_True|]. intros d1 _.
  eapply returns_bind; [apply returns_True|]. intros b _.
  eapply returns_bind; [apply returns_True|]. intros d2 _.
  apply returns_ret. cbn [fst]. destruct (decide _); [by apply fmap_alter_keep | done].
Qed.

Lemma relate_loop_keep {B} (π : User → B) (l : list nat) (users : list User)
    (docs : list Document) :
  (∀ x u, π (User.add_project x u) = π u) →
  returns (for_each relate l (users, docs)) (λ st', π <$> st'.1 = π <$> users).
Proof.
  intros Hπ. apply (returns_for_each _ (λ st', π <$> st'.1 = π <$> users)); [done|].
  intros i [users' docs'] _ Hk. eapply returns_weaken; [by apply (relate_keep π)|].
  intros st'. simpl in *. congruence.
Qed.

(** The users of a role the loop registers at once are registered. *)
Definition registered_by_role (t : Trace OrgExt UserExt DocExt) : Prop :=
  Forall (λ u, User.role u ∈ registered_roles → User.registered u = true) (permitted t).

Lemma run_stages_staged c :
  returns (run_stages today offices orgs c) (λ t, staged t ∧ registered_by_role t).
Proof.
  unfold run_stages.
  eapply returns_bind; [apply returns_True|]. intros st _.
  cbn zeta. set (res := resolve_hierarchy position_hierarchy st.1.2 st.1.1).
  eapply returns_bind; [apply update_registered_law|]. intros users1 Hlaw.
  eapply returns_bind; [apply (grants_loop _ _ _ extended_assign_payrolling_grants)|].
  intros users3 [Hk3 Hc3].
  eapply returns_bind; [by apply (project_loop_keep settled)|]. intros users4 Hk4.
  eapply returns_bind; [by apply (gen_past_projects_keep settled)|]. intros users5 Hk5.
  eapply returns_bind; [by apply (gen_temporary_access_keep settled)|]. intros users6 Hk6.
  eapply returns_bind; [by apply (delegation_loop_keep settled)|]. intros users7 Hk7.
  eapply returns_bind; [apply returns_True|]. intros docs0 _.
  eapply returns_bind; [apply returns_True|]. intros docs _.
  eapply returns_bind; [by apply (relate_loop_keep settled)|]. intros [usersf docsf] Hkf.
  apply returns_ret. cbn [fst snd] in *.
  assert (unregistered <$> users1 = unregistered <$> res.2 ∧
          User.payrollingPermissions <$> users1 = User.payrollingPermissions <$> res.2)
    as [Hu1 Hp1].
  { split; apply Forall2_fmap_keep; (eapply Forall2_impl; [exact Hlaw|]);
      by intros u u' (b & -> & _). }
  assert (Forall (λ u : User, (User.supervisee u ≠ ∅ ∨ User.role u ∈ registered_roles) →
                              User.registered u = true) users3) as Hreg.
  { pose proof (fmap_factor unpaid (λ b, (b.1.2, b.1.1.1.2.2, b.1.1.1.1.1.1.1.1.2))
                  (λ u : User, (User.registered u, User.supervisee u, User.role u))
                  _ _ (λ _, eq_refl) Hk3) as Hk.
    apply Forall_lookup. intros r u3 Hu3.
    destruct (fmap_eq_lookup _ _ _ r u3 Hk Hu3) as (u1 & Hu1' & Hb).
    destruct (Forall2_lookup_r _ _ _ _ _ Hlaw Hu1') as (u & _ & b & -> & Hb').
    simpl in Hb. injection Hb as H1 H2 H3. rewrite <- H1, <- H2, <- H3. done. }
  split; [split|]; cbn [final users permitted resolved users_by_department].
  - congruence.
  - rewrite (fmap_factor unpaid (λ b, (b.1.1.1.1, b.1.1.1.2, b.1.1.2, b.2)) unregistered
               _ _ (λ _, eq_refl) Hk3). done.
  - eapply confined_keep; [|exact Hc3]. by symmetry.
  - eapply Forall_impl; [exact Hreg|]. intros u H ?. apply H. by left.
  - eapply Forall_impl; [exact Hreg|]. intros u H ?. apply H. by right.
Qed.
End Stages.

(** [gen_organizations] stores every organization under its own id. *)
Lemma gen_organizations_keyed offices :
  returns (gen_organizations offices) keyed.
Proof.
  unfold gen_organizations. apply returns_for_each.
  - intros t o Ho. by rewrite lookup_empty in Ho.
  - intros tenant orgs _ Hk.
    eapply returns_bind; [apply returns_True|]. intros d _.
    eapply returns_bind; [apply returns_True|]. intros o _.
    eapply returns_bind.
    { instantiate (1 := λ org, Organization.orgId org = tenant).
      unfold new_organization.
      eapply returns_bind; [apply returns_True|]. intros region _.
      eapply returns_bind; [apply returns_True|]. intros cs _.
      eapply returns_bind; [apply returns_True|]. intros country _.
      eapply returns_bind; [apply returns_True|]. intros year _.
      eapply returns_bind; [apply returns_True|]. intros size _.
      by apply returns_ret. }
    intros org Horg. apply returns_ret. intros t o'.
    rewrite lookup_insert. destruct (decide (tenant = t)) as [->|_].
    + by intros [= <-].
    + apply Hk.
Qed.

(** The office counts once the customer tenants are drawn: the literal's
    count for a tenant, a count from 1 to 5 for a customer tenant. *)
Definition offices_drawn (offices : gmap string Z) : Prop :=
  (∀ t, t ∈ tenants → offices !! t = static_offices !! t) ∧
  (∀ t, t ∈ customerTenants → ∃ k, offices !! t = Some k ∧ (1 ≤ k ≤ 5)%Z).

Lemma tenants_not_customers : Forall (λ t, t ∉ customerTenants) tenants.
Proof. compute_done. Qed.

Lemma draw_loop (l : list string) (o0 : gmap string Z) :
  returns
    (for_each (λ customerTenant (o : gmap string Z),
                 k ← randint 1 5; mret (<[customerTenant := k]> o)) l o0)
    (λ o, (∀ t, t ∉ l → o !! t = o0 !! t) ∧
          (∀ t, t ∈ l → ∃ k, o !! t = Some k ∧ (1 ≤ k ≤ 5)%Z)).
Proof.
  revert o0. induction l as [|x l IH]; intros o0; simpl.
  - apply returns_ret. split; [done|]. intros t Ht. by apply elem_of_nil in Ht.
  - eapply returns_bind.
    { instantiate (1 := λ o1, ∃ k, o1 = <[x:=k]> o0 ∧ (1 ≤ k ≤ 5)%Z).
      eapply returns_bind; [apply returns_randint|]. intros k Hk.
      apply returns_ret. by exists k. }
    intros o1 (k & -> & Hk). eapply returns_weaken; [apply IH|].
    intros o [Hout Hin]. split.
    + intros t Ht. apply not_elem_of_cons in Ht as [Hne Ht].
      rewrite (Hout t Ht). by rewrite lookup_insert_ne.
    + intros t Ht. destruct (decide (t ∈ l)) as [Hl|Hl]; [by apply Hin|].
      apply elem_of_cons in Ht as [->|Ht]; [|done].
      exists k. rewrite (Hout x Hl). by rewrite lookup_insert_eq.
Qed.

Lemma returns_draw_offices : returns draw_offices offices_drawn.
Proof.
  eapply returns_weaken; [apply draw_loop|].
  intros o [Hout Hin]. split; [|done].
  intros t Ht. apply Hout.
  by apply (proj1 (Forall_forall _ _) tenants_not_customers).
Qed.

Lemma returns_new_organization orgId d o :
  returns (new_organization orgId d o)
    (λ org, Organization.orgId org = orgId ∧ Organization.departments org = d ∧
            Organization.offices org = o).
Proof.
  unfold new_organization.
  eapply returns_bind; [apply returns_True|]. intros region _.
  eapply returns_bind; [apply returns_True|]. intros cs _.
  eapply returns_bind; [apply returns_True|]. intros country _.
  eapply returns_bind; [apply returns_True|]. intros year _.
  eapply returns_bind; [apply returns_True|]. intros size _.
  by apply returns_ret.
Qed.

Lemma organizations_loop offices (l : list string) (orgs0 : gmap string Organization) :
  returns
    (for_each
       (λ tenant (orgs : gmap string Organization),
          d ← lift (departments !! tenant);
          o ← lift (offices !! tenant);
          org ← new_organization tenant d o;
          mret (<[tenant := org]> orgs))
       l orgs0)
    (λ orgs, (∀ t, t ∉ l → orgs !! t = orgs0 !! t) ∧
             structure_of departments offices l orgs).
Proof.
  revert orgs0. induction l as [|x l IH]; intros orgs0; cbn [for_each].
  - apply returns_ret. split; [done | constructor].
  - eapply returns_bind.
    { instantiate (1 := λ orgs1, ∃ org, orgs1 = <[x:=org]> orgs0 ∧
        Organization.orgId org = x ∧
        departments !! x = Some (Organization.departments org) ∧
        offices !! x = Some (Organization.offices org)).
      eapply returns_bind; [apply returns_lift; intros d Hd; exact Hd|].
      intros d Hd; cbn beta in Hd.
      eapply returns_bind; [apply returns_lift; intros o Ho; exact Ho|].
      intros o Ho; cbn beta in Ho.
      eapply returns_bind; [apply returns_new_organization|].
      intros org (Hid & Hdep & Hoff). apply returns_ret. exists org.
      rewrite Hdep, Hoff. auto. }
    intros orgs1 (org & -> & Hid & Hdep & Hoff). eapply returns_weaken; [apply IH|].
    intros orgs [Hout Hin]. split.
    + intros t Ht. apply not_elem_of_cons in Ht as [Hne Ht].
      rewrite (Hout t Ht). by rewrite lookup_insert_ne.
    + constructor; [|done].
      destruct (decide (x ∈ l)) as [Hl|Hl].
      * apply (proj1 (Forall_forall _ _) Hin x Hl).
      * rewrite (Hout x Hl), lookup_insert_eq. cbn [fmap option_fmap option_map].
        rewrite Hid, Hdep, Hoff. auto.
Qed.

(** The tables of a run: the counts as drawn, an organization for every
    tenant with the tenant's departments and count, each under its id. *)
Lemma returns_gen_tables :
  returns gen_tables
    (λ tables, keyed tables.2 ∧ offices_drawn tables.1 ∧
               structure_of departments tables.1 (tenants ++ customerTenants) tables.2).
Proof.
  unfold gen_tables.
  eapply returns_bind; [apply returns_draw_offices|]. intros offices Hoff.
  eapply returns_bind.
  { apply returns_and; [apply gen_organizations_keyed | apply organizations_loop]. }
  intros orgs (Hk & _ & Hs). by apply returns_ret.
Qed.
End ExtendedFacts.

(** The ids and roles [(f"{prefix}{i}", role)] for [i] in [range(n)]. *)
Definition enrol (prefix role : string) (n : nat) : list (string * string) :=
  (λ i, (prefix +:+ pretty i, role)) <$> seq 0 n.

Lemma enrol_S prefix role n :
  enrol prefix role (S n) = enrol prefix role n ++ [(prefix +:+ pretty n, role)].
Proof. unfold enrol. by rewrite seq_S, fmap_app. Qed.

Section Placement.
Context {OX UX : Type}.
Variable tenants : list string.
Variable positions : list string.
Variable departments : gmap string (list string).
Variable offices : gmap string Z.
Variable organizations : gmap string (Organization.t OX).
Variable user_ext : string → Organization.t OX → M UX.
Hypothesis organizations_keyed :
  ∀ t o, organizations !! t = Some o → Organization.orgId o = t.
(** No position and no department has the empty name. *)
Hypothesis positions_named : Forall (λ p, p ≠ "") positions.
Hypothesis departments_named :
  map_Forall (λ _ ds, Forall (λ d, d ≠ "") ds) departments.

Implicit Types (users : list (User.t OX UX)) (u : User.t OX UX).

(** The office [draw_office] gives for [tenant]: an office of the tenant,
    numbered from 1 to its count, when it has any, and "none" when it has
    none. *)
Definition drawn_office (tenant office : string) : Prop :=
  ∃ n, offices !! tenant = Some n ∧
       if (0 <? n)%Z then ∃ k, (1 ≤ k ≤ n)%Z ∧ office = tenant +:+ "Office" +:+ pretty k
       else office = "none".

(** The id and the role of a user. *)
Definition id_role u : string * string := (User.userId u, User.role u).

(** The organization of a user is the one the table has for its tenant. *)
Definition affiliated u : Prop :=
  organizations !! User.tenant u = Some (User.organization u).

(** The department of a user is a department of its tenant. *)
Definition in_department u : Prop :=
  ∃ ds, departments !! User.tenant u = Some ds ∧ User.department u ∈ ds.

(** What the employee loop gives a user. *)
Definition employed u : Prop :=
  User.role u = "employee" ∧ User.tenant u ∈ tenants ∧ affiliated u ∧ in_department u ∧
  User.position u ∈ positions ∧ drawn_office (User.tenant u) (User.office u).

Lemma or_none_named s : s ≠ "" → or_none (Some s) = s.
Proof. intros Hs. unfold or_none. by rewrite decide_False. Qed.

Lemma returns_draw_office_drawn tenant :
  returns (draw_office offices tenant) (drawn_office tenant).
Proof.
  unfold draw_office. eapply returns_bind; [apply returns_lift; intros n Hn; exact Hn|].
  intros n Hn; simpl in Hn. unfold drawn_office.
  destruct (0 <? n)%Z eqn:E.
  - eapply returns_bind; [apply returns_randint|]. intros k Hk. apply returns_ret.
    exists n. rewrite E. split; [done|]. by exists k.
  - apply returns_ret. exists n. by rewrite E.
Qed.

Lemma returns_draw_employee_drawn :
  returns (draw_employee tenants positions departments offices)
    (λ '(tenant, position, office, department),
       tenant ∈ tenants ∧ position ∈ positions ∧ drawn_office tenant office ∧
       ∃ ds, departments !! tenant = Some ds ∧ department ∈ ds).
Proof.
  unfold draw_employee.
  eapply returns_bind; [apply returns_choice|]. intros tenant Ht; simpl in Ht.
  eapply returns_bind; [apply returns_lift; intros n Hn; exact Hn|].
  intros n Hn; simpl in Hn.
  eapply returns_bind; [apply returns_choice|]. intros position Hp; simpl in Hp.
  assert (position ∈ positions) as Hpos.
  { destruct (0 <? n)%Z; [done|]. by apply list_elem_of_filter in Hp as [_ ?]. }
  eapply returns_bind.
  { instantiate (1 := drawn_office tenant).
    destruct ((0 <? n)%Z || bool_decide (position ∈ office_positions)) eqn:E.
    - apply returns_draw_office_drawn.
    - apply returns_ret. exists n. split; [done|].
      apply orb_false_iff in E as [-> _]. done. }
  intros office Ho.
  eapply returns_bind; [apply returns_lift; intros ds Hds; exact Hds|].
  intros ds Hds; simpl in Hds.
  eapply returns_bind; [apply returns_choice|]. intros department Hd; simpl in Hd.
  apply returns_ret. eauto 10.
Qed.

Lemma drawn_office_or_none tenant office :
  drawn_office tenant office → or_none (Some office) = office.
Proof.
  intros (n & _ & H). destruct (0 <? n)%Z.
  - destruct H as (k & _ & ->). apply or_none_office.
  - by subst.
Qed.

Lemma returns_gen_employee_employed i (st : list (User.t OX UX) * Groups) :
  returns (gen_employee tenants positions departments offices organizations user_ext i st)
    (λ st', ∃ u, st'.1 = st.1 ++ [u] ∧ User.userId u = "user" +:+ pretty i ∧ employed u).
Proof.
  unfold gen_employee.
  eapply returns_bind; [apply returns_draw_employee_drawn|].
  intros [[[tenant position] office] department] (Ht & Hp & Ho & ds & Hds & Hd).
  eapply returns_bind; [apply returns_lift; intros org Horg; exact Horg|].
  intros org Horg; simpl in Horg.
  eapply returns_bind; [apply returns_new_user|].
  intros u [[= Hid Hrole Huorg Hdep Hoff Hpos] _]. apply returns_ret.
  assert (User.tenant u = tenant) as Hten.
  { unfold User.tenant. rewrite Huorg. by apply organizations_keyed. }
  assert (User.office u = office) as Hoff'.
  { rewrite Hoff. exact (drawn_office_or_none tenant office Ho). }
  assert (User.position u = position) as Hpos'.
  { rewrite Hpos. apply (or_none_named position).
    by apply (proj1 (Forall_forall _ _) positions_named). }
  assert (User.department u = department) as Hdep'.
  { rewrite Hdep. apply (or_none_named department).
    by apply (proj1 (Forall_forall _ _) (departments_named tenant ds Hds)). }
  exists u. split; [done|]. split; [done|]. unfold employed, affiliated, in_department.
  rewrite Hten, Huorg, Hdep', Hoff', Hpos'. eauto 10.
Qed.

(** The employee loop: the ids and roles in order, every user as the loop
    places it. *)
Lemma employees_loop_employed n :
  returns (for_each (gen_employee tenants positions departments offices organizations user_ext)
             (range n) ([], []))
    (λ st, id_role <$> st.1 = enrol "user" "employee" n ∧ Forall employed st.1).
Proof.
  apply (returns_for_each_seq _
    (λ i (st : list (User.t OX UX) * Groups),
       id_role <$> st.1 = enrol "user" "employee" i ∧ Forall employed st.1) 0 n).
  - done.
  - intros i st _ [Hids Hall].
    eapply returns_weaken; [apply returns_gen_employee_employed|].
    intros st' (u & -> & Hid & Hu). split.
    + rewrite fmap_app, Hids, enrol_S. simpl. unfold id_role. rewrite Hid.
      by destruct Hu as (-> & _).
    + apply Forall_app. split; [done | by constructor].
Qed.
End Placement.

(** ** Sampling *)

Lemma returns_sample_pool_length {A} (k : nat) (pool : list A) :
  returns (sample_pool pool k) (λ s, length s = k).
Proof.
  revert pool. induction k as [|k IH]; intros pool; simpl.
  - by apply returns_ret.
  - eapply returns_bind; [apply returns_True|]. intros j _.
    eapply returns_bind; [apply returns_True|]. intros x _.
    eapply returns_bind; [apply returns_True|]. intros y _.
    eapply returns_bind; [apply IH|]. intros rest Hrest.
    apply returns_ret. simpl. by rewrite Hrest.
Qed.

Lemma returns_sample_length {A} (l : list A) (k : nat) :
  returns (sample l k) (λ s, length s = k).
Proof.
  unfold sample. destruct (length l <? k); [apply returns_raise|].
  apply returns_sample_pool_length.
Qed.

Lemma size_list_to_set_le (l : list nat) : size (list_to_set l : gset nat) ≤ length l.
Proof.
  induction l as [|x l IH].
  - rewrite list_to_set_nil, size_empty. done.
  - rewrite list_to_set_cons, size_union_alt, size_singleton. simpl.
    assert (size (list_to_set l ∖ {[x]} : gset nat) ≤ size (list_to_set l : gset nat))
      by (apply subseteq_size; set_solver).
    lia.
Qed.

Module BasicCensus.
Import Basic BasicFacts.

(** The ids and the roles of the users, in the order of [users]. *)
Definition roster (c : Config) : list (string * string) :=
  enrol "user" "employee" (nUsers c) ++ enrol "hdop" "helpdesk" (nHelpdeskOperators c) ++
  enrol "admin" "admin" (nApplicationAdmins c) ++ enrol "cstmr" "customer" (nCustomers c).

Lemma basic_positions_named : Forall (λ p, p ≠ "") positions.
Proof. compute_done. Qed.

Lemma basic_departments_named : map_Forall (λ _ ds, Forall (λ d, d ≠ "") ds) departments.
Proof. compute_done. Qed.

Lemma customer_departments_listed :
  Forall (λ t, departments !! t = Some (get_customer_departments t)) customerTenants.
Proof. compute_done. Qed.

Section Stages.
Variable orgs : gmap string Organization.
Hypothesis orgs_keyed : keyed orgs.

(** Where the loops of the basic variant place a user, by its role. *)
Definition user_placed (u : User) : Prop :=
  affiliated orgs u ∧
  (if decide (User.role u = "customer") then User.tenant u ∈ customerTenants
   else User.tenant u ∈ tenants) ∧
  (if decide (User.role u ∈ ["helpdesk"; "admin"]) then User.department u = "none"
   else in_department departments u) ∧
  (if decide (User.role u = "employee")
   then User.position u ∈ positions ∧ drawn_office offices (User.tenant u) (User.office u)
   else User.position u = "none" ∧ User.office u = "none").

Lemma user_placed_base (u u' : User) : base u' = base u → user_placed u → user_placed u'.
Proof.
  unfold user_placed, affiliated, in_department, User.tenant.
  intros [= _ Hrole Horg Hdep Hoff Hpos]. by rewrite Hrole, Horg, Hdep, Hoff, Hpos.
Qed.

Lemma employed_placed (u : User) :
  employed tenants positions departments offices orgs u → user_placed u.
Proof.
  intros (Hrole & Ht & Ha & Hd & Hp & Ho). unfold user_placed. rewrite Hrole.
  split; [done|]. split; [by rewrite decide_False|]. split; [|by rewrite decide_True].
  destruct (decide ("employee" ∈ ["helpdesk"; "admin"])) as [H|_]; [|done].
  repeat (apply elem_of_cons in H as [H|H]; [done|]). by apply elem_of_nil in H.
Qed.

Lemma returns_gen_staff_placed prefix role i :
  role ∈ ["helpdesk"; "admin"] →
  returns (gen_staff orgs prefix role i)
    (λ u, id_role u = (prefix +:+ pretty i, role) ∧ user_placed u).
Proof.
  intros Hrole. unfold gen_staff.
  eapply returns_bind; [apply returns_choice|]. intros tenant Ht; simpl in Ht.
  eapply returns_bind; [apply returns_lift; intros org Horg; exact Horg|].
  intros org Horg; simpl in Horg.
  eapply returns_weaken; [apply returns_new_user|].
  intros u [[= Hid Hr Horg' Hdep Hoff Hpos] _].
  assert (User.tenant u = tenant) as Hten.
  { unfold User.tenant. rewrite Horg'. by apply orgs_keyed. }
  split; [unfold id_role; by rewrite Hid, Hr|].
  unfold user_placed, affiliated. rewrite Hten, Hr, Horg'.
  split; [done|].
  repeat (apply elem_of_cons in Hrole as [->|Hrole]); [done..|].
  by apply elem_of_nil in Hrole.
Qed.

Lemma returns_gen_customer_placed i :
  returns (gen_customer orgs i)
    (λ u, id_role u = ("cstmr" +:+ pretty i, "customer") ∧ user_placed u).
Proof.
  unfold gen_customer.
  eapply returns_bind; [apply returns_choice|]. intros tenant Ht; simpl in Ht.
  eapply returns_bind; [apply returns_lift; intros org Horg; exact Horg|].
  intros org Horg; simpl in Horg.
  eapply returns_bind; [apply returns_choice|]. intros department Hd; simpl in Hd.
  eapply returns_weaken; [apply returns_new_user|].
  intros u [[= Hid Hr Horg' Hdep Hoff Hpos] _].
  assert (User.tenant u = tenant) as Hten.
  { unfold User.tenant. rewrite Horg'. by apply orgs_keyed. }
  pose proof (proj1 (Forall_forall _ _) customer_departments_listed tenant Ht) as Hds.
  assert (User.department u = department) as Hdep'.
  { rewrite Hdep. apply (or_none_named department).
    by apply (proj1 (Forall_forall _ _) (basic_departments_named tenant _ Hds)). }
  split; [unfold id_role; by rewrite Hid, Hr|].
  unfold user_placed, affiliated, in_department. rewrite Hten, Hr, Horg', Hdep'.
  split; [done|]. rewrite decide_True by done. split; [done|].
  split; [|by rewrite decide_False by done].
  destruct (decide ("customer" ∈ ["helpdesk"; "admin"])) as [H|_];
    [|by exists (get_customer_departments tenant)].
  repeat (apply elem_of_cons in H as [H|H]; [done|]). by apply elem_of_nil in H.
Qed.

End Stages.

(** A document after its constructor. *)
Definition doc_filed (users : list User) (d : Document) : Prop :=
  Document.docType d ∈ documentTypes ∧
  Document.owner d < length users ∧
  drawn_office offices (Document.tenant d) (Document.office d) ∧
  (Document.office d ≠ "none" →
   ∀ r u, users !! r = Some u → User.office u = Document.office d →
          r ∈ Document.recipients d) ∧
  (Document.office d = "none" → size (Document.recipients d) ≤ 8) ∧
  Document.recipients d ≠ ∅.

Lemma returns_get_random_users_length (users : list User) tenant count :
  returns (get_random_users_from_tenant users tenant count)
    (λ refs, length refs ≤ count ∧
             (0 < count → (∃ r u, users !! r = Some u ∧ User.tenant u = tenant) →
              refs ≠ [])).
Proof.
  unfold get_random_users_from_tenant.
  eapply returns_weaken; [apply returns_sample_length|]. intros refs Hlen. simpl in Hlen.
  split; [lia|]. intros Hcount (r & u & Hu & Ht) ->. simpl in Hlen.
  assert (r ∈ refs_where (λ u, bool_decide (User.tenant u = tenant)) users) as Hin.
  { apply elem_of_refs_where. exists u. split; [done|]. by apply bool_decide_eq_true. }
  destruct (refs_where _ users); [by apply elem_of_nil in Hin|]. simpl in Hlen. lia.
Qed.

Lemma returns_new_document_filed (users : list User) docId docType owner
    confidential containsPersonalInfo :
  docType ∈ documentTypes →
  returns (new_document users docId docType owner confidential containsPersonalInfo)
    (λ d, Document.docId d = docId ∧ doc_filed users d).
Proof.
  intros Htype. unfold new_document.
  eapply returns_bind; [apply returns_lift; intros o Ho; exact Ho|].
  intros o Ho; simpl in Ho.
  unfold doc_core.
  eapply returns_bind.
  { eapply returns_bind; [apply (returns_draw_office_drawn offices)|]. intros office Hoff.
    apply returns_ret.
    instantiate (1 := λ x, x.1.1 = User.tenant o ∧ drawn_office offices (User.tenant o) x.2).
    done. }
  intros [[tenant department] office] [Ht Hoff]. simpl in Ht, Hoff. subst tenant.
  set (doc0 := Document.mk docId docType owner confidential containsPersonalInfo
                 (User.tenant o) department office ∅ ()).
  eapply returns_bind.
  { instantiate (1 := λ d, doc_base d = doc_base doc0 ∧
       (office ≠ "none" → ∀ r u, users !! r = Some u → User.office u = office →
                                  r ∈ Document.recipients d) ∧
       (office = "none" → size (Document.recipients d) ≤ 5)).
    destruct (decide (office ≠ "none")) as [Hne|He].
    - apply returns_ret. split; [done|]. split; [|done].
      intros _ r u Hu Hou. simpl. apply elem_of_union. left. apply elem_of_list_to_set.
      apply elem_of_refs_where. exists u. split; [done|]. by apply bool_decide_eq_true.
    - eapply returns_bind; [apply returns_get_random_users_length|].
      intros refs [Hrefs _]; cbn beta in Hrefs.
      apply returns_ret. split; [done|]. split; [done|]. intros _. simpl.
      rewrite union_empty_r_L. pose proof (size_list_to_set_le refs). lia. }
  intros doc1 (Hb1 & Hall1 & Hsize1).
  eapply returns_bind; [apply returns_get_random_users_length|].
  intros refs [Hrefs Hsome]; cbn beta in Hrefs.
  apply returns_ret.
  injection Hb1 as Hid Hty Hown _ _ Hten Hdep Ho1.
  split; [done|]. unfold doc_filed. simpl. rewrite Hty, Hown, Hten, Ho1.
  split; [done|]. split; [by eapply lookup_lt_Some|]. split; [done|]. split; [|split].
  - intros Hne r u Hu Hou. apply elem_of_union. right. by apply (Hall1 Hne r u).
  - intros He. rewrite size_union_alt.
    assert (size (Document.recipients doc1 ∖ list_to_set refs)
            ≤ size (Document.recipients doc1)) by (apply subseteq_size; set_solver).
    pose proof (size_list_to_set_le refs). specialize (Hsize1 He). lia.
  - assert (refs ≠ []) as Hne by (apply Hsome; [lia | by exists owner, o]).
    destruct refs as [|r refs]; [done|]. set_solver.
Qed.

Lemma documents_filed (users : list User) n :
  returns (for_each (gen_document users) (range n) [])
    (λ docs, Document.docId <$> docs = block "doc" n ∧ Forall (doc_filed users) docs).
Proof.
  apply (returns_for_each_seq _
    (λ i (docs : list Document),
       Document.docId <$> docs = block "doc" i ∧ Forall (doc_filed users) docs) 0 n).
  - done.
  - intros i docs _ [Hids Hall]. unfold gen_document.
    eapply returns_bind; [apply returns_True|]. intros owner _.
    eapply returns_bind; [apply returns_choice|]. intros docType Hty; simpl in Hty.
    eapply returns_bind; [apply returns_True|]. intros confidential _.
    eapply returns_bind; [apply returns_True|]. intros containsPersonalInfo _.
    eapply returns_bind; [by apply returns_new_document_filed|]. intros d [Hid Hd].
    apply returns_ret. split.
    + unfold block in *. rewrite fmap_app, Hids, seq_S, fmap_app. simpl. by rewrite Hid.
    + apply Forall_app. split; [done | by constructor].
Qed.

(** What a run of the basic variant has enrolled and filed. *)
Definition census (c : Config) (t : Trace unit unit unit) : Prop :=
  id_role <$> resolved t = roster c ∧
  (∃ orgs, organizations = Some orgs ∧ Forall (user_placed orgs) (resolved t)) ∧
  Document.docId <$> created t = block "doc" (nDocuments c) ∧
  Forall (doc_filed (staffed t)) (created t) ∧
  documents (final t) = created t ∧
  users (final t) = assign_projects (created t) (permitted t).

Lemma run_census c : returns (run c) (census c).
Proof.
  unfold run.
  eapply returns_bind; [apply returns_lift; intros orgs Horgs; exact Horgs|].
  intros orgs Horgs; simpl in Horgs.
  pose proof (organizations_keyed orgs Horgs) as Hkeyed.
  eapply returns_bind.
  { apply (employees_loop_employed tenants positions departments offices orgs user_ext
             Hkeyed basic_positions_named basic_departments_named). }
  intros [emps index] [Hemp_ids Hemps]. cbn [fst snd] in *.
  eapply returns_bind.
  { apply returns_collect. intros i _.
    apply (returns_gen_staff_placed orgs Hkeyed "hdop" "helpdesk" i). set_solver. }
  intros hd Hhd.
  apply (Forall2_fmap_seq id_role (λ i, ("hdop" +:+ pretty i, "helpdesk")) (user_placed orgs))
    in Hhd as [Hhd_ids Hhd].
  eapply returns_bind.
  { apply returns_collect. intros i _.
    apply (returns_gen_staff_placed orgs Hkeyed "admin" "admin" i). set_solver. }
  intros ad Had.
  apply (Forall2_fmap_seq id_role (λ i, ("admin" +:+ pretty i, "admin")) (user_placed orgs))
    in Had as [Had_ids Had].
  eapply returns_bind.
  { apply returns_collect. intros i _. apply (returns_gen_customer_placed orgs Hkeyed i). }
  intros cu Hcu.
  apply (Forall2_fmap_seq id_role (λ i, ("cstmr" +:+ pretty i, "customer")) (user_placed orgs))
    in Hcu as [Hcu_ids Hcu].
  cbn zeta.
  set (users0 := emps ++ hd ++ ad ++ cu).
  set (res := resolve_hierarchy position_hierarchy index users0).
  assert (base <$> res.2 = base <$> users0) as Hbase by (by apply resolve_hierarchy_keep).
  eapply returns_bind; [apply returns_True|]. intros users3 _.
  eapply returns_bind; [apply documents_filed|]. intros docs [Hdoc_ids Hdocs].
  apply returns_ret. unfold census.
  cbn [resolved created staffed permitted final users documents].
  split; [|split; [|done]].
  - rewrite (fmap_factor base (λ b, (b.1.1.1.1.1, b.1.1.1.1.2)) id_role _ _ (λ _, eq_refl) Hbase).
    unfold users0, roster. by rewrite !fmap_app, Hemp_ids, Hhd_ids, Had_ids, Hcu_ids.
  - exists orgs. split; [done|].
    eapply Forall_base_keep; [apply user_placed_base | exact Hbase |].
    unfold users0. rewrite !Forall_app. split; [|done].
    eapply Forall_impl; [exact Hemps|]. apply employed_placed.
Qed.
End BasicCensus.

Module ExtendedCensus.
Import Extended ExtendedFacts.

(** The ids and the roles of the users, in the order of [users]. *)
Definition roster (c : Config) : list (string * string) :=
  enrol "user" "employee" (nUsers c) ++
  mjoin ((λ x : string * string * nat, enrol x.1.1 x.1.2 x.2) <$> specialized_roles c) ++
  enrol "cstmr" "customer" (nCustomers c).

Lemma extended_positions_named : Forall (λ p, p ≠ "") positions.
Proof. compute_done. Qed.

Lemma extended_departments_named :
  map_Forall (λ _ ds, Forall (λ d, d ≠ "") ds) departments.
Proof. compute_done. Qed.

(** The roles of the loop over [specialized_roles]. *)
Definition staff_roles : list string :=
  ["helpdesk"; "admin"; "projectManager"; "legalOfficer"; "financialOfficer"; "auditor";
   "consultant"].

Lemma specialized_roles_staff c : (specialized_roles c).*1.*2 = staff_roles.
Proof. reflexivity. Qed.

Section Stages.
Variable today : Z.
Variable offices : gmap string Z.
Variable orgs : gmap string Organization.
Hypothesis orgs_keyed : keyed orgs.

Local Abbreviation UserState := (list User * Groups * RoleIndex)%type.

(** Where the loops of the extended variant place a user, by its role. *)
Definition user_placed (u : User) : Prop :=
  affiliated orgs u ∧ in_department departments u ∧
  (if decide (User.role u = "customer") then User.tenant u ∈ customerTenants
   else User.tenant u ∈ tenants) ∧
  (if decide (User.role u = "employee")
   then User.position u ∈ positions ∧ drawn_office offices (User.tenant u) (User.office u)
   else User.position u = "none" ∧ User.office u = "none").

(** What an iteration of a loop after the employee loop gives a user. *)
Definition member_placed (pool : list string) (u : User) : Prop :=
  affiliated orgs u ∧ in_department departments u ∧ User.tenant u ∈ pool ∧
  User.position u = "none" ∧ User.office u = "none".

Lemma extended_user_placed_base (u u' : User) :
  base u' = base u → user_placed u → user_placed u'.
Proof.
  unfold user_placed, affiliated, in_department, User.tenant.
  intros [= _ Hrole Horg Hdep Hoff Hpos]. by rewrite Hrole, Horg, Hdep, Hoff, Hpos.
Qed.

Lemma extended_employed_placed (u : User) :
  employed tenants positions departments offices orgs u → user_placed u.
Proof.
  intros (Hrole & Ht & Ha & Hd & Hp & Ho). unfold user_placed. rewrite Hrole.
  split; [done|]. split; [done|]. split; [by rewrite decide_False | by rewrite decide_True].
Qed.

Lemma staff_placed (u : User) :
  User.role u ∈ staff_roles → member_placed tenants u → user_placed u.
Proof.
  intros Hrole (Ha & Hd & Ht & Hp & Ho). unfold user_placed.
  split; [done|]. split; [done|]. unfold staff_roles in Hrole.
  repeat (apply elem_of_cons in Hrole as [->|Hrole]);
    [by rewrite !decide_False..|by apply elem_of_nil in Hrole].
Qed.

Lemma customer_placed (u : User) :
  User.role u = "customer" → member_placed customerTenants u → user_placed u.
Proof.
  intros Hrole (Ha & Hd & Ht & Hp & Ho). unfold user_placed. rewrite Hrole.
  split; [done|]. split; [done|]. by rewrite decide_True, decide_False.
Qed.

Lemma returns_gen_member_placed pool prefix role i (st : UserState) :
  returns (gen_member today orgs pool prefix role i st)
    (λ st', ∃ u, st'.1.1 = st.1.1 ++ [u] ∧ id_role u = (prefix +:+ pretty i, role) ∧
                 member_placed pool u).
Proof.
  unfold gen_member.
  eapply returns_bind; [apply returns_choice|]. intros tenant Ht; simpl in Ht.
  eapply returns_bind; [apply returns_lift; intros ds Hds; exact Hds|].
  intros ds Hds; simpl in Hds.
  eapply returns_bind; [apply returns_choice|]. intros department Hd; simpl in Hd.
  eapply returns_bind; [apply returns_lift; intros org Horg; exact Horg|].
  intros org Horg; simpl in Horg.
  eapply returns_bind; [apply returns_new_user|].
  intros u [[= Hid Hrole Horg' Hdep Hoff Hpos] _]. apply returns_ret.
  assert (User.tenant u = tenant) as Hten.
  { unfold User.tenant. rewrite Horg'. by apply orgs_keyed. }
  assert (User.department u = department) as Hdep'.
  { rewrite Hdep. apply (or_none_named department).
    by apply (proj1 (Forall_forall _ _) (extended_departments_named tenant ds Hds)). }
  exists u. split; [done|]. split; [unfold id_role; by rewrite Hid, Hrole|].
  unfold member_placed, affiliated, in_department. rewrite Hten, Horg', Hdep'. eauto 10.
Qed.

Lemma members_loop_placed pool prefix role n (st : UserState) :
  returns (for_each (gen_member today orgs pool prefix role) (range n) st)
    (λ st', ∃ new, st'.1.1 = st.1.1 ++ new ∧ id_role <$> new = enrol prefix role n ∧
                   Forall (member_placed pool) new).
Proof.
  apply (returns_for_each_seq _
    (λ i (st' : UserState), ∃ new, st'.1.1 = st.1.1 ++ new ∧
        id_role <$> new = enrol prefix role i ∧ Forall (member_placed pool) new) 0 n).
  - exists []. by rewrite app_nil_r.
  - intros i st' _ (new & Hu & Hids & Hall).
    eapply returns_weaken; [apply returns_gen_member_placed|].
    intros st'' (u & Hu' & Hid & Hm).
    exists (new ++ [u]). split; [|split].
    + by rewrite Hu', Hu, app_assoc.
    + rewrite fmap_app, Hids, enrol_S. simpl. by rewrite Hid.
    + apply Forall_app. split; [done | by constructor].
Qed.

Lemma specialized_loop_placed (roles : list (string * string * nat)) (st : UserState) :
  returns
    (for_each
       (λ '(prefix, role, count) st,
          for_each (gen_member today orgs tenants prefix role) (range count) st)
       roles st)
    (λ st', ∃ new, st'.1.1 = st.1.1 ++ new ∧
                   id_role <$> new
                   = mjoin ((λ x : string * string * nat, enrol x.1.1 x.1.2 x.2) <$> roles) ∧
                   Forall (member_placed tenants) new).
Proof.
  revert st. induction roles as [|[[prefix role] count] roles IH]; intros st; simpl.
  - apply returns_ret. exists []. by rewrite app_nil_r.
  - eapply returns_bind; [apply members_loop_placed|].
    intros st1 (new1 & Hu1 & Hids1 & Hall1).
    eapply returns_weaken; [apply IH|].
    intros st2 (new2 & Hu2 & Hids2 & Hall2).
    exists (new1 ++ new2). split; [|split].
    + by rewrite Hu2, Hu1, app_assoc.
    + by rewrite fmap_app, Hids1, Hids2.
    + by apply Forall_app.
Qed.

Lemma enrol_roles prefix role n x : x ∈ enrol prefix role n → x.2 = role.
Proof. by intros (i & -> & _)%list_elem_of_fmap. Qed.

Lemma gen_users_placed c :
  returns (gen_users today offices orgs c)
    (λ st, id_role <$> st.1.1 = roster c ∧ Forall user_placed st.1.1).
Proof.
  unfold gen_users.
  eapply returns_bind.
  { apply (returns_for_each_seq _
      (λ i (st : UserState), id_role <$> st.1.1 = enrol "user" "employee" i ∧
                             Forall user_placed st.1.1) 0 (nUsers c)).
    - done.
    - intros i st _ [Hids Hall]. unfold gen_regular_employee.
      eapply returns_bind.
      { apply (returns_gen_employee_employed tenants positions departments offices orgs
                 (user_ext today) orgs_keyed extended_positions_named
                 extended_departments_named). }
      intros st' (u & Hu & Hid & Hemp). apply returns_ret. cbn [fst snd]. rewrite Hu. split.
      + rewrite fmap_app, Hids, enrol_S. simpl. unfold id_role. rewrite Hid.
        by destruct Hemp as (-> & _).
      + apply Forall_app. split; [done|]. constructor; [|done].
        by apply extended_employed_placed. }
  intros st0 [Hids0 Hall0].
  eapply returns_bind; [apply specialized_loop_placed|].
  intros st1 (new1 & Hu1 & Hids1 & Hall1).
  eapply returns_weaken; [apply members_loop_placed|].
  intros st2 (new2 & Hu2 & Hids2 & Hall2).
  rewrite Hu2, Hu1. split.
  - unfold roster. by rewrite !fmap_app, Hids0, Hids1, Hids2, app_assoc.
  - rewrite !Forall_app. split; [split; [done|]|].
    + apply Forall_lookup. intros i u Hu. apply staff_placed.
      * assert (id_role u ∈ id_role <$> new1) as Hin.
        { apply list_elem_of_fmap. exists u. split; [done|]. by eapply list_elem_of_lookup_2. }
        rewrite Hids1 in Hin. apply list_elem_of_join in Hin as (l & Hin & Hl).
        apply list_elem_of_fmap in Hl as ([[p r] n] & -> & Hprn).
        apply enrol_roles in Hin. simpl in Hin. unfold id_role in Hin. simpl in Hin.
        rewrite Hin, <- (specialized_roles_staff c).
        apply list_elem_of_fmap. exists (p, r). split; [done|].
        apply list_elem_of_fmap. by exists (p, r, n).
      * by apply (Forall_lookup_1 _ _ _ _ Hall1 Hu).
    + apply Forall_lookup. intros i u Hu. apply customer_placed.
      * assert (id_role u ∈ id_role <$> new2) as Hin.
        { apply list_elem_of_fmap. exists u. split; [done|]. by eapply list_elem_of_lookup_2. }
        rewrite Hids2 in Hin. by apply enrol_roles in Hin.
      * by apply (Forall_lookup_1 _ _ _ _ Hall2 Hu).
Qed.
End Stages.
End ExtendedCensus.

(** ** The documents of the extended variant *)

Lemma returns_sample_exact {A} (l : list A) (k : nat) :
  returns (sample l k) (λ s, s ⊆ l ∧ length s = k).
Proof. apply returns_and; [apply returns_sample | apply returns_sample_length]. Qed.

Lemma size_list_to_set_length `{Countable A} (l : list A) :
  size (list_to_set l : gset A) ≤ length l.
Proof.
  induction l as [|x l IH].
  - by rewrite list_to_set_nil, size_empty.
  - rewrite list_to_set_cons, size_union_alt, size_singleton. simpl.
    assert (size (list_to_set l ∖ {[x]} : gset A) ≤ size (list_to_set l : gset A))
      by (apply subseteq_size; set_solver).
    lia.
Qed.

Lemma size_update `{Countable A} (l : list A) (s : gset A) n m :
  length l ≤ n → size s ≤ m → size (list_to_set l ∪ s) ≤ n + m.
Proof.
  intros Hl Hs. rewrite size_union_alt.
  assert (size (s ∖ list_to_set l) ≤ size s) by (apply subseteq_size; set_solver).
  pose proof (size_list_to_set_length l). lia.
Qed.

Module ExtendedFiling.
Import Extended ExtendedFacts.

(** The attributes of a document that only its constructor sets. *)
Definition doc_frame (x : DocExt) :=
  (securityLevel x, createdDate x, expiryDate x, projectId x, version x, size x, format x,
   language x, doc_region x, doc_country x, approvalStatus x, tags x,
   complianceRequirements x, retentionPeriod x, isArchived x, lastModified x,
   accessCount x, priority x).

(** The three sets the relationship loop assigns. *)
Definition doc_links (x : DocExt) := (reviewers x, approvers x, relatedDocuments x).

Section Stages.
Variable today : Z.
Variable offices : gmap string Z.

(** The dates of a document, against the day of the run. *)
Definition dated (x : DocExt) : Prop :=
  (today - 365 ≤ createdDate x ≤ today)%Z ∧
  (today - 60 ≤ lastModified x ≤ today)%Z ∧
  (∀ e, expiryDate x = Some e → (today + 30 ≤ e ≤ today + 3650)%Z).

(** A document as the constructor leaves it. *)
Definition doc_filed (users : list User) (d : Document) : Prop :=
  Document.docType d ∈ documentTypes ∧
  (∃ o, users !! Document.owner d = Some o ∧
        Document.tenant d = User.tenant o ∧
        doc_region (Document.ext d) = region (User.ext o) ∧
        doc_country (Document.ext d) = country (User.ext o)) ∧
  drawn_office offices (Document.tenant d) (Document.office d) ∧
  dated (Document.ext d) ∧
  Document.recipients d = ∅ ∧
  doc_links (Document.ext d) = (∅, ∅, ∅).

Lemma returns_doc_ext (o : User) :
  returns (doc_ext today o)
    (λ x, dated x ∧ doc_region x = region (User.ext o) ∧
          doc_country x = country (User.ext o) ∧ doc_links x = (∅, ∅, ∅)).
Proof.
  unfold doc_ext.
  eapply returns_bind; [apply returns_True|]. intros securityLevel _.
  eapply returns_bind.
  { unfold get_created_date. eapply returns_bind; [apply returns_randint|].
    intros k Hk; cbn beta in Hk. apply returns_ret.
    instantiate (1 := λ z, (today - 365 ≤ z ≤ today)%Z). simpl. lia. }
  intros created Hcreated.
  eapply returns_bind.
  { unfold get_expiry_date. eapply returns_bind; [apply returns_True|].
    intros [] _.
    - eapply returns_bind; [apply returns_randint|]. intros k Hk; cbn beta in Hk. apply returns_ret.
      instantiate (1 := λ z, ∀ e, z = Some e → (today + 30 ≤ e ≤ today + 3650)%Z).
      simpl. intros e [= <-]. lia.
    - apply returns_ret. by intros e. }
  intros expiry Hexpiry.
  eapply returns_bind; [apply returns_True|]. intros projectId _.
  eapply returns_bind; [apply returns_True|]. intros major _.
  eapply returns_bind; [apply returns_True|]. intros minor _.
  eapply returns_bind; [apply returns_True|]. intros size _.
  eapply returns_bind; [apply returns_True|]. intros format _.
  eapply returns_bind; [apply returns_True|]. intros language _.
  eapply returns_bind; [apply returns_True|]. intros approvalStatus _.
  eapply returns_bind; [apply returns_True|]. intros tags _.
  eapply returns_bind; [apply returns_True|]. intros complianceRequirements _.
  eapply returns_bind; [apply returns_True|]. intros retentionPeriod _.
  eapply returns_bind; [apply returns_True|]. intros isArchived _.
  eapply returns_bind.
  { unfold get_last_modified. eapply returns_bind; [apply returns_randint|].
    intros k Hk; cbn beta in Hk. apply returns_ret.
    instantiate (1 := λ z, (today - 60 ≤ z ≤ today)%Z). simpl. lia. }
  intros modified Hmodified.
  eapply returns_bind; [apply returns_True|]. intros accessCount _.
  eapply returns_bind; [apply returns_True|]. intros priority _.
  apply returns_ret. done.
Qed.

Lemma extended_returns_new_document_filed (users : list User) docId docType owner
    confidential containsPersonalInfo :
  docType ∈ documentTypes →
  returns (new_document today offices users docId docType owner confidential
             containsPersonalInfo)
    (λ d, Document.docId d = docId ∧ doc_filed users d).
Proof.
  intros Htype. unfold new_document.
  eapply returns_bind; [apply returns_lift; intros o Ho; exact Ho|].
  intros o Ho; simpl in Ho.
  unfold doc_core.
  eapply returns_bind.
  { eapply returns_bind; [apply (returns_draw_office_drawn offices)|]. intros office Hoff.
    apply returns_ret.
    instantiate (1 := λ x, x.1.1 = User.tenant o ∧ drawn_office offices (User.tenant o) x.2).
    done. }
  intros [[tenant department] office] [Ht Hoff]. simpl in Ht, Hoff. subst tenant.
  eapply returns_bind; [apply returns_doc_ext|].
  intros x (Hdated & Hregion & Hcountry & Hlinks).
  apply returns_ret. split; [done|]. unfold doc_filed. simpl.
  split; [done|]. split; [by exists o|]. done.
Qed.

Lemma extended_documents_loop_filed (users : list User) n :
  returns (for_each (gen_document today offices users) (range n) [])
    (λ docs, Document.docId <$> docs = block "doc" n ∧ Forall (doc_filed users) docs).
Proof.
  apply (returns_for_each_seq _
    (λ i (docs : list Document),
       Document.docId <$> docs = block "doc" i ∧ Forall (doc_filed users) docs) 0 n).
  - done.
  - intros i docs _ [Hids Hall]. unfold gen_document.
    eapply returns_bind; [apply returns_True|]. intros owner _.
    eapply returns_bind; [apply returns_choice|]. intros docType Hty; simpl in Hty.
    eapply returns_bind; [apply returns_True|]. intros confidential _.
    eapply returns_bind; [apply returns_True|]. intros containsPersonalInfo _.
    eapply returns_bind; [by apply extended_returns_new_document_filed|]. intros d [Hid Hd].
    apply returns_ret. split.
    + unfold block in *. rewrite fmap_app, Hids, seq_S, fmap_app. simpl. by rewrite Hid.
    + apply Forall_app. split; [done | by constructor].
Qed.
End Stages.

(** *** Recipients *)

Lemma size_inhabited `{Countable A} (s : gset A) x : x ∈ s → 1 ≤ base.size s.
Proof.
  intros Hx. assert (base.size s ≠ 0); [|lia].
  apply size_non_empty_iff. intros He. rewrite He in Hx. by apply elem_of_empty in Hx.
Qed.

(** [set_recipients] changes the recipients only; a document without
    recipients whose tenant has a user gets from 1 to 18 of them. *)
Lemma returns_set_recipients_sized (users : list User) (d : Document) :
  Document.recipients d = ∅ →
  (∃ r u, users !! r = Some u ∧ User.tenant u = Document.tenant d) →
  returns (set_recipients users d)
    (λ d', doc_base d' = doc_base d ∧ Document.ext d' = Document.ext d ∧
           1 ≤ base.size (Document.recipients d') ≤ 18).
Proof.
  intros Hempty (owner & o & Ho & Hto). unfold set_recipients.
  eapply returns_bind.
  { instantiate (1 := λ d', doc_base d' = doc_base d ∧ Document.ext d' = Document.ext d ∧
                            base.size (Document.recipients d') ≤ 5).
    assert (base.size (Document.recipients d) ≤ 5) as H0 by (rewrite Hempty, size_empty; lia).
    destruct (decide (Document.office d ≠ "none")) as [Hne|_]; [|by apply returns_ret].
    destruct (decide (_ = [])); [by apply returns_ret|].
    eapply returns_bind; [apply returns_randint|]. intros k Hk; cbn beta in Hk.
    apply returns_ret. split; [done|]. split; [done|]. simpl.
    replace 5 with (5 + 0) by lia. apply size_update.
    - rewrite length_take. lia.
    - rewrite Hempty, size_empty. lia. }
  intros d1 (Hb1 & He1 & Hs1).
  assert (Document.tenant d1 = Document.tenant d) as Ht1 by (by injection Hb1).
  eapply returns_bind.
  { instantiate (1 := λ d', doc_base d' = doc_base d ∧ Document.ext d' = Document.ext d ∧
                            1 ≤ base.size (Document.recipients d') ≤ 13).
    assert (owner ∈ refs_where (λ u, bool_decide (User.tenant u = Document.tenant d1)) users)
      as Hin.
    { apply elem_of_refs_where. exists o. split; [done|]. apply bool_decide_eq_true. congruence. }
    destruct (decide (_ = [])) as [He|Hne]; [rewrite He in Hin; by apply elem_of_nil in Hin|].
    eapply returns_bind; [apply returns_randint|]. intros k Hk; cbn beta in Hk.
    eapply returns_bind; [apply returns_sample_exact|]. intros refs [_ Hlen]. apply returns_ret.
    split; [done|]. split; [done|]. simpl. split.
    - destruct refs as [|r refs].
      + simpl in Hlen. destruct (refs_where _ users); [done|]. simpl in Hlen. lia.
      + apply (size_inhabited _ r). set_solver.
    - replace 13 with (8 + 5) by lia. apply size_update; [lia | done]. }
  intros d2 (Hb2 & He2 & Hs2).
  destruct (decide (_ = [])); [apply returns_ret; split; [done|]; split; [done|]; lia|].
  eapply returns_bind; [apply returns_randint|]. intros k Hk; cbn beta in Hk.
  eapply returns_bind; [apply returns_sample_exact|]. intros refs [_ Hlen]. apply returns_ret.
  split; [done|]. split; [done|]. simpl. split.
  - destruct (size_pos_elem_of (Document.recipients d2)) as [r Hr]; [lia|].
    apply (size_inhabited _ r). set_solver.
  - replace 18 with (5 + 13) by lia. apply size_update; [lia | lia].
Qed.

(** *** Reviewers, approvers and related documents *)

(** The id of a user of the department of the document, other than its
    owner. *)
Definition colleague (users : list User) (d : Document) (x : string) : Prop :=
  ∃ r u, r ≠ Document.owner d ∧ users !! r = Some u ∧ User.userId u = x ∧
         User.department u = Document.department d.

(** The id of a manager, a director or an admin of the department of the
    document. *)
Definition authority (users : list User) (d : Document) (x : string) : Prop :=
  ∃ r u, users !! r = Some u ∧ User.userId u = x ∧
         User.role u ∈ ["manager"; "director"; "admin"] ∧
         User.department u = Document.department d.

(** The id of a document at another place of the list. *)
Definition sibling (ids : list string) (i : nat) (x : string) : Prop :=
  ∃ j, j ≠ i ∧ ids !! j = Some x.

(** The set is left as it was, or assigned at most [n] elements of [P]. *)
Definition drawn_from (P : string → Prop) (n : nat) (s0 s : gset string) : Prop :=
  s = s0 ∨ (base.size s ≤ n ∧ ∀ x, x ∈ s → P x).

(** What an iteration of the relationship loop does to its document. *)
Definition related (users : list User) (ids : list string) (i : nat) (d0 d' : Document)
    : Prop :=
  doc_base d' = doc_base d0 ∧ Document.recipients d' = Document.recipients d0 ∧
  doc_frame (Document.ext d') = doc_frame (Document.ext d0) ∧
  (if bool_decide (approvalStatus (Document.ext d0) ∈ ["pending"; "approved"])
   then drawn_from (colleague users d0) 3
          (reviewers (Document.ext d0)) (reviewers (Document.ext d')) ∧
        drawn_from (authority users d0) 2
          (approvers (Document.ext d0)) (approvers (Document.ext d'))
   else reviewers (Document.ext d') = reviewers (Document.ext d0) ∧
        approvers (Document.ext d') = approvers (Document.ext d0)) ∧
  drawn_from (sibling ids i) 2
    (relatedDocuments (Document.ext d0)) (relatedDocuments (Document.ext d')).

Lemma elem_of_ids_of (users : list User) refs x :
  x ∈ ids_of users refs ↔ ∃ r u, r ∈ refs ∧ users !! r = Some u ∧ User.userId u = x.
Proof.
  unfold ids_of. rewrite list_elem_of_omap. split.
  - intros (r & Hr & (u & Hu & ->)%fmap_Some). by exists r, u.
  - intros (r & u & Hr & Hu & <-). exists r. split; [done|]. by rewrite Hu.
Qed.

Lemma drawn_from_sample (P : string → Prop) n k (l s : list string) (s0 : gset string) :
  k ≤ n → s ⊆ l → length s = k → (∀ x, x ∈ l → P x) →
  drawn_from P n s0 (list_to_set s).
Proof.
  intros Hk Hsub Hlen HP. right. split.
  - pose proof (size_list_to_set_length s). lia.
  - intros x Hx%elem_of_list_to_set. by apply HP, Hsub.
Qed.

Lemma colleague_base users users' d d' x :
  base <$> users' = base <$> users → doc_base d' = doc_base d →
  colleague users d x → colleague users' d' x.
Proof.
  intros Hb [= _ _ Hown _ _ _ Hdep _] (r & u & Hne & Hu & Hid & Hd).
  destruct (base_lookup users users' r u Hb Hu) as (u' & Hu' & Hbu).
  exists r, u'. rewrite Hown, Hdep. split; [done|]. split; [done|].
  by rewrite (base_userId _ _ Hbu), (base_department _ _ Hbu).
Qed.

Lemma authority_base users users' d d' x :
  base <$> users' = base <$> users → doc_base d' = doc_base d →
  authority users d x → authority users' d' x.
Proof.
  intros Hb [= _ _ _ _ _ _ Hdep _] (r & u & Hu & Hid & Hrole & Hd).
  destruct (base_lookup users users' r u Hb Hu) as (u' & Hu' & Hbu).
  exists r, u'. rewrite Hdep. split; [done|].
  by rewrite (base_userId _ _ Hbu), (base_role _ _ Hbu), (base_department _ _ Hbu).
Qed.

Lemma drawn_from_impl (P Q : string → Prop) n s0 s :
  (∀ x, P x → Q x) → drawn_from P n s0 s → drawn_from Q n s0 s.
Proof. intros HPQ [->|[Hs HP]]; [by left | right; split; [done | auto]]. Qed.

Lemma related_base users users' ids i d0 d' :
  base <$> users' = base <$> users → related users ids i d0 d' → related users' ids i d0 d'.
Proof.
  intros Hb (H1 & H2 & H3 & H4 & H5). split; [done|]. split; [done|]. split; [done|].
  split; [|done]. destruct (bool_decide _); [|done]. destruct H4 as [Hr Ha]. split.
  - eapply drawn_from_impl; [|exact Hr]. intros x. by apply colleague_base.
  - eapply drawn_from_impl; [|exact Ha]. intros x. by apply authority_base.
Qed.

Lemma returns_relate_related i (users : list User) (docs : list Document) :
  returns (relate i (users, docs))
    (λ st', base <$> st'.1 = base <$> users ∧
            ∃ d0 d', docs !! i = Some d0 ∧ st'.2 = <[i := d']> docs ∧
                     related st'.1 (Document.docId <$> docs) i d0 d').
Proof.
  unfold relate.
  eapply returns_bind; [apply returns_lift; intros doc Hdoc; exact Hdoc|].
  intros doc Hdoc; simpl in Hdoc.
  eapply returns_bind; [apply returns_lift; intros owner Ho; exact Ho|].
  intros owner Ho; simpl in Ho.
  set (users' := if decide (User.projects owner ≠ ∅)
                 then alter (User.add_project (Document.docId doc)) (Document.owner doc) users
                 else users).
  assert (base <$> users' = base <$> users) as Hbase.
  { unfold users'. destruct (decide _); [by apply fmap_alter_keep | done]. }
  eapply returns_bind.
  { instantiate (1 := λ d', doc_base d' = doc_base doc ∧
        Document.recipients d' = Document.recipients doc ∧
        doc_frame (Document.ext d') = doc_frame (Document.ext doc) ∧
        relatedDocuments (Document.ext d') = relatedDocuments (Document.ext doc) ∧
        (if bool_decide (approvalStatus (Document.ext doc) ∈ ["pending"; "approved"])
         then drawn_from (colleague users' doc) 3
                (reviewers (Document.ext doc)) (reviewers (Document.ext d')) ∧
              drawn_from (authority users' doc) 2
                (approvers (Document.ext doc)) (approvers (Document.ext d'))
         else reviewers (Document.ext d') = reviewers (Document.ext doc) ∧
              approvers (Document.ext d') = approvers (Document.ext doc))).
    destruct (bool_decide _); [|by apply returns_ret].
    eapply returns_bind.
    { instantiate (1 := λ d', doc_base d' = doc_base doc ∧
          Document.recipients d' = Document.recipients doc ∧
          doc_frame (Document.ext d') = doc_frame (Document.ext doc) ∧
          relatedDocuments (Document.ext d') = relatedDocuments (Document.ext doc) ∧
          approvers (Document.ext d') = approvers (Document.ext doc) ∧
          drawn_from (colleague users' doc) 3
            (reviewers (Document.ext doc)) (reviewers (Document.ext d'))).
      destruct (decide (_ = [])).
      { apply returns_ret. split; [done|]. split; [done|]. split; [done|]. split; [done|].
        split; [done|]. by left. }
      eapply returns_bind; [apply returns_randint|]. intros k Hk; cbn beta in Hk.
      eapply returns_bind; [apply returns_sample_exact|]. intros refs [Hsub Hlen].
      apply returns_ret. split; [done|]. split; [done|]. split; [done|]. split; [done|].
      split; [done|]. simpl.
      eapply drawn_from_sample; [|exact Hsub|exact Hlen|]; [lia|].
      intros x (r & u & Hr & Hu & Hid)%elem_of_ids_of.
      apply list_elem_of_filter in Hr as [Hne Hr].
      apply elem_of_refs_where in Hr as (u2 & Hu2 & Hd%bool_decide_eq_true).
      exists r, u. split; [done|]. split; [done|]. split; [done | congruence]. }
    intros d1 (Hb1 & Hr1 & Hf1 & Hrel1 & Ha1 & Hrev1).
    destruct (decide (_ = [])).
    { apply returns_ret. split; [done|]. split; [done|]. split; [done|]. split; [done|].
      split; [done|]. by left. }
    eapply returns_bind; [apply returns_randint|]. intros k Hk; cbn beta in Hk.
    eapply returns_bind; [apply returns_sample_exact|]. intros refs [Hsub Hlen].
    apply returns_ret. split; [done|]. split; [done|]. split; [done|]. split; [done|].
    split; [done|]. simpl.
    eapply drawn_from_sample; [|exact Hsub|exact Hlen|]; [lia|].
    intros x (r & u & Hr & Hu & Hid)%elem_of_ids_of.
    apply elem_of_refs_where in Hr as (u2 & Hu2 & [Hrole%bool_decide_eq_true
      Hd%bool_decide_eq_true]%andb_true_iff).
    assert (u2 = u) as -> by congruence.
    assert (Document.department d1 = Document.department doc) as Hd1 by (by injection Hb1).
    exists r, u. split; [done|]. split; [done|]. split; [done | congruence]. }
  intros d1 (Hb1 & Hr1 & Hf1 & Hrel1 & Hlinks1).
  eapply returns_bind; [apply returns_True|]. intros b _.
  eapply returns_bind.
  { instantiate (1 := λ d', related users' (Document.docId <$> docs) i doc d').
    destruct b.
    - eapply returns_bind; [apply returns_randint|]. intros k Hk; cbn beta in Hk.
      eapply returns_bind; [apply returns_sample_exact|]. intros refs [Hsub Hlen].
      apply returns_ret. split; [done|]. split; [done|]. split; [done|]. split; [done|].
      simpl. eapply drawn_from_sample; [|exact Hsub|exact Hlen|]; [lia|].
      intros x ([j dj] & -> & [Hne Hin]%list_elem_of_filter)%list_elem_of_fmap.
      apply elem_of_lookup_imap in Hin as (j' & d' & [= -> ->] & Hj). simpl in *.
      exists j'. split; [done|]. by rewrite list_lookup_fmap, Hj.
    - apply returns_ret. split; [done|]. split; [done|]. split; [done|]. split; [done|].
      left. done. }
  intros d2 Hrel. apply returns_ret. cbn [fst snd]. split; [done|]. by exists doc, d2.
Qed.

Lemma relate_loop_related (users : list User) (docs : list Document) :
  returns (for_each relate (range (length docs)) (users, docs))
    (λ st', base <$> st'.1 = base <$> users ∧
            length st'.2 = length docs ∧
            ∀ i d0 d', docs !! i = Some d0 → st'.2 !! i = Some d' →
                       related st'.1 (Document.docId <$> docs) i d0 d').
Proof.
  eapply returns_weaken.
  - apply (returns_for_each_seq _
      (λ i (st' : list User * list Document),
         base <$> st'.1 = base <$> users ∧
         length st'.2 = length docs ∧
         Document.docId <$> st'.2 = Document.docId <$> docs ∧
         (∀ j, i ≤ j → st'.2 !! j = docs !! j) ∧
         (∀ j d0 d', j < i → docs !! j = Some d0 → st'.2 !! j = Some d' →
                     related st'.1 (Document.docId <$> docs) j d0 d')) 0 (length docs)).
    + split; [done|]. split; [done|]. split; [done|]. split; [done|]. intros j d0 d' Hj. lia.
    + intros i [users1 docs1] _ (Hb & Hlen & Hids & Hrest & Hdone). cbn [fst snd] in *.
      eapply returns_weaken; [apply returns_relate_related|].
      intros [users2 docs2] (Hb2 & d0 & d' & Hd0 & -> & Hrel). cbn [fst snd] in *.
      assert (i < length docs1) as Hi by (by eapply lookup_lt_Some).
      split; [congruence|]. split; [by rewrite length_insert|]. split.
      { rewrite <- Hids. apply (fmap_insert_keep _ _ _ d0); [done|].
        destruct Hrel as (Hbd & _). by injection Hbd. }
      split.
      { intros j Hj. rewrite list_lookup_insert_ne by lia. apply Hrest. lia. }
      intros j e0 e' Hj He0. destruct (decide (j = i)) as [->|Hne].
      * rewrite list_lookup_insert_eq by done. intros [= <-].
        rewrite Hrest in Hd0 by lia. assert (e0 = d0) as -> by congruence.
        by rewrite <- Hids.
      * rewrite list_lookup_insert_ne by done. intros He'.
        apply (related_base users1); [done|]. apply Hdone; [lia | done | done].
  - intros [users' docs'] (Hb & Hlen & _ & _ & Hdone). cbn [fst snd] in *.
    split; [done|]. split; [done|]. intros i d0 d' Hd0. apply Hdone; [|done].
    by apply lookup_lt_Some in Hd0.
Qed.
End ExtendedFiling.

(** ** The attributes the extended variant adds to a user *)

Module ExtendedProfiles.
Import Extended ExtendedFacts.

(** The attributes only the constructor sets. *)
Definition user_frame (x : UserExt) :=
  (securityClearance x, experience x, customerTier x, region x, country x, city x,
   timeZone x, workingHours x, certifications x, isActive x, lastLogin x,
   contractType x, budgetAuthority x).

Definition framed (u : User) := (base u, user_frame (User.ext u)).

(** The sets the stages after the payrolling loop fill are empty. *)
Definition unstocked (u : User) : Prop :=
  User.projects u = ∅ ∧ currentProjects (User.ext u) = ∅ ∧
  pastProjects (User.ext u) = ∅ ∧ temporaryAccess (User.ext u) = ∅ ∧
  delegatedAuthority (User.ext u) = ∅.

Definition project_ids (n : nat) (x : string) : Prop :=
  ∃ i, i < n ∧ x = "proj" +:+ pretty i.

(** The ids [f"{prefix}{random.randint(1, bound)}"]. *)
Definition drawn_ids (prefix : string) (bound : Z) (x : string) : Prop :=
  ∃ k : Z, (1 ≤ k ≤ bound)%Z ∧ x = prefix +:+ pretty k.

(** The id of another user of the department of [u], of a role that
    delegates. *)
Definition delegator (users : list User) (r : nat) (u : User) (x : string) : Prop :=
  ∃ r' u', r' ≠ r ∧ users !! r' = Some u' ∧ User.userId u' = x ∧
           User.role u' ∈ ["manager"; "director"; "projectManager"] ∧
           User.department u' = User.department u.

(** What the sets of the user at [r] hold. *)
Definition stock (n : nat) (users : list User) (r : nat) (u : User) : Prop :=
  User.projects u = currentProjects (User.ext u) ∧
  (∀ x, x ∈ currentProjects (User.ext u) → project_ids n x) ∧
  (∀ x, x ∈ pastProjects (User.ext u) → drawn_ids "pastProj" 500 x) ∧
  (∀ x, x ∈ temporaryAccess (User.ext u) → drawn_ids "tempRes" 100 x) ∧
  (∀ x, x ∈ delegatedAuthority (User.ext u) → delegator users r u x).

Definition stocked (n : nat) (users : list User) : Prop :=
  ∀ r u, users !! r = Some u → stock n users r u.

(** A step of a stage that delegates nothing. *)
Definition restocks (n : nat) (u u' : User) : Prop :=
  framed u' = framed u ∧
  (User.projects u = currentProjects (User.ext u) →
   User.projects u' = currentProjects (User.ext u')) ∧
  (∀ x, x ∈ currentProjects (User.ext u') →
        x ∈ currentProjects (User.ext u) ∨ project_ids n x) ∧
  (∀ x, x ∈ pastProjects (User.ext u') →
        x ∈ pastProjects (User.ext u) ∨ drawn_ids "pastProj" 500 x) ∧
  (∀ x, x ∈ temporaryAccess (User.ext u') →
        x ∈ temporaryAccess (User.ext u) ∨ drawn_ids "tempRes" 100 x) ∧
  delegatedAuthority (User.ext u') = delegatedAuthority (User.ext u).

Lemma restocks_refl n u : restocks n u u.
Proof. unfold restocks. split; [done|]. split; [done|]. repeat split; auto. Qed.

Lemma framed_base (users users' : list User) :
  framed <$> users' = framed <$> users → base <$> users' = base <$> users.
Proof. by apply (fmap_factor framed fst). Qed.

Lemma delegator_base users users' r u u' x :
  base <$> users' = base <$> users → base u' = base u →
  delegator users r u x → delegator users' r u' x.
Proof.
  intros Hb Hbu (r' & v & Hne & Hv & Hid & Hrole & Hd).
  destruct (base_lookup users users' r' v Hb Hv) as (v' & Hv' & Hbv).
  exists r', v'. split; [done|]. split; [done|].
  by rewrite (base_userId _ _ Hbv), (base_role _ _ Hbv), (base_department _ _ Hbv),
       (base_department _ _ Hbu).
Qed.

Lemma stocked_restock n (users users' : list User) :
  base <$> users' = base <$> users →
  (∀ r u', users' !! r = Some u' → ∃ u, users !! r = Some u ∧ restocks n u u') →
  stocked n users → stocked n users'.
Proof.
  intros Hb Hstep Hst r u' Hu'.
  destruct (Hstep r u' Hu') as (u & Hu & Hf & Hp & Hc & Hpast & Htemp & Hdel).
  destruct (Hst r u Hu) as (S1 & S2 & S3 & S4 & S5).
  assert (base u' = base u) as Hbu by exact (f_equal fst Hf).
  split; [auto|]. split; [|split; [|split]].
  - intros x Hx. destruct (Hc x Hx); auto.
  - intros x Hx. destruct (Hpast x Hx); auto.
  - intros x Hx. destruct (Htemp x Hx); auto.
  - intros x Hx. rewrite Hdel in Hx. by apply (delegator_base users users' r u u'), S5.
Qed.

Lemma Forall2_restocks n (users users' : list User) :
  Forall2 (restocks n) users users' →
  framed <$> users' = framed <$> users ∧
  ∀ r u', users' !! r = Some u' → ∃ u, users !! r = Some u ∧ restocks n u u'.
Proof.
  intros Hall. split.
  - apply Forall2_fmap_keep. eapply Forall2_impl; [exact Hall|]. by intros u u' (? & _).
  - intros r u' Hu'. destruct (Forall2_lookup_r _ _ _ _ _ Hall Hu') as (u & Hu & HR). eauto.
Qed.

Section Stages.
Variable today : Z.
Variable offices : gmap string Z.
Variable orgs : gmap string Organization.

(** A user as the constructor leaves it. *)
Definition profiled (u : User) : Prop :=
  region (User.ext u) = org_region (Organization.ext (User.organization u)) ∧
  country (User.ext u) = org_country (Organization.ext (User.organization u)) ∧
  (today - 30 ≤ lastLogin (User.ext u) ≤ today)%Z ∧
  (0 ≤ experience (User.ext u) ≤ 30)%Z ∧
  securityClearance (User.ext u) ∈ securityLevels ∧
  (if decide (User.role u = "customer") then customerTier (User.ext u) ∈ customerTiers
   else customerTier (User.ext u) = "none") ∧
  (User.role u ∉ ["manager"; "director"] → budgetAuthority (User.ext u) = 0%Z).

Lemma profiled_framed (u u' : User) : framed u' = framed u → profiled u → profiled u'.
Proof.
  unfold profiled.
  intros [= _ Hrole Horg _ _ _ Hsec Hexp Htier Hreg Hcou _ _ _ _ _ Hlast _ Hbud].
  by rewrite Hrole, Horg, Hsec, Hexp, Htier, Hreg, Hcou, Hlast, Hbud.
Qed.

Lemma returns_user_ext role org :
  returns (user_ext today role org)
    (λ x, region x = org_region (Organization.ext org) ∧
          country x = org_country (Organization.ext org) ∧
          (today - 30 ≤ lastLogin x ≤ today)%Z ∧ (0 ≤ experience x ≤ 30)%Z ∧
          securityClearance x ∈ securityLevels ∧
          (if decide (role = "customer") then customerTier x ∈ customerTiers
           else customerTier x = "none") ∧
          (role ∉ ["manager"; "director"] → budgetAuthority x = 0%Z) ∧
          currentProjects x = ∅ ∧ pastProjects x = ∅ ∧ temporaryAccess x = ∅ ∧
          delegatedAuthority x = ∅).
Proof.
  unfold user_ext.
  eapply returns_bind; [apply returns_choice|]. intros securityClearance Hsec; simpl in Hsec.
  eapply returns_bind; [apply returns_randint|]. intros experience Hexp; cbn beta in Hexp.
  eapply returns_bind.
  { instantiate (1 := λ tier, if decide (role = "customer") then tier ∈ customerTiers
                              else tier = "none").
    destruct (decide (role = "customer")); [apply returns_choice | by apply returns_ret]. }
  intros customerTier Htier.
  eapply returns_bind; [apply returns_True|]. intros city _.
  eapply returns_bind; [apply returns_True|]. intros timeZone _.
  eapply returns_bind; [apply returns_True|]. intros workingHours _.
  eapply returns_bind; [apply returns_True|]. intros certifications _.
  eapply returns_bind; [apply returns_True|]. intros isActive _.
  eapply returns_bind.
  { unfold get_last_login. eapply returns_bind; [apply returns_randint|].
    intros k Hk; cbn beta in Hk. apply returns_ret.
    instantiate (1 := λ z, (today - 30 ≤ z ≤ today)%Z). simpl. lia. }
  intros lastLogin Hlast.
  eapply returns_bind; [apply returns_True|]. intros contractType _.
  eapply returns_bind.
  { instantiate (1 := λ b, role ∉ ["manager"; "director"] → b = 0%Z).
    destruct (bool_decide _) eqn:E.
    - intros r b r' _ Hno. by apply bool_decide_eq_true in E.
    - by apply returns_ret. }
  intros budgetAuthority Hbud.
  apply returns_ret. done.
Qed.

Lemma returns_new_user_profiled userId role org dep off pos :
  returns (new_user (user_ext today) userId role org dep off pos)
    (λ u, profiled u ∧ unstocked u).
Proof.
  unfold new_user. eapply returns_bind; [apply returns_user_ext|].
  intros x (H1 & H2 & H3 & H4 & H5 & H6 & H7 & H8 & H9 & H10 & H11).
  apply returns_ret. done.
Qed.

Abbreviation UserState := (list User * Groups * RoleIndex)%type.

Lemma members_loop_profiled pool prefix role l (st : UserState) :
  Forall (λ u, profiled u ∧ unstocked u) st.1.1 →
  returns (for_each (gen_member today orgs pool prefix role) l st)
    (λ st', Forall (λ u, profiled u ∧ unstocked u) st'.1.1).
Proof.
  intros Hst. apply (returns_for_each _
    (λ st' : UserState, Forall (λ u, profiled u ∧ unstocked u) st'.1.1)); [done|].
  intros i st' _ Hall. unfold gen_member.
  eapply returns_bind; [apply returns_True|]. intros tenant _.
  eapply returns_bind; [apply returns_True|]. intros deps _.
  eapply returns_bind; [apply returns_True|]. intros department _.
  eapply returns_bind; [apply returns_True|]. intros org _.
  eapply returns_bind; [apply returns_new_user_profiled|]. intros u Hu.
  apply returns_ret. cbn [fst snd]. apply Forall_app. split; [done | by constructor].
Qed.

Lemma gen_users_profiled c :
  returns (gen_users today offices orgs c)
    (λ st, Forall (λ u, profiled u ∧ unstocked u) st.1.1).
Proof.
  unfold gen_users.
  eapply returns_bind.
  { apply (returns_for_each _
      (λ st : UserState, Forall (λ u, profiled u ∧ unstocked u) st.1.1)); [done|].
    intros i st _ Hall. unfold gen_regular_employee, gen_employee.
    eapply returns_bind.
    { eapply returns_bind; [apply returns_True|]. intros [[[tenant position] office] department] _.
      eapply returns_bind; [apply returns_True|]. intros org _.
      eapply returns_bind; [apply returns_new_user_profiled|]. intros u Hu.
      apply returns_ret.
      instantiate (1 := λ st' : list User * Groups,
                          Forall (λ u, profiled u ∧ unstocked u) st'.1).
      cbn [fst snd]. apply Forall_app. split; [done | by constructor]. }
    intros st' Hst'. by apply returns_ret. }
  intros st0 Hst0.
  eapply returns_bind.
  { instantiate (1 := λ st : UserState, Forall (λ u, profiled u ∧ unstocked u) st.1.1).
    apply (returns_for_each _
      (λ st : UserState, Forall (λ u, profiled u ∧ unstocked u) st.1.1)); [done|].
    intros [[prefix role] count] st _ Hall. by apply members_loop_profiled. }
  intros st1 Hst1. by apply members_loop_profiled.
Qed.
End Stages.

(** *** Projects, past projects and temporary access *)

Lemma join_project_restocks n (i : nat) (u : User) :
  i < n → restocks n u (join_project ("proj" +:+ pretty i) u).
Proof.
  intros Hi. split; [done|]. split; [|split; [|split; [|split]]]; simpl.
  - intros ->. done.
  - intros x [->%elem_of_singleton|?]%elem_of_union; [right; by exists i | by left].
  - auto.
  - auto.
  - done.
Qed.

Lemma restocks_trans n u1 u2 u3 : restocks n u1 u2 → restocks n u2 u3 → restocks n u1 u3.
Proof.
  intros (F1 & P1 & C1 & A1 & T1 & D1) (F2 & P2 & C2 & A2 & T2 & D2).
  split; [congruence|]. split; [auto|]. split; [|split; [|split]].
  - intros x Hx. destruct (C2 x Hx); auto.
  - intros x Hx. destruct (A2 x Hx); auto.
  - intros x Hx. destruct (T2 x Hx); auto.
  - congruence.
Qed.

(** The users step by step: each one is a restocked version of the one at
    the same place. *)
Definition restocked n (users users' : list User) : Prop :=
  framed <$> users' = framed <$> users ∧
  ∀ r u', users' !! r = Some u' → ∃ u, users !! r = Some u ∧ restocks n u u'.

Lemma restocked_refl n users : restocked n users users.
Proof. split; [done|]. intros r u Hu. exists u. split; [done | apply restocks_refl]. Qed.

Lemma restocked_trans n users1 users2 users3 :
  restocked n users1 users2 → restocked n users2 users3 → restocked n users1 users3.
Proof.
  intros [F1 H1] [F2 H2]. split; [congruence|]. intros r u3 Hu3.
  destruct (H2 r u3 Hu3) as (u2 & Hu2 & R2). destruct (H1 r u2 Hu2) as (u1 & Hu1 & R1).
  exists u1. split; [done | by eapply restocks_trans].
Qed.

Lemma restocked_alter n (f : User → User) ref users :
  (∀ u, restocks n u (f u)) → restocked n users (alter f ref users).
Proof.
  intros Hf. split.
  - apply fmap_alter_keep. intros u. by destruct (Hf u).
  - intros r u'. rewrite list_lookup_alter. destruct (decide (ref = r)) as [->|_].
    + intros (u & Hu & ->)%fmap_Some. eauto.
    + intros Hu. exists u'. split; [done | apply restocks_refl].
Qed.

Lemma restocked_stocked n users users' :
  restocked n users users' → stocked n users → stocked n users'.
Proof. intros [F H]. apply stocked_restock; [by apply framed_base | done]. Qed.

Lemma gen_project_restocked n i users :
  i < n → returns (gen_project i users) (restocked n users).
Proof.
  intros Hi. unfold gen_project.
  eapply returns_bind; [apply returns_True|]. intros project_owner _.
  eapply returns_bind; [apply returns_True|]. intros project_phase _.
  eapply returns_bind; [apply returns_True|]. intros project_budget _.
  eapply returns_bind; [apply returns_True|]. intros project_team_size _.
  eapply returns_bind; [apply returns_True|]. intros project_team _.
  apply returns_ret. generalize users. clear users.
  induction project_team as [|ref team IH]; intros users; simpl.
  - apply restocked_refl.
  - eapply restocked_trans; [|apply IH].
    apply restocked_alter. intros u. by apply join_project_restocks.
Qed.

Lemma project_loop_restocked n users :
  returns (for_each gen_project (range n) users) (restocked n users).
Proof.
  eapply returns_weaken.
  - apply (returns_for_each_seq _ (λ _ users', restocked n users users') 0 n).
    + apply restocked_refl.
    + intros i users' Hi Hr. eapply returns_weaken; [apply (gen_project_restocked n); lia|].
      intros users''. by apply restocked_trans.
  - done.
Qed.

Lemma returns_draw_ids prefix bound count :
  returns (draw_ids prefix bound count) (λ s, ∀ x, x ∈ s → drawn_ids prefix bound x).
Proof.
  unfold draw_ids.
  apply (returns_for_each _ (λ s : gset string, ∀ x, x ∈ s → drawn_ids prefix bound x)).
  - intros x Hx. by apply elem_of_empty in Hx.
  - intros _ s _ Hs. eapply returns_bind; [apply returns_randint|].
    intros k Hk; cbn beta in Hk. apply returns_ret.
    intros x [->%elem_of_singleton|?]%elem_of_union; [by exists k | auto].
Qed.

Lemma gen_past_projects_restocked n users :
  returns (gen_past_projects users) (restocked n users).
Proof.
  unfold gen_past_projects. eapply returns_weaken.
  - apply (returns_collect _ (restocks n)). intros u _.
    eapply returns_bind; [apply returns_True|]. intros [] _; [|apply returns_ret, restocks_refl].
    eapply returns_bind; [apply returns_True|]. intros k _.
    eapply returns_bind; [apply returns_draw_ids|]. intros ids Hids.
    apply returns_ret. split; [done|]. split; [done|]. split; [|split; [|split]]; simpl; auto.
    intros x [?|?]%elem_of_union; auto.
  - intros users'. apply Forall2_restocks.
Qed.

Lemma gen_temporary_access_restocked n users :
  returns (gen_temporary_access users) (restocked n users).
Proof.
  unfold gen_temporary_access. eapply returns_weaken.
  - apply (returns_collect _ (restocks n)). intros u _.
    eapply returns_bind; [apply returns_True|]. intros [] _; [|apply returns_ret, restocks_refl].
    eapply returns_bind; [apply returns_True|]. intros k _.
    eapply returns_bind; [apply returns_draw_ids|]. intros ids Hids.
    apply returns_ret. split; [done|]. split; [done|]. split; [|split; [|split]]; simpl; auto.
    intros x [?|?]%elem_of_union; auto.
  - intros users'. apply Forall2_restocks.
Qed.

(** *** Delegation *)

Lemma gen_delegation_stocked n ref users :
  stocked n users →
  returns (gen_delegation ref users)
    (λ users', framed <$> users' = framed <$> users ∧ stocked n users').
Proof.
  intros Hst. unfold gen_delegation.
  eapply returns_bind; [apply returns_lift; intros user Hu; exact Hu|].
  intros user Huser; simpl in Huser.
  eapply returns_bind.
  { instantiate (1 := λ b : bool,
      b = true → User.role user ∈ ["manager"; "director"; "projectManager"]).
    destruct (bool_decide _) eqn:E.
    - intros r b r' _ _. by apply bool_decide_eq_true in E.
    - by apply returns_ret. }
  intros [] Hrole; [|by apply returns_ret]. specialize (Hrole eq_refl).
  destruct (decide (_ = [])); [by apply returns_ret|].
  eapply returns_bind; [apply returns_choice|]. intros delegate Hd; simpl in Hd.
  apply list_elem_of_filter in Hd as [Hne Hd].
  apply elem_of_refs_where in Hd as (v & Hv & Hdep%bool_decide_eq_true).
  apply returns_ret.
  set (f := on_ext (λ x, set_delegatedAuthority
                           ({[User.userId user]} ∪ delegatedAuthority x) x)).
  assert (framed <$> alter f delegate users = framed <$> users) as Hf
    by (by apply fmap_alter_keep).
  split; [done|]. intros r u'. rewrite list_lookup_alter.
  destruct (decide (delegate = r)) as [<-|Hr].
  - rewrite Hv. intros [= <-]. destruct (Hst delegate v Hv) as (S1 & S2 & S3 & S4 & S5).
    split; [done|]. split; [done|]. split; [done|]. split; [done|]. simpl.
    intros x [->%elem_of_singleton|Hx]%elem_of_union.
    + destruct (base_lookup users (alter f delegate users) ref user (framed_base _ _ Hf) Huser)
        as (user' & Huser' & Hbu).
      exists ref, user'. split; [done|]. split; [done|].
      by rewrite (base_userId _ _ Hbu), (base_role _ _ Hbu), (base_department _ _ Hbu).
    + apply (delegator_base users _ delegate v); [by apply framed_base | done | by apply S5].
  - intros Hu'. destruct (Hst r u' Hu') as (S1 & S2 & S3 & S4 & S5).
    split; [done|]. split; [done|]. split; [done|]. split; [done|].
    intros x Hx. apply (delegator_base users _ r u'); [by apply framed_base | done | by apply S5].
Qed.

Lemma delegation_loop_stocked n (refs : list nat) users :
  stocked n users →
  returns (for_each gen_delegation refs users)
    (λ users', framed <$> users' = framed <$> users ∧ stocked n users').
Proof.
  intros Hst.
  apply (returns_for_each _
    (λ users', framed <$> users' = framed <$> users ∧ stocked n users')); [done|].
  intros ref users' _ [Hf Hs]. eapply returns_weaken; [by apply gen_delegation_stocked|].
  intros users'' [Hf' Hs']. split; [congruence | done].
Qed.

Lemma unstocked_stocked n users : Forall unstocked users → stocked n users.
Proof.
  intros Hall r u Hu.
  destruct (Forall_lookup_1 _ _ _ _ Hall Hu) as (H1 & H2 & H3 & H4 & H5).
  split; [congruence|]. rewrite H2, H3, H4, H5.
  repeat split; intros x Hx; by apply elem_of_empty in Hx.
Qed.

(** *** The projects the relationship loop adds *)

(** The projects of the user at [r] when the first [i] documents have been
    visited: those it had, and the ids of its documents if it had any. *)
Definition projects_after (docs : list Document) (i : nat) (users users' : list User) : Prop :=
  ∀ r u', users' !! r = Some u' →
    ∃ u, users !! r = Some u ∧
         ∀ x, x ∈ User.projects u' ↔
              x ∈ User.projects u ∨
              (User.projects u ≠ ∅ ∧
               ∃ j d, j < i ∧ docs !! j = Some d ∧ Document.owner d = r ∧
                      Document.docId d = x).

Lemma returns_relate_users i (users : list User) (docs : list Document) :
  returns (relate i (users, docs))
    (λ st', doc_base <$> st'.2 = doc_base <$> docs ∧
            ∃ doc owner, docs !! i = Some doc ∧ users !! Document.owner doc = Some owner ∧
              st'.1 = if decide (User.projects owner ≠ ∅)
                      then alter (User.add_project (Document.docId doc))
                             (Document.owner doc) users
                      else users).
Proof.
  eapply returns_and.
  - eapply returns_weaken; [apply ExtendedFiling.returns_relate_related|].
    intros st' (_ & d0 & d' & Hd0 & -> & Hb & _). by apply (fmap_insert_keep _ _ _ d0).
  - unfold relate.
    eapply returns_bind; [apply returns_lift; intros doc Hdoc; exact Hdoc|].
    intros doc Hdoc; simpl in Hdoc.
    eapply returns_bind; [apply returns_lift; intros owner Ho; exact Ho|].
    intros owner Ho; simpl in Ho.
    eapply returns_bind; [apply returns_True|]. intros d1 _.
    eapply returns_bind; [apply returns_True|]. intros b _.
    eapply returns_bind; [apply returns_True|]. intros d2 _.
    apply returns_ret. cbn [fst snd]. by exists doc, owner.
Qed.

Lemma relate_loop_projects (users : list User) (docs : list Document) :
  returns (for_each relate (range (length docs)) (users, docs))
    (λ st', projects_after docs (length docs) users st'.1).
Proof.
  eapply returns_weaken.
  - apply (returns_for_each_seq _
      (λ i (st' : list User * list Document),
         doc_base <$> st'.2 = doc_base <$> docs ∧ projects_after docs i users st'.1)
      0 (length docs)).
    + split; [done|]. intros r u Hu. exists u. split; [done|]. intros x.
      split; [by left|]. intros [?|(_ & j & d & Hj & _)]; [done | lia].
    + intros i [users1 docs1] _ [Hb Hinv]. cbn [fst snd] in *.
      eapply returns_weaken; [apply returns_relate_users|].
      intros [users2 docs2] (Hb2 & doc1 & owner & Hdoc1 & Ho & ->). cbn [fst snd] in *.
      split; [congruence|].
      destruct (fmap_eq_lookup doc_base docs docs1 i doc1 Hb Hdoc1) as (doc & Hdoc & Hbd).
      injection Hbd as Hid _ Hown _ _ _ _ _.
      destruct (Hinv _ owner Ho) as (o0 & Ho0 & Hx0).
      assert (User.projects owner ≠ ∅ ↔ User.projects o0 ≠ ∅) as Hne.
      { split.
        - intros Hne He. apply Hne. apply set_eq. intros x. rewrite Hx0, He.
          split; [intros [?|[? _]]; done | intros ?%elem_of_empty; done].
        - intros Hne He. apply Hne. apply set_eq. intros x.
          split; [|intros ?%elem_of_empty; done].
          intros Hx. rewrite <- He. apply Hx0. by left. }
      intros r u' Hu'.
      assert (∃ u1, users1 !! r = Some u1 ∧
                (u' = u1 ∧ (r = Document.owner doc1 → User.projects owner = ∅) ∨
                 r = Document.owner doc1 ∧ User.projects owner ≠ ∅ ∧
                 u' = User.add_project (Document.docId doc1) u1)) as (u1 & Hu1 & Hcase).
      { destruct (decide (User.projects owner ≠ ∅)) as [Hp|Hp].
        - rewrite list_lookup_alter in Hu'.
          destruct (decide (Document.owner doc1 = r)) as [<-|Hr].
          + apply fmap_Some in Hu' as (u1 & Hu1 & ->). exists u1. split; [done|]. by right.
          + exists u'. split; [done|]. left. split; [done|]. intros ->. done.
        - exists u'. split; [done|]. left. split; [done|]. intros _.
          by apply dec_stable in Hp. }
      destruct (Hinv r u1 Hu1) as (u & Hu & Hx). exists u. split; [done|]. intros x.
      destruct Hcase as [[-> Hnot]|(-> & Hp & ->)].
      * rewrite Hx. split.
        -- intros [?|(Hn & j & d & Hj & Hd & Hown' & Hid')]; [by left|].
           right. split; [done|]. exists j, d. split; [lia | done].
        -- intros [?|(Hn & j & d & Hj & Hd & Hown' & Hid')]; [by left|].
           destruct (decide (j = i)) as [->|Hji].
           ++ exfalso. assert (d = doc) as -> by congruence.
              assert (r = Document.owner doc1) as Hr by congruence.
              specialize (Hnot Hr). subst r.
              assert (o0 = u) as -> by congruence. by apply Hne in Hn.
           ++ right. split; [done|]. exists j, d. split; [lia | done].
      * assert (u1 = owner) as -> by congruence. assert (o0 = u) as -> by congruence.
        simpl. rewrite elem_of_union, elem_of_singleton, Hx. split.
        -- intros [->|[?|(Hn & j & d & Hj & Hd & Hown' & Hid')]].
           ++ right. split; [by apply Hne|]. exists i, doc. split; [lia|]. done.
           ++ by left.
           ++ right. split; [done|]. exists j, d. split; [lia | done].
        -- intros [?|(Hn & j & d & Hj & Hd & Hown' & Hid')]; [right; by left|].
           destruct (decide (j = i)) as [->|Hji].
           ++ left. assert (d = doc) as -> by congruence. congruence.
           ++ right. right. split; [done|]. exists j, d. split; [lia | done].
  - by intros st' [_ ?].
Qed.
End ExtendedProfiles.

(** ** The stages of the extended variant, end to end *)

Module ExtendedPasses.
Import Extended ExtendedFacts ExtendedCensus ExtendedFiling ExtendedProfiles.

(** What the stages leave of a document of the document loop: the
    recipients, from 1 to 18, then the relationships. *)
Definition settled_doc (users : list User) (ids : list string) (i : nat)
    (d0 d' : Document) : Prop :=
  ∃ d1, doc_base d1 = doc_base d0 ∧ Document.ext d1 = Document.ext d0 ∧
        1 ≤ base.size (Document.recipients d1) ≤ 18 ∧
        related users ids i d1 d'.

(** The fields neither the supervisor logic nor the two loops after it
    change. *)
Definition kept (u : User) := (base u, User.projects u, User.ext u).

Lemma kept_framed (users users' : list User) :
  kept <$> users' = kept <$> users → framed <$> users' = framed <$> users.
Proof. by apply (fmap_factor kept (λ b, (b.1.1, user_frame b.2))). Qed.

Lemma projects_after_base (docs docs' : list Document) i users users' :
  doc_base <$> docs' = doc_base <$> docs →
  projects_after docs i users users' → projects_after docs' i users users'.
Proof.
  intros Hb Hp r u' Hu'. destruct (Hp r u' Hu') as (u & Hu & Hx).
  exists u. split; [done|]. intros x. rewrite Hx.
  split; (intros [?|(Hne & j & d & Hj & Hd & Hown & Hid)]; [by left|]); right; (split; [done|]).
  - symmetry in Hb. destruct (fmap_eq_lookup doc_base docs' docs j d Hb Hd) as (d' & Hd' & Hbd).
    exists j, d'. split; [done|]. split; [done|]. injection Hbd as -> _ -> _ _ _ _ _. done.
  - destruct (fmap_eq_lookup doc_base docs docs' j d Hb Hd) as (d' & Hd' & Hbd).
    exists j, d'. split; [done|]. split; [done|]. injection Hbd as -> _ -> _ _ _ _ _. done.
Qed.

Section Stages.
Variable today : Z.
Variable offices : gmap string Z.
Variable orgs : gmap string Organization.
Hypothesis orgs_keyed : keyed orgs.

(** The users, as the loops that create them leave them. *)
Definition census (c : Config) (t : Trace OrgExt UserExt DocExt) : Prop :=
  id_role <$> resolved t = roster c ∧
  Forall (user_placed offices orgs) (resolved t) ∧
  Forall (profiled today) (resolved t).

Lemma run_stages_census c : returns (run_stages today offices orgs c) (census c).
Proof.
  unfold run_stages.
  eapply returns_bind.
  { apply returns_and; [apply (gen_users_placed today offices orgs orgs_keyed) |
                        apply (gen_users_profiled today offices orgs)]. }
  intros st [[Hids Hplaced] Hprof].
  cbn zeta. set (res := resolve_hierarchy position_hierarchy st.1.2 st.1.1).
  assert (kept <$> res.2 = kept <$> st.1.1) as Hk by (by apply resolve_hierarchy_keep).
  eapply returns_bind; [apply returns_True|]. intros users1 _.
  eapply returns_bind; [apply returns_True|]. intros users3 _.
  eapply returns_bind; [apply returns_True|]. intros users4 _.
  eapply returns_bind; [apply returns_True|]. intros users5 _.
  eapply returns_bind; [apply returns_True|]. intros users6 _.
  eapply returns_bind; [apply returns_True|]. intros users7 _.
  eapply returns_bind; [apply returns_True|]. intros docs0 _.
  eapply returns_bind; [apply returns_True|]. intros docs _.
  eapply returns_bind; [apply returns_True|]. intros fin _.
  apply returns_ret. unfold census. cbn [resolved].
  pose proof (fmap_factor kept (λ b, b.1.1) base _ _ (λ _, eq_refl) Hk) as Hb.
  split; [|split].
  - by rewrite (fmap_factor base (λ b, (b.1.1.1.1.1, b.1.1.1.1.2)) id_role _ _ (λ _, eq_refl) Hb).
  - eapply Forall_base_keep; [apply extended_user_placed_base | exact Hb | done].
  - apply Forall_lookup. intros r u' Hu'.
    destruct (fmap_eq_lookup _ _ _ r u' (kept_framed _ _ Hk) Hu') as (u & Hu & Hf).
    apply (profiled_framed today u u'); [done|].
    by destruct (Forall_lookup_1 _ _ _ _ Hprof Hu).
Qed.

(** The documents, from the document loop to the output. *)
Definition filing (c : Config) (t : Trace OrgExt UserExt DocExt) : Prop :=
  Document.docId <$> created t = block "doc" (nDocuments c) ∧
  Forall (doc_filed today offices (staffed t)) (created t) ∧
  length (documents (final t)) = length (created t) ∧
  ∀ i d0 d', created t !! i = Some d0 → documents (final t) !! i = Some d' →
             settled_doc (users (final t)) (Document.docId <$> created t) i d0 d'.

Lemma run_stages_filing c : returns (run_stages today offices orgs c) (filing c).
Proof.
  unfold run_stages.
  eapply returns_bind; [apply returns_True|]. intros st _.
  cbn zeta. set (res := resolve_hierarchy position_hierarchy st.1.2 st.1.1).
  eapply returns_bind; [apply returns_True|]. intros users1 _.
  eapply returns_bind; [apply returns_True|]. intros users3 _.
  eapply returns_bind; [apply returns_True|]. intros users4 _.
  eapply returns_bind; [apply returns_True|]. intros users5 _.
  eapply returns_bind; [apply returns_True|]. intros users6 _.
  eapply returns_bind; [apply returns_True|]. intros users7 _.
  eapply returns_bind; [apply extended_documents_loop_filed|]. intros docs0 [Hids Hfiled].
  eapply returns_bind.
  { apply (returns_collect _
      (λ d d' : Document, doc_base d' = doc_base d ∧ Document.ext d' = Document.ext d ∧
                          1 ≤ base.size (Document.recipients d') ≤ 18)).
    intros d Hd.
    destruct (proj1 (Forall_forall _ _) Hfiled d Hd)
      as (_ & (o & Ho & Ht & _) & _ & _ & Hempty & _).
    apply returns_set_recipients_sized; [done|]. by exists (Document.owner d), o. }
  intros docs Hdocs.
  eapply returns_bind; [apply relate_loop_related|].
  intros [usersf docsf] (Hbf & Hlen & Hrel). cbn [fst snd] in *.
  apply returns_ret. unfold filing. cbn [created staffed final documents users].
  assert (Document.docId <$> docs = Document.docId <$> docs0) as Hids'.
  { apply Forall2_fmap_keep. eapply Forall2_impl; [exact Hdocs|].
    intros d d' ([= -> _] & _). done. }
  split; [done|]. split; [done|]. split.
  { rewrite Hlen. symmetry. by eapply Forall2_length. }
  intros i d0 d' Hd0 Hd'.
  destruct (Forall2_lookup_l _ _ _ _ _ Hdocs Hd0) as (d1 & Hd1 & Hb1 & He1 & Hs1).
  exists d1. split; [done|]. split; [done|]. split; [done|].
  rewrite <- Hids'. by apply Hrel.
Qed.

(** The sets of the users, from the payrolling loop to the output. *)
Definition profiles (c : Config) (t : Trace OrgExt UserExt DocExt) : Prop :=
  framed <$> staffed t = framed <$> resolved t ∧
  stocked (num_projects c) (staffed t) ∧
  User.ext <$> users (final t) = User.ext <$> staffed t ∧
  projects_after (created t) (length (created t)) (staffed t) (users (final t)).

Lemma run_stages_profiles c : returns (run_stages today offices orgs c) (profiles c).
Proof.
  unfold run_stages.
  eapply returns_bind; [apply (gen_users_profiled today offices orgs)|].
  intros st Hprof.
  cbn zeta. set (res := resolve_hierarchy position_hierarchy st.1.2 st.1.1).
  assert (kept <$> res.2 = kept <$> st.1.1) as Hk0 by (by apply resolve_hierarchy_keep).
  eapply returns_bind; [by apply (extended_update_registered_keep kept)|].
  intros users1 Hk1.
  eapply returns_bind; [apply (grants_loop _ _ _ extended_assign_payrolling_grants)|].
  intros users3 [Hk3 _].
  pose proof (fmap_factor unpaid (λ b, (b.1.1.1.1, b.1.1.2, b.2)) kept _ _ (λ _, eq_refl) Hk3)
    as Hk3'.
  assert (kept <$> users3 = kept <$> st.1.1) as Hkept by congruence.
  assert (Forall unstocked users3) as Hun.
  { apply Forall_lookup. intros r u3 Hu3.
    destruct (fmap_eq_lookup _ _ _ r u3 Hkept Hu3) as (u & Hu & Hku).
    destruct (Forall_lookup_1 _ _ _ _ Hprof Hu) as [_ Hu0].
    pose proof (f_equal (λ b, b.1.2) Hku) as Hp. pose proof (f_equal snd Hku) as He.
    simpl in Hp, He. unfold unstocked. by rewrite <- Hp, <- He. }
  eapply returns_bind; [apply (project_loop_restocked (num_projects c))|].
  intros users4 Hr4.
  eapply returns_bind; [apply (gen_past_projects_restocked (num_projects c))|].
  intros users5 Hr5.
  eapply returns_bind; [apply (gen_temporary_access_restocked (num_projects c))|].
  intros users6 Hr6.
  pose proof (restocked_trans _ _ _ _ (restocked_trans _ _ _ _ Hr4 Hr5) Hr6) as Hr.
  pose proof (restocked_stocked _ _ _ Hr (unstocked_stocked _ _ Hun)) as Hst6.
  eapply returns_bind; [by apply (delegation_loop_stocked (num_projects c))|].
  intros users7 [Hf7 Hst7].
  eapply returns_bind; [apply returns_True|]. intros docs0 _.
  eapply returns_bind.
  { apply (returns_collect _ (λ d d' : Document, doc_base d' = doc_base d)).
    intros d _. unfold set_recipients.
    eapply returns_bind.
    { instantiate (1 := λ d', doc_base d' = doc_base d).
      destruct (decide (Document.office d ≠ "none")); [|by apply returns_ret].
      destruct (decide (_ = [])); [by apply returns_ret|].
      eapply returns_bind; [apply returns_True|]. intros k _. by apply returns_ret. }
    intros d1 Hb1.
    eapply returns_bind.
    { instantiate (1 := λ d', doc_base d' = doc_base d).
      destruct (decide (_ = [])); [by apply returns_ret|].
      eapply returns_bind; [apply returns_True|]. intros k _.
      eapply returns_bind; [apply returns_True|]. intros r _. by apply returns_ret. }
    intros d2 Hb2.
    destruct (decide (_ = [])); [by apply returns_ret|].
    eapply returns_bind; [apply returns_True|]. intros k _.
    eapply returns_bind; [apply returns_True|]. intros r _. by apply returns_ret. }
  intros docs Hdocs.
  assert (doc_base <$> docs = doc_base <$> docs0) as Hbd by (by apply Forall2_fmap_keep).
  eapply returns_bind.
  { apply returns_and; [by apply (relate_loop_keep User.ext) | apply relate_loop_projects]. }
  intros [usersf docsf] [Hext Hproj]. cbn [fst snd] in *.
  apply returns_ret. unfold profiles. cbn [created staffed resolved final users].
  split; [|split; [done|split; [done|]]].
  - destruct Hr as [Hfr _]. rewrite Hf7, Hfr. rewrite (kept_framed _ _ Hkept).
    symmetry. by apply kept_framed.
  - rewrite <- (length_fmap doc_base docs0), <- Hbd, length_fmap.
    by apply (projects_after_base docs docs0).
Qed.
End Stages.
End ExtendedPasses.

(** ** Runs that raise no exception *)

(** The computation returns, whatever the random source gives. *)
Definition total {A} (m : M A) : Prop := ∀ r, is_Some (m r).

Lemma total_ret {A} (x : A) : total (mret x).
Proof. intros r. by eexists. Qed.

(** What is drawn before decides what runs after: the continuation has to
    return only on the values the first part can give. *)
Lemma total_bind {A B} (m : M A) (f : A → M B) (P : A → Prop) :
  total m → returns m P → (∀ x, P x → total (f x)) → total (m ≫= f).
Proof.
  intros Hm HP Hf r. destruct (Hm r) as [[x r1] Hx].
  destruct (Hf x (HP r x r1 Hx) r1) as [y Hy]. exists y.
  unfold mbind, M_bind. by rewrite Hx.
Qed.

Lemma total_lift {A} (o : option A) : is_Some o → total (lift o).
Proof. intros [x ->]. apply total_ret. Qed.

Lemma total_randbelow n : 0 < n → total (randbelow n).
Proof. destruct n as [|n]; [lia|]. intros _ r. by eexists. Qed.

Lemma total_choice_index {A} (l : list A) : l ≠ [] → total (choice_index l).
Proof. intros Hl. apply total_randbelow. destruct l; [done | simpl; lia]. Qed.

Lemma total_choice {A} (l : list A) : l ≠ [] → total (choice l).
Proof.
  intros Hl. unfold choice.
  eapply total_bind; [by apply (total_choice_index l) | apply returns_randbelow|].
  intros i Hi. by apply total_lift, lookup_lt_is_Some.
Qed.

Lemma total_randint a b : (a ≤ b)%Z → total (randint a b).
Proof.
  intros Hab r. unfold randint. destruct (Z.ltb_spec b a); [lia|]. by eexists.
Qed.

Lemma total_probability p : total (probability p).
Proof. intros r. by eexists. Qed.

Lemma total_sample_pool {A} (k : nat) (pool : list A) :
  k ≤ length pool → total (sample_pool pool k).
Proof.
  revert pool. induction k as [|k IH]; intros pool Hk; simpl; [apply total_ret|].
  eapply total_bind; [apply total_randbelow; lia | apply returns_randbelow|].
  intros j Hj; cbn beta in Hj.
  eapply total_bind; [by apply total_lift, lookup_lt_is_Some | apply returns_True|].
  intros x _.
  eapply total_bind; [|apply returns_True|].
  { apply total_lift. destruct pool as [|a pool] using rev_ind; [simpl in Hk; lia|].
    rewrite last_snoc. by eexists. }
  intros y _.
  eapply total_bind; [|apply returns_True|].
  { apply IH. rewrite length_take, length_insert. lia. }
  intros rest _. apply total_ret.
Qed.

Lemma total_sample {A} (l : list A) (k : nat) : k ≤ length l → total (sample l k).
Proof.
  intros Hk. unfold sample. destruct (Nat.ltb_spec (length l) k); [lia|].
  by apply total_sample_pool.
Qed.

Lemma total_for_each {A S} (body : A → S → M S) (I : S → Prop) (l : list A) (s : S) :
  I s →
  (∀ x s, x ∈ l → I s → total (body x s) ∧ returns (body x s) I) →
  total (for_each body l s).
Proof.
  revert s. induction l as [|x l IH]; intros s Hs Hbody; simpl; [apply total_ret|].
  destruct (Hbody x s) as [Ht Hr]; [left | done |].
  eapply total_bind; [exact Ht | exact Hr|].
  intros s' Hs'. apply IH; [done|]. intros y s'' Hy. apply Hbody. by right.
Qed.


Lemma total_collect {A B} (body : A → M B) (l : list A) :
  (∀ x, x ∈ l → total (body x)) → total (collect body l).
Proof.
  induction l as [|x l IH]; intros Hbody; simpl; [apply total_ret|].
  eapply total_bind; [apply Hbody; left | apply returns_True|]. intros y _.
  eapply total_bind; [apply IH; intros z Hz; apply Hbody; by right | apply returns_True|].
  intros ys _. apply total_ret.
Qed.

(** A computation that returns gives a value of its postcondition. *)
Lemma total_returns {A} (m : M A) (P : A → Prop) r :
  total m → returns m P → ∃ x r', m r = Some (x, r') ∧ P x.
Proof. intros Ht HP. destruct (Ht r) as [[x r'] Hx]. exists x, r'. eauto. Qed.

(** *** The employee loop *)

Section EmployeesReturn.
Context {OX UX : Type}.
Variable tenants : list string.
Variable positions : list string.
Variable departments : gmap string (list string).
Variable offices : gmap string Z.
Variable organizations : gmap string (Organization.t OX).
Variable user_ext : string → Organization.t OX → M UX.
Hypothesis tenants_listed : tenants ≠ [].
Hypothesis positions_left : filter (λ p, p ∉ office_positions) positions ≠ [].
Hypothesis offices_known : Forall (λ t, is_Some (offices !! t)) tenants.
Hypothesis departments_known :
  Forall (λ t, ∃ ds, departments !! t = Some ds ∧ ds ≠ []) tenants.
Hypothesis organizations_known : Forall (λ t, is_Some (organizations !! t)) tenants.
Hypothesis user_ext_total : ∀ role org, total (user_ext role org).

Lemma total_draw_office tenant : is_Some (offices !! tenant) → total (draw_office offices tenant).
Proof.
  intros Hn. unfold draw_office.
  eapply total_bind; [by apply total_lift | apply returns_True|]. intros n _.
  destruct (Z.ltb_spec 0 n); [|apply total_ret].
  eapply total_bind; [apply total_randint; lia | apply returns_True|]. intros k _.
  apply total_ret.
Qed.

Lemma total_new_user userId role org dep off pos :
  total (new_user user_ext userId role org dep off pos).
Proof.
  unfold new_user. eapply total_bind; [apply user_ext_total | apply returns_True|].
  intros x _. apply total_ret.
Qed.

Lemma total_draw_employee : total (draw_employee tenants positions departments offices).
Proof.
  unfold draw_employee.
  eapply total_bind; [by apply total_choice | apply returns_choice|].
  intros tenant Ht; cbn beta in Ht.
  pose proof (proj1 (Forall_forall _ _) offices_known tenant Ht) as Hoff.
  destruct (proj1 (Forall_forall _ _) departments_known tenant Ht) as (ds & Hds & Hne).
  eapply total_bind; [by apply total_lift | apply returns_True|]. intros n _.
  eapply total_bind; [|apply returns_True|].
  { apply total_choice. destruct (0 <? n)%Z; [|done].
    intros He. rewrite He in positions_left. done. }
  intros position _.
  eapply total_bind; [|apply returns_True|].
  { destruct (_ || _); [by apply total_draw_office | apply total_ret]. }
  intros office _.
  eapply total_bind; [apply total_lift; by rewrite Hds | apply returns_lift; intros x Hx; exact Hx|].
  intros deps Hdeps; cbn beta in Hdeps. assert (deps = ds) as -> by congruence.
  eapply total_bind; [by apply total_choice | apply returns_True|]. intros department _.
  apply total_ret.
Qed.

Lemma total_gen_employee i (st : list (User.t OX UX) * Groups) :
  total (gen_employee tenants positions departments offices organizations user_ext i st).
Proof.
  unfold gen_employee.
  eapply total_bind.
  - apply total_draw_employee.
  - apply (returns_draw_employee tenants positions departments offices).
  - intros [[[tenant position] office] department] (Ht & _).
    eapply total_bind; [|apply returns_True|].
    { apply total_lift. by apply (proj1 (Forall_forall _ _) organizations_known tenant). }
    intros org _.
    eapply total_bind; [apply total_new_user | apply returns_True|]. intros user _.
    apply total_ret.
Qed.
End EmployeesReturn.

(** *** The basic variant *)

Module BasicReturns.
Import Basic BasicFacts.

Lemma organizations_defined : is_Some organizations.
Proof. apply (bool_decide_unpack _). vm_compute. reflexivity. Qed.

Lemma organizations_known orgs :
  organizations = Some orgs → Forall (λ t, is_Some (orgs !! t)) all_tenants.
Proof.
  intros H.
  assert (from_option (λ o : gmap string Organization,
                         bool_decide (Forall (λ t, is_Some (o !! t)) all_tenants))
            true organizations = true) as Hd by (vm_compute; reflexivity).
  rewrite H in Hd. by apply bool_decide_eq_true in Hd.
Qed.

Lemma offices_known : Forall (λ t, is_Some (offices !! t)) all_tenants.
Proof. compute_done. Qed.

Lemma departments_known :
  Forall (λ t, ∃ ds, departments !! t = Some ds ∧ ds ≠ []) tenants.
Proof.
  assert (Forall (λ t, is_Some (departments !! t) ∧ departments !! t ≠ Some []) tenants)
    as H by compute_done.
  eapply Forall_impl; [exact H|]. intros t [[ds Hds] Hne]. exists ds. split; [done|]. congruence.
Qed.

Lemma positions_left : filter (λ p, p ∉ office_positions) positions ≠ [].
Proof. compute_done. Qed.

Lemma customer_departments_exist tenant : get_customer_departments tenant ≠ [].
Proof. unfold get_customer_departments. by destruct (decide _). Qed.

Lemma basic_user_ext_total role (org : Organization) : total (user_ext role org).
Proof. apply total_ret. Qed.

Lemma Forall_tenants_all (P : string → Prop) : Forall P all_tenants → Forall P tenants.
Proof. unfold all_tenants. by intros [? _]%Forall_app. Qed.

Lemma Forall_customers_all (P : string → Prop) :
  Forall P all_tenants → Forall P customerTenants.
Proof. unfold all_tenants. by intros [_ ?]%Forall_app. Qed.

Section Stages.
Variable orgs : gmap string Organization.
Hypothesis orgs_known : Forall (λ t, is_Some (orgs !! t)) all_tenants.

Lemma total_gen_staff prefix role i : total (gen_staff orgs prefix role i).
Proof.
  unfold gen_staff.
  eapply total_bind; [by apply total_choice | apply returns_choice|].
  intros tenant Ht; cbn beta in Ht.
  eapply total_bind; [|apply returns_True|].
  { apply total_lift.
    by apply (proj1 (Forall_forall _ _) (Forall_tenants_all _ orgs_known) tenant). }
  intros org _. apply total_new_user, basic_user_ext_total.
Qed.

Lemma total_gen_customer i : total (gen_customer orgs i).
Proof.
  unfold gen_customer.
  eapply total_bind; [by apply total_choice | apply returns_choice|].
  intros tenant Ht; cbn beta in Ht.
  eapply total_bind; [|apply returns_True|].
  { apply total_lift.
    by apply (proj1 (Forall_forall _ _) (Forall_customers_all _ orgs_known) tenant). }
  intros org _.
  eapply total_bind; [apply total_choice, customer_departments_exist | apply returns_True|].
  intros department _. apply total_new_user, basic_user_ext_total.
Qed.
End Stages.

Lemma basic_total_assign_payrolling (g : list nat) (users : list User) :
  g ≠ [] → total (assign_payrolling g users).
Proof.
  intros Hg. unfold assign_payrolling.
  eapply total_bind; [by apply total_choice | apply returns_True|]. intros chosen _.
  apply (total_for_each _ (λ _, True)); [done|]. intros ref users' _ _.
  split; [|apply returns_True].
  eapply total_bind; [apply total_probability | apply returns_True|]. intros b _.
  apply total_ret.
Qed.

Lemma total_get_random_users (users : list User) tenant count :
  total (get_random_users_from_tenant users tenant count).
Proof. unfold get_random_users_from_tenant. apply total_sample. lia. Qed.

Lemma total_new_document (users : list User) docId docType owner confidential
    containsPersonalInfo :
  owner < length users →
  Forall (λ u, is_Some (offices !! User.tenant u)) users →
  total (new_document users docId docType owner confidential containsPersonalInfo).
Proof.
  intros Howner Hall. unfold new_document.
  eapply total_bind;
    [by apply total_lift, lookup_lt_is_Some | apply returns_lift; intros o Ho; exact Ho|].
  intros o Ho; cbn beta in Ho.
  eapply total_bind; [|apply returns_True|].
  { unfold doc_core. eapply total_bind; [|apply returns_True|].
    - apply total_draw_office. by apply (Forall_lookup_1 _ _ _ _ Hall Ho).
    - intros office _. apply total_ret. }
  intros [[tenant department] office] _.
  eapply total_bind; [|apply returns_True|].
  { destruct (decide (office ≠ "none")); [apply total_ret|].
    eapply total_bind; [apply total_get_random_users | apply returns_True|].
    intros r _. apply total_ret. }
  intros doc _.
  eapply total_bind; [apply total_get_random_users | apply returns_True|].
  intros r _. apply total_ret.
Qed.

Lemma basic_total_gen_document (users : list User) i documents :
  users ≠ [] →
  Forall (λ u, is_Some (offices !! User.tenant u)) users →
  total (gen_document users i documents).
Proof.
  intros Hne Hall. unfold gen_document.
  eapply total_bind; [by apply total_choice_index | apply returns_choice_index|].
  intros owner Howner; cbn beta in Howner.
  eapply total_bind; [by apply total_choice | apply returns_True|]. intros docType _.
  eapply total_bind; [apply total_probability | apply returns_True|]. intros confidential _.
  eapply total_bind; [apply total_probability | apply returns_True|].
  intros containsPersonalInfo _.
  eapply total_bind; [by apply total_new_document | apply returns_True|]. intros doc _.
  apply total_ret.
Qed.

(** The run returns when there is a user to own the documents. *)
Lemma basic_run_total c : (nUsers c = 0 → nDocuments c = 0) → total (run c).
Proof.
  intros Hc. unfold run.
  eapply total_bind;
    [apply total_lift, organizations_defined | apply returns_lift; intros orgs H; exact H|].
  intros orgs Horgs; cbn beta in Horgs.
  pose proof (organizations_keyed orgs Horgs) as Hkeyed.
  pose proof (organizations_known orgs Horgs) as Hknown.
  eapply total_bind.
  { apply (total_for_each _ (λ _, True)); [done|]. intros i st _ _.
    split; [|apply returns_True].
    apply total_gen_employee.
    - done.
    - apply positions_left.
    - apply (Forall_tenants_all _ offices_known).
    - apply departments_known.
    - apply (Forall_tenants_all _ Hknown).
    - apply basic_user_ext_total. }
  { apply (employees_loop _ _ _ _ _ _ Hkeyed). }
  intros [emps index] Hinv.
  eapply total_bind.
  { apply total_collect. intros i _. by apply total_gen_staff. }
  { apply returns_collect. intros i _. apply (returns_gen_staff orgs Hkeyed "hdop" "helpdesk" i). }
  intros hd Hhd.
  eapply total_bind.
  { apply total_collect. intros i _. by apply total_gen_staff. }
  { apply returns_collect. intros i _. apply (returns_gen_staff orgs Hkeyed "admin" "admin" i). }
  intros ad Had.
  eapply total_bind.
  { apply total_collect. intros i _. by apply total_gen_customer. }
  { apply returns_collect. intros i _. apply (returns_gen_customer orgs Hkeyed i). }
  intros cu Hcu.
  cbn zeta. cbn [fst snd].
  set (users0 := emps ++ hd ++ ad ++ cu).
  set (res := resolve_hierarchy position_hierarchy index users0).
  destruct Hinv as (Hlen & _ & Hemps & _ & Hgroups). cbn [fst snd] in Hlen, Hemps, Hgroups.
  assert (Forall (λ u : User, User.tenant u ∈ all_tenants) users0) as Hpool0.
  { unfold users0, all_tenants. rewrite !Forall_app. repeat split.
    - eapply Forall_impl; [exact Hemps|]. intros u (_ & Ht & _). apply elem_of_app. by left.
    - apply Forall_forall. intros u (i & Hu)%list_elem_of_lookup_1.
      destruct (Forall2_lookup_r _ _ _ _ _ Hhd Hu) as (? & _ & _ & _ & Ht & _).
      apply elem_of_app. by left.
    - apply Forall_forall. intros u (i & Hu)%list_elem_of_lookup_1.
      destruct (Forall2_lookup_r _ _ _ _ _ Had Hu) as (? & _ & _ & _ & Ht & _).
      apply elem_of_app. by left.
    - apply Forall_forall. intros u (i & Hu)%list_elem_of_lookup_1.
      destruct (Forall2_lookup_r _ _ _ _ _ Hcu Hu) as (? & _ & _ & _ & Ht & _).
      apply elem_of_app. by right. }
  assert (base <$> update_registered res.2 = base <$> users0) as Hb2.
  { rewrite (basic_update_registered_keep base) by done. by apply resolve_hierarchy_keep. }
  eapply total_bind.
  { apply (total_for_each _ (λ _, True)); [done|]. intros [k g] users Hin _.
    split; [|apply returns_True]. apply basic_total_assign_payrolling. simpl.
    pose proof (resolve_hierarchy_index position_hierarchy index users0) as Hidx.
    fold res in Hidx. apply list_elem_of_lookup_1 in Hin as [j Hj].
    destruct (Forall2_lookup_r _ _ _ _ _ Hidx Hj) as ([k0 g0] & Hg0 & _ & Hperm & _).
    simpl in Hperm. destruct (Forall_lookup_1 _ _ _ _ Hgroups Hg0) as [Hne _]. simpl in Hne.
    intros ->. apply Permutation_nil_l in Hperm. done. }
  { apply (grants_loop _ _ _ basic_assign_payrolling_grants). }
  intros users3 [Hk3 _].
  assert (base <$> users3 = base <$> users0) as Hb3.
  { rewrite (fmap_factor unpaid (λ b, b.1.1.1.1) base _ _ (λ _, eq_refl) Hk3). exact Hb2. }
  eapply total_bind; [|apply returns_True|].
  { apply (total_for_each _ (λ _, True)); [done|]. intros i docs Hi _.
    split; [|apply returns_True]. apply basic_total_gen_document.
    - intros He. apply elem_of_seq in Hi.
      assert (length users0 = 0) as H0
        by (by rewrite <- (length_fmap base users0), <- Hb3, He).
      unfold users0 in H0. rewrite length_app in H0. lia.
    - eapply (Forall_base_keep _ users0); [|exact Hb3|].
      + intros u u' Hb. by rewrite (base_tenant _ _ Hb).
      + eapply Forall_impl; [exact Hpool0|]. intros u Hu.
        by apply (proj1 (Forall_forall _ _) offices_known). }
  intros documents _. apply total_ret.
Qed.

(** With no user and a document to generate, [random.choice(users)] raises
    on the empty list. *)
Lemma basic_run_raises c r : nUsers c = 0 → nDocuments c ≠ 0 → run c r = None.
Proof.
  destruct c as [nu nd]. simpl. intros -> Hnd.
  destruct nd as [|nd]; [done|]. unfold run.
  destruct organizations as [orgs|]; [|done]. reflexivity.
Qed.
End BasicReturns.

(** *** The extended variant *)




Module ExtendedReturns.
Import Extended ExtendedFacts.

(** The number of users the loops create. *)
Definition population (c : Config) : nat :=
  nUsers c + (nHelpdeskOperators c + nApplicationAdmins c + nProjectManagers c +
              nLegalOfficers c + nFinancialOfficers c + nAuditors c + nConsultants c) +
  nCustomers c.





Lemma Forall_customers (P : string → Prop) : Forall P all_tenants → Forall P customerTenants.
Proof. unfold all_tenants. by intros [_ ?]%Forall_app. Qed.



Section Stages.
Variable today : Z.
Variable offices : gmap string Z.
Variable orgs : gmap string Organization.
Hypothesis orgs_keyed : keyed orgs.
Hypothesis offices_known : Forall (λ t, is_Some (offices !! t)) all_tenants.
Hypothesis orgs_known : Forall (λ t, is_Some (orgs !! t)) all_tenants.

Local Abbreviation UserState := (list User * Groups * RoleIndex)%type.




















End Stages.

(** *** The tables *)









End ExtendedReturns.

(** * The runs of the two programs *)

(** A trace of the basic program, for any sizes and any random source. *)
Inductive BasicRun : Trace unit unit unit → Prop :=
| basic_run c rng t rng' : Basic.run c rng = Some (t, rng') → BasicRun t.

(** A trace of the stages of the extended program, for any day, sizes and
    random source, and for any table of office counts: the program draws the
    counts of the customer tenants, so no count is fixed by its text. *)
Inductive ExtendedRun : Trace Extended.OrgExt Extended.UserExt Extended.DocExt → Prop :=
| extended_run today offices orgs c rng t rng' :
    keyed orgs →
    Extended.run_stages today offices orgs c rng = Some (t, rng') →
    ExtendedRun t.

(** A trace of either program. *)
Inductive Runs : ∀ OX UX DX : Type, Trace OX UX DX → Prop :=
| runs_basic t : BasicRun t → Runs unit unit unit t
| runs_extended t : ExtendedRun t → Runs Extended.OrgExt Extended.UserExt Extended.DocExt t.
Arguments Runs {OX UX DX}.

(** The extended program itself, tables drawn, is such a run. *)
Lemma extended_program_run today c rng t rng' :
  Extended.run today c rng = Some (t, rng') → ExtendedRun t.
Proof.
  unfold Extended.run.
  intros ([offices orgs] & r1 & Htables & Hrun)%M_bind_Some.
  eapply extended_run; [|exact Hrun].
  by destruct (ExtendedFacts.returns_gen_tables _ _ _ Htables) as (? & _).
Qed.

Lemma basic_run_sound t : BasicRun t → sound t.
Proof.
  destruct 1 as [c rng t0 rng' Hrun]. by destruct (BasicFacts.run_sound c rng t0 rng' Hrun).
Qed.

Lemma extended_run_sound t : ExtendedRun t → sound t.
Proof.
  destruct 1 as [today offices orgs c rng t0 rng' Hk Hrun].
  by destruct (ExtendedFacts.run_stages_sound today offices orgs Hk c rng t0 rng' Hrun).
Qed.

Lemma runs_sound {OX UX DX} (t : Trace OX UX DX) : Runs t → sound t.
Proof. destruct 1; [by apply basic_run_sound | by apply extended_run_sound]. Qed.

(** ** Sample inputs *)

Definition sample_rng : Rng :=
  {| oracle := λ n, let k := N.of_nat n in (7 * k * k + 3 * k + 1)%N; cursor := 0 |}.

Definition basic_sample : Basic.Config := {| Basic.nUsers := 20; Basic.nDocuments := 4 |}.

Definition extended_sample : Extended.Config :=
  {| Extended.nUsers := 12; Extended.nDocuments := 6; Extended.nHelpdeskOperators := 1;
     Extended.nApplicationAdmins := 1; Extended.nCustomers := 2;
     Extended.nProjectManagers := 1; Extended.nLegalOfficers := 1;
     Extended.nFinancialOfficers := 1; Extended.nAuditors := 1;
     Extended.nConsultants := 1; Extended.num_projects := 1 |}.

(** The day of the sample runs of the extended program, as the ordinal of
    its date (2026-11-05). *)
Definition sample_day : Z := 739925.

Lemma basic_sample_returns : is_Some (Basic.run basic_sample sample_rng).
Proof. apply (bool_decide_unpack _). vm_compute. reflexivity. Qed.

Lemma extended_sample_returns :
  is_Some (Extended.run sample_day extended_sample sample_rng).
Proof. apply (bool_decide_unpack _). vm_compute. reflexivity. Qed.

(** What holds of the trace of a run that returns one. *)
Definition of_run {T} (run : option (T * Rng)) (P : T → Prop) : Prop :=
  match run with Some (t, _) => P t | None => False end.

Global Instance of_run_dec {T} (run : option (T * Rng)) (P : T → Prop)
    `{∀ t, Decision (P t)} : Decision (of_run run P) :=
  match run as o return Decision (of_run o P) with
  | Some (t, _) => decide (P t)
  | None => right (λ H, H)
  end.

Global Typeclasses Opaque of_run.

(** A property of a run that can be decided holds when its decision
    evaluates to true. *)
Lemma of_run_decide {T} (run : option (T * Rng)) (P : T → Prop)
    `{∀ t, Decision (P t)} :
  bool_decide (of_run run P) = true → of_run run P.
Proof. apply bool_decide_eq_true. Qed.

(** A property that can be decided holds of the value of an option when its
    decision evaluates to true there. *)
Lemma option_decide {A} (o : option A) (P : A → Prop) `{∀ x, Decision (P x)} :
  match o with Some x => bool_decide (P x) | None => false end = true →
  ∃ x, o = Some x ∧ P x.
Proof. destruct o as [x|]; [intros ?%bool_decide_eq_true; eauto | done]. Qed.

(** A random source that always gives [n]. *)
Definition const_rng (n : N) : Rng := {| oracle := λ _, n; cursor := 0 |}.

Lemma sample_tables_return : is_Some (Extended.gen_tables sample_rng).
Proof. apply (bool_decide_unpack _). vm_compute. reflexivity. Qed.

Lemma of_basic_sample (P : Trace unit unit unit → Prop) :
  (∀ t, BasicRun t → P t) → of_run (Basic.run basic_sample sample_rng) P.
Proof.
  intros HP. unfold of_run.
  destruct (Basic.run basic_sample sample_rng) as [[t r]|] eqn:E.
  - apply HP. by econstructor.
  - pose proof basic_sample_returns as [x Hx]. congruence.
Defined.

Lemma of_extended_sample (P : Trace Extended.OrgExt Extended.UserExt Extended.DocExt → Prop) :
  (∀ t, ExtendedRun t → P t) →
  of_run (Extended.run sample_day extended_sample sample_rng) P.
Proof.
  intros HP. unfold of_run.
  destruct (Extended.run sample_day extended_sample sample_rng) as [[t r]|] eqn:E.
  - apply HP. by eapply extended_program_run.
  - pose proof extended_sample_returns as [x Hx]. congruence.
Defined.

(** The stages of the extended program with an [offices] dict that gives no
    tenant an office. *)
Definition no_offices : gmap string Z :=
  list_to_map ((λ t, (t, 0%Z)) <$> Extended.tenants ++ Extended.customerTenants).

Definition extended_without_offices : M (Trace Extended.OrgExt Extended.UserExt Extended.DocExt) :=
  orgs ← Extended.gen_organizations no_offices;
  Extended.run_stages sample_day no_offices orgs extended_sample.

Lemma extended_without_offices_returns : is_Some (extended_without_offices sample_rng).
Proof. apply (bool_decide_unpack _). vm_compute. reflexivity. Qed.

Lemma of_extended_without_offices
    (P : Trace Extended.OrgExt Extended.UserExt Extended.DocExt → Prop) :
  (∀ t, ExtendedRun t → offices_used t = no_offices → P t) →
  of_run (extended_without_offices sample_rng) P.
Proof.
  intros HP. unfold of_run.
  destruct (extended_without_offices sample_rng) as [[t r]|] eqn:E.
  - apply M_bind_Some in E as (orgs & r1 & Horgs & Hrun).
    pose proof (ExtendedFacts.gen_organizations_keyed _ _ _ _ Horgs) as Hk.
    apply HP; [by eapply extended_run|].
    by destruct (ExtendedFacts.run_stages_sound _ _ _ Hk _ _ _ _ Hrun) as (_ & _ & _ & ? & _).
  - pose proof extended_without_offices_returns as [x Hx]. congruence.
Defined.

(** * The claims *)

Section Claims.
Context {OX UX DX : Type}.
Implicit Types (t : Trace OX UX DX) (p : Population OX UX DX).

(** Every document has the tenant and the department of its owner, when
    the document loop ends and when the output is written. *)
Definition documents_inherit t : Prop :=
  Forall (inherits (staffed t)) (created t) ∧
  Forall (inherits (users (final t))) (documents (final t)).

(** [supervisee] is the inverse of [supervisor], after the supervisor logic
    and in the final population. *)
Definition supervision_consistent t : Prop :=
  consistent (resolved t) ∧ consistent (users (final t)).

(** The supervisor of a user is another user of the same list of
    [users_by_department], hence of the same tenant and department, whose
    rank is higher, or equal with the supervisor inserted first. *)
Definition supervisors_senior t : Prop :=
  ∀ a ua s, users (final t) !! a = Some ua → User.supervisor ua = Some s →
    ∃ b ub, users (final t) !! b = Some ub ∧ User.userId ub = s ∧ b ≠ a ∧
            User.tenant ub = User.tenant ua ∧ User.department ub = User.department ua ∧
            ∃ k g, (k, g) ∈ indexed t ∧ b ∈ g ∧ a ∈ g ∧
                   (rank (hierarchy t) ua < rank (hierarchy t) ub ∨
                    (rank (hierarchy t) ub = rank (hierarchy t) ua ∧ before g b a)).

(** Every non-empty list of [users_by_department] has a member with the
    payrolling permission, after the payrolling loop and in the final
    population. *)
Definition payrollers_everywhere t : Prop :=
  ∀ k g, (k, g) ∈ users_by_department (final t) → g ≠ [] →
    has_payroller (permitted t) g ∧ has_payroller (users (final t)) g.

(** The users of [users_by_department] are the employees, each in a list
    whose key is its tenant and its department. *)
Definition employees_indexed t : Prop :=
  ∀ r u, users (final t) !! r = Some u →
    (User.role u = "employee" ↔
     ∃ k g, (k, g) ∈ users_by_department (final t) ∧ r ∈ g) ∧
    (∀ k g, (k, g) ∈ users_by_department (final t) → r ∈ g →
            User.tenant u = k.1 ∧ User.department u = or_none (Some k.2)).

(** The user at position [r] has the id [userId] and the role [role], and
    no list of [users_by_department] holds it. *)
Definition unindexed p (r : nat) (userId role : string) : Prop :=
  (λ u, (User.userId u, User.role u)) <$> users p !! r = Some (userId, role) ∧
  r ∉ mjoin (users_by_department p).*2.

(** With an office count of zero: every user of the tenant and every
    document of an owner of the tenant has the office "none", and no user of
    the tenant is a secretary or a director. *)
Definition no_office_rule t : Prop :=
  (∀ u, u ∈ users (final t) → offices_used t !! User.tenant u = Some 0%Z →
        User.office u = "none" ∧ User.position u ∉ ["secretary"; "director"]) ∧
  (∀ d u, d ∈ documents (final t) → users (final t) !! Document.owner d = Some u →
          offices_used t !! User.tenant u = Some 0%Z → Document.office d = "none").

(** Every recipient of every document is a user of the document's tenant. *)
Definition recipients_within_tenant t : Prop :=
  Forall (within_tenant (users (final t))) (documents (final t)).
End Claims.

(** The [lastLogin] of every user, in the order of [users]. *)
Definition last_logins (p : Population Extended.OrgExt Extended.UserExt Extended.DocExt)
    : list Z :=
  (λ u, Extended.lastLogin (User.ext u)) <$> users p.

(** C1. For every generated document of either variant, the document's
    tenant is the id of its owner's organization and its department is its
    owner's department, when it is constructed and when the output is
    written, whatever the random draws. *)
Theorem document_inherits_tenant_and_department {OX UX DX} (t : Trace OX UX DX) :
  Runs t → documents_inherit t.
Proof. intros H. apply sound_inherits, runs_sound, H. Qed.

Lemma document_inherits_witness :
  of_run (Basic.run basic_sample sample_rng) documents_inherit.
Proof.
  apply of_basic_sample. intros t H.
  apply document_inherits_tenant_and_department. by constructor.
Defined.

(** C2. After the supervisor logic, for all users A and B of the final
    population of either variant: A's id is in B's supervisee set if and
    only if B's id is A's supervisor. *)
Theorem supervisee_iff_supervisor {OX UX DX} (t : Trace OX UX DX) :
  Runs t → supervision_consistent t.
Proof.
  intros H. pose proof (runs_sound t H) as S. split.
  - apply (sound_consistent t S).
  - by apply sound_consistent_final.
Qed.

Lemma supervisee_iff_supervisor_witness :
  of_run (Extended.run sample_day extended_sample sample_rng) supervision_consistent.
Proof.
  apply of_extended_sample. intros t H.
  apply supervisee_iff_supervisor. by constructor.
Defined.

(** [get_last_login] counts back from the day it runs on: on another day the
    same draw gives another date. *)
Lemma get_last_login_shift (d1 d2 : Z) rng v r :
  Extended.get_last_login d1 rng = Some (v, r) →
  Extended.get_last_login d2 rng = Some ((v + (d2 - d1))%Z, r).
Proof.
  unfold Extended.get_last_login.
  intros (k & r1 & Hk & [<- <-]%ret_Some)%M_bind_Some.
  apply M_bind_Some. exists k, r1. split; [done|].
  apply ret_Some. split; [lia | done].
Qed.

(** C3. Two runs with the same seed and the same constants do not give the
    same output in the extended variant: run on two consecutive days with
    one random source and one configuration, the generator gives every user
    a [lastLogin] one day later in the second run, so the two populations
    differ although nothing but the day of the run changed. *)
Theorem extended_output_follows_the_day :
  of_run (Extended.generate sample_day extended_sample sample_rng) (λ p1,
    of_run (Extended.generate (sample_day + 1) extended_sample sample_rng) (λ p2,
      last_logins p1 ≠ [] ∧ last_logins p2 = Z.succ <$> last_logins p1)).
Proof. apply (of_run_decide _ _). vm_compute. reflexivity. Qed.

(** One employee, one document, no project, and a random source that
    always gives 0. *)
Definition one_document : Extended.Config :=
  {| Extended.nUsers := 1; Extended.nDocuments := 1; Extended.nHelpdeskOperators := 0;
     Extended.nApplicationAdmins := 0; Extended.nCustomers := 0;
     Extended.nProjectManagers := 0; Extended.nLegalOfficers := 0;
     Extended.nFinancialOfficers := 0; Extended.nAuditors := 0;
     Extended.nConsultants := 0; Extended.num_projects := 0 |}.

(** With one employee and no project the extended program creates "doc0"
    for "user0", whose projects are empty when the relationships are set:
    the guard [if doc.owner.projects] fails, and in the population written
    out "doc0" is not in the projects of its owner. *)
Lemma document_of_owner_without_projects :
  of_run (Extended.generate sample_day one_document (const_rng 0)) (λ p,
    (λ d, (Document.docId d, Document.owner d)) <$> documents p !! 0 = Some ("doc0", 0) ∧
    (λ u, (User.userId u, User.projects u)) <$> users p !! 0 = Some ("user0", ∅) ∧
    (λ u, bool_decide ("doc0" ∈ User.projects u)) <$> users p !! 0 = Some false).
Proof. apply (of_run_decide _ _). vm_compute. reflexivity. Qed.

(** C4. In the basic variant every document's id is in the projects of its
    owner once the documents are generated. In the extended variant a
    document's id is in the projects of its owner exactly when the owner
    had at least one project before the relationships were set: the id is
    added only to a set that is not empty. *)
Theorem document_id_in_projects_of_owner_with_projects :
  (∀ t, BasicRun t → BasicFacts.projects_closed t) ∧
  (∀ t, ExtendedRun t → ExtendedFacts.projects_guarded t).
Proof.
  split.
  - destruct 1 as [c rng t0 rng' Hrun].
    by destruct (BasicFacts.run_sound c rng t0 rng' Hrun) as (_ & ? & _).
  - destruct 1 as [today offices orgs c rng t0 rng' Hk Hrun].
    by destruct (ExtendedFacts.run_stages_sound today offices orgs Hk c rng t0 rng' Hrun)
      as (_ & ? & _).
Qed.

Lemma document_id_in_projects_witness :
  of_run (Basic.run basic_sample sample_rng) BasicFacts.projects_closed ∧
  of_run (Extended.run sample_day extended_sample sample_rng) ExtendedFacts.projects_guarded.
Proof.
  split.
  - apply of_basic_sample.
    apply (proj1 document_id_in_projects_of_owner_with_projects).
  - apply of_extended_sample.
    apply (proj2 document_id_in_projects_of_owner_with_projects).
Defined.

(** With a random source that always gives 0 the extended program gives the
    customer tenant "carLeaser" one office, with a source that always gives
    1 it gives two: [random.randint(1, 5)] sets the count. *)
Lemma customer_office_count_follows_the_draw :
  of_run (Extended.gen_tables (const_rng 0)) (λ tables,
    tables.1 !! "carLeaser" = Some 1%Z ∧
    Organization.offices <$> tables.2 !! "carLeaser" = Some 1%Z) ∧
  of_run (Extended.gen_tables (const_rng 1)) (λ tables,
    tables.1 !! "carLeaser" = Some 2%Z ∧
    Organization.offices <$> tables.2 !! "carLeaser" = Some 2%Z).
Proof. split; apply (of_run_decide _ _); vm_compute; reflexivity. Qed.

(** C5. In the basic variant the organizations are built without a random
    draw: every tenant and customer tenant has its organization, whose
    departments and office count are the entries of the two tables, and the
    count of a customer tenant is 0. In the extended variant, whatever the
    random source, every tenant and customer tenant has its organization
    with the departments of the table and the count of the office table of
    the run; that table has the literal's count for a tenant, and for a
    customer tenant a count from 1 to 5 that is drawn. *)
Theorem structure_static_except_customer_office_counts :
  (∃ orgs, Basic.organizations = Some orgs ∧
     structure_of Basic.departments Basic.offices
       (Basic.tenants ++ Basic.customerTenants) orgs ∧
     Forall (λ t, Basic.offices !! t = Some 0%Z) Basic.customerTenants) ∧
  (∀ rng offices orgs rng',
     Extended.gen_tables rng = Some ((offices, orgs), rng') →
     structure_of Extended.departments offices
       (Extended.tenants ++ Extended.customerTenants) orgs ∧
     ExtendedFacts.offices_drawn offices).
Proof.
  split.
  - apply (option_decide _ _). vm_compute. reflexivity.
  - intros rng offices orgs rng' Htables.
    by destruct (ExtendedFacts.returns_gen_tables _ _ _ Htables) as (_ & ? & ?).
Qed.

Lemma structure_static_witness :
  of_run (Extended.gen_tables sample_rng) (λ tables,
    structure_of Extended.departments tables.1
      (Extended.tenants ++ Extended.customerTenants) tables.2 ∧
    ExtendedFacts.offices_drawn tables.1).
Proof.
  unfold of_run.
  destruct (Extended.gen_tables sample_rng) as [[[offices orgs] r]|] eqn:E.
  - exact (proj2 structure_static_except_customer_office_counts _ _ _ _ E).
  - pose proof sample_tables_return as [x Hx]. congruence.
Defined.

(** C6. For every user of the final population of either variant, the
    supervisor is none or the id of another user of the same (tenant,
    department) group whose position rank (by the position table, 0 for a
    position not in it) is strictly higher, or equal with the supervisor
    before the user in insertion order. *)
Theorem supervisor_is_senior_in_group {OX UX DX} (t : Trace OX UX DX) :
  Runs t → supervisors_senior t.
Proof. intros H a ua s. apply sound_supervisor, runs_sound, H. Qed.

Lemma supervisor_is_senior_witness :
  of_run (Basic.run basic_sample sample_rng) supervisors_senior.
Proof.
  apply of_basic_sample. intros t H.
  apply supervisor_is_senior_in_group. by constructor.
Defined.

(** C7. After the payrolling loop, every (tenant, department) group of the
    index with at least one member has a member whose payrollingPermissions
    is True, in both variants. *)
Theorem every_group_has_a_payroller {OX UX DX} (t : Trace OX UX DX) :
  Runs t → payrollers_everywhere t.
Proof. intros H k g Hin _. by apply (sound_payroller t k g), Hin; apply runs_sound. Qed.

Lemma every_group_has_a_payroller_witness :
  of_run (Extended.run sample_day extended_sample sample_rng) payrollers_everywhere.
Proof.
  apply of_extended_sample. intros t H.
  apply every_group_has_a_payroller. by constructor.
Defined.

(** In the sample run of the basic program the users at positions 20, 22
    and 24 are a helpdesk operator, an application admin and a customer; no
    list of [users_by_department] holds any of them, and the program keeps
    no index by role. In the sample run of the extended program the
    helpdesk operator at position 12 and the customer at position 19 are in
    no list of [users_by_department] either. *)
Lemma staff_and_customers_outside_the_index :
  of_run (Basic.generate basic_sample sample_rng) (λ p,
    unindexed p 20 "hdop0" "helpdesk" ∧ unindexed p 22 "admin0" "admin" ∧
    unindexed p 24 "cstmr0" "customer" ∧ users_by_role p = None) ∧
  of_run (Extended.generate sample_day extended_sample sample_rng) (λ p,
    unindexed p 12 "hdop0" "helpdesk" ∧ unindexed p 19 "cstmr0" "customer").
Proof. unfold unindexed. split; apply (of_run_decide _ _); vm_compute; reflexivity. Qed.

(** C8. In both variants the users indexed by (tenant, department) are
    exactly the generic employees, each in a list whose key is its own
    tenant and department; specialized-role staff and customers are not in
    that index. The basic variant has no index by role; in the extended
    variant every user is in the list of its role. *)
Theorem employees_indexed_by_department_and_roles_in_extended :
  (∀ OX UX DX (t : Trace OX UX DX), Runs t → employees_indexed t) ∧
  (∀ t, BasicRun t → users_by_role (final t) = None) ∧
  (∀ t, ExtendedRun t → ExtendedFacts.roles_indexed t).
Proof.
  split; [|split].
  - intros OX UX DX t H r u Hu. by apply sound_indexed_employees; [apply runs_sound|].
  - destruct 1 as [c rng t0 rng' Hrun].
    by destruct (BasicFacts.run_sound c rng t0 rng' Hrun) as (_ & _ & ? & _).
  - destruct 1 as [today offices orgs c rng t0 rng' Hk Hrun].
    by destruct (ExtendedFacts.run_stages_sound today offices orgs Hk c rng t0 rng' Hrun)
      as (_ & _ & ? & _).
Qed.

Lemma employees_indexed_witness :
  of_run (Basic.run basic_sample sample_rng)
    (λ t, employees_indexed t ∧ users_by_role (final t) = None) ∧
  of_run (Extended.run sample_day extended_sample sample_rng)
    (λ t, employees_indexed t ∧ ExtendedFacts.roles_indexed t).
Proof.
  pose proof employees_indexed_by_department_and_roles_in_extended as (Hd & Hb & He).
  split.
  - apply of_basic_sample. intros t H. split; [apply Hd; by constructor | by apply Hb].
  - apply of_extended_sample. intros t H. split; [apply Hd; by constructor | by apply He].
Defined.

(** C9. For a tenant whose office count is zero, every user of the tenant
    and every document owned by a user of the tenant has the office "none",
    and no user of the tenant is a secretary or a director. *)
Theorem no_office_without_offices {OX UX DX} (t : Trace OX UX DX) :
  Runs t → no_office_rule t.
Proof. intros H. apply sound_no_office, runs_sound, H. Qed.

Lemma no_office_without_offices_witness :
  of_run (Basic.run basic_sample sample_rng) no_office_rule ∧
  of_run (extended_without_offices sample_rng) no_office_rule.
Proof.
  split.
  - apply of_basic_sample. intros t H.
    apply no_office_without_offices. by constructor.
  - apply of_extended_without_offices. intros t H _.
    apply no_office_without_offices. by constructor.
Defined.

(** C10. In both variants every user in a document's recipients belongs to
    the document's tenant. *)
Theorem recipients_share_the_tenant {OX UX DX} (t : Trace OX UX DX) :
  Runs t → recipients_within_tenant t.
Proof. intros H. apply (sound_recipients t), runs_sound, H. Qed.

Lemma recipients_share_the_tenant_witness :
  of_run (Extended.run sample_day extended_sample sample_rng) recipients_within_tenant.
Proof.
  apply of_extended_sample. intros t H.
  apply recipients_share_the_tenant. by constructor.
Defined.

(** * Further properties of the generated population *)

Lemma basic_run_staged t : BasicRun t → staged t ∧ BasicFacts.registered_exact t.
Proof. destruct 1 as [c rng t0 rng' Hrun]. apply (BasicFacts.run_staged c rng t0 rng' Hrun). Qed.

Lemma extended_run_staged t : ExtendedRun t → staged t ∧ ExtendedFacts.registered_by_role t.
Proof.
  destruct 1 as [today offices orgs c rng t0 rng' Hk Hrun].
  apply (ExtendedFacts.run_stages_staged today offices orgs c rng t0 rng' Hrun).
Qed.

Lemma runs_staged {OX UX DX} (t : Trace OX UX DX) : Runs t → staged t.
Proof.
  destruct 1 as [t H|t H]; [by destruct (basic_run_staged t H) | by destruct (extended_run_staged t H)].
Qed.

Section Further.
Context {OX UX DX : Type}.
Implicit Types (t : Trace OX UX DX).

(** Only employees, the users of the lists of [users_by_department], hold
    the payrolling permission. *)
Definition payroll_for_employees t : Prop :=
  ∀ r u, users (final t) !! r = Some u → User.payrollingPermissions u = true →
    User.role u = "employee" ∧
    ∃ k g, (k, g) ∈ users_by_department (final t) ∧ r ∈ g.

(** A user with a supervisee is registered. *)
Definition supervisors_registered t : Prop :=
  Forall (λ u, User.supervisee u ≠ ∅ → User.registered u = true) (users (final t)).

Lemma elem_of_index_join (index : Groups) r :
  r ∈ mjoin index.*2 ↔ ∃ k g, (k, g) ∈ index ∧ r ∈ g.
Proof.
  rewrite list_elem_of_join. split.
  - intros (g & Hr & ([k g'] & -> & Hin)%list_elem_of_fmap). by exists k, g'.
  - intros (k & g & Hin & Hr). exists g. split; [done|].
    apply list_elem_of_fmap. by exists (k, g).
Qed.

Lemma staged_payroll t : sound t → staged t → payroll_for_employees t.
Proof.
  intros S T r u Hu Hp.
  pose proof (fmap_factor settled (λ b, b.1.2) User.payrollingPermissions
                _ _ (λ _, eq_refl) (staged_final t T)) as Hpf.
  destruct (fmap_eq_lookup _ _ _ r u Hpf Hu) as (u3 & Hu3 & Hp3).
  assert (r ∈ mjoin (users_by_department (final t)).*2) as Hr.
  { destruct (staged_confined t T r u3 Hu3) as [?|(u1 & Hu1 & Hp1)]; [congruence | done |].
    exfalso. destruct (sound_seeded t S) as (users0 & Hfresh & _ & E).
    pose proof (resolve_hierarchy_keep (hierarchy t) User.payrollingPermissions
                  (indexed t) users0 (λ _ _, eq_refl) (λ _ _, eq_refl)) as Hk.
    rewrite E in Hk. simpl in Hk.
    destruct (fmap_eq_lookup _ _ _ r u1 Hk Hu1) as (u0 & Hu0 & Hp0).
    pose proof (Forall_lookup_1 _ _ _ _ Hfresh Hu0) as (_ & _ & _ & Hf & _). congruence. }
  apply elem_of_index_join in Hr as (k & g & Hin & Hr).
  split; [|by exists k, g].
  apply (proj1 (sound_indexed_employees t r u S Hu)). by exists k, g.
Qed.

Lemma staged_supervisors t : staged t → supervisors_registered t.
Proof.
  intros T.
  pose proof (fmap_factor settled (λ b, (b.2, b.1.1.2.2))
                (λ u : User.t OX UX, (User.registered u, User.supervisee u))
                _ _ (λ _, eq_refl) (staged_final t T)) as Hk.
  apply Forall_lookup. intros r u Hu Hne.
  destruct (fmap_eq_lookup _ _ _ r u Hk Hu) as (u3 & Hu3 & Hb).
  injection Hb as H1 H2. rewrite <- H1.
  apply (Forall_lookup_1 _ _ _ _ (staged_registered t T) Hu3). by rewrite H2.
Qed.
End Further.

(** X1. In both variants, in the population written out, every list of
    [users_by_department] is a chain: the supervisor of its first member is
    none and the supervisor of any other member is the member just before
    it; the only supervisee of a member is the member just after it, and the
    last member has none. A user in no list has no supervisor and no
    supervisee. *)
Theorem department_hierarchy_is_a_chain {OX UX DX} (t : Trace OX UX DX) :
  Runs t → hierarchy_chains t.
Proof. intros H. apply sound_chains, runs_sound, H. Qed.

Lemma department_hierarchy_witness :
  of_run (Basic.run basic_sample sample_rng) hierarchy_chains.
Proof.
  apply of_basic_sample. intros t H.
  apply department_hierarchy_is_a_chain. by constructor.
Defined.

(** X2. In both variants every list of [users_by_department] is, when the
    output is written, in descending order of the rank of the members'
    positions (0 for a position that is not in the position table). *)
Theorem department_lists_sorted_by_rank {OX UX DX} (t : Trace OX UX DX) :
  Runs t → index_sorted t.
Proof. intros H. apply sound_sorted, runs_sound, H. Qed.

Lemma department_lists_sorted_witness :
  of_run (Extended.run sample_day extended_sample sample_rng) index_sorted.
Proof.
  apply of_extended_sample. intros t H.
  apply department_lists_sorted_by_rank. by constructor.
Defined.

(** X3. In both variants a user whose payrollingPermissions is True is an
    employee in a list of [users_by_department]: helpdesk operators, admins,
    the other specialized roles and customers never get the permission (in
    the extended variant the test on the roles manager, admin and
    financialOfficer never applies, since the loop only visits employees). *)
Theorem payrolling_only_for_employees {OX UX DX} (t : Trace OX UX DX) :
  Runs t → payroll_for_employees t.
Proof. intros H. apply staged_payroll; [apply runs_sound, H | apply runs_staged, H]. Qed.

Lemma payrolling_only_for_employees_witness :
  of_run (Extended.run sample_day extended_sample sample_rng) payroll_for_employees.
Proof.
  apply of_extended_sample. intros t H.
  apply payrolling_only_for_employees. by constructor.
Defined.

(** [registered] is True exactly for the users with a supervisee, and those
    are employees. *)
Definition registered_supervisors (t : Trace unit unit unit) : Prop :=
  ∀ r u, users (final t) !! r = Some u →
    (User.registered u = true ↔ User.supervisee u ≠ ∅) ∧
    (User.registered u = true → User.role u = "employee").

(** X4. In the basic variant, in the population written out, a user is
    registered exactly when it has a supervisee; only employees are
    registered, so helpdesk operators, admins and customers never are. *)
Theorem basic_registered_iff_supervisor (t : Trace unit unit unit) :
  BasicRun t → registered_supervisors t.
Proof.
  intros H r u Hu. pose proof (basic_run_sound t H) as S.
  destruct (basic_run_staged t H) as [T Hexact].
  pose proof (fmap_factor settled (λ b, (b.2, b.1.1.2.2))
                (λ u : User.t unit unit, (User.registered u, User.supervisee u))
                _ _ (λ _, eq_refl) (staged_final t T)) as Hk.
  destruct (fmap_eq_lookup _ _ _ r u Hk Hu) as (u3 & Hu3 & Hb).
  injection Hb as H1 H2.
  pose proof (Forall_lookup_1 _ _ _ _ Hexact Hu3) as Hreg.
  assert (User.registered u = true ↔ User.supervisee u ≠ ∅) as Hiff.
  { rewrite <- H1, <- H2, Hreg. apply bool_decide_eq_true. }
  split; [done|]. intros Hr%Hiff.
  destruct (decide (r ∈ mjoin (users_by_department (final t)).*2)) as [Hin|Hout].
  - apply elem_of_index_join in Hin as (k & g & Hin & Hg).
    apply (proj1 (sound_indexed_employees t r u S Hu)). by exists k, g.
  - by destruct (proj2 (sound_chains t S) r u Hu Hout).
Qed.

Lemma basic_registered_witness :
  of_run (Basic.run basic_sample sample_rng) registered_supervisors.
Proof. apply of_basic_sample. apply basic_registered_iff_supervisor. Defined.

(** Every user with a supervisee, or of a role the loop registers at once,
    is registered. *)
Definition registered_at_least (t : Trace Extended.OrgExt Extended.UserExt Extended.DocExt)
    : Prop :=
  Forall (λ u, User.supervisee u ≠ ∅ ∨ User.role u ∈ ExtendedFacts.registered_roles →
               User.registered u = true)
    (users (final t)).

(** X5. In the extended variant, in the population written out, every user
    with a supervisee and every user whose role is manager, director or
    projectManager is registered, whatever the random draws. *)
Theorem extended_supervisors_and_managers_registered
    (t : Trace Extended.OrgExt Extended.UserExt Extended.DocExt) :
  ExtendedRun t → registered_at_least t.
Proof.
  intros H. destruct (extended_run_staged t H) as [T Hroles].
  pose proof (staged_supervisors t T) as Hsup.
  pose proof (fmap_factor settled (λ b, (b.2, b.1.1.1.1.1.1.1.2))
                (λ u : User.t _ _, (User.registered u, User.role u))
                _ _ (λ _, eq_refl) (staged_final t T)) as Hk.
  apply Forall_lookup. intros r u Hu [Hne|Hrole].
  - by apply (Forall_lookup_1 _ _ _ _ Hsup Hu).
  - destruct (fmap_eq_lookup _ _ _ r u Hk Hu) as (u3 & Hu3 & Hb).
    injection Hb as H1 H2. rewrite <- H1.
    apply (Forall_lookup_1 _ _ _ _ Hroles Hu3). by rewrite H2.
Qed.

Lemma extended_registered_witness :
  of_run (Extended.run sample_day extended_sample sample_rng) registered_at_least.
Proof. apply of_extended_sample. apply extended_supervisors_and_managers_registered. Defined.

(** ** The population of the basic variant *)

Lemma of_basic_config (P : Trace unit unit unit → Prop) :
  (∀ rng t rng', Basic.run basic_sample rng = Some (t, rng') → P t) →
  of_run (Basic.run basic_sample sample_rng) P.
Proof.
  intros HP. unfold of_run.
  destruct (Basic.run basic_sample sample_rng) as [[t r]|] eqn:E.
  - by eapply HP.
  - pose proof basic_sample_returns as [x Hx]. congruence.
Defined.

Lemma NoDup_doc_ids n : NoDup (block "doc" n).
Proof.
  apply NoDup_fmap_2_strong; [|apply NoDup_seq].
  intros i j _ _ Heq. simpl in Heq. simplify_eq. by apply (inj pretty).
Qed.

(** The users of the population written out are, in order, those of the
    four loops, and the documents those of the document loop. *)
Definition basic_enrolment (c : Basic.Config) (t : Trace unit unit unit) : Prop :=
  id_role <$> users (final t) = BasicCensus.roster c ∧
  NoDup (User.userId <$> users (final t)) ∧
  Document.docId <$> documents (final t) = block "doc" (Basic.nDocuments c) ∧
  NoDup (Document.docId <$> documents (final t)).

(** X6. A run of the basic variant with [nUsers] and [nDocuments] writes the
    users user0.., hdop0.., admin0.., cstmr0.. in this order, with the roles
    employee, helpdesk, admin and customer, min(30, nUsers/10) helpdesk
    operators and admins and min(40, nUsers/2) customers, and the documents
    doc0..; no two users and no two documents share an id. *)
Theorem basic_population_is_enrolled c rng t rng' :
  Basic.run c rng = Some (t, rng') → basic_enrolment c t.
Proof.
  intros Hrun.
  destruct (BasicFacts.run_sound c rng t rng' Hrun) as (S & _).
  destruct (BasicCensus.run_census c rng t rng' Hrun) as (Hids & _ & Hdocs & _ & Hfin & _).
  pose proof (fmap_factor base (λ b, (b.1.1.1.1.1, b.1.1.1.1.2)) id_role _ _ (λ _, eq_refl)
                (sound_base_final t S)) as Hk.
  pose proof (fmap_factor base (λ b, b.1.1.1.1.1) User.userId _ _ (λ _, eq_refl)
                (sound_base_final t S)) as Hk'.
  split; [by rewrite Hk|]. split; [rewrite Hk'; apply (sound_ids t S)|].
  rewrite Hfin, Hdocs. split; [done | apply NoDup_doc_ids].
Qed.

Lemma basic_population_enrolled_witness :
  of_run (Basic.run basic_sample sample_rng) (basic_enrolment basic_sample).
Proof. apply of_basic_config. apply basic_population_is_enrolled. Defined.

(** Every user is placed as its loop places it: [organizations] is the
    table of the run. *)
Definition basic_placement (t : Trace unit unit unit) : Prop :=
  ∃ orgs, Basic.organizations = Some orgs ∧
          Forall (BasicCensus.user_placed orgs) (users (final t)).

(** X7. In the basic variant the organization of every user is the entry of
    [organizations] for its tenant. An employee, a helpdesk operator and an
    admin belong to one of [tenants], a customer to one of
    [customerTenants]. The department of an employee and of a customer is
    one of its tenant's, that of a helpdesk operator and of an admin is
    "none". An employee has a position of [positions] and, when its tenant
    has offices, one of them, numbered from 1 to the tenant's count, else
    "none"; every other user has position and office "none". *)
Theorem basic_users_placed_by_role c rng t rng' :
  Basic.run c rng = Some (t, rng') → basic_placement t.
Proof.
  intros Hrun.
  destruct (BasicFacts.run_sound c rng t rng' Hrun) as (S & _).
  destruct (BasicCensus.run_census c rng t rng' Hrun) as (_ & (orgs & Horgs & Hall) & _).
  exists orgs. split; [done|].
  eapply Forall_base_keep; [apply BasicCensus.user_placed_base | apply (sound_base_final t S) |].
  done.
Qed.

Lemma basic_users_placed_witness :
  of_run (Basic.run basic_sample sample_rng) basic_placement.
Proof. apply of_basic_config. apply basic_users_placed_by_role. Defined.

Lemma doc_filed_base (users users' : list Basic.User) (d : Basic.Document) :
  base <$> users' = base <$> users →
  BasicCensus.doc_filed users d → BasicCensus.doc_filed users' d.
Proof.
  intros Hb (Hty & Hown & Hoff & Hall & Hsize & Hne).
  split; [done|]. split.
  { by rewrite <- (length_fmap base users'), Hb, length_fmap. }
  split; [done|]. split; [|done].
  intros Ho r u' Hu' Hou.
  destruct (fmap_eq_lookup base users users' r u' Hb Hu') as (u & Hu & Hbu).
  apply (Hall Ho r u Hu). injection Hbu as _ _ _ _ Ho' _. by rewrite Ho'.
Qed.

(** Every document is as the constructor leaves it. *)
Definition basic_filing (t : Trace unit unit unit) : Prop :=
  Forall (BasicCensus.doc_filed (users (final t))) (documents (final t)).

(** X8. In the basic variant every document has a type of [documentTypes],
    an owner among the users and an office drawn for its tenant (an office
    of the tenant numbered from 1 to its count, or "none" when the tenant
    has none). When the office is not "none", every user of that office is a
    recipient; when it is "none" there are at most 8 recipients. A document
    always has a recipient. *)
Theorem basic_documents_filed c rng t rng' :
  Basic.run c rng = Some (t, rng') → basic_filing t.
Proof.
  intros Hrun.
  destruct (BasicFacts.run_sound c rng t rng' Hrun) as (S & _).
  destruct (BasicCensus.run_census c rng t rng' Hrun) as (_ & _ & _ & Hall & Hfin & _).
  unfold basic_filing. rewrite Hfin.
  eapply Forall_impl; [exact Hall|]. intros d. apply doc_filed_base.
  rewrite (sound_base_final t S). symmetry. apply (sound_base_staffed t S).
Qed.

Lemma basic_documents_filed_witness :
  of_run (Basic.run basic_sample sample_rng) basic_filing.
Proof. apply of_basic_config. apply basic_documents_filed. Defined.

(** What [assign_projects] adds to the projects of the user at [r]. *)
Lemma assign_projects_exact (docs : list Basic.Document) (us : list Basic.User) r u' :
  Basic.assign_projects docs us !! r = Some u' →
  ∃ u, us !! r = Some u ∧
       ∀ x, x ∈ User.projects u' ↔
            x ∈ User.projects u ∨
            ∃ d, d ∈ docs ∧ Document.owner d = r ∧ Document.docId d = x.
Proof.
  unfold Basic.assign_projects. revert us.
  induction docs as [|d docs IH]; intros us; simpl.
  - intros Hu. exists u'. split; [done|]. intros x. split; [by left|].
    intros [?|(d & Hd & _)]; [done | by apply elem_of_nil in Hd].
  - intros Hu'. destruct (IH _ Hu') as (u1 & Hu1 & Hx).
    rewrite list_lookup_alter in Hu1.
    destruct (decide (Document.owner d = r)) as [Heq|Hne].
    + rewrite Heq in Hu1. apply fmap_Some in Hu1 as (u & Hu & ->).
      exists u. split; [done|]. intros x. rewrite Hx. simpl. rewrite elem_of_union, elem_of_singleton.
      split.
      * intros [[->|?]|(d' & Hd' & Ho & Hi)]; [right; exists d | by left | right; exists d'].
        -- split; [apply elem_of_cons; by left | done].
        -- split; [apply elem_of_cons; by right | done].
      * intros [?|(d' & [->|Hd']%elem_of_cons & Ho & Hi)]; [left; by right | left; by left |].
        right. by exists d'.
    + exists u1. split; [done|]. intros x. rewrite Hx. split.
      * intros [?|(d' & Hd' & Ho & Hi)]; [by left|]. right. exists d'.
        split; [apply elem_of_cons; by right | done].
      * intros [?|(d' & [->|Hd']%elem_of_cons & Ho & Hi)]; [by left | done |].
        right. by exists d'.
Qed.

(** The projects of a user are the ids of its documents. *)
Definition projects_are_documents (t : Trace unit unit unit) : Prop :=
  ∀ r u, users (final t) !! r = Some u →
    ∀ x, x ∈ User.projects u ↔
         ∃ d, d ∈ documents (final t) ∧ Document.owner d = r ∧ Document.docId d = x.

(** X9. In the basic variant, in the population written out, the projects of
    a user are exactly the ids of the documents it owns: a user that owns no
    document has no project. *)
Theorem basic_projects_are_own_documents c rng t rng' :
  Basic.run c rng = Some (t, rng') → projects_are_documents t.
Proof.
  intros Hrun r u' Hu' x.
  destruct (BasicFacts.run_sound c rng t rng' Hrun) as (S & _).
  destruct (BasicFacts.run_staged c rng t rng' Hrun) as (T & _).
  destruct (BasicCensus.run_census c rng t rng' Hrun) as (_ & _ & _ & _ & Hfin & Hus).
  rewrite Hus in Hu'. rewrite Hfin.
  destruct (assign_projects_exact _ _ _ _ Hu') as (u & Hu & Hx). rewrite Hx.
  assert (User.projects u = ∅) as Hempty.
  { pose proof (fmap_factor unregistered (λ b, b.1.2) User.projects _ _ (λ _, eq_refl)
                  (staged_permitted t T)) as Hp.
    destruct (fmap_eq_lookup _ _ _ r u Hp Hu) as (u1 & Hu1 & Hp1).
    destruct (sound_seeded t S) as (users0 & Hfresh & _ & E).
    pose proof (resolve_hierarchy_keep (hierarchy t) User.projects
                  (indexed t) users0 (λ _ _, eq_refl) (λ _ _, eq_refl)) as Hk.
    rewrite E in Hk. simpl in Hk.
    destruct (fmap_eq_lookup _ _ _ r u1 Hk Hu1) as (u0 & Hu0 & Hp0).
    pose proof (Forall_lookup_1 _ _ _ _ Hfresh Hu0) as (Hf & _). congruence. }
  rewrite Hempty. split; [intros [?%elem_of_empty|?]; [done|done] | by right].
Qed.

Lemma basic_projects_witness :
  of_run (Basic.run basic_sample sample_rng) projects_are_documents.
Proof. apply of_basic_config. apply basic_projects_are_own_documents. Defined.

(** ** The population of the extended variant *)

(** The sample run of the stages, with the tables the program draws. *)
Definition of_sample_stages
    (P : gmap string Z → gmap string Extended.Organization →
         Trace Extended.OrgExt Extended.UserExt Extended.DocExt → Prop) : Prop :=
  match Extended.gen_tables sample_rng with
  | Some (tables, rng) =>
      of_run (Extended.run_stages sample_day tables.1 tables.2 extended_sample rng)
        (P tables.1 tables.2)
  | None => False
  end.

Lemma of_extended_config
    (P : gmap string Z → gmap string Extended.Organization →
         Trace Extended.OrgExt Extended.UserExt Extended.DocExt → Prop) :
  (∀ offices orgs rng t rng', keyed orgs →
     Extended.run_stages sample_day offices orgs extended_sample rng = Some (t, rng') →
     P offices orgs t) →
  of_sample_stages P.
Proof.
  intros HP. unfold of_sample_stages.
  destruct (Extended.gen_tables sample_rng) as [[tables r]|] eqn:E.
  - unfold of_run.
    destruct (Extended.run_stages sample_day tables.1 tables.2 extended_sample r)
      as [[t r']|] eqn:E'.
    + eapply HP; [|exact E'].
      by destruct (ExtendedFacts.returns_gen_tables _ _ _ E) as (? & _).
    + pose proof extended_sample_returns as [x Hx]. unfold Extended.run in Hx.
      destruct x as [t r']. apply M_bind_Some in Hx as (tb & r1 & Ht & Hr).
      rewrite E in Ht. injection Ht as <- <-. congruence.
  - pose proof sample_tables_return as [x Hx]. congruence.
Defined.

Section ExtendedRuns.
Variable today : Z.
Variable offices : gmap string Z.
Variable orgs : gmap string Extended.Organization.
Variable c : Extended.Config.
Variable rng rng' : Rng.
Variable t : Trace Extended.OrgExt Extended.UserExt Extended.DocExt.
Hypothesis orgs_keyed : keyed orgs.
Hypothesis stages_return : Extended.run_stages today offices orgs c rng = Some (t, rng').

Lemma stages_sound : sound t.
Proof.
  by destruct (ExtendedFacts.run_stages_sound today offices orgs orgs_keyed c rng t rng'
                 stages_return).
Qed.

Lemma stages_census : ExtendedPasses.census today offices orgs c t.
Proof. exact (ExtendedPasses.run_stages_census _ _ _ orgs_keyed _ _ _ _ stages_return). Qed.

Lemma stages_filing : ExtendedPasses.filing today offices c t.
Proof. exact (ExtendedPasses.run_stages_filing _ _ _ _ _ _ _ stages_return). Qed.

Lemma stages_profiles : ExtendedPasses.profiles c t.
Proof. exact (ExtendedPasses.run_stages_profiles _ _ _ _ _ _ _ stages_return). Qed.

(** The users that are written out have the constructor's attributes. *)
Lemma stages_framed :
  ExtendedProfiles.framed <$> users (final t) = ExtendedProfiles.framed <$> resolved t.
Proof.
  destruct stages_profiles as (Hf & _ & He & _).
  pose proof (sound_base_final t stages_sound) as Hb.
  pose proof (sound_base_staffed t stages_sound) as Hb7.
  apply list_eq. intros r. rewrite !list_lookup_fmap.
  destruct (users (final t) !! r) as [u|] eqn:Hu.
  - destruct (fmap_eq_lookup _ _ _ r u Hb Hu) as (u0 & Hu0 & Hbu).
    destruct (fmap_eq_lookup _ _ _ r u He Hu) as (u7 & Hu7 & Heu).
    destruct (fmap_eq_lookup _ _ _ r u7 Hf Hu7) as (u0' & Hu0' & Hfu).
    assert (u0' = u0) as -> by congruence.
    rewrite Hu0. simpl. f_equal. unfold ExtendedProfiles.framed in *.
    pose proof (f_equal snd Hfu) as Hfr. simpl in Hfr. rewrite Hfr, Heu, Hbu. done.
  - apply lookup_ge_None in Hu.
    assert (length (resolved t) = length (users (final t))) as Hlen.
    { by rewrite <- (length_fmap base (resolved t)), <- Hb, length_fmap. }
    rewrite (proj2 (lookup_ge_None (resolved t) r)) by lia. done.
Qed.
End ExtendedRuns.

(** The roles the loops of the extended variant give. *)
Definition generated_roles : list string :=
  "employee" :: ExtendedCensus.staff_roles ++ ["customer"].

Lemma roster_roles c x : x ∈ ExtendedCensus.roster c → x.2 ∈ generated_roles.
Proof.
  unfold ExtendedCensus.roster, Extended.specialized_roles.
  cbn [fmap list_fmap mjoin list_join fst snd]. rewrite !elem_of_app. intros H.
  repeat match goal with H : _ ∨ _ |- _ => destruct H as [H|H] end;
    try (by apply elem_of_nil in H);
    apply ExtendedCensus.enrol_roles in H; rewrite H; compute_done.
Qed.

Lemma generated_roles_manage : Forall (λ r, r ∉ ["manager"; "director"]) generated_roles.
Proof. compute_done. Qed.

(** The users of the population written out are, in order, those of the
    loops, and the documents those of the document loop. *)
Definition extended_enrolment (c : Extended.Config)
    (t : Trace Extended.OrgExt Extended.UserExt Extended.DocExt) : Prop :=
  id_role <$> users (final t) = ExtendedCensus.roster c ∧
  NoDup (User.userId <$> users (final t)) ∧
  Forall (λ u, User.role u ∈ generated_roles) (users (final t)) ∧
  Document.docId <$> documents (final t) = block "doc" (Extended.nDocuments c) ∧
  NoDup (Document.docId <$> documents (final t)).

Lemma stages_enrolled today offices orgs c rng t rng' :
  keyed orgs →
  Extended.run_stages today offices orgs c rng = Some (t, rng') →
  extended_enrolment c t.
Proof.
  intros Hk Hrun.
  pose proof (stages_sound today offices orgs c rng rng' t Hk Hrun) as S.
  destruct (stages_census today offices orgs c rng rng' t Hk Hrun) as (Hids & _).
  destruct (stages_filing today offices orgs c rng rng' t Hrun) as (Hdocs & _).
  pose proof (fmap_factor base (λ b, (b.1.1.1.1.1, b.1.1.1.1.2)) id_role _ _ (λ _, eq_refl)
                (sound_base_final t S)) as Hf.
  pose proof (fmap_factor base (λ b, b.1.1.1.1.1) User.userId _ _ (λ _, eq_refl)
                (sound_base_final t S)) as Hf'.
  pose proof (fmap_factor doc_base (λ b, b.1.1.1.1.1.1.1) Document.docId _ _ (λ _, eq_refl)
                (sound_docs t S)) as Hd.
  split; [by rewrite Hf|]. split; [rewrite Hf'; apply (sound_ids t S)|]. split.
  - apply Forall_forall. intros u Hu. apply (roster_roles c (id_role u)).
    rewrite <- Hids, <- Hf. apply list_elem_of_fmap. by exists u.
  - rewrite Hd, Hdocs. split; [done | apply NoDup_doc_ids].
Qed.

(** X10. A run of the stages of the extended variant writes the users
    user0.., hdop0.., admin0.., pm0.., legal0.., finance0.., audit0..,
    cons0.. and cstmr0.. in this order, each block as long as its constant
    and with the role of its loop, and the documents doc0..; no two users
    and no two documents share an id. No user has the role manager (or
    director), although the role list and several tests name it. *)
Theorem extended_population_is_enrolled today offices orgs c rng t rng' :
  keyed orgs →
  Extended.run_stages today offices orgs c rng = Some (t, rng') →
  extended_enrolment c t.
Proof. apply stages_enrolled. Qed.

Lemma extended_population_enrolled_witness :
  of_sample_stages (λ _ _, extended_enrolment extended_sample).
Proof.
  apply of_extended_config. intros offices orgs rng t rng'.
  apply extended_population_is_enrolled.
Defined.

(** X11. In the extended variant the organization of every user is the entry
    of [organizations] for its tenant and its department is one of its
    tenant's. A customer belongs to one of [customerTenants], every other
    user to one of [tenants]. An employee has a position of [positions] and,
    when its tenant has offices, one of them, numbered from 1 to the
    tenant's count, else "none"; every other user has position and office
    "none". *)
Theorem extended_users_placed_by_role today offices orgs c rng t rng' :
  keyed orgs →
  Extended.run_stages today offices orgs c rng = Some (t, rng') →
  Forall (ExtendedCensus.user_placed offices orgs) (users (final t)).
Proof.
  intros Hk Hrun.
  pose proof (stages_sound today offices orgs c rng rng' t Hk Hrun) as S.
  destruct (stages_census today offices orgs c rng rng' t Hk Hrun) as (_ & Hall & _).
  eapply Forall_base_keep;
    [apply ExtendedCensus.extended_user_placed_base | apply (sound_base_final t S) | done].
Qed.

Lemma extended_users_placed_witness :
  of_sample_stages (λ offices orgs t,
    Forall (ExtendedCensus.user_placed offices orgs) (users (final t))).
Proof.
  apply of_extended_config. intros offices orgs rng t rng'.
  apply extended_users_placed_by_role.
Defined.

(** The attributes of a user that the constructor draws, and the budget
    authority no user gets. *)
Definition extended_profile (today : Z)
    (t : Trace Extended.OrgExt Extended.UserExt Extended.DocExt) : Prop :=
  Forall (λ u, ExtendedProfiles.profiled today u ∧
               Extended.budgetAuthority (User.ext u) = 0%Z)
    (users (final t)).

Lemma stages_profiled today offices orgs c rng t rng' :
  keyed orgs →
  Extended.run_stages today offices orgs c rng = Some (t, rng') →
  extended_profile today t.
Proof.
  intros Hk Hrun.
  destruct (stages_enrolled _ _ _ _ _ _ _ Hk Hrun) as (_ & _ & Hroles & _).
  destruct (stages_census today offices orgs c rng rng' t Hk Hrun) as (_ & _ & Hprof).
  pose proof (stages_framed today offices orgs c rng rng' t Hk Hrun) as Hf.
  apply Forall_lookup. intros r u Hu.
  destruct (fmap_eq_lookup _ _ _ r u Hf Hu) as (u0 & Hu0 & Hfu).
  assert (ExtendedProfiles.profiled today u) as Hp.
  { apply (ExtendedProfiles.profiled_framed today u0 u); [by symmetry|].
    by apply (Forall_lookup_1 _ _ _ _ Hprof Hu0). }
  split; [done|]. destruct Hp as (_ & _ & _ & _ & _ & _ & Hbud). apply Hbud.
  apply (proj1 (Forall_forall _ _) generated_roles_manage).
  by apply (Forall_lookup_1 _ _ _ _ Hroles Hu).
Qed.

(** X12. In the extended variant, in the population written out, the region
    and the country of a user are those of its organization, its lastLogin
    is at most 30 days before the day of the run, its experience is from 0
    to 30, its securityClearance is one of [securityLevels], and its
    customerTier is one of [customerTiers] for a customer and "none" for
    every other user. The budgetAuthority of every user is 0: it is drawn
    for the roles manager and director only, and no user has them. *)
Theorem extended_users_profiled today offices orgs c rng t rng' :
  keyed orgs →
  Extended.run_stages today offices orgs c rng = Some (t, rng') →
  extended_profile today t.
Proof. apply stages_profiled. Qed.

Lemma extended_users_profiled_witness :
  of_sample_stages (λ _ _, extended_profile sample_day).
Proof.
  apply of_extended_config. intros offices orgs rng t rng'.
  apply extended_users_profiled.
Defined.

(** A document of the output and the one of the document loop at the same
    place. *)
Lemma stages_settled_doc today offices orgs c rng t rng' i d :
  keyed orgs →
  Extended.run_stages today offices orgs c rng = Some (t, rng') →
  documents (final t) !! i = Some d →
  ∃ d0, created t !! i = Some d0 ∧
        ExtendedFiling.doc_filed today offices (staffed t) d0 ∧
        ExtendedPasses.settled_doc (users (final t)) (Document.docId <$> documents (final t))
          i d0 d.
Proof.
  intros Hk Hrun Hd.
  pose proof (stages_sound today offices orgs c rng rng' t Hk Hrun) as S.
  destruct (stages_filing today offices orgs c rng rng' t Hrun) as (_ & Hfiled & _ & Hset).
  destruct (fmap_eq_lookup _ _ _ i d (sound_docs t S) Hd) as (d0 & Hd0 & _).
  exists d0. split; [done|]. split; [by apply (Forall_lookup_1 _ _ _ _ Hfiled Hd0)|].
  rewrite (fmap_factor doc_base (λ b, b.1.1.1.1.1.1.1) Document.docId _ _ (λ _, eq_refl)
             (sound_docs t S)).
  by apply Hset.
Qed.

(** What the constructor gives a document, in the population written out. *)
Definition extended_filing (today : Z) (offices : gmap string Z)
    (t : Trace Extended.OrgExt Extended.UserExt Extended.DocExt) : Prop :=
  Forall (λ d,
    Document.docType d ∈ Extended.documentTypes ∧
    drawn_office offices (Document.tenant d) (Document.office d) ∧
    ExtendedFiling.dated today (Document.ext d) ∧
    ∃ o, users (final t) !! Document.owner d = Some o ∧
         Extended.doc_region (Document.ext d)
         = Extended.org_region (Organization.ext (User.organization o)) ∧
         Extended.doc_country (Document.ext d)
         = Extended.org_country (Organization.ext (User.organization o)))
    (documents (final t)).

(** X13. In the extended variant, in the population written out, every
    document has a type of [documentTypes] and an office drawn for its
    tenant (numbered from 1 to the tenant's count, or "none" when the tenant
    has none); its createdDate is at most 365 days and its lastModified at
    most 60 days before the day of the run, and its expiryDate, if any, is
    from 30 to 3650 days after that day; its region and country are those of
    the organization of its owner. The later stages change none of this. *)
Theorem extended_documents_filed today offices orgs c rng t rng' :
  keyed orgs →
  Extended.run_stages today offices orgs c rng = Some (t, rng') →
  extended_filing today offices t.
Proof.
  intros Hk Hrun. apply Forall_lookup. intros i d Hd.
  pose proof (stages_sound today offices orgs c rng rng' t Hk Hrun) as S.
  destruct (stages_profiles today offices orgs c rng rng' t Hrun) as (_ & _ & Hext & _).
  pose proof (stages_profiled _ _ _ _ _ _ _ Hk Hrun) as Hprof.
  destruct (stages_settled_doc _ _ _ _ _ _ _ i d Hk Hrun Hd)
    as (d0 & Hd0 & (Hty & (o7 & Ho7 & _ & Hreg & Hcou) & Hoff & Hdated & _) &
        d1 & Hb1 & He1 & _ & Hb & _ & Hfr & _).
  rewrite He1 in Hfr.
  assert (doc_base d = doc_base d0) as Hbd by congruence.
  injection Hbd as _ Hty' Hown _ _ Hten _ Hoff'.
  injection Hfr as _ Hcre Hexp _ _ _ _ _ Hreg' Hcou' _ _ _ _ _ Hmod _ _.
  rewrite Hty', Hten, Hoff', Hown. split; [done|]. split; [done|]. split.
  { unfold ExtendedFiling.dated. by rewrite Hcre, Hexp, Hmod. }
  symmetry in Hext.
  destruct (fmap_eq_lookup _ _ _ _ o7 Hext Ho7) as (o & Ho & Heo).
  exists o. split; [done|].
  destruct (Forall_lookup_1 _ _ _ _ Hprof Ho) as ((Hr & Hc & _) & _).
  rewrite Hreg', Hcou', Hreg, Hcou, <- Heo. done.
Qed.

Lemma extended_documents_filed_witness :
  of_sample_stages (λ offices _, extended_filing sample_day offices).
Proof.
  apply of_extended_config. intros offices orgs rng t rng'.
  apply extended_documents_filed.
Defined.

(** X14. In the extended variant every document of the population written
    out has at least 1 and at most 18 recipients. *)
Theorem extended_documents_have_recipients today offices orgs c rng t rng' :
  keyed orgs →
  Extended.run_stages today offices orgs c rng = Some (t, rng') →
  Forall (λ d, 1 ≤ size (Document.recipients d) ≤ 18) (documents (final t)).
Proof.
  intros Hk Hrun. apply Forall_lookup. intros i d Hd.
  destruct (stages_settled_doc _ _ _ _ _ _ _ i d Hk Hrun Hd)
    as (d0 & _ & _ & d1 & _ & _ & Hsize & _ & Hrec & _).
  by rewrite Hrec.
Qed.

Lemma extended_documents_recipients_witness :
  of_sample_stages (λ _ _ t,
    Forall (λ d, 1 ≤ size (Document.recipients d) ≤ 18) (documents (final t))).
Proof.
  apply of_extended_config. intros offices orgs rng t rng'.
  apply extended_documents_have_recipients.
Defined.

(** The reviewers, the approvers and the related documents of the document
    at [i]. *)
Definition reviewed (t : Trace Extended.OrgExt Extended.UserExt Extended.DocExt)
    (i : nat) (d : Document.t Extended.DocExt) : Prop :=
  (Extended.approvalStatus (Document.ext d) ∉ ["pending"; "approved"] →
   Extended.reviewers (Document.ext d) = ∅ ∧ Extended.approvers (Document.ext d) = ∅) ∧
  size (Extended.reviewers (Document.ext d)) ≤ 3 ∧
  (∀ x, x ∈ Extended.reviewers (Document.ext d) →
        ExtendedFiling.colleague (users (final t)) d x) ∧
  (∀ o, users (final t) !! Document.owner d = Some o →
        User.userId o ∉ Extended.reviewers (Document.ext d)) ∧
  size (Extended.approvers (Document.ext d)) ≤ 2 ∧
  (∀ x, x ∈ Extended.approvers (Document.ext d) →
        ∃ r u, users (final t) !! r = Some u ∧ User.userId u = x ∧
               User.role u = "admin" ∧ User.department u = Document.department d) ∧
  size (Extended.relatedDocuments (Document.ext d)) ≤ 2 ∧
  (∀ x, x ∈ Extended.relatedDocuments (Document.ext d) →
        ExtendedFiling.sibling (Document.docId <$> documents (final t)) i x) ∧
  Document.docId d ∉ Extended.relatedDocuments (Document.ext d).

Lemma drawn_from_empty (P : string → Prop) n (s : gset string) :
  ExtendedFiling.drawn_from P n ∅ s → size s ≤ n ∧ ∀ x, x ∈ s → P x.
Proof.
  intros [->|[Hs HP]]; [|done]. rewrite size_empty. split; [lia|].
  intros x Hx. by apply elem_of_empty in Hx.
Qed.

(** X15. In the extended variant, in the population written out, a document
    whose approvalStatus is neither pending nor approved has no reviewer and
    no approver. A document has at most 3 reviewers, each one the id of a
    user of the document's department other than its owner, so never the id
    of its owner; at most 2 approvers, each one the id of an admin of the
    document's department; and at most 2 related documents, each one the id
    of another document, never its own. *)
Theorem extended_documents_reviewed today offices orgs c rng t rng' :
  keyed orgs →
  Extended.run_stages today offices orgs c rng = Some (t, rng') →
  ∀ i d, documents (final t) !! i = Some d → reviewed t i d.
Proof.
  intros Hk Hrun i d Hd.
  pose proof (stages_sound today offices orgs c rng rng' t Hk Hrun) as S.
  destruct (stages_enrolled _ _ _ _ _ _ _ Hk Hrun)
    as (_ & Hnd & Hroles & _ & Hndd).
  destruct (stages_settled_doc _ _ _ _ _ _ _ i d Hk Hrun Hd)
    as (d0 & Hd0 & (_ & _ & _ & _ & _ & Hlinks) &
        d1 & Hb1 & He1 & _ & Hb & _ & Hfr & Hra & Hrel).
  rewrite He1 in Hfr, Hra, Hrel. injection Hlinks as Hr0 Ha0 Hl0.
  rewrite Hr0, Ha0 in Hra. rewrite Hl0 in Hrel.
  assert (Extended.approvalStatus (Document.ext d) = Extended.approvalStatus (Document.ext d0))
    as Hst by (by injection Hfr).
  assert (∀ x, ExtendedFiling.colleague (users (final t)) d1 x →
               ExtendedFiling.colleague (users (final t)) d x) as Hcol.
  { intros x. by apply ExtendedFiling.colleague_base. }
  assert (Document.department d = Document.department d1) as Hdep by (by injection Hb).
  assert (size (Extended.reviewers (Document.ext d)) ≤ 3 ∧
          (∀ x, x ∈ Extended.reviewers (Document.ext d) →
                ExtendedFiling.colleague (users (final t)) d x) ∧
          size (Extended.approvers (Document.ext d)) ≤ 2 ∧
          (∀ x, x ∈ Extended.approvers (Document.ext d) →
                ExtendedFiling.authority (users (final t)) d1 x) ∧
          (Extended.approvalStatus (Document.ext d) ∉ ["pending"; "approved"] →
           Extended.reviewers (Document.ext d) = ∅ ∧ Extended.approvers (Document.ext d) = ∅))
    as (Hrs & Hrin & Has & Hain & Hnone).
  { rewrite Hst. destruct (bool_decide _) eqn:E.
    - apply bool_decide_eq_true in E. destruct Hra as [Hr%drawn_from_empty Ha%drawn_from_empty].
      destruct Hr as [Hr1 Hr2], Ha as [Ha1 Ha2].
      split; [done|]. split; [auto|]. split; [done|]. split; [done|]. done.
    - apply bool_decide_eq_false in E. destruct Hra as [-> ->]. rewrite size_empty.
      split; [lia|]. split; [intros x Hx; by apply elem_of_empty in Hx|].
      split; [lia|]. split; [intros x Hx; by apply elem_of_empty in Hx|]. done. }
  apply drawn_from_empty in Hrel as [Hls Hlin].
  split; [done|]. split; [done|]. split; [done|]. split; [|split; [done|split; [|split; [done|split; [done|]]]]].
  - intros o Ho Hin. destruct (Hrin _ Hin) as (r & u & Hne & Hu & Hid & _).
    apply Hne. by apply (unique_ids_inj (users (final t)) r (Document.owner d) u o).
  - intros x Hx. destruct (Hain x Hx) as (r & u & Hu & Hid & Hrole & Hd1).
    exists r, u. split; [done|]. split; [done|]. split; [|congruence].
    pose proof (Forall_lookup_1 _ _ _ _ Hroles Hu) as Hgen.
    pose proof (proj1 (Forall_forall _ _) generated_roles_manage _ Hgen) as Hno.
    apply elem_of_cons in Hrole as [Hrole|Hrole]; [exfalso; apply Hno; rewrite Hrole; set_solver|].
    apply elem_of_cons in Hrole as [Hrole|Hrole]; [exfalso; apply Hno; rewrite Hrole; set_solver|].
    apply elem_of_cons in Hrole as [Hrole|Hrole]; [done | by apply elem_of_nil in Hrole].
  - intros Hin. destruct (Hlin _ Hin) as (j & Hne & Hj). apply Hne.
    apply (NoDup_lookup _ j i (Document.docId d) Hndd Hj).
    by rewrite list_lookup_fmap, Hd.
Qed.

Lemma extended_documents_reviewed_witness :
  of_sample_stages (λ _ _ t, ∀ i d, documents (final t) !! i = Some d → reviewed t i d).
Proof.
  apply of_extended_config. intros offices orgs rng t rng'.
  apply extended_documents_reviewed.
Defined.

(** The projects of a user: the projects it is in, and the ids of its
    documents if it is in a project. *)
Definition extended_projects
    (t : Trace Extended.OrgExt Extended.UserExt Extended.DocExt) : Prop :=
  ∀ r u, users (final t) !! r = Some u →
    ∀ x, x ∈ User.projects u ↔
         x ∈ Extended.currentProjects (User.ext u) ∨
         (Extended.currentProjects (User.ext u) ≠ ∅ ∧
          ∃ d, d ∈ documents (final t) ∧ Document.owner d = r ∧ Document.docId d = x).

(** X16. In the extended variant, in the population written out, the
    projects of a user are its currentProjects and, if it has any, the ids
    of the documents it owns: a user in no project has no project at all,
    whatever documents it owns. *)
Theorem extended_projects_are_current_and_own_documents today offices orgs c rng t rng' :
  keyed orgs →
  Extended.run_stages today offices orgs c rng = Some (t, rng') →
  extended_projects t.
Proof.
  intros Hk Hrun r u Hu x.
  pose proof (stages_sound today offices orgs c rng rng' t Hk Hrun) as S.
  destruct (stages_profiles today offices orgs c rng rng' t Hrun) as (_ & Hst & Hext & Hproj).
  destruct (Hproj r u Hu) as (u7 & Hu7 & Hx).
  destruct (Hst r u7 Hu7) as (Hcur & _).
  destruct (fmap_eq_lookup _ _ _ r u Hext Hu) as (u7' & Hu7' & He).
  assert (u7' = u7) as -> by congruence.
  rewrite Hx, Hcur, He.
  split; (intros [?|(Hne & Hdocs)]; [by left|]); right; (split; [done|]).
  - destruct Hdocs as (j & d0 & _ & Hd0 & Hown & Hid).
    pose proof (sound_docs t S) as Hb. symmetry in Hb.
    destruct (fmap_eq_lookup _ _ _ j d0 Hb Hd0) as (d & Hd & Hbd).
    exists d. split; [by eapply list_elem_of_lookup_2|].
    injection Hbd as -> _ -> _ _ _ _ _. done.
  - destruct Hdocs as (d & (j & Hd)%list_elem_of_lookup_1 & Hown & Hid).
    destruct (fmap_eq_lookup _ _ _ j d (sound_docs t S) Hd) as (d0 & Hd0 & Hbd).
    exists j, d0. split; [by eapply lookup_lt_Some|]. split; [done|].
    injection Hbd as -> _ -> _ _ _ _ _. done.
Qed.

Lemma extended_projects_witness : of_sample_stages (λ _ _, extended_projects).
Proof.
  apply of_extended_config. intros offices orgs rng t rng'.
  apply extended_projects_are_current_and_own_documents.
Defined.

(** What the sets of a user hold. *)
Definition extended_sets (c : Extended.Config)
    (t : Trace Extended.OrgExt Extended.UserExt Extended.DocExt) : Prop :=
  ∀ r u, users (final t) !! r = Some u →
    (∀ x, x ∈ Extended.currentProjects (User.ext u) →
          ExtendedProfiles.project_ids (Extended.num_projects c) x) ∧
    (∀ x, x ∈ Extended.pastProjects (User.ext u) →
          ExtendedProfiles.drawn_ids "pastProj" 500 x) ∧
    (∀ x, x ∈ Extended.temporaryAccess (User.ext u) →
          ExtendedProfiles.drawn_ids "tempRes" 100 x) ∧
    (∀ x, x ∈ Extended.delegatedAuthority (User.ext u) →
          ∃ r' u', r' ≠ r ∧ users (final t) !! r' = Some u' ∧ User.userId u' = x ∧
                   User.role u' = "projectManager" ∧
                   User.department u' = User.department u) ∧
    User.userId u ∉ Extended.delegatedAuthority (User.ext u).

(** X17. In the extended variant, in the population written out, the
    currentProjects of a user are ids proj0..proj(num_projects-1), its
    pastProjects ids pastProj1..pastProj500 and its temporaryAccess ids
    tempRes1..tempRes100. Its delegatedAuthority holds ids of project
    managers of its own department, other than itself: no other role
    delegates, since no user is a manager or a director. *)
Theorem extended_user_sets_are_bounded today offices orgs c rng t rng' :
  keyed orgs →
  Extended.run_stages today offices orgs c rng = Some (t, rng') →
  extended_sets c t.
Proof.
  intros Hk Hrun r u Hu.
  pose proof (stages_sound today offices orgs c rng rng' t Hk Hrun) as S.
  destruct (stages_enrolled _ _ _ _ _ _ _ Hk Hrun) as (_ & Hnd & Hroles & _).
  destruct (stages_profiles today offices orgs c rng rng' t Hrun) as (_ & Hst & Hext & _).
  destruct (fmap_eq_lookup _ _ _ r u Hext Hu) as (u7 & Hu7 & He).
  destruct (Hst r u7 Hu7) as (_ & Hcur & Hpast & Htemp & Hdel).
  rewrite <- He.
  assert (base <$> users (final t) = base <$> staffed t) as Hb.
  { rewrite (sound_base_final t S). symmetry. apply (sound_base_staffed t S). }
  destruct (base_lookup _ _ r u7 Hb Hu7) as (u' & Hu' & Hbu).
  assert (u' = u) as -> by congruence.
  assert (∀ x, x ∈ Extended.delegatedAuthority (User.ext u7) →
            ∃ r' u', r' ≠ r ∧ users (final t) !! r' = Some u' ∧ User.userId u' = x ∧
                     User.role u' = "projectManager" ∧
                     User.department u' = User.department u) as Hdel'.
  { intros x Hx.
    destruct (ExtendedProfiles.delegator_base _ _ r u7 u x Hb Hbu (Hdel x Hx))
      as (r' & v & Hne & Hv & Hid & Hrole & Hdep).
    exists r', v. split; [done|]. split; [done|]. split; [done|]. split; [|done].
    pose proof (Forall_lookup_1 _ _ _ _ Hroles Hv) as Hgen.
    pose proof (proj1 (Forall_forall _ _) generated_roles_manage _ Hgen) as Hno.
    apply elem_of_cons in Hrole as [Hrole|Hrole]; [exfalso; apply Hno; rewrite Hrole; set_solver|].
    apply elem_of_cons in Hrole as [Hrole|Hrole]; [exfalso; apply Hno; rewrite Hrole; set_solver|].
    apply elem_of_cons in Hrole as [Hrole|Hrole]; [done | by apply elem_of_nil in Hrole]. }
  split; [done|]. split; [done|]. split; [done|]. split; [done|].
  intros Hin. destruct (Hdel' _ Hin) as (r' & v & Hne & Hv & Hid & _).
  apply Hne. by apply (unique_ids_inj (users (final t)) r' r v u).
Qed.

Lemma extended_user_sets_witness : of_sample_stages (λ _ _, extended_sets extended_sample).
Proof.
  apply of_extended_config. intros offices orgs rng t rng'.
  apply extended_user_sets_are_bounded.
Defined.

(** ** When the programs return *)

(** X18. Whatever the random source gives, the basic variant returns a
    population unless nUsers is 0 and nDocuments is not: then there is no
    user at all and [random.choice(users)] raises in the document loop. No
    other call raises: every list a choice is made from is non-empty, every
    key looked up is in its dict, and no sample is larger than its
    population. *)
Theorem basic_run_returns_unless_no_owner (c : Basic.Config) (rng : Rng) :
  is_Some (Basic.run c rng) ↔ (Basic.nUsers c = 0 → Basic.nDocuments c = 0).
Proof.
  split.
  - intros [x Hx] Hu. destruct (decide (Basic.nDocuments c = 0)) as [|Hd]; [done|].
    by rewrite (BasicReturns.basic_run_raises c rng Hu Hd) in Hx.
  - intros Hc. by apply BasicReturns.basic_run_total.
Qed.

